(** * vRain: vertical typesetting and pagination engine

    A shallow embedding of the position grid builder, the text
    preprocessor's row padding, the font resolver and the pagination
    main loop of [vrain.py] (class [VRainPerfect]), together with the
    grid builder of [vrainNovel.py].

    Numbers.  Python [int] is [Z]; [//] and [%] are [Z.div] and
    [Z.modulo] (both floor towards minus infinity, sign of the divisor).
    Python [float] values (column width, row height, glyph coordinates,
    the half-cell cursor) are modelled by exact rationals [Q]: the
    rounding of IEEE doubles is not modelled.  The cursor only ever holds
    multiples of one half, which doubles represent exactly.  The grid
    is computed in doubles as well ([Doubles], on the binary64 numbers
    of [SpecFloat]); a property that rounding can break is stated for
    the geometries on which the doubles are exact ([Positions.exact]).

    Characters are Unicode code points ([N]); a Python [str] is a list of
    code points.  Calls on the reportlab canvas and printed lines are
    recorded as a list of events in call order; [add_page_number],
    [add_page_title] and the background image are one event each.

    Further parts embedded after these: the line parser of the
    configuration files, the font arrays of [setup_fonts] and of
    [_setup_font_arrays], the page title and page number, the loop of
    [create_pdf] over the text files, and, from [vrainNovel.py], font
    lookup, the punctuation and the loading of the text, the search
    for the end of an annotation and the page loops of the plain mode
    and of the chapter mode.

    Outside the model: the command line, the conversion of
    configuration values (the records below hold the values after
    [int], [float] and the defaults of [dict.get]), the
    regular-expression substitutions that precede the row padding in
    [load_texts] of [vrain.py] and those that find the chapters in
    [vrainNovel.py], the cover and the outline. *)

From Stdlib Require Import String ZArith NArith QArith Qround List Bool Lia Lqa.
From Stdlib Require SpecFloat.
Import ListNotations.

Local Open Scope Z_scope.

(** ** Python built-ins used by the engine *)

Module Py.

(** [range(1, n + 1)] *)
Definition range1 (n : Z) : list Z :=
  map Z.of_nat (seq 1 (Z.to_nat n)).

(** Normalisation of one slice bound against a list of length [len]. *)
Definition clamp_index (len i : Z) : Z :=
  if i <? 0 then Z.max 0 (i + len) else Z.min i len.

(** [l[a:b]] *)
Definition slice {A : Type} (l : list A) (a b : Z) : list A :=
  let len := Z.of_nat (length l) in
  let a' := clamp_index len a in
  let b' := clamp_index len b in
  firstn (Z.to_nat (b' - a')) (skipn (Z.to_nat a') l).

(** [l[i]]; [None] stands for [IndexError]. *)
Definition index {A : Type} (l : list A) (i : Z) : option A :=
  let len := Z.of_nat (length l) in
  if i <? 0 then
    (if 0 <=? i + len then nth_error l (Z.to_nat (i + len)) else None)
  else nth_error l (Z.to_nat i).

(** [int(x)] on a float: truncation towards zero. *)
Definition int (x : Q) : Z := Z.quot (Qnum x) (Zpos (Qden x)).

(** [c in s] for a one-character [c]. *)
Definition mem (c : N) (s : list N) : bool := existsb (N.eqb c) s.

(** [s.replace(c, '')] *)
Definition remove_char (c : N) (s : list N) : list N :=
  filter (fun x => negb (N.eqb x c)) s.

(** [re.sub('[' + re.escape(set) + ']', '', s)]: every character of
    [set] is deleted from [s]. *)
Definition strip_set (set s : list N) : list N :=
  filter (fun x => negb (mem x set)) s.

(** Truthiness of an optional integer option such as [opts['z']]. *)
Definition truthy (o : option Z) : bool :=
  match o with Some z => negb (z =? 0) | None => false end.

End Py.

(** ** Code points of the in-band markers *)

Definition char := N.

Definition ch_space : char := 32%N.          (* ' ' *)
Definition ch_dollar : char := 36%N.         (* '$' *)
Definition ch_percent : char := 37%N.        (* '%' *)
Definition ch_amp : char := 38%N.            (* '&' *)
Definition ch_at : char := 64%N.             (* '@' *)
Definition ch_bar : char := 124%N.           (* '|' *)
Definition ch_box : char := 9633%N.          (* U+25A1, the placeholder *)
Definition ch_ideo_space : char := 12288%N.  (* U+3000 *)
Definition ch_period : char := 12290%N.      (* U+3002 *)
Definition ch_book_open : char := 12298%N.   (* U+300A *)
Definition ch_book_close : char := 12299%N.  (* U+300B *)
Definition ch_note_open : char := 12304%N.   (* U+3010 *)
Definition ch_note_close : char := 12305%N.  (* U+3011 *)

(** ** Canvas geometry and the position grid *)

Record Geometry := mkGeometry {
  canvas_width : Z;
  canvas_height : Z;
  margins_top : Z;
  margins_bottom : Z;
  margins_left : Z;
  margins_right : Z;
  leaf_col : Z;            (* col_num *)
  leaf_center_width : Z;   (* lc_width *)
  row_num : Z;
  row_delta_y : Z
}.

Definition point := (Q * Q)%type.

Record Grid := mkGrid {
  pos_l : list point;
  pos_r : list point;
  page_chars_num : Z;
  cw : Q;
  rh : Q
}.

Module Positions.

Definition col_width (g : Geometry) : Q :=
  (inject_Z (canvas_width g - margins_left g - margins_right g
               - leaf_center_width g) / inject_Z (leaf_col g))%Q.

Definition row_height (g : Geometry) : Q :=
  (inject_Z (canvas_height g - margins_top g - margins_bottom g)
     / inject_Z (row_num g))%Q.

(** [pos_x] of column [i], as computed in [vrain.py]: the test is
    [i <= col_num // 2]. *)
Definition pos_x (g : Geometry) (i : Z) : Q :=
  if i <=? leaf_col g / 2
  then (inject_Z (canvas_width g - margins_right g)
          - col_width g * inject_Z i)%Q
  else (inject_Z (canvas_width g - margins_right g)
          - col_width g * inject_Z i - inject_Z (leaf_center_width g))%Q.

(** [pos_x] in [vrainNovel.py]: the test is [i <= col_num / 2] with
    true division. *)
Definition pos_x_novel (g : Geometry) (i : Z) : Q :=
  if Qle_bool (inject_Z i) (inject_Z (leaf_col g) / 2)
  then (inject_Z (canvas_width g - margins_right g)
          - col_width g * inject_Z i)%Q
  else (inject_Z (canvas_width g - margins_right g)
          - col_width g * inject_Z i - inject_Z (leaf_center_width g))%Q.

Definition pos_y (g : Geometry) (j : Z) : Q :=
  (inject_Z (canvas_height g - margins_top g)
     - row_height g * inject_Z j + inject_Z (row_delta_y g))%Q.

Definition right_of (g : Geometry) (p : point) : point :=
  ((fst p + col_width g / 2)%Q, snd p).

(** The cells appended by the two nested [for] loops, in order. *)
Definition cells (g : Geometry) (px : Z -> Q) : list point :=
  flat_map (fun i => map (fun j => (px i, pos_y g j))
                         (Py.range1 (row_num g)))
           (Py.range1 (leaf_col g)).

(** [VRainPerfect.calculate_positions].  [None] stands for the
    [ZeroDivisionError] raised when [col_num] or [row_num] is zero.
    Index 0 of both lists is the placeholder [[0, 0]]. *)
Definition calculate_positions (g : Geometry) : option Grid :=
  if (leaf_col g =? 0) || (row_num g =? 0) then None
  else
    let cs := cells g (pos_x g) in
    Some {| pos_l := (0%Q, 0%Q) :: cs;
            pos_r := (0%Q, 0%Q) :: map (right_of g) cs;
            page_chars_num := leaf_col g * row_num g;
            cw := col_width g;
            rh := row_height g |}.

(** [VRainNovel._calculate_positions].  [None] stands for the
    [ValueError] raised on a geometry that leaves no room; the lists
    have no placeholder and the capacity is the number of cells. *)
Definition _calculate_positions (g : Geometry) : option Grid :=
  if (leaf_col g <=? 0) || (row_num g <=? 0) then None
  else if canvas_width g
            <=? margins_left g + margins_right g + leaf_center_width g
  then None
  else if canvas_height g <=? margins_top g + margins_bottom g then None
  else
    let cs := cells g (pos_x_novel g) in
    Some {| pos_l := cs;
            pos_r := map (right_of g) cs;
            page_chars_num := Z.of_nat (length cs);
            cw := col_width g;
            rh := row_height g |}.

(** The validity invariant of a canvas geometry. *)
Definition valid (g : Geometry) : Prop :=
  margins_left g + margins_right g + leaf_center_width g < canvas_width g
  /\ margins_top g + margins_bottom g < canvas_height g
  /\ 0 < leaf_col g /\ 0 < row_num g.

(** Column and row of the 1-based cell index [k]. *)
Definition col_of (g : Geometry) (k : Z) : Z :=
  (k + row_num g - 1) / row_num g.

Definition row_of (g : Geometry) (k : Z) : Z :=
  (k - 1) mod row_num g + 1.

(** A coordinate lies inside the margins. *)
Definition inside (g : Geometry) (p : point) : Prop :=
  (inject_Z (margins_left g) <= fst p
   /\ fst p <= inject_Z (canvas_width g - margins_right g)
   /\ inject_Z (margins_bottom g) <= snd p
   /\ snd p <= inject_Z (canvas_height g - margins_top g))%Q.

(** The geometries on which the double arithmetic of lines 286-308 is
    exact: the column count divides the width left for the columns and
    the row count the height left for the rows, no margin is negative,
    and width and height are below 2^52.  Column width and row height
    are then whole numbers, and every value computed is a whole number
    or half of one, below 2^52: no operation rounds, and the rationals
    of this module are the doubles of the code. *)
Definition exact (g : Geometry) : Prop :=
  (leaf_col g | canvas_width g - margins_left g - margins_right g
                - leaf_center_width g)
  /\ (row_num g | canvas_height g - margins_top g - margins_bottom g)
  /\ 0 <= margins_left g /\ 0 <= margins_right g
  /\ 0 <= margins_top g /\ 0 <= margins_bottom g
  /\ canvas_width g < 2 ^ 52 /\ canvas_height g < 2 ^ 52.

End Positions.

(** *** The grid in double precision *)

(** The expressions of lines 286-308 on IEEE 754 binary64 numbers
    (precision 53, exponent bound 1024), the [float] of CPython, with
    rounding to nearest even.  The operands of [/] in lines 286 and 287
    are two [int]: below 2^53 the quotient that CPython returns is the
    quotient of the two doubles. *)
Module Doubles.

Definition double := SpecFloat.spec_float.

(** [float(z)] *)
Definition of_int (z : Z) : double :=
  SpecFloat.binary_normalize 53 1024 z 0 false.

Definition add : double -> double -> double := SpecFloat.SFadd 53 1024.
Definition sub : double -> double -> double := SpecFloat.SFsub 53 1024.
Definition mul : double -> double -> double := SpecFloat.SFmul 53 1024.
Definition div : double -> double -> double := SpecFloat.SFdiv 53 1024.
Definition ltb : double -> double -> bool := SpecFloat.SFltb.

Definition col_width (g : Geometry) : double :=
  div (of_int (canvas_width g - margins_left g - margins_right g
               - leaf_center_width g))
      (of_int (leaf_col g)).

Definition row_height (g : Geometry) : double :=
  div (of_int (canvas_height g - margins_top g - margins_bottom g))
      (of_int (row_num g)).

Definition pos_x (g : Geometry) (i : Z) : double :=
  if i <=? leaf_col g / 2
  then sub (of_int (canvas_width g - margins_right g))
           (mul (col_width g) (of_int i))
  else sub (sub (of_int (canvas_width g - margins_right g))
                (mul (col_width g) (of_int i)))
           (of_int (leaf_center_width g)).

Definition pos_y (g : Geometry) (j : Z) : double :=
  add (sub (of_int (canvas_height g - margins_top g))
           (mul (row_height g) (of_int j)))
      (of_int (row_delta_y g)).

(** [pos_x + cw/2] *)
Definition right_x (g : Geometry) (i : Z) : double :=
  add (pos_x g i) (div (col_width g) (of_int 2)).

End Doubles.


(** ** Document configuration and the engine's environment *)

Definition font := string.
Definition color := string.

(** An entry of [self.fonts]: body size, annotation size, rotation. *)
Record FontEntry := mkFontEntry {
  text_size : Z;
  comment_size : Z;
  font_rotate : Z
}.

(** The keys of [book.cfg] read by the preprocessor and the main loop,
    after the defaults of [self.book.get] have been applied.  The four
    punctuation strings are kept as configured (with their ['|']
    separators). *)
Record Book := mkBook {
  text_comma_nop : list char;
  comment_comma_nop : list char;
  text_comma_90_cfg : list char;
  comment_comma_90_cfg : list char;
  text_comma_nop_size : Q;
  text_comma_nop_x : Q;
  text_comma_nop_y : Q;
  text_comma_90_size : Q;
  text_comma_90_x : Q;
  text_comma_90_y : Q;
  comment_comma_nop_size : Q;
  comment_comma_nop_x : Q;
  comment_comma_nop_y : Q;
  comment_comma_90_size : Q;
  comment_comma_90_x : Q;
  comment_comma_90_y : Q;
  text_font_color : color;
  comment_font_color : color;
  if_book_vline : option Z;
  book_line_width : Q;
  book_line_color : color;
  if_onlyperiod : Z;
  onlyperiod_color : color;
  try_st : Z
}.

(** [if_book_vline and int(if_book_vline) == 1] *)
Definition vline_on (b : Book) : bool :=
  match if_book_vline b with
  | Some v => v =? 1
  | None => false
  end.

Definition text_comma_nop_clean (b : Book) : list char :=
  Py.remove_char ch_bar (text_comma_nop b).

Definition comment_comma_nop_clean (b : Book) : list char :=
  Py.remove_char ch_bar (comment_comma_nop b).

Definition text_comma_90 (b : Book) : list char :=
  Py.remove_char ch_bar (text_comma_90_cfg b).

Definition comment_comma_90 (b : Book) : list char :=
  Py.remove_char ch_bar (comment_comma_90_cfg b).

(** The fields of the [VRainPerfect] instance that the main loop reads.
    [font_check] is the glyph-table query (PIL); [opencc] holds the two
    script converters [s2t] and [t2s] when the library loaded; [vfonts]
    maps a registered font file to its PDF font name. *)
Record Engine := mkEngine {
  book : Book;
  geom : Geometry;
  grid : Grid;
  fns : list font;
  tfns : list font;
  cfns : list font;
  fonts : font -> FontEntry;
  vfonts : font -> option string;
  font_check : font -> char -> bool;
  opencc : option ((char -> list char) * (char -> list char));
  opt_z : option Z;
  opt_v : bool;
  bg_exists : bool
}.

Definition font_eqb (a b : font) : bool := String.eqb a b.

Definition opt_font_eqb (a b : option font) : bool :=
  match a, b with
  | Some x, Some y => font_eqb x y
  | None, None => true
  | _, _ => false
  end.

Definition Qltb (a b : Q) : bool := negb (Qle_bool b a).

(** ** Font resolver *)

Module Resolver.

(** [get_font(char, font_list)] *)
Definition get_font (e : Engine) (c : char) (font_list : list font)
  : option font :=
  if (N.eqb c ch_space || N.eqb c ch_ideo_space)%bool
  then hd_error font_list
  else find (fun f => font_check e f c) font_list.

(** [re.sub(r'\[\]', '', s)]: deletes every occurrence of the two
    characters "[]". *)
Fixpoint drop_brackets (s : list char) : list char :=
  match s with
  | a :: ((b :: rest) as tl) =>
      if (N.eqb a 91 && N.eqb b 93)%bool then drop_brackets rest
      else a :: drop_brackets tl
  | _ => s
  end.

(** One branch of [try_st_trans]: the first character of a converted
    string is accepted when [get_font] over [self.fns] gives the main
    font. *)
Definition try_converted (e : Engine) (s : list char) : option char :=
  match drop_brackets s, hd_error (fns e) with
  | c :: _, Some f0 =>
      if opt_font_eqb (get_font e c (fns e)) (Some f0) then Some c else None
  | _, _ => None
  end.

(** [try_st_trans(char)]; [None] is the empty string. *)
Definition try_st_trans (e : Engine) (c : char) : option char :=
  match opencc e with
  | None => None
  | Some (s2t, t2s) =>
      match try_converted e (s2t c) with
      | Some c' => Some c'
      | None => try_converted e (t2s c)
      end
  end.

(** Resolution of a body character, lines 1093-1102: font lookup, then
    script fallback when [try_st] is set, then the placeholder. *)
Definition resolve_text (e : Engine) (c : char) : char * option font :=
  let fn := get_font e c (tfns e) in
  let '(c1, fn1) :=
    match fn with
    | None =>
        if negb (try_st (book e) =? 0) then
          match try_st_trans e c with
          | Some c' => (c', hd_error (tfns e))
          | None => (c, fn)
          end
        else (c, fn)
    | Some _ => (c, fn)
    end in
  match fn1 with
  | None => (ch_box, get_font e ch_box (tfns e))
  | Some _ => (c1, fn1)
  end.

(** Resolution of an annotation character, lines 926-935: here the
    script fallback is tried when a font other than the main one was
    found. *)
Definition resolve_comment (e : Engine) (c : char) : char * option font :=
  let fn := get_font e c (cfns e) in
  let '(c1, fn1) :=
    match fn with
    | Some f =>
        if (negb (opt_font_eqb (Some f) (hd_error (fns e)))
            && negb (try_st (book e) =? 0))%bool then
          match try_st_trans e c with
          | Some c' => (c', hd_error (cfns e))
          | None => (c, fn)
          end
        else (c, fn)
    | None => (c, fn)
    end in
  match fn1 with
  | None => (ch_box, get_font e ch_box (cfns e))
  | Some _ => (c1, fn1)
  end.

End Resolver.

(** ** Text preprocessor: row padding of one paragraph *)

Definition list_sum_Z (l : list Z) : Z := fold_right Z.add 0 l.

Module Preprocess.

(** Packing cost of an annotation span of [len] characters, lines
    472-476: [len // 2] when even, [len // 2 + 1] when odd. *)
Definition pack_cost (len : Z) : Z :=
  if len mod 2 =? 0 then len / 2 else len / 2 + 1.

(** One pass over the line for the non-greedy pattern of annotation
    spans: [cur] is [Some acc] inside a span opened by the opening
    marker.  Returns the text left by [re.sub] and the captured spans
    of [re.finditer], in order.  A span that is never closed does not
    match and stays in the text. *)
Fixpoint scan (cs : list char) (cur : option (list char))
  : list char * list (list char) :=
  match cs, cur with
  | [], None => ([], [])
  | [], Some acc => (ch_note_open :: acc, [])
  | c :: rest, None =>
      if N.eqb c ch_note_open then scan rest (Some [])
      else let '(b, s) := scan rest None in (c :: b, s)
  | c :: rest, Some acc =>
      if N.eqb c ch_note_close
      then let '(b, s) := scan rest None in (b, acc :: s)
      else scan rest (Some (acc ++ [c]))
  end.

Definition strip_book_marks (s : list char) : list char :=
  filter (fun x => negb (N.eqb x ch_book_open || N.eqb x ch_book_close)) s.

(** The line after the three deletions of lines 453-461. *)
Definition stripped (b : Book) (line : list char) : list char :=
  let l1 := Py.strip_set (text_comma_nop_clean b) line in
  let l2 := Py.strip_set (comment_comma_nop_clean b) l1 in
  if vline_on b then strip_book_marks l2 else l2.

(** Length of one captured span after its own deletions, lines 465-472. *)
Definition span_len (b : Book) (rdat : list char) : Z :=
  let r1 := Py.strip_set (comment_comma_nop_clean b) rdat in
  let r2 := if vline_on b then strip_book_marks r1 else r1 in
  Z.of_nat (length r2).

(** [rnum]: the accumulated cost of the spans. *)
Definition rnum (b : Book) (line : list char) : Z :=
  fold_left (fun acc rdat => acc + pack_cost (span_len b rdat))
            (snd (scan (stripped b line) None)) 0.

(** [chars_len]: body characters left once the spans are removed. *)
Definition chars_len (b : Book) (line : list char) : Z :=
  Z.of_nat (length (fst (scan (stripped b line) None))).

(** [spaces_num], line 484. *)
Definition spaces_num (b : Book) (R : Z) (line : list char) : Z :=
  let n := chars_len b line + rnum b line in
  R - n + (n / R) * R.

(** What lines 441-488 append to [dat] for one line [tmpstr]; [None]
    stands for the [ZeroDivisionError] of a zero [row_num]. *)
Definition pad_line (b : Book) (R : Z) (tmpstr : list char)
  : option (list char) :=
  if R =? 0 then None
  else
    let k := spaces_num b R tmpstr in
    if (0 <? k) && (k <? R)
    then Some (tmpstr ++ repeat ch_space (Z.to_nat k))
    else Some tmpstr.

(** The effective length in the words of the specification: remaining
    body characters plus, for every span, its length halved and rounded
    up. *)
Definition effective_len (b : Book) (line : list char) : Z :=
  chars_len b line
  + list_sum_Z (map (fun rdat => (span_len b rdat + 1) / 2)
                    (snd (scan (stripped b line) None))).

End Preprocess.

(** ** Pagination engine *)

(** Lines printed by the loop. *)
Inductive LogLine :=
| LogNewPage (pid : Z)                        (* line 863 *)
| LogComment (pid : Z) (pcnt : Q) (c : char) (f : font)   (* line 944 *)
| LogSkip (pid : Z) (pcnt : Q) (c : char)     (* line 960, the warning *)
| LogText (pid : Z) (pcnt : Q) (c : char) (f : font).     (* line 1113 *)

(** Calls made on the canvas, and printed lines, in program order.
    [EvDraw] is [setFont; setFillColor; drawString], wrapped in
    [translate; rotate] when the rotation is not zero. *)
Inductive Event :=
| EvPageNumber (pid : Z)
| EvShowPage
| EvBackground
| EvPageTitle
| EvDraw (c : char) (x y : Q) (font_name : string) (size : Q)
         (degrees : Z) (col : color)
| EvLine (x1 y1 x2 y2 : Q) (width : Q) (col : color)
| EvPrint (l : LogLine).

(** The mutable locals of [process_text_layout_complete]. *)
Record State := mkState {
  chars : list char;
  rchars : list char;
  pcnt : Q;
  pid : Z;
  flag_tbook : bool;
  flag_rbook : bool;
  last : point
}.

(** How one pass through the body of [while True] ends: [Next] is both
    [continue] and falling off the end of the body, [Break] leaves the
    loop, [Raise] is an uncaught [IndexError]. *)
Inductive Outcome :=
| Next (s : State)
| Break (s : State)
| Raise.

Module Engine.

Section WithEngine.

Variable e : Engine.

Local Abbreviation bk := (book e).
Local Abbreviation N_ := (page_chars_num (grid e)).
Local Abbreviation R_ := (row_num (geom e)).
Local Abbreviation cw_ := (cw (grid e)).
Local Abbreviation rh_ := (rh (grid e)).
Local Abbreviation mb := (inject_Z (margins_bottom (geom e))).
Local Abbreviation top_edge :=
  (inject_Z (canvas_height (geom e) - margins_top (geom e))).

(** [self.opts.get('z') and pid == self.opts['z']] *)
Definition test_mode_stop (p : Z) : bool :=
  match opt_z e with
  | Some z => negb (z =? 0) && (p =? z)
  | None => false
  end.

(** [if fy - self.margins_bottom < 10: fy = self.margins_bottom + 10] *)
Definition clamp_bottom (fy : Q) : Q :=
  if Qltb (fy - mb) 10 then (mb + 10)%Q else fy.

(** The side rule of a title mark, lines 1004-1010 and 1156-1162; [dx]
    is 1 for annotations and 2 for body text. *)
Definition side_rule (dx : Q) (fx fy : Q) : Event :=
  let ply := (fy + rh_ * (7 # 10))%Q in
  let ply' := if Qle_bool top_edge ply then (top_edge - 5)%Q else ply in
  EvLine (fx - dx) (fy - rh_ * (3 # 10)) (fx - dx) ply'
         (book_line_width bk) (book_line_color bk).

(** The page-full test at the head of the body, lines 848-871.  [inl]
    is [break]; [inr] goes on with the pass. *)
Definition page_check (s : State) : list Event * (State + State) :=
  if (Qle_bool (inject_Z N_) (pcnt s)
      || match chars s with [] => true | _ => false end)%bool
  then
    let pid' := pid s + 1 in
    let s' := mkState (chars s) (rchars s) 0 pid'
                      (flag_tbook s) (flag_rbook s) (last s) in
    if test_mode_stop pid' then ([EvPageNumber pid'], inl s')
    else
      match chars s with
      | [] => ([EvPageNumber pid'], inl s')
      | _ =>
          ([EvPageNumber pid'; EvPrint (LogNewPage pid'); EvShowPage]
             ++ (if bg_exists e then [EvBackground] else [])
             ++ [EvPageTitle],
           inr s')
      end
  else ([], inr s).

(** *** Annotation packing *)

(** [cnt], lines 876-887: cells needed by the queued characters.  The
    deletion of line 878 is the one [re.sub] makes when its pattern
    compiles ([annot_class_ok] below). *)
Definition annot_cnt (rcs : list char) : Z :=
  let t1 := Py.strip_set (comment_comma_nop_clean bk) rcs in
  let t2 := if vline_on bk then Preprocess.strip_book_marks t1 else t1 in
  Preprocess.pack_cost (Z.of_nat (length t2)).

(** [pcol], lines 890-894. *)
Definition annot_pcol (pcnt_int : Z) : Z :=
  if (pcnt_int + 1) mod R_ =? 0 then pcnt_int / R_ else pcnt_int / R_ + 1.

(** [r_pos], lines 897-905: right-anchor cells first, then the
    left-anchor cells of the same rows. *)
Definition annot_rpos (pcnt_int cnt : Z) : list point :=
  let pcol := annot_pcol pcnt_int in
  if pcnt_int + cnt <=? pcol * R_
  then Py.slice (pos_r (grid e)) (pcnt_int + 1) (pcnt_int + cnt + 1)
         ++ Py.slice (pos_l (grid e)) (pcnt_int + 1) (pcnt_int + cnt + 1)
  else Py.slice (pos_r (grid e)) (pcnt_int + 1) (pcol * R_ + 1)
         ++ Py.slice (pos_l (grid e)) (pcnt_int + 1) (pcol * R_ + 1).

(** Locals of the inner [while rchars] loop. *)
Record Packing := mkPacking {
  r_pos : list point;
  rlast : point;
  a_pcnt : Q;
  a_flag : bool
}.

(** Colour of an annotation glyph, lines 985-988. *)
Definition comment_color (rc : char) (f : font) : color :=
  let c1 :=
    if (if_onlyperiod bk =? 1) && N.eqb rc ch_period
    then (if String.eqb (onlyperiod_color bk) EmptyString
          then comment_font_color bk else onlyperiod_color bk)
    else comment_font_color bk in
  if Py.truthy (opt_z e) && negb (opt_font_eqb (Some f) (hd_error (cfns e)))
  then "blue"%string else c1.

(** One turn of the inner loop on the popped character [rc], lines
    913-1010.  The boolean tells whether the loop goes on ([true]) or is
    left by [break] ([false]). *)
Definition annot_char (p : Z) (rc : char) (a : Packing)
  : list Event * bool * Packing :=
  let flag' :=
    if N.eqb rc ch_book_open then true
    else if N.eqb rc ch_book_close then false
    else a_flag a in
  let a0 := mkPacking (r_pos a) (rlast a) (a_pcnt a) flag' in
  if (N.eqb rc ch_book_open || N.eqb rc ch_book_close) && vline_on bk
  then ([], true, a0)
  else
    let '(rc', fn) := Resolver.resolve_comment e rc in
    match fn with
    | None => ([], true, a0)
    | Some f =>
      match vfonts e f with
      | None => ([], true, a0)
      | Some font_name =>
        let fsize := inject_Z (comment_size (fonts e f)) in
        let fdegrees := font_rotate (fonts e f) in
        let log := if opt_v e
                   then [EvPrint (LogComment p (a_pcnt a) rc' f)] else [] in
        let rule fx fy :=
          if vline_on bk && flag' then [side_rule 1 fx fy] else [] in
        if Py.mem rc' (comment_comma_nop bk) then
          let fx := (fst (rlast a)
                     + cw_ / 2 * comment_comma_nop_x bk)%Q in
          let fy := clamp_bottom
                      (snd (rlast a) - rh_ * comment_comma_nop_y bk)%Q in
          (log ++ [EvDraw rc' fx fy font_name
                     (fsize * comment_comma_nop_size bk)%Q fdegrees
                     (comment_color rc' f)]
               ++ rule fx fy,
           true, a0)
        else
          match r_pos a with
          | [] =>
              (log ++ (if opt_v e
                       then [EvPrint (LogSkip p (a_pcnt a) rc')] else []),
               false, a0)
          | rpref :: rest =>
              let fx0 := (fst rpref + (cw_ - fsize * 2) / 4)%Q in
              let fy0 := (snd rpref + (rh_ - fsize) / 4)%Q in
              let rot := Py.mem rc' (comment_comma_90 bk) in
              let fx := if rot
                        then (fx0 + cw_ / 2 * comment_comma_90_x bk)%Q
                        else fx0 in
              let fy := if rot
                        then (fy0 + rh_ * comment_comma_90_y bk)%Q
                        else fy0 in
              let fsize' := if rot
                            then (fsize * comment_comma_90_size bk)%Q
                            else fsize in
              let fdegrees' := if rot then (-90) else fdegrees in
              (log ++ [EvDraw rc' fx fy font_name fsize' fdegrees'
                         (comment_color rc' f)]
                   ++ rule fx fy,
               true,
               mkPacking rest rpref (a_pcnt a + (1 # 2))%Q flag')
          end
      end
    end.

(** The inner loop [while rchars: rc = rchars.pop(0) ...]: returns the
    events, what is left of [rchars], and the locals at exit. *)
Fixpoint annot_loop (p : Z) (rcs : list char) (a : Packing)
  : list Event * list char * Packing :=
  match rcs with
  | [] => ([], [], a)
  | rc :: rest =>
      let '(ev, go, a') := annot_char p rc a in
      if go then
        let '(ev', remaining, a'') := annot_loop p rest a' in
        (ev ++ ev', remaining, a'')
      else (ev, rest, a')
  end.

(** How the annotation block of lines 874-1021 ends. *)
Inductive AnnotExit :=
| AContinue (s : State)     (* [continue], lines 1014 and 1021 *)
| AFallThrough (s : State)  (* go on to the body text *)
| ARaise.                   (* [row_num] is zero: ZeroDivisionError *)

(** The annotation block, entered when [rchars] is not empty. *)
Definition annot_block (s : State) : list Event * AnnotExit :=
  if R_ =? 0 then ([], ARaise)
  else
    let cnt := annot_cnt (rchars s) in
    let pcnt_int := Py.int (pcnt s) in
    let a := mkPacking (annot_rpos pcnt_int cnt) (0%Q, 0%Q)
                       (pcnt s) (flag_rbook s) in
    let '(ev, remaining, a') := annot_loop (pid s) (rchars s) a in
    match remaining with
    | _ :: _ =>
        (ev, AContinue (mkState (chars s) remaining (a_pcnt a') (pid s)
                                (flag_tbook s) (a_flag a') (last s)))
    | [] =>
        let pcnt' := inject_Z (Py.int (a_pcnt a' + (1 # 2))%Q) in
        let s' := mkState (chars s) [] pcnt' (pid s)
                          (flag_tbook s) (a_flag a') (last s) in
        if Qle_bool (inject_Z N_) pcnt' then (ev, AContinue s')
        else (ev, AFallThrough s')
    end.

(** *** Body text *)

(** [for _ in range(row_num - 1): if chars and chars[0] == ' ':
    chars.pop(0)] *)
Fixpoint skip_spaces (n : nat) (cs : list char) : list char :=
  match n with
  | O => cs
  | S n' =>
      match cs with
      | c :: rest =>
          if N.eqb c ch_space then skip_spaces n' rest
          else skip_spaces n' cs
      | [] => skip_spaces n' []
      end
  end.

(** Lines 1074-1079: characters up to the closing marker, and what
    follows it. *)
Fixpoint take_note (cs : list char) : list char * list char :=
  match cs with
  | [] => ([], [])
  | c :: rest =>
      if N.eqb c ch_note_close then ([], rest)
      else let '(d, r) := take_note rest in (c :: d, r)
  end.

(** The cursor after the directive ['$'], lines 1036-1044. *)
Definition dollar_jump (pc : Q) : Q :=
  if (Qeq_bool pc 0 || Qeq_bool pc (inject_Z (N_ / 2)))%bool then pc
  else if Qltb pc (inject_Z (N_ / 2)) then inject_Z (N_ / 2)
  else inject_Z N_.

(** The cursor after the directive ['&'], lines 1057-1058. *)
Definition amp_jump (pc : Q) : Q :=
  if Qle_bool pc (inject_Z (N_ - R_ + 1)) then inject_Z (N_ - R_) else pc.

(** Colour of a body glyph, lines 1137-1140. *)
Definition text_color (c : char) (f : font) : color :=
  let c1 := if (if_onlyperiod bk =? 1) && N.eqb c ch_period
            then onlyperiod_color bk else text_font_color bk in
  if Py.truthy (opt_z e) && negb (opt_font_eqb (Some f) (hd_error (tfns e)))
  then "blue"%string else c1.

(** Lines 1164-1177: when the cursor stands on the last cell and the
    next character is punctuation that takes no cell, it is popped and
    drawn beside the glyph just drawn at [(fx, fy)], with that glyph's
    font, size and colour. *)
Definition page_end_punct (pc : Q) (rest : list char) (fx fy : Q)
           (font_name : string) (fsize : Q) (col : color)
  : list Event * list char :=
  if Qeq_bool pc (inject_Z N_) then
    match rest with
    | next_char :: rest' =>
        if Py.mem next_char (text_comma_nop bk) then
          ([EvDraw next_char
                   (fx + cw_ * text_comma_nop_x bk)%Q
                   (clamp_bottom (fy - rh_ * text_comma_nop_y bk)%Q)
                   font_name (fsize * text_comma_nop_size bk)%Q 0 col],
           rest')
        else ([], rest)
    | [] => ([], rest)
    end
  else ([], rest).

(** Placement of an ordinary body character [c], lines 1087-1177;
    [rest] is [chars] after the pop. *)
Definition place_text (s : State) (c : char) (rest : list char)
  : list Event * Outcome :=
  let pc := if Qltb (pcnt s) (inject_Z N_) then (pcnt s + 1)%Q
            else pcnt s in
  let st pc' cs lst :=
    mkState cs (rchars s) pc' (pid s) (flag_tbook s) (flag_rbook s) lst in
  if Qle_bool pc (inject_Z N_)
     && (Py.int pc <=? Z.of_nat (length (pos_l (grid e))) - 1)
  then
    let '(c', fn) := Resolver.resolve_text e c in
    match fn with
    | None => ([], Next (st pc rest (last s)))
    | Some f =>
      match vfonts e f with
      | None => ([], Next (st pc rest (last s)))
      | Some font_name =>
        match Py.index (pos_l (grid e)) (Py.int pc) with
        | None => ([], Raise)
        | Some cell =>
          let fsize := inject_Z (text_size (fonts e f)) in
          let fdegrees := font_rotate (fonts e f) in
          let log := if opt_v e
                     then [EvPrint (LogText (pid s) pc c' f)] else [] in
          let col := text_color c' f in
          let rule fx fy :=
            if vline_on bk && flag_tbook s then [side_rule 2 fx fy]
            else [] in
          if Py.mem c' (text_comma_nop bk) then
            let fsize' := (fsize * text_comma_nop_size bk)%Q in
            let fx := (fst (last s) + cw_ * text_comma_nop_x bk)%Q in
            let fy := clamp_bottom
                        (snd (last s) - rh_ * text_comma_nop_y bk)%Q in
            let pc' := (pc - 1)%Q in
            let '(ev, rest') :=
              page_end_punct pc' rest fx fy font_name fsize' col in
            (log ++ [EvDraw c' fx fy font_name fsize' fdegrees col]
                 ++ rule fx fy ++ ev,
             Next (st pc' rest' (last s)))
          else
            let rot := Py.mem c' (text_comma_90 bk) in
            let fsize' := if rot then (fsize * text_comma_90_size bk)%Q
                          else fsize in
            let fx := if rot
                      then (fst cell + cw_ * text_comma_90_x bk)%Q
                      else (fst cell + (cw_ - fsize) / 2)%Q in
            let fy := if rot
                      then (snd cell + rh_ * text_comma_90_y bk)%Q
                      else snd cell in
            let fdegrees' := if rot then (-90) else fdegrees in
            let '(ev, rest') :=
              page_end_punct pc rest fx fy font_name fsize' col in
            (log ++ [EvDraw c' fx fy font_name fsize' fdegrees' col]
                 ++ rule fx fy ++ ev,
             Next (st pc rest' (fx, fy)))
        end
      end
    end
  else ([], Next (st pc rest (last s))).

(** Lines 1024-1177: one character is popped from [chars] and
    dispatched. *)
Definition body_block (s : State) : list Event * Outcome :=
  match chars s with
  | [] => ([], Break s)
  | c :: rest =>
      let skipped := skip_spaces (Z.to_nat (R_ - 1)) rest in
      let st cs rcs pc tb :=
        mkState cs rcs pc (pid s) tb (flag_rbook s) (last s) in
      if N.eqb c ch_dollar then
        ([], Next (st skipped (rchars s) (dollar_jump (pcnt s))
                      (flag_tbook s)))
      else if N.eqb c ch_percent then
        ([], Next (st skipped (rchars s) (inject_Z N_) (flag_tbook s)))
      else if N.eqb c ch_amp then
        ([], Next (st skipped (rchars s) (amp_jump (pcnt s))
                      (flag_tbook s)))
      else if N.eqb c ch_book_open then
        ([], Next (st rest (rchars s) (pcnt s) true))
      else if N.eqb c ch_book_close then
        ([], Next (st rest (rchars s) (pcnt s) false))
      else if N.eqb c ch_note_open then
        let '(rdat, rest') := take_note rest in
        ([], Next (st rest' rdat (pcnt s) (flag_tbook s)))
      else place_text s c rest
  end.

(** *** The main loop *)

(** One pass through the body of [while True], lines 843-1177. *)
Definition step (s : State) : list Event * Outcome :=
  if test_mode_stop (pid s) then ([], Break s)
  else
    let '(ev1, r) := page_check s in
    match r with
    | inl s1 => (ev1, Break s1)
    | inr s1 =>
        match rchars s1 with
        | [] =>
            let '(ev3, o) := body_block s1 in (ev1 ++ ev3, o)
        | _ :: _ =>
            let '(ev2, x) := annot_block s1 in
            match x with
            | ARaise => (ev1 ++ ev2, Raise)
            | AContinue s2 => (ev1 ++ ev2, Next s2)
            | AFallThrough s2 =>
                let '(ev3, o) := body_block s2 in (ev1 ++ ev2 ++ ev3, o)
            end
        end
    end.

(** The loop, with a bound on the number of passes: [None] when the
    bound is reached before the loop is left. *)
Fixpoint run (fuel : nat) (s : State) : option (list Event * Outcome) :=
  match fuel with
  | O => None
  | S fuel' =>
      match step s with
      | (ev, Next s') =>
          match run fuel' s' with
          | Some (ev', o) => Some (ev ++ ev', o)
          | None => None
          end
      | (ev, o) => Some (ev, o)
      end
  end.

(** The state on entry to [process_text_layout_complete]. *)
Definition initial (cs rcs : list char) (pc : Q) (p : Z) : State :=
  mkState cs rcs pc p false false (0%Q, 0%Q).

(** [process_text_layout_complete(c, chars, rchars, pcnt, pid, ...)]:
    the trace and the returned pair [(pid, pcnt)]; the inner [None] is
    an uncaught exception, the outer one an exhausted bound. *)
Definition process_text_layout_complete (fuel : nat) (cs rcs : list char)
           (pc : Q) (p : Z) : option (list Event * option (Z * Q)) :=
  match run fuel (initial cs rcs pc p) with
  | Some (ev, Break s) => Some (ev, Some (pid s, pcnt s))
  | Some (ev, Next s) => Some (ev, Some (pid s, pcnt s))
  | Some (ev, Raise) => Some (ev, None)
  | None => None
  end.

(** The part of a pass that precedes the body text, lines 843-1021:
    [inl] when the pass ends there, [inr] with the state in which a
    character is about to be popped from [chars]. *)
Definition before_body (s : State) : list Event * (Outcome + State) :=
  if test_mode_stop (pid s) then ([], inl (Break s))
  else
    let '(ev1, r) := page_check s in
    match r with
    | inl s1 => (ev1, inl (Break s1))
    | inr s1 =>
        match rchars s1 with
        | [] => (ev1, inr s1)
        | _ :: _ =>
            let '(ev2, x) := annot_block s1 in
            match x with
            | ARaise => (ev1 ++ ev2, inl Raise)
            | AContinue s2 => (ev1 ++ ev2, inl (Next s2))
            | AFallThrough s2 => (ev1 ++ ev2, inr s2)
            end
        end
    end.

End WithEngine.

End Engine.

(** ** Observations on traces and outcomes *)

(** The page numbers emitted by [add_page_number], in order. *)
Fixpoint page_numbers (ev : list Event) : list Z :=
  match ev with
  | [] => []
  | EvPageNumber p :: tl => p :: page_numbers tl
  | _ :: tl => page_numbers tl
  end.

(** The glyphs drawn, in order. *)
Fixpoint drawn (ev : list Event) : list char :=
  match ev with
  | [] => []
  | EvDraw c _ _ _ _ _ _ :: tl => c :: drawn tl
  | _ :: tl => drawn tl
  end.

(** The glyphs drawn with their coordinates in lowest terms, in order. *)
Fixpoint draws_at (ev : list Event) : list (char * Q * Q) :=
  match ev with
  | [] => []
  | EvDraw c x y _ _ _ _ :: tl => (c, Qred x, Qred y) :: draws_at tl
  | _ :: tl => draws_at tl
  end.

(** The characters reported by the skip warning of line 960. *)
Fixpoint skipped (ev : list Event) : list char :=
  match ev with
  | [] => []
  | EvPrint (LogSkip _ _ c) :: tl => c :: skipped tl
  | _ :: tl => skipped tl
  end.

Definition outcome_state (o : Outcome) : option State :=
  match o with
  | Next s => Some s
  | Break s => Some s
  | Raise => None
  end.

Definition exit_state (x : Engine.AnnotExit) : option State :=
  match x with
  | Engine.AContinue s => Some s
  | Engine.AFallThrough s => Some s
  | Engine.ARaise => None
  end.

Definition is_next (o : Outcome) : bool :=
  match o with Next _ => true | _ => false end.

(** Characters not yet consumed: the body stream and the annotation
    queue. *)
Definition pending (s : State) : nat :=
  (length (chars s) + length (rchars s))%nat.

(** A cursor that holds a whole number of cells. *)
Definition whole (q : Q) : Prop := exists n : Z, q == inject_Z n.

(** The invariant of the loop head: the cursor is not negative, and it
    is whole whenever no annotation is queued. *)
Definition loop_inv (s : State) : Prop :=
  (0 <= pcnt s)%Q /\ (rchars s = [] -> whole (pcnt s)).

(** The page index is below the page limit of the test mode ([-z]), if
    one is set.  [create_pdf] enters the loop in such a state only
    (line 553). *)
Definition below_limit (e : Engine) (p : Z) : Prop :=
  forall z, opt_z e = Some z -> z <> 0 -> p < z.

(** The engine runs on the grid computed from its geometry. *)
Definition grid_ready (e : Engine) : Prop :=
  Positions.calculate_positions (geom e) = Some (grid e)
  /\ 0 < leaf_col (geom e) /\ 0 < row_num (geom e).

(** ** Sample configurations *)

Module Sample.

Local Open Scope string_scope.

(** A 100 x 100 canvas with margins of 10, two columns of four rows. *)
Definition geometry : Geometry :=
  mkGeometry 100 100 10 10 10 10 2 0 4 10.

(** Sixteen rows: the row height (5) is below the row offset (10). *)
Definition geometry_rows16 : Geometry :=
  mkGeometry 100 100 10 10 10 10 2 0 16 10.

(** A negative gutter width on three columns. *)
Definition geometry_gutter : Geometry :=
  mkGeometry 100 100 10 10 10 10 3 (-400) 4 0.

(** Seven columns on a width of 900 and nineteen rows on a height of
    1610: neither column width nor row height is a double. *)
Definition geometry_sevenths : Geometry :=
  mkGeometry 1000 1860 200 50 50 50 7 0 19 0.

Definition ch_comma : char := 12289%N.   (* U+3001 *)

(** The ideographic comma takes no cell, in body text and annotations;
    offsets [x = 1/4], [y = 1/2] for body text. *)
Definition sample_book : Book :=
  mkBook [ch_comma] [ch_comma] [] []
         1 (1 # 4) (1 # 2)  1 0 0  1 0 0  1 0 0
         "black" "black" None 1 "black" 0 "black" 0.

Definition grid_of (g : Geometry) : Grid :=
  match Positions.calculate_positions g with
  | Some gr => gr
  | None => mkGrid [] [] 0 0 0
  end.

Definition is_upper (c : char) : bool := (N.leb 65 c && N.leb c 90)%bool.

(** A font with the capital letters, the comma and the placeholder. *)
Definition full_font (f : font) (c : char) : bool :=
  (is_upper c || N.eqb c ch_comma || N.eqb c ch_box)%bool.

(** The font "a.ttf" has only the capital letters; "b.ttf" has the
    placeholder as well. *)
Definition split_fonts (f : font) (c : char) : bool :=
  if String.eqb f "a.ttf" then is_upper c
  else (is_upper c || N.eqb c ch_box)%bool.

(** A font with the capital letters and the placeholder, but no comma. *)
Definition no_comma_font (f : font) (c : char) : bool :=
  (is_upper c || N.eqb c ch_box)%bool.

Definition engine_with (fl : list font) (check : font -> char -> bool)
           (verbose : bool) : Engine :=
  mkEngine sample_book geometry (grid_of geometry) fl fl fl
           (fun _ => mkFontEntry 10 6 0) (fun f => Some f) check
           None None verbose true.

Definition engine : Engine := engine_with ["a.ttf"] full_font true.

Definition quiet_engine : Engine := engine_with ["a.ttf"] full_font false.

Definition two_font_engine : Engine :=
  engine_with ["a.ttf"; "b.ttf"] split_fonts false.

Definition no_comma_engine : Engine :=
  engine_with ["a.ttf"] no_comma_font false.

Definition state (cs rcs : list char) (pc : Q) : State :=
  mkState cs rcs pc 0 false false (0%Q, 0%Q).

End Sample.

(** ** A sample engine with script converters *)

Module Demo.
Local Open Scope string_scope.
(** Lower-case letters are mapped to capitals by the first converter. *)
Definition to_upper (c : char) : list char :=
  if (N.leb 97 c && N.leb c 122)%bool then [(c - 32)%N] else [c].

Definition converting_engine : Engine :=
  mkEngine (mkBook [Sample.ch_comma] [Sample.ch_comma] [] []
                   1 (1 # 4) (1 # 2)  1 0 0  1 0 0  1 0 0
                   "black" "black" None 1 "black" 0 "black" 1)
           Sample.geometry (Sample.grid_of Sample.geometry)
           ["a.ttf"] ["a.ttf"] ["a.ttf"]
           (fun _ => mkFontEntry 10 6 0) (fun f => Some f) Sample.full_font
           (Some (to_upper, fun c => [c])) None false true.
End Demo.

(** ** Configuration files *)

(** [load_book_config] and [load_canvas_config] of [vrain.py] read
    their file line by line with the same code.  A line is a list of
    code points as yielded by iterating the file: a newline can only
    be its last character.  The dictionary is an association list with
    the latest assignment first. *)
Module Config.

Definition ch_hash : char := 35%N.     (* '#' *)
Definition ch_equals : char := 61%N.   (* '=' *)

(** The whitespace of [str.strip()] and of [\s] on a [str] pattern
    ([Py_UNICODE_ISSPACE]). *)
Definition is_space (c : char) : bool :=
  ((9 <=? c) && (c <=? 13) || (28 <=? c) && (c <=? 32) || (c =? 133)
   || (c =? 160) || (c =? 5760) || (8192 <=? c) && (c <=? 8202)
   || (c =? 8232) || (c =? 8233) || (c =? 8239) || (c =? 8287)
   || (c =? 12288))%N.

Fixpoint lstrip (s : list char) : list char :=
  match s with
  | c :: rest => if is_space c then lstrip rest else s
  | [] => []
  end.

Fixpoint rstrip (s : list char) : list char :=
  match s with
  | [] => []
  | c :: rest =>
      match rstrip rest with
      | [] => if is_space c then [] else [c]
      | r => c :: r
      end
  end.

(** [line.strip()] *)
Definition strip (s : list char) : list char := rstrip (lstrip s).

Fixpoint starts_with (p s : list char) : bool :=
  match p, s with
  | [], _ => true
  | a :: p', b :: s' => N.eqb a b && starts_with p' s'
  | _ :: _, [] => false
  end.

(** [p in s] on strings. *)
Fixpoint contains (p s : list char) : bool :=
  starts_with p s
  || match s with
     | [] => false
     | _ :: s' => contains p s'
     end.

(** [re.sub(r'#.*$', '', line)]: everything from the first ['#'] on is
    deleted. *)
Fixpoint cut_comment (s : list char) : list char :=
  match s with
  | [] => []
  | c :: rest => if N.eqb c ch_hash then [] else c :: cut_comment rest
  end.

(** [re.sub(r'\s', '', line)] *)
Definition remove_spaces (s : list char) : list char :=
  filter (fun c => negb (is_space c)) s.

(** [line.split('=', 1)] on a line that holds ['=']. *)
Fixpoint split_first (s : list char) : list char * list char :=
  match s with
  | [] => ([], [])
  | c :: rest =>
      if N.eqb c ch_equals then ([], rest)
      else let '(k, v) := split_first rest in (c :: k, v)
  end.

(** The body of the [for line in f] loop: the assignment made by one
    line, if any (lines 163-175 and 255-267). *)
Definition parse_line (raw : list char) : option (list char * list char) :=
  let line := strip raw in
  match line with
  | [] => None
  | c :: _ =>
      if N.eqb c ch_hash then None
      else
        let line1 :=
          if Py.mem ch_hash line
             && negb (contains [ch_equals; ch_hash] line)
          then cut_comment line else line in
        let line2 := remove_spaces line1 in
        if Py.mem ch_equals line2 then Some (split_first line2) else None
  end.

Definition dict := list (list char * list char).

Fixpoint str_eqb (a b : list char) : bool :=
  match a, b with
  | [], [] => true
  | x :: a', y :: b' => N.eqb x y && str_eqb a' b'
  | _, _ => false
  end.

(** [d.get(k)] *)
Definition dict_get (d : dict) (k : list char) : option (list char) :=
  match find (fun kv => str_eqb (fst kv) k) d with
  | Some kv => Some (snd kv)
  | None => None
  end.

(** [d[k] = v] *)
Definition dict_set (d : dict) (k v : list char) : dict := (k, v) :: d.

Definition load_lines (lines : list (list char)) (d : dict) : dict :=
  fold_left (fun acc raw =>
               match parse_line raw with
               | Some (k, v) => dict_set acc k v
               | None => acc
               end) lines d.

(** [load_book_config]: the lines of [book.cfg] update [self.book]. *)
Definition load_book_config (lines : list (list char)) (book : dict) : dict :=
  load_lines lines book.

(** [load_canvas_config]: the lines of the canvas file update
    [self.canvas_config]. *)
Definition load_canvas_config (lines : list (list char)) (canvas : dict)
  : dict :=
  load_lines lines canvas.

End Config.

From Stdlib Require DecimalString.

(** ** More Python built-ins *)

Module Builtins.

(** [range(a, b)] *)
Definition range (a b : Z) : list Z :=
  map (fun i => a + Z.of_nat i) (seq 0 (Z.to_nat (b - a))).

Fixpoint enumerate_from {A : Type} (i : Z) (l : list A) : list (Z * A) :=
  match l with
  | [] => []
  | x :: rest => (i, x) :: enumerate_from (i + 1) rest
  end.

(** [enumerate(l)] *)
Definition enumerate {A : Type} (l : list A) : list (Z * A) :=
  enumerate_from 0 l.

(** [str(n)] on an [int], as a list of code points. *)
Definition str (n : Z) : list char :=
  map Ascii.N_of_ascii
      (String.list_ascii_of_string
         (DecimalString.NilZero.string_of_int (Z.to_int n))).

End Builtins.

(** ** Font arrays *)

Module Fonts.

(** What [self.book.get] returns for the four keys of one of the five
    font slots: [font{i}], [text_font{i}_size], [comment_font{i}_size]
    and [font{i}_rotate]; [None] is a key that the file does not set. *)
Record Slot := mkSlot {
  font_file : option font;
  text_size_cfg : option (list char);
  comment_size_cfg : option (list char);
  rotate_cfg : option (list char)
}.

Section WithInt.

(** [int(fid)] on one character of a font array; [None] stands for
    [ValueError]. *)
Variable int_char : char -> option Z.

(** [int(s)] on a string of the configuration file; [None] stands for
    [ValueError]. *)
Variable int_str : list char -> option Z.

(** [int(self.book.get(key, default))]: the default is an integer. *)
Definition int_or (default : Z) (v : option (list char)) : option Z :=
  match v with
  | Some s => int_str s
  | None => Some default
  end.

(** The list assigned to [self.fonts[font_file]], lines 226-230. *)
Definition entry (s : Slot) : option FontEntry :=
  match int_or 42 (text_size_cfg s) with
  | None => None
  | Some ts =>
      match int_or 30 (comment_size_cfg s) with
      | None => None
      | Some cs =>
          match int_or 0 (rotate_cfg s) with
          | None => None
          | Some r => Some (mkFontEntry ts cs r)
          end
      end
  end.

(** The first loop, lines 216-231: the font files appended to
    [self.fns] with the entries assigned to [self.fonts], in order (a
    later entry for the same file replaces the earlier one in the
    dictionary); [None] is an uncaught [ValueError]. *)
Fixpoint fonts_of (slots : list Slot) : option (list (font * FontEntry)) :=
  match slots with
  | [] => Some []
  | s :: rest =>
      match font_file s with
      | None => fonts_of rest
      | Some f =>
          if String.eqb f EmptyString then fonts_of rest
          else
            match entry s with
            | None => None
            | Some x =>
                match fonts_of rest with
                | None => None
                | Some l => Some ((f, x) :: l)
                end
            end
      end
  end.

(** [setup_fonts], lines 216-220: the values of [font1] ... [font5]
    (the argument holds the five results of [self.book.get]) that are
    set, in order. *)
Definition configured (cfg : list (option font)) : list font :=
  flat_map (fun o =>
              match o with
              | Some f => if String.eqb f EmptyString then [] else [f]
              | None => []
              end) cfg.

(** [setup_fonts], lines 236-239 and 241-244: the fonts picked by the
    characters of an array; [None] is an uncaught exception. *)
Fixpoint select (fns : list font) (arr : list char) : option (list font) :=
  match arr with
  | [] => Some []
  | fid :: rest =>
      match int_char fid with
      | None => None
      | Some n =>
          let idx := n - 1 in
          match select fns rest with
          | None => None
          | Some l =>
              if (0 <=? idx) && (idx <? Z.of_nat (length fns))
              then match Py.index fns idx with
                   | Some f => Some (f :: l)
                   | None => None
                   end
              else Some l
          end
      end
  end.

(** [VRainPerfect.setup_fonts] on the five slots: the list [fns], the
    entries of [fonts], and the lists [tfns] and [cfns].  The two
    arrays are the values of [text_fonts_array] and
    [comment_fonts_array] after the default of [self.book.get]. *)
Definition setup_fonts (slots : list Slot) (tfsarray cfsarray : list char)
  : option (list font * list (font * FontEntry) * list font * list font) :=
  match fonts_of slots with
  | None => None
  | Some es =>
      let fns := map fst es in
      match select fns tfsarray with
      | None => None
      | Some t =>
          match select fns cfsarray with
          | None => None
          | Some c => Some (fns, es, t, c)
          end
      end
  end.

(** The loops of [VRainPDFGenerator._setup_font_arrays], lines 505-520:
    a character on which [int] fails is reported and skipped. *)
Fixpoint select_lenient (available : list font) (arr : list char)
  : list font :=
  match arr with
  | [] => []
  | ch :: rest =>
      match int_char ch with
      | None => select_lenient available rest
      | Some n =>
          let idx := n - 1 in
          if (0 <=? idx) && (idx <? Z.of_nat (length available))
          then match Py.index available idx with
               | Some f => f :: select_lenient available rest
               | None => select_lenient available rest
               end
          else select_lenient available rest
      end
  end.

(** Lines 523-529: an empty array falls back to the first available
    font. *)
Definition or_first (available selected : list font) : list font :=
  match selected, available with
  | [], f :: _ => [f]
  | _, _ => selected
  end.

(** [VRainPDFGenerator._setup_font_arrays]: [text_fonts] and
    [comment_fonts], both empty before the call. *)
Definition _setup_font_arrays (available : list font)
           (text_fonts_array comment_fonts_array : list char)
  : list font * list font :=
  (or_first available (select_lenient available text_fonts_array),
   or_first available (select_lenient available comment_fonts_array)).

End WithInt.

(** [int] on an ASCII digit. *)
Definition ascii_digit (c : char) : option Z :=
  if (N.leb 48 c && N.leb c 57)%bool then Some (Z.of_N c - 48) else None.

(** The default ['12345'] of [vrain.py]. *)
Definition default_array : list char := [49; 50; 51; 52; 53]%N.

End Fonts.

(** ** Page title and page number *)

Module Labels.

(** The keys of [book.cfg] read by [add_page_title] and
    [add_page_number], after [int], [float] and the defaults, and the
    table of [load_zh_numbers]. *)
Record Style := mkStyle {
  title_font_size : Z;
  title_font_color : color;
  title_y : Z;
  pager_font_size : Z;
  pager_font_color : color;
  pager_y : Z;
  title_ydis : Q;
  if_tpcenter : string;
  zhnums : Z -> option (list char)
}.

Section WithEngine.

Variable e : Engine.
Variable st : Style.

(** The loop shared by the two functions: one [drawString] for every
    character that [get_font] resolves to a registered font. *)
Definition column (size : Z) (col : color) (y0 : Z) (cs : list char)
  : list Event :=
  flat_map
    (fun ic : Z * char =>
       let '(i, c) := ic in
       match Resolver.get_font e c (tfns e) with
       | None => []
       | Some fn =>
           if String.eqb fn EmptyString then []
           else
             match vfonts e fn with
             | None => []
             | Some font_name =>
                 let fx := if String.eqb (if_tpcenter st) "0"%string
                           then (- size) / 2
                           else canvas_width (geom e) / 2 - size / 2 in
                 [EvDraw c (inject_Z fx)
                         (inject_Z y0
                          - inject_Z size * inject_Z i * title_ydis st)%Q
                         font_name (inject_Z size) 0 col]
             end
       end)
    (Builtins.enumerate cs).

(** [add_page_title(c, tpchars)] *)
Definition add_page_title (tpchars : list char) : list Event :=
  column (title_font_size st) (title_font_color st) (title_y st) tpchars.

(** [self.zhnums.get(page_num, str(page_num))] *)
Definition page_zh (page_num : Z) : list char :=
  match zhnums st page_num with
  | Some s => s
  | None => Builtins.str page_num
  end.

(** [add_page_number(c, page_num)] *)
Definition add_page_number (page_num : Z) : list Event :=
  column (pager_font_size st) (pager_font_color st) (pager_y st)
         (page_zh page_num).

(** [get_font] gives a registered font for the character. *)
Definition drawable (c : char) : bool :=
  match Resolver.get_font e c (tfns e) with
  | Some fn =>
      negb (String.eqb fn EmptyString)
      && match vfonts e fn with Some _ => true | None => false end
  | None => false
  end.

End WithEngine.

End Labels.

(** ** The generator of [vrainNovel.py]: fonts and markers *)

Module Novel.

Definition ch_tab : char := 9%N.
Definition ch_newline : char := 10%N.
Definition ch_return : char := 13%N.

(** [char in [' ', '\t', '\n', '\r']] *)
Definition is_blank (c : char) : bool :=
  (N.eqb c ch_space || N.eqb c ch_tab || N.eqb c ch_newline
   || N.eqb c ch_return)%bool.

(** The fields of a [VRainPDFGenerator] that font lookup and the page
    loops read.  [loaded] tells whether a name is a key of
    [self.fonts]; [glyph] is the glyph-table query behind
    [FontChecker.check_font_support] (PIL), whose cache returns what
    the first query returned. *)
Record Generator := mkGenerator {
  loaded : font -> bool;
  glyph : font -> char -> bool;
  text_fonts : list font;
  positions_left : list point;
  n_page_chars_num : Z;
  book_vline : bool;
  from_page : Z;
  to_page : option Z;
  test_pages : option Z
}.

(** [FontChecker.check_font_support] *)
Definition check_font_support (g : Generator) (f : font) (c : char) : bool :=
  if is_blank c then true else glyph g f c.

(** [get_font_for_char(char, font_list)] *)
Definition get_font_for_char (g : Generator) (c : char)
           (font_list : list font) : option font :=
  if is_blank c then hd_error font_list
  else
    match find (fun f => loaded g f && check_font_support g f c) font_list
    with
    | Some f => Some f
    | None => hd_error font_list
    end.

(** The loop of [_find_comment_end] over the indices [ids]; the outer
    [None] stands for [IndexError]. *)
Fixpoint first_close (chars : list char) (ids : list Z) : option Z :=
  match ids with
  | [] => Some (-1)
  | i :: rest =>
      match Py.index chars i with
      | None => None
      | Some c => if N.eqb c ch_note_close then Some i
                  else first_close chars rest
      end
  end.

(** [_find_comment_end(chars, start_index)] *)
Definition _find_comment_end (chars : list char) (start_index : Z)
  : option Z :=
  first_close chars
    (Builtins.range (start_index + 1) (Z.of_nat (length chars))).

(** [_should_skip_char(char, chars, char_index)]; the two last
    arguments are not used by the code. *)
Definition _should_skip_char (g : Generator) (c : char) : bool :=
  if (N.eqb c ch_space || N.eqb c ch_newline || N.eqb c ch_return
      || N.eqb c ch_tab)%bool then true
  else if (N.eqb c ch_percent || N.eqb c ch_dollar || N.eqb c ch_amp)%bool
  then true
  else if ((N.eqb c ch_book_open || N.eqb c ch_book_close)
           && book_vline g)%bool then true
  else if N.eqb c ch_at then true
  else false.

(** The checks of [__init__], lines 219-226: the page range and the
    test page count kept by the generator; [None] stands for
    [ValueError]. *)
Definition check_pages (from_arg : Z) (to_arg test_arg : option Z)
  : option (Z * option Z * option Z) :=
  let from := Z.max 1 from_arg in
  if match to_arg with Some t => t <? from | None => false end then None
  else if match test_arg with Some z => z <=? 0 | None => false end
  then None
  else Some (from, to_arg, test_arg).

(** *** The page loop of the plain mode *)

(** The calls made by the two page loops: [_start_new_page]
    (background, page title and page number) is one event, [ShowPage]
    is [c.showPage()], [DrawAt] is the call
    [_draw_char_at_position(c, char, position_index)] and [DrawTitle]
    the call [_draw_chapter_title(c, chapter_title, ...)], whose result
    the loop does not use.  What these methods do themselves is not
    part of the trace. *)
Inductive PageEvent :=
| StartPage (page : Z)
| ShowPage
| DrawAt (c : char) (position_index : Z)
| DrawTitle (chapter_title : list char).

(** The loop variables. *)
Record Cursor := mkCursor {
  char_index : Z;
  processed_chars : Z;
  page_num : Z;
  page_char_count : Z
}.

(** What both loops do with the character at [char_index], lines
    1309-1323 and 1355-1371: it is passed over, alone or with the
    annotation it opens, or it is a glyph to place; the index is the
    next [char_index].  [Fault] stands for an [IndexError]. *)
Inductive Fetched :=
| Passed (next : Z)
| Glyph (c : char) (next : Z)
| Fault.

Section WithText.

Variable g : Generator.
Variable chars : list char.

Definition fetch (i : Z) : Fetched :=
  match Py.index chars i with
  | None => Fault
  | Some c =>
      let ci := i + 1 in
      if _should_skip_char g c then Passed ci
      else if N.eqb c ch_note_open then
        match _find_comment_end chars (ci - 1) with
        | None => Fault
        | Some comment_end =>
            if negb (comment_end =? -1) then Passed (comment_end + 1)
            else Passed ci
        end
      else Glyph c ci
  end.

(** The first loop, lines 1308-1325, which passes over the characters
    of the pages before [from_page]: the final [char_index] and
    [processed_chars].  The outer [None] is a bound on the passes that
    was reached, the inner one an exception. *)
Fixpoint skip_pages (fuel : nat) (chars_to_skip i processed : Z)
  : option (option (Z * Z)) :=
  match fuel with
  | O => None
  | S fuel' =>
      if (i <? Z.of_nat (length chars)) && (processed <? chars_to_skip)
      then
        match fetch i with
        | Fault => Some None
        | Passed ci => skip_pages fuel' chars_to_skip ci processed
        | Glyph _ ci => skip_pages fuel' chars_to_skip ci (processed + 1)
        end
      else Some (Some (i, processed))
  end.

(** [self.test_pages and page_num >= self.test_pages] *)
Definition test_limit (p : Z) : bool :=
  match test_pages g with
  | Some z => negb (z =? 0) && (z <=? p)
  | None => false
  end.

(** [max_chars_to_process is not None and processed_chars >=
    max_chars_to_process] *)
Definition char_limit (max_chars : option Z) (processed : Z) : bool :=
  match max_chars with
  | Some m => m <=? processed
  | None => false
  end.

(** The second loop, lines 1337-1377. *)
Fixpoint draw_pages (fuel : nat) (max_chars : option Z) (k : Cursor)
  : option (list PageEvent * option Cursor) :=
  match fuel with
  | O => None
  | S fuel' =>
      if char_index k <? Z.of_nat (length chars) then
        if test_limit (page_num k) then Some ([], Some k)
        else if char_limit max_chars (processed_chars k)
        then Some ([], Some k)
        else
          let turn := n_page_chars_num g <=? page_char_count k in
          let pn := if turn then page_num k + 1 else page_num k in
          let pcc := if turn then 0 else page_char_count k in
          let ev1 := if turn then [ShowPage; StartPage (from_page g + pn)]
                     else [] in
          let go ev k' :=
            match draw_pages fuel' max_chars k' with
            | Some (ev', r) => Some (ev1 ++ ev ++ ev', r)
            | None => None
            end in
          match fetch (char_index k) with
          | Fault => Some (ev1, None)
          | Passed ci => go [] (mkCursor ci (processed_chars k) pn pcc)
          | Glyph c ci =>
              if pcc <? Z.of_nat (length (positions_left g))
              then go [DrawAt c pcc]
                      (mkCursor ci (processed_chars k + 1) pn (pcc + 1))
              else go [] (mkCursor ci (processed_chars k) pn pcc)
          end
      else Some ([], Some k)
  end.

(** [chars_to_skip], lines 1287-1289 *)
Definition chars_to_skip : Z :=
  if 1 <? from_page g then (from_page g - 1) * n_page_chars_num g else 0.

(** [max_chars_to_process], lines 1293-1296 *)
Definition max_chars_to_process : option Z :=
  match to_page g with
  | Some t =>
      if from_page g <=? t
      then Some ((t - from_page g + 1) * n_page_chars_num g)
      else None
  | None => None
  end.

(** [_process_without_chapters] on the characters of [text_content]:
    the trace and the loop variables on exit. *)
Definition _process_without_chapters
  : option (list PageEvent * option Cursor) :=
  match skip_pages (S (length chars)) chars_to_skip 0 0 with
  | None => None
  | Some None => Some ([], None)
  | Some (Some (ci, _)) =>
      match draw_pages (S (length chars)) max_chars_to_process
                       (mkCursor ci 0 0 0) with
      | Some (ev, r) => Some (StartPage (from_page g) :: ev, r)
      | None => None
      end
  end.

(** The loop over the characters of one chapter, lines 1231-1264: the
    second loop of the plain mode without its two limits.
    [processed_chars] stands for [total_processed_chars]. *)
Fixpoint content_pages (fuel : nat) (k : Cursor)
  : option (list PageEvent * option Cursor) :=
  match fuel with
  | O => None
  | S fuel' =>
      if char_index k <? Z.of_nat (length chars) then
        let turn := n_page_chars_num g <=? page_char_count k in
        let pn := if turn then page_num k + 1 else page_num k in
        let pcc := if turn then 0 else page_char_count k in
        let ev1 := if turn then [ShowPage; StartPage (from_page g + pn)]
                   else [] in
        let go ev k' :=
          match content_pages fuel' k' with
          | Some (ev', r) => Some (ev1 ++ ev ++ ev', r)
          | None => None
          end in
        match fetch (char_index k) with
        | Fault => Some (ev1, None)
        | Passed ci => go [] (mkCursor ci (processed_chars k) pn pcc)
        | Glyph c ci =>
            if pcc <? Z.of_nat (length (positions_left g))
            then go [DrawAt c pcc]
                    (mkCursor ci (processed_chars k + 1) pn (pcc + 1))
            else go [] (mkCursor ci (processed_chars k) pn pcc)
        end
      else Some ([], Some k)
  end.

End WithText.

(** The loop of [_process_with_chapters] over the chapters, lines
    1206-1269, from the values [pages] of [page_num] and [total] of
    [total_processed_chars]; [row_num] is [int(self.book_config.get('row_num', 30))],
    which the computation of the grid has evaluated before.  The result
    is the trace with the final [page_num] and
    [total_processed_chars]. *)
Fixpoint chapters_loop (g : Generator) (row_num : Z)
         (chapters : list (list char * list char)) (pages total : Z)
  : option (list PageEvent * option (Z * Z)) :=
  match chapters with
  | [] => Some ([], Some (pages, total))
  | (chapter_title, chapter_content) :: rest =>
      if test_limit g pages then Some ([], Some (pages, total))
      else
        let ev0 := [StartPage (from_page g + pages);
                    DrawTitle chapter_title] in
        match content_pages g chapter_content
                (S (length chapter_content))
                (mkCursor 0 total pages row_num) with
        | None => None
        | Some (ev, None) => Some (ev0 ++ ev, None)
        | Some (ev, Some k) =>
            match rest with
            | [] => Some (ev0 ++ ev, Some (page_num k, processed_chars k))
            | _ :: _ =>
                match chapters_loop g row_num rest (page_num k + 1)
                        (processed_chars k) with
                | Some (ev', r) => Some (ev0 ++ ev ++ ShowPage :: ev', r)
                | None => None
                end
            end
        end
  end.

(** [_process_with_chapters] on the chapters that [_parse_chapters]
    returns. *)
Definition _process_with_chapters (g : Generator) (row_num : Z)
           (chapters : list (list char * list char))
  : option (list PageEvent * option (Z * Z)) :=
  chapters_loop g row_num chapters 0 0.


(** The characters that the plain mode places, in order: blanks and
    directive characters are passed over, and so is an annotation span
    with its two markers; an opening marker that is never closed is
    passed over alone.  [in_note] holds inside a span that is
    closed. *)
Fixpoint visible (g : Generator) (cs : list char) (in_note : bool)
  : list char :=
  match cs with
  | [] => []
  | c :: rest =>
      if in_note then visible g rest (negb (N.eqb c ch_note_close))
      else if _should_skip_char g c then visible g rest false
      else if N.eqb c ch_note_open
      then visible g rest (Py.mem ch_note_close rest)
      else c :: visible g rest false
  end.

(** The position indices at which a trace places its glyphs, in
    order. *)
Fixpoint positions (ev : list PageEvent) : list Z :=
  match ev with
  | [] => []
  | DrawAt _ i :: tl => i :: positions tl
  | _ :: tl => positions tl
  end.

(** The positions of [m] glyphs placed one after the other on pages of
    [n] cells, the first page being entered with the count [start]. *)
Definition cells_from (n start : Z) (m : nat) : list Z :=
  map (fun i => (Z.min start n + Z.of_nat i) mod n) (seq 0 m).

(** The chapter titles of a trace, in order. *)
Fixpoint titles (ev : list PageEvent) : list (list char) :=
  match ev with
  | [] => []
  | DrawTitle t :: tl => t :: titles tl
  | _ :: tl => titles tl
  end.

(** The glyphs of a trace, in order. *)
Fixpoint glyphs (ev : list PageEvent) : list char :=
  match ev with
  | [] => []
  | DrawAt c _ :: tl => c :: glyphs tl
  | _ :: tl => glyphs tl
  end.

(** The pages opened by a trace. *)
Fixpoint pages_started (ev : list PageEvent) : list Z :=
  match ev with
  | [] => []
  | StartPage p :: tl => p :: pages_started tl
  | _ :: tl => pages_started tl
  end.

(** A trace that goes on from the page [page], on which [cnt] glyphs
    stand, is well paged for pages of [n] cells: a glyph is placed on
    the position that follows the last one, below [n]; a page is ended
    only when it holds [n] glyphs, and the page opened next has the
    next number. *)
Fixpoint well_paged (n page cnt : Z) (ev : list PageEvent) : bool :=
  match ev with
  | [] => true
  | DrawAt _ i :: tl =>
      (i =? cnt) && (cnt <? n) && well_paged n page (cnt + 1) tl
  | ShowPage :: StartPage p :: tl =>
      (cnt =? n) && (p =? page + 1) && well_paged n (page + 1) 0 tl
  | _ => false
  end.


(** The bounds and the counter equation that the second loop keeps. *)
Definition cursor_ok (g : Generator) (chars : list char) (k : Cursor)
  : Prop :=
  0 <= char_index k <= Z.of_nat (length chars)
  /\ 0 <= page_char_count k <= n_page_chars_num g
  /\ processed_chars k
     = page_num k * n_page_chars_num g + page_char_count k.

(** The first characters of [l] up to the character limit, when
    [processed] are placed already. *)
Definition up_to (mx : option Z) (processed : Z) (l : list char)
  : list char :=
  match mx with
  | Some m => firstn (Z.to_nat (m - processed)) l
  | None => l
  end.

End Novel.

(** ** The character class of the annotation block *)

(** Lines 877-878 of [vrain.py]: the guard of the deletion tests the
    configured string [comment_comma_nop], and the character class is
    built from that string without its ['|'].  When the string is not
    empty and holds nothing but ['|'], the class is empty and [re.sub]
    raises [re.error] on the pattern ['[]'] as soon as an annotation is
    queued; [Engine.annot_cnt] is the deletion made in every other
    case, which this condition describes. *)
Definition annot_class_ok (b : Book) : Prop :=
  comment_comma_nop b = [] \/ comment_comma_nop_clean b <> [].

(** ** The loop of [create_pdf] over the text files *)

Module Document.

Section WithEngine.

Variable e : Engine.

(** [self.opts.get('z') and pid >= self.opts['z']], line 553 *)
Definition page_limit_reached (p : Z) : bool :=
  match opt_z e with
  | Some z => negb (z =? 0) && (z <=? p)
  | None => false
  end.

(** How one turn of the [for tid in range(...)] loop ends. *)
Inductive Pass :=
| PBreak                        (* [break], lines 554 and 559 *)
| PNext (p : Z) (pc : Q)        (* the pair returned by the main loop *)
| PRaise.                       (* an uncaught exception *)

(** One turn of the loop, lines 553-601, on the text list [dats]
    (index 0 is the empty placeholder).  The outline bookmark and the
    printed lines are not recorded; the page title is one event.  The
    result is [None] when the bound on the passes of the main loop is
    reached. *)
Definition text_pass (dats : list (list char)) (tid p : Z) (pc : Q)
  : option (list Event * Pass) :=
  if page_limit_reached p then Some ([], PBreak)
  else if Z.of_nat (length dats) <=? tid then Some ([], PBreak)
  else
    match Py.index dats tid with
    | None => Some ([EvShowPage], PRaise)
    | Some dat =>
        let head := EvShowPage
                      :: (if bg_exists e then [EvBackground] else [])
                      ++ [EvPageTitle] in
        match Engine.process_text_layout_complete
                e (S (length dat)) dat [] pc p with
        | Some (ev, Some (p', pc')) => Some (head ++ ev, PNext p' pc')
        | Some (ev, None) => Some (head ++ ev, PRaise)
        | None => None
        end
    end.

(** The loop over the indices [tids]; the inner [None] is an uncaught
    exception. *)
Fixpoint texts (dats : list (list char)) (tids : list Z) (p : Z) (pc : Q)
  : option (list Event * option (Z * Q)) :=
  match tids with
  | [] => Some ([], Some (p, pc))
  | tid :: rest =>
      match text_pass dats tid p pc with
      | None => None
      | Some (ev, PBreak) => Some (ev, Some (p, pc))
      | Some (ev, PRaise) => Some (ev, None)
      | Some (ev, PNext p' pc') =>
          match texts dats rest p' pc' with
          | Some (ev', r) => Some (ev ++ ev', r)
          | None => None
          end
      end
  end.

(** The part of [create_pdf] between the cover and [c.save()]: the
    events, and the final page index and cursor. *)
Definition create_pdf (dats : list (list char)) (from_page to_page : Z)
  : option (list Event * option (Z * Q)) :=
  texts dats (Builtins.range from_page (to_page + 1)) 0 0.

End WithEngine.

End Document.

(** The page breaks and page numbers of a trace, in order. *)
Definition is_page_event (x : Event) : bool :=
  match x with
  | EvShowPage => true
  | EvPageNumber _ => true
  | _ => false
  end.

Definition skeleton (ev : list Event) : list Event :=
  filter is_page_event ev.

(** The numbers [p + 1, ..., p + k]. *)
Definition pages_from (p : Z) (k : nat) : list Z :=
  map (fun i => p + Z.of_nat i) (seq 1 k).

(** A page break followed, at the end of the page, by its number. *)
Definition numbered_pages (ps : list Z) : list Event :=
  flat_map (fun p => [EvShowPage; EvPageNumber p]) ps.

(** ** Punctuation of the novel generator *)

(** [_process_punctuation] of [vrainNovel.py], lines 765-843, applied
    by [load_texts] to every line of the text that is not blank. *)
Module Punct.

(** A value of [self.book_config] after the type conversion of
    [_load_config_file], lines 400-408. *)
Inductive Value :=
| VInt (z : Z)
| VFloat (q : Q)
| VBool (b : bool)
| VStr (s : list char).

(** The truth value of a value. *)
Definition truthy (v : Value) : bool :=
  match v with
  | VInt z => negb (z =? 0)
  | VFloat q => negb (Qeq_bool q 0)
  | VBool b => b
  | VStr [] => false
  | VStr (_ :: _) => true
  end.

(** [self.book_config.get(key) == 1] *)
Definition is_one (v : option Value) : bool :=
  match v with
  | Some (VInt z) => z =? 1
  | Some (VFloat q) => Qeq_bool q 1
  | Some (VBool b) => b
  | Some (VStr _) => false
  | None => false
  end.

(** The entries of the configuration that the function reads. *)
Record Config := mkConfig {
  exp_replace_comma : option Value;
  exp_replace_number : option Value;
  exp_delete_comma : option Value;
  if_nocomma : option Value;
  exp_nocomma : option Value;
  if_onlyperiod : option Value;
  exp_onlyperiod : option Value
}.

(** [s.split(sep)] for a one-character [sep] *)
Fixpoint split_on (sep : char) (s : list char) : list (list char) :=
  match s with
  | [] => [[]]
  | c :: rest =>
      if N.eqb c sep then [] :: split_on sep rest
      else
        match split_on sep rest with
        | w :: ws => (c :: w) :: ws
        | [] => [[c]]
        end
  end.

(** [s.split('|')] *)
Definition split_bar (s : list char) : list (list char) :=
  split_on ch_bar s.

(** The strings that a loop [for x in exp.split('|')] under [if exp:]
    runs over, for [exp = self.book_config.get(key, '')]: none when the
    value is missing or falsy; a truthy value that is no string has no
    [split], which raises [AttributeError] ([None]). *)
Definition items (v : option Value) : option (list (list char)) :=
  match v with
  | None => Some []
  | Some x =>
      if truthy x then
        match x with
        | VStr s => Some (split_bar s)
        | _ => None
        end
      else Some []
  end.

(** [s.replace(old, new)] for a non-empty [old]: the occurrences of
    [old] are replaced from left to right, without overlap; [skip]
    characters of the occurrence found last are still to be passed
    over. *)
Fixpoint replace_from (skip : nat) (old new s : list char) : list char :=
  match s with
  | [] => []
  | c :: rest =>
      match skip with
      | S k => replace_from k old new rest
      | O =>
          if Config.starts_with old s
          then new ++ replace_from (length old - 1) old new rest
          else c :: replace_from 0 old new rest
      end
  end.

Definition replace (old new s : list char) : list char :=
  replace_from 0 old new s.

(** The loops over the replacement pairs, lines 783-789 and 794-800. *)
Definition replace_pairs (replacements : list (list char))
           (text : list char) : list char :=
  fold_left (fun t replacement =>
               match replacement with
               | old_char :: new_char :: _ => replace [old_char] [new_char] t
               | _ => t
               end) replacements text.

(** The loops that replace every string of a list by [new], lines
    806-809, 816-819 and 826-829. *)
Definition replace_each (new : list char) (strs : list (list char))
           (text : list char) : list char :=
  fold_left (fun t s =>
               match s with
               | [] => t
               | _ :: _ => if Config.contains s t then replace s new t else t
               end) strs text.

(** [while '。。' in text: text = text.replace('。。', '。')] *)
Fixpoint collapse (fuel : nat) (text : list char) : option (list char) :=
  match fuel with
  | O => None
  | S fuel' =>
      if Config.contains [ch_period; ch_period] text
      then collapse fuel' (replace [ch_period; ch_period] [ch_period] text)
      else Some text
  end.

(** [text.lstrip('。')] *)
Fixpoint lstrip_period (s : list char) : list char :=
  match s with
  | c :: rest => if N.eqb c ch_period then lstrip_period rest else s
  | [] => []
  end.

(** The body of the [try] block.  The outer [None] is a bound on the
    passes of the [while] loop that was reached, the inner one an
    exception. *)
Definition process (cfg : Config) (text : list char)
  : option (option (list char)) :=
  match items (exp_replace_comma cfg) with
  | None => Some None
  | Some commas =>
      let text1 := replace_pairs commas text in
      match items (exp_replace_number cfg) with
      | None => Some None
      | Some numbers =>
          let text2 := replace_pairs numbers text1 in
          match items (exp_delete_comma cfg) with
          | None => Some None
          | Some deleted =>
              let text3 := replace_each [] deleted text2 in
              match (if is_one (if_nocomma cfg)
                     then items (exp_nocomma cfg) else Some []) with
              | None => Some None
              | Some removed =>
                  let text4 := replace_each [] removed text3 in
                  if is_one (if_onlyperiod cfg) then
                    match items (exp_onlyperiod cfg) with
                    | None => Some None
                    | Some periods =>
                        let text5 := replace_each [ch_period] periods text4 in
                        match collapse (S (length text5)) text5 with
                        | Some text6 => Some (Some (lstrip_period text6))
                        | None => None
                        end
                    end
                  else Some (Some text4)
              end
          end
      end
  end.

(** [_process_punctuation(text)]: an exception gives back the text as
    it came. *)
Definition _process_punctuation (cfg : Config) (text : list char)
  : option (list char) :=
  match text with
  | [] => Some []
  | _ :: _ =>
      match process cfg text with
      | Some (Some t) => Some t
      | Some None => Some text
      | None => None
      end
  end.

(** The loop of [load_texts] over the lines, lines 697-716, from the
    content gathered so far. *)
Fixpoint load_lines (cfg : Config) (lines : list (list char))
         (processed_content : list char) : option (list char) :=
  match lines with
  | [] => Some processed_content
  | line :: rest =>
      match Config.strip line with
      | [] => load_lines cfg rest (processed_content ++ [Novel.ch_newline])
      | _ :: _ =>
          match _process_punctuation cfg (Config.strip line) with
          | Some processed_line =>
              load_lines cfg rest
                (processed_content
                 ++ replace [ch_at] [ch_space] processed_line)
          | None => None
          end
      end
  end.

(** [load_texts] on the content [raw_content] read from the file. *)
Definition load_texts (cfg : Config) (raw_content : list char)
  : option (list char) :=
  load_lines cfg (split_on Novel.ch_newline raw_content) [].

(** A value that is missing or a string. *)
Definition str_or_absent (v : option Value) : bool :=
  match v with
  | None => true
  | Some (VStr _) => true
  | Some _ => false
  end.

End Punct.

(** * Properties *)

(** ** Tactics and facts about the Python built-ins *)

Ltac break_match :=
  match goal with
  | |- context [match ?x with _ => _ end] => destruct x eqn:?
  | |- context [if ?x then _ else _] => destruct x eqn:?
  end.

Lemma Qltb_lt (a b : Q) : Qltb a b = true <-> (a < b)%Q.
Proof.
  unfold Qltb. rewrite negb_true_iff. split; intros H.
  - apply Qnot_le_lt. intros L. apply Qle_bool_iff in L. congruence.
  - destruct (Qle_bool b a) eqn:E; [|reflexivity].
    apply Qle_bool_iff in E. exfalso. now apply (Qle_not_lt _ _ E).
Qed.

Lemma inject_Z_sub (x y : Z) : inject_Z (x - y) = (inject_Z x - inject_Z y)%Q.
Proof. unfold Z.sub, Qminus. now rewrite inject_Z_plus, inject_Z_opp. Qed.

Lemma inject_Z_succ (n : Z) : (inject_Z (n + 1) == inject_Z n + 1)%Q.
Proof. now rewrite inject_Z_plus. Qed.

Lemma inject_Z_nonneg (n : Z) : 0 <= n -> (0 <= inject_Z n)%Q.
Proof.
  intros H. replace 0%Q with (inject_Z 0) by reflexivity.
  now rewrite <- Zle_Qle.
Qed.

(** [int] of a float that holds an integer is that integer. *)
Lemma int_of_Qeq (x : Q) (n : Z) : x == inject_Z n -> Py.int x = n.
Proof.
  destruct x as [a d]. unfold Qeq, inject_Z, Py.int. simpl. intros H.
  rewrite Z.mul_1_r in H. subst a. apply Z.quot_mul. lia.
Qed.

(** On a float that is not negative, [int] is the floor. *)
Lemma int_floor (x : Q) : (0 <= x)%Q -> Py.int x = Qfloor x.
Proof.
  intros H. destruct x as [n d]. unfold Py.int, Qfloor. simpl.
  apply Z.quot_div_nonneg; [|lia].
  unfold Qle in H. simpl in H. lia.
Qed.

Lemma index_nonneg {A} (l : list A) (k : Z) :
  0 <= k -> Py.index l k = nth_error l (Z.to_nat k).
Proof.
  intros H. unfold Py.index. destruct (Z.ltb_spec k 0); [lia|reflexivity].
Qed.

Lemma index_some_bound {A} (l : list A) (k : Z) (x : A) :
  Py.index l k = Some x -> k <= Z.of_nat (length l) - 1.
Proof.
  unfold Py.index. destruct (Z.ltb_spec k 0) as [Hk|Hk]; [lia|].
  intros E. assert (nth_error l (Z.to_nat k) <> None) as L by congruence.
  apply nth_error_Some in L. lia.
Qed.

Lemma find_none_all {A} (p : A -> bool) (l : list A) :
  (forall x, In x l -> p x = false) -> find p l = None.
Proof.
  induction l as [|a l IH]; intros H; [reflexivity|].
  simpl. rewrite (H a (or_introl eq_refl)). apply IH.
  intros x Hx. apply H. now right.
Qed.

Lemma find_head {A} (p : A -> bool) (l : list A) (a : A) :
  hd_error l = Some a -> p a = true -> find p l = Some a.
Proof.
  destruct l as [|b l]; [discriminate|]. intros [= ->] H. simpl. now rewrite H.
Qed.

Lemma Qdiv_mul_cancel (a b : Z) :
  b <> 0 -> (inject_Z a / inject_Z b * inject_Z b == inject_Z a)%Q.
Proof.
  intros H. field. intros E. apply H.
  unfold Qeq, inject_Z in E; simpl in E. lia.
Qed.

Lemma Qdiv_nonneg (a b : Z) :
  0 <= a -> 0 < b -> (0 <= inject_Z a / inject_Z b)%Q.
Proof.
  intros Ha Hb. apply Qle_shift_div_l.
  - replace 0%Q with (inject_Z 0) by reflexivity. rewrite <- Zlt_Qlt. lia.
  - rewrite Qmult_0_l. now apply inject_Z_nonneg.
Qed.

Lemma scale_between (q : Q) (i n : Z) :
  (0 <= q)%Q -> 1 <= i <= n ->
  (q <= q * inject_Z i /\ q * inject_Z i <= q * inject_Z n)%Q.
Proof.
  intros Hq [H1 H2].
  assert (E1 : (1 <= inject_Z i)%Q).
  { replace 1%Q with (inject_Z 1) by reflexivity. now rewrite <- Zle_Qle. }
  assert (E2 : (inject_Z i <= inject_Z n)%Q) by now rewrite <- Zle_Qle.
  split; nra.
Qed.

(** ** The position grid *)

Lemma nth_error_flat_map_block {A B} (f : A -> list B) (n : nat) :
  forall (l : list A) (a b : nat) (x : A),
    (forall y, length (f y) = n) ->
    nth_error l a = Some x -> (b < n)%nat ->
    nth_error (flat_map f l) (a * n + b) = nth_error (f x) b.
Proof.
  induction l as [|y l IH]; intros a b x Hlen Ha Hb.
  - destruct a; discriminate.
  - destruct a as [|a]; simpl in *.
    + injection Ha as ->.
      rewrite nth_error_app1 by (rewrite Hlen; lia). reflexivity.
    + rewrite nth_error_app2 by (rewrite Hlen; lia).
      rewrite Hlen.
      replace (n + a * n + b - n)%nat with (a * n + b)%nat by lia.
      now apply IH.
Qed.

Lemma range1_length (n : Z) : length (Py.range1 n) = Z.to_nat n.
Proof. unfold Py.range1. now rewrite length_map, length_seq. Qed.

Lemma range1_nth (n i : Z) :
  1 <= i <= n -> nth_error (Py.range1 n) (Z.to_nat (i - 1)) = Some i.
Proof.
  intros H. unfold Py.range1.
  rewrite nth_error_map, nth_error_seq.
  destruct (Nat.ltb_spec (Z.to_nat (i - 1)) (Z.to_nat n)); try lia.
  simpl. f_equal. lia.
Qed.

Lemma col_row_decompose (g : Geometry) (k : Z) :
  0 < row_num g -> 1 <= k ->
  k - 1 = (Positions.col_of g k - 1) * row_num g + (Positions.row_of g k - 1)
  /\ 1 <= Positions.row_of g k <= row_num g
  /\ Positions.col_of g k = (k - 1) / row_num g + 1.
Proof.
  intros HR Hk. unfold Positions.col_of, Positions.row_of.
  assert (E : (k + row_num g - 1) / row_num g = (k - 1) / row_num g + 1).
  { replace (k + row_num g - 1) with ((k - 1) + 1 * row_num g) by lia.
    now rewrite Z.div_add by lia. }
  rewrite E.
  pose proof (Z.div_mod (k - 1) (row_num g) ltac:(lia)).
  pose proof (Z.mod_pos_bound (k - 1) (row_num g) HR).
  repeat split; lia.
Qed.

Lemma col_of_range (g : Geometry) (k : Z) :
  0 < row_num g -> 1 <= k <= leaf_col g * row_num g ->
  1 <= Positions.col_of g k <= leaf_col g.
Proof.
  intros HR Hk.
  destruct (col_row_decompose g k HR ltac:(lia)) as (E & Hj & Hc).
  rewrite Hc.
  assert (0 <= (k - 1) / row_num g) by (apply Z.div_pos; lia).
  assert ((k - 1) / row_num g < leaf_col g).
  { apply Z.div_lt_upper_bound; lia. }
  lia.
Qed.

Lemma cells_nth (g : Geometry) (px : Z -> Q) (k : Z) :
  0 < row_num g -> 1 <= k <= leaf_col g * row_num g ->
  nth_error (Positions.cells g px) (Z.to_nat (k - 1))
  = Some (px (Positions.col_of g k), Positions.pos_y g (Positions.row_of g k)).
Proof.
  intros HR Hk.
  destruct (col_row_decompose g k HR ltac:(lia)) as (E & Hj & _).
  pose proof (col_of_range g k HR Hk) as Hi.
  set (i := Positions.col_of g k) in *. set (j := Positions.row_of g k) in *.
  unfold Positions.cells.
  replace (Z.to_nat (k - 1))
    with (Z.to_nat (i - 1) * Z.to_nat (row_num g) + Z.to_nat (j - 1))%nat
    by nia.
  rewrite nth_error_flat_map_block with (x := i).
  - rewrite nth_error_map, range1_nth by lia. reflexivity.
  - intros y. now rewrite length_map, range1_length.
  - apply range1_nth. lia.
  - lia.
Qed.

(** On integers the test [i <= col_num / 2] of [vrainNovel.py] and the
    test [i <= col_num // 2] of [vrain.py] agree. *)
Lemma novel_test_agrees (i c : Z) :
  Qle_bool (inject_Z i) (inject_Z c / 2) = (i <=? c / 2).
Proof.
  destruct (Z.leb_spec i (c / 2)) as [H|H].
  - apply Qle_bool_iff. unfold Qle, Qdiv, Qmult, Qinv, inject_Z; simpl.
    pose proof (Z.mul_div_le c 2 ltac:(lia)). lia.
  - destruct (Qle_bool (inject_Z i) (inject_Z c / 2)) eqn:E; [|reflexivity].
    apply Qle_bool_iff in E.
    unfold Qle, Qdiv, Qmult, Qinv, inject_Z in E; simpl in E.
    exfalso.
    assert (i <= c / 2) by (apply Z.div_le_lower_bound; lia). lia.
Qed.

Lemma grid_cell (g : Geometry) (gr : Grid) (k : Z) :
  0 < leaf_col g -> 0 < row_num g ->
  1 <= k <= leaf_col g * row_num g ->
  Positions.calculate_positions g = Some gr ->
  Py.index (pos_l gr) k
    = Some (Positions.pos_x g (Positions.col_of g k),
            Positions.pos_y g (Positions.row_of g k))
  /\ Py.index (pos_r gr) k
    = Some (Positions.right_of g
              (Positions.pos_x g (Positions.col_of g k),
               Positions.pos_y g (Positions.row_of g k))).
Proof.
  intros HC HR Hk Hg. unfold Positions.calculate_positions in Hg.
  destruct (Z.eqb_spec (leaf_col g) 0); [lia|].
  destruct (Z.eqb_spec (row_num g) 0); [lia|]. cbn [orb] in Hg.
  injection Hg as <-. cbn [pos_l pos_r].
  rewrite !index_nonneg by lia.
  replace (Z.to_nat k) with (S (Z.to_nat (k - 1))) by lia. cbn [nth_error].
  rewrite nth_error_map, cells_nth by assumption. split; reflexivity.
Qed.

Lemma grid_defined (g : Geometry) :
  leaf_col g <> 0 -> row_num g <> 0 ->
  exists gr, Positions.calculate_positions g = Some gr.
Proof.
  intros HC HR. unfold Positions.calculate_positions.
  destruct (Z.eqb_spec (leaf_col g) 0); [contradiction|].
  destruct (Z.eqb_spec (row_num g) 0); [contradiction|]. now eexists.
Qed.

Lemma grid_capacity (g : Geometry) (gr : Grid) :
  Positions.calculate_positions g = Some gr ->
  page_chars_num gr = leaf_col g * row_num g.
Proof.
  unfold Positions.calculate_positions.
  destruct ((leaf_col g =? 0) || (row_num g =? 0))%bool; [discriminate|].
  now intros [= <-].
Qed.

(** C2.  For a valid canvas geometry, the grid index [k] in [1 .. C*R]
    is the cell of column [i = ceil(k / R)] (the integer with
    [(i-1)*R < k <= i*R]) and row [j = ((k-1) mod R) + 1].  Its
    left-anchor [x] is [pageWidth - rightMargin - cw*i] when
    [i <= C/2] and that value minus the gutter width otherwise, its [y]
    is [pageHeight - topMargin - rh*j + rowOffset], and its right anchor
    is [(x + cw/2, y)].  The test [i <= C/2] gives the same answer with
    the integer half and with the exact half.  [vrain.py] stores the
    cell at index [k] (index 0 is a placeholder), [vrainNovel.py] at
    index [k - 1]. *)
Theorem grid_index_to_cell (g : Geometry) (k : Z) :
  Positions.valid g ->
  1 <= k <= leaf_col g * row_num g ->
  let i := (k + row_num g - 1) / row_num g in
  let j := (k - 1) mod row_num g + 1 in
  let cw := Positions.col_width g in
  let rh := Positions.row_height g in
  let x := if i <=? leaf_col g / 2
           then (inject_Z (canvas_width g - margins_right g)
                 - cw * inject_Z i)%Q
           else (inject_Z (canvas_width g - margins_right g)
                 - cw * inject_Z i - inject_Z (leaf_center_width g))%Q in
  let y := (inject_Z (canvas_height g - margins_top g) - rh * inject_Z j
            + inject_Z (row_delta_y g))%Q in
  (i - 1) * row_num g < k <= i * row_num g
  /\ 1 <= i <= leaf_col g /\ 1 <= j <= row_num g
  /\ (i <=? leaf_col g / 2)
     = Qle_bool (inject_Z i) (inject_Z (leaf_col g) / 2)
  /\ (exists gr, Positions.calculate_positions g = Some gr
        /\ Py.index (pos_l gr) k = Some (x, y)
        /\ Py.index (pos_r gr) k = Some ((x + cw / 2)%Q, y))
  /\ (exists gr, Positions._calculate_positions g = Some gr
        /\ Py.index (pos_l gr) (k - 1) = Some (x, y)
        /\ Py.index (pos_r gr) (k - 1) = Some ((x + cw / 2)%Q, y)).
Proof.
  intros (HW & HH & HC & HR) Hk. cbv zeta.
  pose proof (cells_nth g (Positions.pos_x_novel g) k HR Hk) as Hn.
  destruct (col_row_decompose g k HR ltac:(lia)) as (Hd & Hj & _).
  pose proof (col_of_range g k HR Hk) as Hi.
  destruct (grid_defined g ltac:(lia) ltac:(lia)) as [gr Hg].
  destruct (grid_cell g gr k HC HR Hk Hg) as [El Er].
  unfold Positions.col_of, Positions.row_of in *.
  split; [nia|]. split; [exact Hi|]. split; [exact Hj|].
  split; [symmetry; apply novel_test_agrees|]. split.
  - exists gr. split; [exact Hg|]. split; [exact El|exact Er].
  - eexists. split.
    + unfold Positions._calculate_positions.
      destruct (Z.leb_spec (leaf_col g) 0); [lia|].
      destruct (Z.leb_spec (row_num g) 0); [lia|]. cbn [orb].
      destruct (Z.leb_spec (canvas_width g)
                  (margins_left g + margins_right g + leaf_center_width g));
        [lia|].
      destruct (Z.leb_spec (canvas_height g)
                  (margins_top g + margins_bottom g)); [lia|].
      reflexivity.
    + cbn [pos_l pos_r]. rewrite !index_nonneg by lia.
      rewrite nth_error_map, Hn.
      unfold Positions.pos_x_novel. rewrite novel_test_agrees.
      split; reflexivity.
Qed.

(** Cell 6 of the sample grid (two columns of four rows) is row 2 of
    column 2, left of the spine. *)
Lemma grid_index_to_cell_witness :
  Positions.valid Sample.geometry
  /\ 1 <= 6 <= leaf_col Sample.geometry * row_num Sample.geometry
  /\ exists gr,
       Positions.calculate_positions Sample.geometry = Some gr
       /\ Py.index (pos_l gr) 6
          = Some ((inject_Z 90 - Positions.col_width Sample.geometry
                                 * inject_Z 2 - inject_Z 0)%Q,
                  (inject_Z 90 - Positions.row_height Sample.geometry
                                 * inject_Z 2 + inject_Z 10)%Q).
Proof.
  assert (V : Positions.valid Sample.geometry)
    by (unfold Positions.valid; simpl; lia).
  assert (K : 1 <= 6 <= leaf_col Sample.geometry * row_num Sample.geometry)
    by (simpl; lia).
  split; [exact V|]. split; [exact K|].
  destruct (grid_index_to_cell Sample.geometry 6 V K)
    as (_ & _ & _ & _ & (gr & Hg & Hl & _) & _).
  exists gr. split; [exact Hg|exact Hl].
Defined.

(** C9, as stated, fails: with sixteen rows of height 5 and the row
    offset 10, cell 1 lies above [height - topMargin]; with a negative
    gutter width, a cell of the second column lies right of
    [width - rightMargin].  Both geometries satisfy the validity
    invariant. *)
Lemma grid_outside_margins :
  (Positions.valid Sample.geometry_rows16
   /\ exists gr p,
        Positions.calculate_positions Sample.geometry_rows16 = Some gr
        /\ Py.index (pos_l gr) 1 = Some p
        /\ ~ Positions.inside Sample.geometry_rows16 p)
  /\ (Positions.valid Sample.geometry_gutter
      /\ exists gr p,
           Positions.calculate_positions Sample.geometry_gutter = Some gr
           /\ Py.index (pos_l gr) 5 = Some p
           /\ ~ Positions.inside Sample.geometry_gutter p).
Proof.
  split; (split; [unfold Positions.valid; simpl; lia|]);
    eexists _, _; (split; [reflexivity|]); (split; [reflexivity|]);
    unfold Positions.inside; vm_compute; intros (_ & H2 & _ & H4);
    first [now apply H4 | now apply H2].
Qed.

(** In exact arithmetic: for a valid canvas geometry whose gutter width
    is not negative and whose row offset lies between 0 and the row
    height, the values of the coordinate expressions lie within the
    margins. *)
Lemma grid_values_inside_margins (g : Geometry) (k : Z) (gr : Grid)
      (pl pr : point) :
  Positions.valid g ->
  0 <= leaf_center_width g ->
  0 <= row_delta_y g ->
  row_delta_y g * row_num g
    <= canvas_height g - margins_top g - margins_bottom g ->
  1 <= k <= leaf_col g * row_num g ->
  Positions.calculate_positions g = Some gr ->
  Py.index (pos_l gr) k = Some pl ->
  Py.index (pos_r gr) k = Some pr ->
  Positions.inside g pl /\ Positions.inside g pr.
Proof.
  intros (HW & HH & HC & HR) Hlc Hd0 Hd1 Hk Hg Hl Hr.
  destruct (grid_cell g gr k HC HR Hk Hg) as [El Er].
  rewrite El in Hl. rewrite Er in Hr. injection Hl as <-. injection Hr as <-.
  pose proof (col_of_range g k HR Hk) as Hi.
  destruct (col_row_decompose g k HR ltac:(lia)) as (_ & Hj & _).
  set (i := Positions.col_of g k) in *. set (j := Positions.row_of g k) in *.
  pose proof (Qdiv_mul_cancel
                (canvas_width g - margins_left g - margins_right g
                 - leaf_center_width g) (leaf_col g) ltac:(lia)) as Ecw.
  pose proof (Qdiv_mul_cancel
                (canvas_height g - margins_top g - margins_bottom g)
                (row_num g) ltac:(lia)) as Erh.
  pose proof (Qdiv_nonneg
                (canvas_width g - margins_left g - margins_right g
                 - leaf_center_width g) (leaf_col g) ltac:(lia) HC) as Pcw.
  pose proof (Qdiv_nonneg
                (canvas_height g - margins_top g - margins_bottom g)
                (row_num g) ltac:(lia) HR) as Prh.
  fold (Positions.col_width g) in Ecw, Pcw.
  fold (Positions.row_height g) in Erh, Prh.
  destruct (scale_between _ i (leaf_col g) Pcw Hi) as [Ci1 Ci2].
  destruct (scale_between _ j (row_num g) Prh Hj) as [Cj1 Cj2].
  assert (Hdelta : (inject_Z (row_delta_y g) <= Positions.row_height g)%Q).
  { unfold Positions.row_height. apply Qle_shift_div_l.
    - replace 0%Q with (inject_Z 0) by reflexivity. rewrite <- Zlt_Qlt. lia.
    - rewrite <- inject_Z_mult, <- Zle_Qle. lia. }
  pose proof (inject_Z_nonneg _ Hd0) as Hd0'.
  pose proof (inject_Z_nonneg _ Hlc) as Hlc'.
  assert (EW : (inject_Z (canvas_width g - margins_left g - margins_right g
                          - leaf_center_width g)
                == inject_Z (canvas_width g - margins_right g)
                   - inject_Z (margins_left g)
                   - inject_Z (leaf_center_width g))%Q).
  { rewrite <- !inject_Z_sub. apply inject_Z_injective. lia. }
  assert (EH : (inject_Z (canvas_height g - margins_top g - margins_bottom g)
                == inject_Z (canvas_height g - margins_top g)
                   - inject_Z (margins_bottom g))%Q).
  { rewrite <- !inject_Z_sub. apply inject_Z_injective. lia. }
  rewrite EW in Ecw. rewrite EH in Erh.
  unfold Positions.inside, Positions.right_of, Positions.pos_x, Positions.pos_y.
  cbn [fst snd].
  assert (Hh : (Positions.col_width g / 2
                == Positions.col_width g * (1 # 2))%Q) by field.
  set (h := (Positions.col_width g / 2)%Q) in *.
  destruct (i <=? leaf_col g / 2); repeat split; lra.
Qed.

Lemma whole_of_Z (n : Z) : whole (inject_Z n).
Proof. exists n. reflexivity. Qed.

Lemma whole_minus (a b : Q) : whole a -> whole b -> whole (a - b).
Proof.
  intros [m Hm] [n Hn]. exists (m - n).
  rewrite Hm, Hn, inject_Z_sub. reflexivity.
Qed.

Lemma whole_plus (a b : Q) : whole a -> whole b -> whole (a + b).
Proof.
  intros [m Hm] [n Hn]. exists (m + n).
  rewrite Hm, Hn, inject_Z_plus. reflexivity.
Qed.

Lemma whole_times (a b : Q) : whole a -> whole b -> whole (a * b).
Proof.
  intros [m Hm] [n Hn]. exists (m * n).
  rewrite Hm, Hn, inject_Z_mult. reflexivity.
Qed.

Lemma whole_quotient (a c : Z) : c <> 0 -> (c | a) ->
  whole (inject_Z a / inject_Z c).
Proof.
  intros Hc [q ->]. exists q. rewrite inject_Z_mult. field.
  intros E. apply Hc. apply inject_Z_injective. exact E.
Qed.

(** On an exact geometry column width and row height are whole
    numbers, and so are the coordinates of the left anchors; the x of a
    right anchor is half of a whole number. *)
Lemma exact_grid_whole (g : Geometry) (i j : Z) :
  Positions.valid g -> Positions.exact g ->
  whole (Positions.col_width g)
  /\ whole (Positions.row_height g)
  /\ whole (Positions.pos_x g i)
  /\ whole (Positions.pos_y g j)
  /\ whole (2 * fst (Positions.right_of g
                       (Positions.pos_x g i, Positions.pos_y g j))).
Proof.
  intros (_ & _ & HC & HR) (DC & DR & _).
  assert (Wc : whole (Positions.col_width g))
    by (apply whole_quotient; [lia|exact DC]).
  assert (Wr : whole (Positions.row_height g))
    by (apply whole_quotient; [lia|exact DR]).
  assert (Wx : whole (Positions.pos_x g i)).
  { unfold Positions.pos_x. destruct (i <=? leaf_col g / 2).
    - apply whole_minus; [apply whole_of_Z|].
      apply whole_times; [exact Wc|apply whole_of_Z].
    - apply whole_minus; [|apply whole_of_Z].
      apply whole_minus; [apply whole_of_Z|].
      apply whole_times; [exact Wc|apply whole_of_Z]. }
  assert (Wy : whole (Positions.pos_y g j)).
  { unfold Positions.pos_y. apply whole_plus; [|apply whole_of_Z].
    apply whole_minus; [apply whole_of_Z|].
    apply whole_times; [exact Wr|apply whole_of_Z]. }
  split; [exact Wc|]. split; [exact Wr|]. split; [exact Wx|].
  split; [exact Wy|].
  unfold Positions.right_of. cbn [fst].
  destruct Wx as [m Hm]. destruct Wc as [n Hn]. exists (2 * m + n).
  rewrite Hm, Hn, inject_Z_plus, inject_Z_mult. field.
Qed.

(** C9, amended.  For a valid canvas geometry whose gutter width is not
    negative, whose row offset lies between 0 and the row height
    ([rowOffset * R <= height - topMargin - bottomMargin]) and on which
    the double arithmetic is exact ([Positions.exact]: the column count
    divides the width left for the columns, the row count the height
    left for the rows, no margin is negative, width and height are
    below 2^52), every left-anchor and right-anchor cell coordinate
    lies within
    [[leftMargin, width - rightMargin] x [bottomMargin, height - topMargin]];
    column width, row height and the coordinates of the left anchors
    are whole numbers and the x of a right anchor is half of one, so
    that the doubles of the code are these values.  Without the
    divisibility the doubles can leave the rectangle by rounding
    ([doubles_leave_margins]). *)
Theorem grid_inside_margins (g : Geometry) (k : Z) (gr : Grid)
        (pl pr : point) :
  Positions.valid g ->
  Positions.exact g ->
  0 <= leaf_center_width g ->
  0 <= row_delta_y g ->
  row_delta_y g * row_num g
    <= canvas_height g - margins_top g - margins_bottom g ->
  1 <= k <= leaf_col g * row_num g ->
  Positions.calculate_positions g = Some gr ->
  Py.index (pos_l gr) k = Some pl ->
  Py.index (pos_r gr) k = Some pr ->
  Positions.inside g pl /\ Positions.inside g pr
  /\ whole (cw gr) /\ whole (rh gr)
  /\ whole (fst pl) /\ whole (snd pl)
  /\ whole (2 * fst pr) /\ snd pr = snd pl.
Proof.
  intros HV HE Hlc Hd0 Hd1 Hk Hg Hl Hr.
  destruct (grid_values_inside_margins g k gr pl pr HV Hlc Hd0 Hd1 Hk Hg
              Hl Hr) as [Il Ir].
  split; [exact Il|]. split; [exact Ir|].
  pose proof HV as (_ & _ & HC & HR).
  destruct (grid_cell g gr k HC HR Hk Hg) as [El Er].
  rewrite El in Hl. rewrite Er in Hr. injection Hl as <-. injection Hr as <-.
  destruct (exact_grid_whole g (Positions.col_of g k) (Positions.row_of g k)
              HV HE) as (Wc & Wr & Wx & Wy & Wh).
  assert (Eg : cw gr = Positions.col_width g
               /\ rh gr = Positions.row_height g).
  { unfold Positions.calculate_positions in Hg.
    destruct ((leaf_col g =? 0) || (row_num g =? 0))%bool; [discriminate|].
    injection Hg as <-. split; reflexivity. }
  destruct Eg as [-> ->].
  split; [exact Wc|]. split; [exact Wr|]. split; [exact Wx|].
  split; [exact Wy|]. split; [exact Wh|]. reflexivity.
Qed.

(** The last cell of the sample grid: both anchors are inside. *)
Lemma grid_inside_margins_witness :
  Positions.valid Sample.geometry
  /\ Positions.exact Sample.geometry
  /\ 0 <= leaf_center_width Sample.geometry
  /\ 0 <= row_delta_y Sample.geometry
  /\ row_delta_y Sample.geometry * row_num Sample.geometry
     <= canvas_height Sample.geometry - margins_top Sample.geometry
        - margins_bottom Sample.geometry
  /\ Py.index (pos_l (Sample.grid_of Sample.geometry)) 8
     = Some (20 # 2, 80 # 4)
  /\ Py.index (pos_r (Sample.grid_of Sample.geometry)) 8
     = Some (240 # 8, 80 # 4)
  /\ Positions.inside Sample.geometry (20 # 2, 80 # 4)
  /\ Positions.inside Sample.geometry (240 # 8, 80 # 4)
  /\ whole (cw (Sample.grid_of Sample.geometry))
  /\ whole (rh (Sample.grid_of Sample.geometry))
  /\ whole (20 # 2) /\ whole (80 # 4) /\ whole (2 * (240 # 8))
  /\ (80 # 4) = (80 # 4).
Proof.
  assert (V : Positions.valid Sample.geometry)
    by (unfold Positions.valid; simpl; lia).
  assert (X : Positions.exact Sample.geometry).
  { unfold Positions.exact. simpl.
    split; [exists 40; reflexivity|]. split; [exists 20; reflexivity|].
    repeat split; lia. }
  split; [exact V|]. split; [exact X|].
  split; [simpl; lia|]. split; [simpl; lia|]. split; [simpl; lia|].
  split; [reflexivity|]. split; [reflexivity|].
  apply (grid_inside_margins Sample.geometry 8
           (Sample.grid_of Sample.geometry) (20 # 2, 80 # 4) (240 # 8, 80 # 4)
           V X);
    try (simpl; lia); reflexivity.
Defined.

(** The doubles of the code on a geometry that is not exact, where
    every other hypothesis holds: the last column comes out at
    49.999999999999886 and the last row at 49.99999999999977, below
    the margins of 50 on which the exact values lie. *)
Example doubles_leave_margins :
  Positions.valid Sample.geometry_sevenths
  /\ 0 <= leaf_center_width Sample.geometry_sevenths
  /\ 0 <= row_delta_y Sample.geometry_sevenths
  /\ row_delta_y Sample.geometry_sevenths * row_num Sample.geometry_sevenths
     <= canvas_height Sample.geometry_sevenths
        - margins_top Sample.geometry_sevenths
        - margins_bottom Sample.geometry_sevenths
  /\ Doubles.pos_x Sample.geometry_sevenths 7
     = SpecFloat.S754_finite false 7036874417766384 (-47)
  /\ Doubles.ltb (Doubles.pos_x Sample.geometry_sevenths 7)
                 (Doubles.of_int (margins_left Sample.geometry_sevenths))
     = true
  /\ Doubles.pos_y Sample.geometry_sevenths 19
     = SpecFloat.S754_finite false 7036874417766368 (-47)
  /\ Doubles.ltb (Doubles.pos_y Sample.geometry_sevenths 19)
                 (Doubles.of_int (margins_bottom Sample.geometry_sevenths))
     = true
  /\ (Positions.pos_x Sample.geometry_sevenths 7 == 50)%Q
  /\ (Positions.pos_y Sample.geometry_sevenths 19 == 50)%Q.
Proof.
  split; [unfold Positions.valid; simpl; lia|].
  split; [simpl; lia|]. split; [simpl; lia|]. split; [simpl; lia|].
  repeat split; vm_compute; reflexivity.
Qed.

(** On the sample geometry, which is exact, the doubles are the values
    of the model: cell 8 has the left anchor (10, 20) and the right
    anchor (30, 20). *)
Example doubles_exact_on_sample :
  Doubles.pos_x Sample.geometry 2 = Doubles.of_int 10
  /\ Doubles.pos_y Sample.geometry 4 = Doubles.of_int 20
  /\ Doubles.right_x Sample.geometry 2 = Doubles.of_int 30
  /\ (Positions.pos_x Sample.geometry 2 == 10)%Q
  /\ (Positions.pos_y Sample.geometry 4 == 20)%Q
  /\ (fst (Positions.right_of Sample.geometry
             (Positions.pos_x Sample.geometry 2, 0%Q)) == 30)%Q.
Proof. repeat split; vm_compute; reflexivity. Qed.

(** ** Row padding *)

Lemma pack_cost_ceil (len : Z) : Preprocess.pack_cost len = (len + 1) / 2.
Proof.
  unfold Preprocess.pack_cost.
  pose proof (Z.div_mod len 2 ltac:(lia)) as E.
  pose proof (Z.mod_pos_bound len 2 ltac:(lia)) as B.
  destruct (Z.eqb_spec (len mod 2) 0) as [H|H].
  - Z.to_euclidean_division_equations. lia.
  - Z.to_euclidean_division_equations. lia.
Qed.

Lemma fold_left_cost (f : list char -> Z) (l : list (list char)) (acc : Z) :
  fold_left (fun a r => a + f r) l acc = acc + list_sum_Z (map f l).
Proof.
  revert acc. induction l as [|x l IH]; intros acc; simpl.
  - lia.
  - rewrite IH. unfold list_sum_Z. simpl. lia.
Qed.

Lemma rnum_effective (b : Book) (line : list char) :
  Preprocess.chars_len b line + Preprocess.rnum b line
  = Preprocess.effective_len b line.
Proof.
  unfold Preprocess.rnum, Preprocess.effective_len.
  rewrite fold_left_cost. f_equal. simpl. f_equal.
  apply map_ext. intros r. apply pack_cost_ceil.
Qed.

Lemma strip_set_spaces set k :
  Py.mem ch_space set = false ->
  Py.strip_set set (repeat ch_space k) = repeat ch_space k.
Proof.
  intros H. unfold Py.strip_set. induction k as [|k IH]; simpl; [reflexivity|].
  rewrite H. simpl. now rewrite IH.
Qed.

Lemma strip_book_marks_spaces k :
  Preprocess.strip_book_marks (repeat ch_space k) = repeat ch_space k.
Proof.
  unfold Preprocess.strip_book_marks. induction k as [|k IH]; simpl; [reflexivity|].
  now rewrite IH.
Qed.

Lemma strip_set_app_spaces set l k :
  Py.mem ch_space set = false ->
  Py.strip_set set (l ++ repeat ch_space k)
  = Py.strip_set set l ++ repeat ch_space k.
Proof.
  intros H. rewrite <- (strip_set_spaces set k H) at 2.
  unfold Py.strip_set. apply filter_app.
Qed.

Lemma strip_book_marks_app_spaces l k :
  Preprocess.strip_book_marks (l ++ repeat ch_space k)
  = Preprocess.strip_book_marks l ++ repeat ch_space k.
Proof.
  rewrite <- (strip_book_marks_spaces k) at 2.
  unfold Preprocess.strip_book_marks. apply filter_app.
Qed.

Lemma stripped_app_spaces b line k :
  Py.mem ch_space (text_comma_nop_clean b) = false ->
  Py.mem ch_space (comment_comma_nop_clean b) = false ->
  Preprocess.stripped b (line ++ repeat ch_space k)
  = Preprocess.stripped b line ++ repeat ch_space k.
Proof.
  intros H1 H2. unfold Preprocess.stripped.
  rewrite !strip_set_app_spaces by assumption.
  destruct (vline_on b); [|reflexivity].
  apply strip_book_marks_app_spaces.
Qed.

Lemma scan_spaces k cur :
  Preprocess.scan (repeat ch_space k) cur
  = (match cur with
     | None => repeat ch_space k
     | Some acc => ch_note_open :: acc ++ repeat ch_space k
     end, []).
Proof.
  revert cur. induction k as [|k IH]; intros cur; simpl.
  - destruct cur; [now rewrite app_nil_r | reflexivity].
  - destruct cur as [acc|]; simpl.
    + rewrite IH. now rewrite <- app_assoc.
    + now rewrite IH.
Qed.

Lemma scan_app_spaces cs k : forall cur,
  Preprocess.scan (cs ++ repeat ch_space k) cur
  = (fst (Preprocess.scan cs cur) ++ repeat ch_space k,
     snd (Preprocess.scan cs cur)).
Proof.
  induction cs as [|c cs IH]; intros cur.
  - rewrite app_nil_l, scan_spaces. destruct cur; reflexivity.
  - destruct cur as [acc|]; cbn [app Preprocess.scan].
    + destruct (N.eqb c ch_note_close).
      * rewrite IH. destruct (Preprocess.scan cs None). reflexivity.
      * apply IH.
    + destruct (N.eqb c ch_note_open).
      * apply IH.
      * rewrite IH. destruct (Preprocess.scan cs None). reflexivity.
Qed.

(** C3.  Let [n] be the number of body characters that remain plus
    [ceil(L/2)] for every annotation span of length [L] (lengths after
    the deletion of punctuation that takes no cell and, in side-rule
    mode, of title marks).  The preprocessor appends [k] spaces such
    that [n + k] is the smallest multiple of [R] that is [>= n], and
    none when [n mod R = 0].  [n] is the count the code computes
    ([chars_len + rnum]); when the space is not itself configured as
    punctuation that takes no cell, [n + k] is the effective length of
    the padded paragraph. *)
Theorem row_padding_smallest_multiple (b : Book) (R : Z) (line : list char) :
  0 < R ->
  let n := Preprocess.effective_len b line in
  Preprocess.chars_len b line + Preprocess.rnum b line = n
  /\ exists k : nat,
       Preprocess.pad_line b R line = Some (line ++ repeat ch_space k)
       /\ (n + Z.of_nat k) mod R = 0
       /\ (forall m, n <= m -> m mod R = 0 -> n + Z.of_nat k <= m)
       /\ (n mod R = 0 -> k = 0%nat)
       /\ (Py.mem ch_space (text_comma_nop_clean b) = false ->
           Py.mem ch_space (comment_comma_nop_clean b) = false ->
           Preprocess.effective_len b (line ++ repeat ch_space k)
           = n + Z.of_nat k).
Proof.
  intros HR n. split; [apply rnum_effective|].
  pose proof (Z.div_mod n R ltac:(lia)) as E.
  pose proof (Z.mod_pos_bound n R HR) as B.
  assert (Hs : Preprocess.spaces_num b R line = R - n mod R).
  { unfold Preprocess.spaces_num. rewrite rnum_effective. fold n. lia. }
  exists (if n mod R =? 0 then 0%nat else Z.to_nat (R - n mod R)).
  split; [|split; [|split; [|split]]].
  - unfold Preprocess.pad_line. rewrite Hs.
    destruct (Z.eqb_spec R 0); [lia|].
    destruct (Z.eqb_spec (n mod R) 0) as [H0|H0].
    + rewrite H0, Z.sub_0_r, Z.ltb_irrefl, andb_false_r. simpl.
      now rewrite app_nil_r.
    + destruct (Z.ltb_spec 0 (R - n mod R)); [|lia].
      destruct (Z.ltb_spec (R - n mod R) R); [|lia]. reflexivity.
  - destruct (Z.eqb_spec (n mod R) 0) as [H0|H0].
    + now rewrite Z.add_0_r.
    + rewrite Z2Nat.id by lia.
      replace (n + (R - n mod R)) with ((n / R + 1) * R) by lia.
      apply Z.mod_mul. lia.
  - intros m Hm Hmod.
    apply Z.mod_divide in Hmod; [|lia]. destruct Hmod as [q Hq]. subst m.
    destruct (Z.eqb_spec (n mod R) 0) as [H0|H0]; [simpl; lia|].
    rewrite Z2Nat.id by lia.
    assert (n / R < q) by nia. nia.
  - intros H0. now rewrite H0.
  - intros H1 H2. unfold Preprocess.effective_len, Preprocess.chars_len in *.
    rewrite stripped_app_spaces, scan_app_spaces by assumption.
    cbn [fst snd]. rewrite length_app, repeat_length.
    subst n. unfold Preprocess.effective_len, Preprocess.chars_len. lia.
Qed.

(** The paragraph AB[XYZ]C on rows of four cells: three body
    characters, one span of cost 2, three spaces appended. *)
Lemma row_padding_smallest_multiple_witness :
  0 < 4
  /\ Preprocess.effective_len Sample.sample_book
       [65; 66; ch_note_open; 88; 89; 90; ch_note_close; 67]%N = 5
  /\ exists k : nat,
       Preprocess.pad_line Sample.sample_book 4
         [65; 66; ch_note_open; 88; 89; 90; ch_note_close; 67]%N
       = Some ([65; 66; ch_note_open; 88; 89; 90; ch_note_close; 67]%N
                 ++ repeat ch_space k)
       /\ (5 + Z.of_nat k) mod 4 = 0.
Proof.
  split; [lia|]. split; [reflexivity|].
  destruct (row_padding_smallest_multiple Sample.sample_book 4
              [65; 66; ch_note_open; 88; 89; 90; ch_note_close; 67]%N
              ltac:(lia)) as (_ & k & Hp & Hm & _).
  exists k. split; [exact Hp|exact Hm].
Defined.

(** ** The main loop: page boundaries *)

Lemma page_numbers_app a b :
  page_numbers (a ++ b) = page_numbers a ++ page_numbers b.
Proof.
  induction a as [|x a IH]; [reflexivity|].
  destruct x; simpl; now rewrite ?IH.
Qed.

Lemma annot_char_trace e p rc a :
  page_numbers (fst (fst (Engine.annot_char e p rc a))) = [].
Proof.
  unfold Engine.annot_char.
  repeat break_match; cbn [fst]; rewrite ?page_numbers_app; reflexivity.
Qed.

Lemma annot_loop_trace e p rcs : forall a,
  page_numbers (fst (fst (Engine.annot_loop e p rcs a))) = [].
Proof.
  induction rcs as [|rc rest IH]; intros a; [reflexivity|].
  cbn [Engine.annot_loop].
  pose proof (annot_char_trace e p rc a) as H.
  destruct (Engine.annot_char e p rc a) as [[ev go] a'].
  destruct go.
  - specialize (IH a').
    destruct (Engine.annot_loop e p rest a') as [[ev' rem] a''].
    cbn [fst] in *. now rewrite page_numbers_app, H, IH.
  - exact H.
Qed.

Lemma annot_block_trace e s ev x :
  Engine.annot_block e s = (ev, x) ->
  page_numbers ev = []
  /\ forall s', exit_state x = Some s' -> pid s' = pid s /\ chars s' = chars s.
Proof.
  unfold Engine.annot_block. intros H.
  destruct (row_num (geom e) =? 0).
  { injection H as <- <-. split; [reflexivity|]. intros s' D. discriminate. }
  match type of H with context [Engine.annot_loop e ?p ?r ?a] =>
    pose proof (annot_loop_trace e p r a) as T;
    destruct (Engine.annot_loop e p r a) as [[ev' rem] a'] end.
  cbn [fst] in T.
  destruct rem.
  - match type of H with context [if ?c then _ else _] => destruct c end;
      injection H as <- <-; (split; [exact T|]);
      intros s' D; injection D as <-; split; reflexivity.
  - injection H as <- <-. split; [exact T|].
    intros s' D; injection D as <-; split; reflexivity.
Qed.

Lemma page_end_punct_trace e pc rest fx fy fname fsize col :
  page_numbers (fst (Engine.page_end_punct e pc rest fx fy fname fsize col)) = [].
Proof.
  unfold Engine.page_end_punct. repeat break_match; reflexivity.
Qed.

Lemma place_text_trace e s c rest ev o :
  Engine.place_text e s c rest = (ev, o) ->
  page_numbers ev = []
  /\ forall s', outcome_state o = Some s' -> pid s' = pid s.
Proof.
  unfold Engine.place_text. intros H.
  repeat match type of H with
  | context [Engine.page_end_punct e ?pc ?rest ?fx ?fy ?fn ?fs ?col] =>
      pose proof (page_end_punct_trace e pc rest fx fy fn fs col);
      destruct (Engine.page_end_punct e pc rest fx fy fn fs col)
  | context [match ?x with _ => _ end] => destruct x eqn:?
  | context [if ?x then _ else _] => destruct x eqn:?
  end;
  injection H as <- <-; cbn [fst] in *;
  (split; [rewrite ?page_numbers_app; cbn [page_numbers app];
           rewrite ?page_numbers_app; cbn [page_numbers app]; try assumption; try reflexivity
          | intros s' D; try discriminate; injection D as <-; reflexivity]).
Qed.

Lemma body_block_trace e s ev o :
  Engine.body_block e s = (ev, o) ->
  page_numbers ev = []
  /\ forall s', outcome_state o = Some s' -> pid s' = pid s.
Proof.
  unfold Engine.body_block. intros H.
  destruct (chars s) as [|c rest].
  { injection H as <- <-. split; [reflexivity|].
    intros s' D. now injection D as <-. }
  repeat match type of H with
  | context [Engine.take_note ?r] => destruct (Engine.take_note r)
  | context [if ?x then _ else _] => destruct x
  end;
  try (injection H as <- <-; split; [reflexivity|];
       intros s' D; injection D as <-; reflexivity).
  now apply place_text_trace in H.
Qed.

Lemma page_check_idle e s :
  ~ (inject_Z (page_chars_num (grid e)) <= pcnt s)%Q -> chars s <> [] ->
  Engine.page_check e s = ([], inr s).
Proof.
  intros H1 H2. unfold Engine.page_check.
  destruct (Qle_bool _ (pcnt s)) eqn:E.
  { apply Qle_bool_iff in E. contradiction. }
  destruct (chars s); [congruence|reflexivity].
Qed.

Lemma page_check_fires e s :
  (inject_Z (page_chars_num (grid e)) <= pcnt s)%Q \/ chars s = [] ->
  exists ev r s1,
    Engine.page_check e s = (EvPageNumber (pid s + 1) :: ev, r)
    /\ page_numbers ev = []
    /\ (r = inl s1 \/ r = inr s1)
    /\ pid s1 = pid s + 1 /\ pcnt s1 = 0%Q
    /\ chars s1 = chars s /\ rchars s1 = rchars s.
Proof.
  intros H. unfold Engine.page_check.
  assert (E : (Qle_bool (inject_Z (page_chars_num (grid e))) (pcnt s)
               || match chars s with [] => true | _ => false end)%bool = true).
  { destruct H as [H|H].
    - apply Qle_bool_iff in H. now rewrite H.
    - rewrite H. apply orb_true_r. }
  rewrite E.
  destruct (Engine.test_mode_stop e (pid s + 1)).
  { eexists _, _, _. split; [reflexivity|]. split; [reflexivity|].
    split; [left; reflexivity|]. repeat split. }
  destruct (chars s) eqn:Ec.
  { eexists _, _, _. split; [reflexivity|]. split; [reflexivity|].
    split; [left; reflexivity|]. repeat split. }
  eexists _, _, _. split; [reflexivity|].
  split; [simpl; now destruct (bg_exists e)|].
  split; [right; reflexivity|]. repeat split.
Qed.

(** The rest of a pass, after the page-full test. *)
Lemma step_unfold e s :
  Engine.test_mode_stop e (pid s) = false ->
  forall ev1 s1, Engine.page_check e s = (ev1, inr s1) ->
  exists ev2 o, Engine.step e s = (ev1 ++ ev2, o)
    /\ page_numbers ev2 = []
    /\ forall s', outcome_state o = Some s' -> pid s' = pid s1.
Proof.
  intros Ht ev1 s1 Hp. unfold Engine.step. rewrite Ht, Hp.
  destruct (rchars s1).
  - destruct (Engine.body_block e s1) as [ev3 o] eqn:Eb.
    apply body_block_trace in Eb. now exists ev3, o.
  - destruct (Engine.annot_block e s1) as [ev2 x] eqn:Ea.
    apply annot_block_trace in Ea. destruct Ea as [T2 P2].
    destruct x as [s2|s2|].
    + exists ev2, (Next s2). repeat split; [assumption|].
      intros s' D. injection D as <-. now apply P2.
    + destruct (Engine.body_block e s2) as [ev3 o] eqn:Eb.
      apply body_block_trace in Eb. destruct Eb as [T3 P3].
      exists (ev2 ++ ev3), o. split; [reflexivity|].
      rewrite page_numbers_app, T2, T3. split; [reflexivity|].
      intros s' D. rewrite (P3 s' D). now apply P2.
    + exists ev2, Raise. repeat split; [assumption|]. intros s' D; discriminate.
Qed.

(** A pass that starts with the cursor at or beyond the capacity opens
    with the page number of the page just filled. *)
Lemma step_flushes (e : Engine) (s : State) :
  (inject_Z (page_chars_num (grid e)) <= pcnt s)%Q ->
  Engine.test_mode_stop e (pid s) = false ->
  exists ev o, Engine.step e s = (EvPageNumber (pid s + 1) :: ev, o).
Proof.
  intros Hfull Ht.
  destruct (page_check_fires e s (or_introl Hfull))
    as (ev & r & s1 & Ep & _ & Hr & _).
  destruct Hr as [-> | ->].
  - exists ev, (Break s1). unfold Engine.step. now rewrite Ht, Ep.
  - destruct (step_unfold e s Ht _ _ Ep) as (ev2 & o & Es & _).
    now exists (ev ++ ev2), o.
Qed.

Lemma below_limit_goes_on e p :
  below_limit e p -> Engine.test_mode_stop e p = false.
Proof.
  unfold below_limit, Engine.test_mode_stop. intros H.
  destruct (opt_z e) as [z|]; [|reflexivity].
  destruct (Z.eqb_spec z 0) as [->|Hz]; [reflexivity|].
  specialize (H z eq_refl Hz). cbn [negb andb].
  apply Z.eqb_neq. lia.
Qed.

Lemma page_check_pid e s ev s1 :
  Engine.page_check e s = (ev, inr s1) ->
  pid s1 = pid s
  \/ (pid s1 = pid s + 1 /\ Engine.test_mode_stop e (pid s + 1) = false).
Proof.
  unfold Engine.page_check. intros H.
  repeat match type of H with
  | context [match chars s with _ => _ end] => destruct (chars s) eqn:?
  | context [if ?x then _ else _] => destruct x eqn:?
  end; try discriminate; injection H as <- <-; cbn [pid]; auto.
Qed.

(** The test-mode guard at the head of the loop never fires in a run
    entered below the page limit, which is how [create_pdf] enters. *)
Lemma step_below_limit e s ev s' :
  below_limit e (pid s) ->
  Engine.step e s = (ev, Next s') -> below_limit e (pid s').
Proof.
  intros Hb Hs.
  pose proof (below_limit_goes_on e _ Hb) as Ht.
  destruct (Engine.page_check e s) as [ev1 [s1|s1]] eqn:Ep.
  - unfold Engine.step in Hs. rewrite Ht, Ep in Hs. discriminate.
  - destruct (step_unfold e s Ht _ _ Ep) as (ev2 & o & Es & _ & P).
    rewrite Es in Hs. injection Hs as _ ->.
    rewrite (P s' eq_refl).
    destruct (page_check_pid e s ev1 s1 Ep) as [->|[-> Hn]]; [exact Hb|].
    intros z Hz Hz0. specialize (Hb z Hz Hz0).
    unfold Engine.test_mode_stop in Hn. rewrite Hz in Hn.
    destruct (Z.eqb_spec z 0); [contradiction|]. cbn [negb andb] in Hn.
    apply Z.eqb_neq in Hn. lia.
Qed.

(** C1.  After position calculation the page capacity is [C * R].  In
    every pass through the loop body (one that the test-mode guard at
    its head has not ended), the page-full block runs exactly when the
    cursor has reached [C * R] or the body stream is empty: then the
    page number [pid + 1] is emitted once, the page index becomes
    [pid + 1] and the cursor is reset to 0; otherwise the block emits
    nothing and leaves the state alone.  The rest of the pass emits no
    page number and does not change the page index.  By
    [step_below_limit] the guard at the head never ends a pass of a run
    entered below the page limit. *)
Theorem page_boundary_iff_full (e : Engine) (s : State) :
  Positions.calculate_positions (geom e) = Some (grid e) ->
  Engine.test_mode_stop e (pid s) = false ->
  let CR := leaf_col (geom e) * row_num (geom e) in
  let full := (inject_Z CR <= pcnt s)%Q \/ chars s = [] in
  page_chars_num (grid e) = CR
  /\ exists ev1 r ev2 o,
       Engine.page_check e s = (ev1, r)
       /\ Engine.step e s = (ev1 ++ ev2, o)
       /\ page_numbers ev2 = []
       /\ (full ->
           exists ev' s1,
             ev1 = EvPageNumber (pid s + 1) :: ev'
             /\ page_numbers ev1 = [pid s + 1]
             /\ (r = inl s1 \/ r = inr s1)
             /\ pcnt s1 = 0%Q /\ pid s1 = pid s + 1
             /\ forall s', outcome_state o = Some s' -> pid s' = pid s + 1)
       /\ (~ full ->
           ev1 = [] /\ r = inr s
           /\ forall s', outcome_state o = Some s' -> pid s' = pid s).
Proof.
  intros Hg Ht CR full.
  pose proof (grid_capacity _ _ Hg) as HN. fold CR in HN.
  split; [exact HN|].
  assert (D : full \/ ~ full).
  { unfold full. destruct (Qlt_le_dec (pcnt s) (inject_Z CR)) as [L|L].
    - destruct (chars s); [now left; right|].
      right. intros [H|H]; [|discriminate].
      now apply (Qle_not_lt _ _ H).
    - now left; left. }
  destruct D as [F|F].
  - destruct (page_check_fires e s) as (ev & r & s1 & Ep & Tp & Hr & P1 & C1 & _).
    { now rewrite HN. }
    destruct Hr as [-> | ->].
    + exists (EvPageNumber (pid s + 1) :: ev), (inl s1), [], (Break s1).
      split; [exact Ep|]. split.
      { unfold Engine.step. now rewrite Ht, Ep, app_nil_r. }
      split; [reflexivity|]. split; [|tauto].
      intros _. exists ev, s1. repeat split; auto.
      * simpl. now rewrite Tp.
      * intros s' [= <-]. exact P1.
    + destruct (step_unfold e s Ht _ _ Ep) as (ev2 & o & Es & T2 & P2).
      exists (EvPageNumber (pid s + 1) :: ev), (inr s1), ev2, o.
      split; [exact Ep|]. split; [exact Es|]. split; [exact T2|].
      split; [|tauto].
      intros _. exists ev, s1. repeat split; auto.
      * simpl. now rewrite Tp.
      * intros s' D. rewrite (P2 s' D). exact P1.
  - assert (Ep : Engine.page_check e s = ([], inr s)).
    { apply page_check_idle.
      - rewrite HN. intros H. apply F. now left.
      - intros H. apply F. now right. }
    destruct (step_unfold e s Ht _ _ Ep) as (ev2 & o & Es & T2 & P2).
    exists [], (inr s), ev2, o. repeat split; auto. tauto.
Qed.

(** The sample engine with a full page (cursor 8) and one character
    left: the pass emits page number 1 and ends on page 1. *)
Lemma page_boundary_iff_full_witness :
  Positions.calculate_positions (geom Sample.engine)
  = Some (grid Sample.engine)
  /\ Engine.test_mode_stop Sample.engine 0 = false
  /\ page_chars_num (grid Sample.engine) = 2 * 4
  /\ exists ev o,
       Engine.step Sample.engine (Sample.state [65%N] [] (8 # 1)) = (ev, o)
       /\ page_numbers ev = [1]
       /\ forall s', outcome_state o = Some s' -> pid s' = 1.
Proof.
  split; [reflexivity|]. split; [reflexivity|].
  destruct (page_boundary_iff_full Sample.engine
              (Sample.state [65%N] [] (8 # 1)) eq_refl eq_refl)
    as (HN & ev1 & r & ev2 & o & _ & Es & T2 & Hfull & _).
  split; [exact HN|].
  destruct Hfull as (ev' & s1 & _ & T1 & _ & _ & _ & P).
  { left. vm_compute. discriminate. }
  exists (ev1 ++ ev2), o. split; [exact Es|].
  split; [|exact P].
  rewrite page_numbers_app, T1, T2. reflexivity.
Defined.

(** ** The directive ['$'] *)

Lemma skip_spaces_spec (n : nat) : forall cs,
  exists k : nat,
    (k <= n)%nat
    /\ cs = repeat ch_space k ++ Engine.skip_spaces n cs
    /\ ((k < n)%nat -> hd_error (Engine.skip_spaces n cs) <> Some ch_space).
Proof.
  induction n as [|n IH]; intros cs.
  - exists 0%nat. repeat split; [lia|]. lia.
  - destruct cs as [|c rest].
    + exists 0%nat. cbn [Engine.skip_spaces]. 
      destruct (IH []) as (k & Hk & E & H).
      assert (Engine.skip_spaces n [] = []) as ->.
      { destruct (Engine.skip_spaces n []); [reflexivity|].
        destruct k; simpl in E; discriminate. }
      repeat split; [lia|]. intros _. discriminate.
    + cbn [Engine.skip_spaces]. destruct (N.eqb_spec c ch_space) as [->|Hc].
      * destruct (IH rest) as (k & Hk & E & H).
        exists (S k). repeat split; [lia| |].
        -- simpl. now rewrite <- E.
        -- intros Hlt. apply H. lia.
      * exists 0%nat. destruct (IH (c :: rest)) as (k & Hk & E & H).
        destruct k as [|k].
        -- simpl in E. rewrite <- E. repeat split; [lia|].
           intros _. simpl. congruence.
        -- simpl in E. injection E as E1 E2. congruence.
Qed.

(** C4.  When ['$'] is popped from the body stream, the spaces that
    follow it are discarded, at most [R - 1] of them, and the cursor is
    left alone when it is 0 or exactly [C*R/2], set to [C*R/2] when it
    is below, and set to [C*R] when it is above, in which case the next
    pass opens with the page flush.  [C*R/2] is the integer half
    [page_chars_num // 2] of the code, which is the exact half when
    [C*R] is even; nothing is drawn and nothing else changes. *)
Theorem dollar_directive_jump (e : Engine) (s : State) (rest : list char) :
  chars s = ch_dollar :: rest ->
  let N := page_chars_num (grid e) in
  let R := row_num (geom e) in
  exists s',
    Engine.body_block e s = ([], Next s')
    /\ (exists k : nat,
          Z.of_nat k <= Z.max 0 (R - 1)
          /\ rest = repeat ch_space k ++ chars s'
          /\ (Z.of_nat k < R - 1 -> hd_error (chars s') <> Some ch_space))
    /\ (pcnt s == 0 \/ pcnt s == inject_Z (N / 2) -> pcnt s' = pcnt s)
    /\ (~ pcnt s == 0 -> (pcnt s < inject_Z (N / 2))%Q ->
        pcnt s' = inject_Z (N / 2))
    /\ (~ pcnt s == 0 -> (inject_Z (N / 2) < pcnt s)%Q ->
        pcnt s' = inject_Z N
        /\ (Engine.test_mode_stop e (pid s') = false ->
            exists ev o,
              Engine.step e s' = (EvPageNumber (pid s + 1) :: ev, o)))
    /\ rchars s' = rchars s /\ pid s' = pid s
    /\ flag_tbook s' = flag_tbook s /\ flag_rbook s' = flag_rbook s
    /\ last s' = last s
    /\ (N mod 2 = 0 -> (inject_Z (N / 2) == inject_Z N / 2)%Q).
Proof.
  intros Hc N R. unfold Engine.body_block. rewrite Hc.
  change (N.eqb ch_dollar ch_dollar) with true. cbv iota.
  eexists. split; [reflexivity|]. cbn [chars pcnt rchars pid flag_tbook flag_rbook last].
  split; [|split; [|split; [|split]]].
  - destruct (skip_spaces_spec (Z.to_nat (row_num (geom e) - 1)) rest) as (k & Hk & E & H).
    exists k. fold R in Hk, E, H |- *. repeat split; [lia|exact E|].
    intros Hlt. apply H. lia.
  - intros H. unfold Engine.dollar_jump. fold N.
    destruct H as [H|H]; apply Qeq_bool_iff in H; rewrite H; [reflexivity|].
    now rewrite orb_true_r.
  - intros H0 Hlt. unfold Engine.dollar_jump. fold N.
    destruct (Qeq_bool (pcnt s) 0) eqn:E0; [apply Qeq_bool_iff in E0; tauto|].
    destruct (Qeq_bool (pcnt s) (inject_Z (N / 2))) eqn:E1.
    { apply Qeq_bool_iff in E1. rewrite E1 in Hlt. exfalso. now apply (Qlt_irrefl _ Hlt). }
    cbn [orb]. apply Qltb_lt in Hlt. now rewrite Hlt.
  - intros H0 Hgt. unfold Engine.dollar_jump. fold N.
    destruct (Qeq_bool (pcnt s) 0) eqn:E0; [apply Qeq_bool_iff in E0; tauto|].
    destruct (Qeq_bool (pcnt s) (inject_Z (N / 2))) eqn:E1.
    { apply Qeq_bool_iff in E1. rewrite E1 in Hgt. exfalso. now apply (Qlt_irrefl _ Hgt). }
    cbn [orb].
    destruct (Qltb (pcnt s) (inject_Z (N / 2))) eqn:E2.
    { apply Qltb_lt in E2. exfalso. apply (Qlt_irrefl (pcnt s)). now apply Qlt_trans with (inject_Z (N / 2)). }
    split; [reflexivity|].
    intros Ht.
    match goal with |- context [Engine.step e ?st] =>
      destruct (step_flushes e st) as (ev & o & Es) end.
    { cbn [pcnt]. apply Qle_refl. }
    { exact Ht. }
    now exists ev, o.
  - repeat split. intros Heven.
    pose proof (Z.div_mod N 2 ltac:(lia)) as E. rewrite Heven in E.
    unfold Qeq, Qdiv, Qmult, Qinv, inject_Z. simpl. lia.
Qed.

(** The sample engine (capacity 8) with the cursor on cell 5:
    the three spaces after ['$'] are dropped ([R - 1 = 3]) and the
    cursor jumps to 8. *)
Lemma dollar_directive_jump_witness :
  chars (Sample.state [ch_dollar; ch_space; ch_space; ch_space; 65%N] [] (5 # 1))
  = ch_dollar :: [ch_space; ch_space; ch_space; 65%N]
  /\ exists s',
       Engine.body_block Sample.engine
         (Sample.state [ch_dollar; ch_space; ch_space; ch_space; 65%N] []
                       (5 # 1))
       = ([], Next s')
       /\ chars s' = [65%N]
       /\ pcnt s' = inject_Z 8.
Proof.
  split; [reflexivity|].
  destruct (dollar_directive_jump Sample.engine
              (Sample.state [ch_dollar; ch_space; ch_space; ch_space; 65%N]
                            [] (5 # 1))
              [ch_space; ch_space; ch_space; 65%N] eq_refl)
    as (s' & Eb & _ & _ & _ & Hup & _).
  exists s'. split; [exact Eb|].
  split.
  - vm_compute in Eb. now injection Eb as <-.
  - apply Hup; vm_compute; [discriminate|reflexivity].
Defined.

(** ** Termination and annotation overflow *)

Lemma annot_loop_consumes e p rcs : forall a,
  (length (snd (fst (Engine.annot_loop e p rcs a))) <= pred (length rcs))%nat.
Proof.
  induction rcs as [|rc rest IH]; intros a; [simpl; lia|].
  cbn [Engine.annot_loop].
  destruct (Engine.annot_char e p rc a) as [[ev go] a'].
  destruct go.
  - specialize (IH a').
    destruct (Engine.annot_loop e p rest a') as [[ev' rem] a''].
    cbn [fst snd length pred] in *. lia.
  - cbn [fst snd length pred]. lia.
Qed.

Lemma annot_block_consumes e s ev x s' :
  rchars s <> [] ->
  Engine.annot_block e s = (ev, x) -> exit_state x = Some s' ->
  chars s' = chars s /\ (length (rchars s') < length (rchars s))%nat.
Proof.
  intros Hne. unfold Engine.annot_block.
  destruct (row_num (geom e) =? 0); [intros [= <- <-]; discriminate|].
  match goal with |- context [Engine.annot_loop e ?p ?r ?a] =>
    pose proof (annot_loop_consumes e p r a) as L;
    destruct (Engine.annot_loop e p r a) as [[ev' rem] a'] end.
  cbn [fst snd] in L.
  assert (0 < length (rchars s))%nat by (destruct (rchars s); [congruence|simpl; lia]).
  destruct rem.
  - break_match; intros [= <- <-] [= <-]; cbn [chars rchars length]; split; auto.
  - intros [= <- <-] [= <-]; cbn [chars rchars]; split; auto. lia.
Qed.

Lemma skip_spaces_length n : forall cs,
  (length (Engine.skip_spaces n cs) <= length cs)%nat.
Proof.
  induction n as [|n IH]; intros cs; [simpl; lia|].
  destruct cs as [|c rest]; cbn [Engine.skip_spaces].
  - apply IH.
  - destruct (N.eqb c ch_space).
    + specialize (IH rest). simpl. lia.
    + apply IH.
Qed.

Lemma take_note_length cs :
  (length (fst (Engine.take_note cs)) + length (snd (Engine.take_note cs))
   <= length cs)%nat.
Proof.
  induction cs as [|c rest IH]; [simpl; lia|].
  cbn [Engine.take_note]. destruct (N.eqb c ch_note_close).
  - simpl. lia.
  - destruct (Engine.take_note rest). cbn [fst snd length] in *. lia.
Qed.

Lemma page_end_punct_length e pc rest fx fy fname fsize col :
  (length (snd (Engine.page_end_punct e pc rest fx fy fname fsize col))
   <= length rest)%nat.
Proof.
  unfold Engine.page_end_punct. repeat break_match; cbn [snd length]; lia.
Qed.

Lemma place_text_consumes e s c rest ev s' :
  Engine.place_text e s c rest = (ev, Next s') ->
  (length (chars s') <= length rest)%nat /\ rchars s' = rchars s.
Proof.
  unfold Engine.place_text. intros H.
  repeat match type of H with
  | context [Engine.page_end_punct e ?pc ?rest ?fx ?fy ?fn ?fs ?col] =>
      pose proof (page_end_punct_length e pc rest fx fy fn fs col);
      destruct (Engine.page_end_punct e pc rest fx fy fn fs col)
  | context [match ?x with _ => _ end] => destruct x eqn:?
  | context [if ?x then _ else _] => destruct x eqn:?
  end;
  try discriminate; injection H as <- <-; cbn [chars rchars snd] in *;
  split; auto.
Qed.

Lemma body_block_consumes e s ev s' :
  Engine.body_block e s = (ev, Next s') ->
  (pending s' < pending s)%nat.
Proof.
  unfold Engine.body_block, pending. intros H.
  destruct (chars s) as [|c rest]; [discriminate|].
  pose proof (skip_spaces_length (Z.to_nat (row_num (geom e) - 1)) rest).
  pose proof (take_note_length rest).
  repeat match type of H with
  | context [Engine.take_note ?r] => destruct (Engine.take_note r)
  | context [if ?x then _ else _] => destruct x
  end;
  try (injection H as <- <-; cbn [chars rchars length fst snd] in *; lia).
  apply place_text_consumes in H. destruct H as [L ->]. simpl. lia.
Qed.

Lemma page_check_keeps e s ev s1 :
  Engine.page_check e s = (ev, inr s1) ->
  chars s1 = chars s /\ rchars s1 = rchars s /\ chars s <> [].
Proof.
  unfold Engine.page_check. intros H.
  repeat match type of H with
  | context [match chars s with _ => _ end] => destruct (chars s) eqn:?
  | context [if ?x then _ else _] => destruct x eqn:?
  end; try discriminate; injection H as <- <-; cbn [chars rchars];
  repeat split; try congruence.
  rewrite orb_true_r in *. discriminate.
Qed.

Lemma step_consumes e s ev s' :
  Engine.step e s = (ev, Next s') -> (pending s' < pending s)%nat.
Proof.
  unfold Engine.step. intros H.
  destruct (Engine.test_mode_stop e (pid s)); [discriminate|].
  destruct (Engine.page_check e s) as [ev1 [s1|s1]] eqn:Ep; [discriminate|].
  apply page_check_keeps in Ep. destruct Ep as (E1 & E2 & _).
  assert (P1 : pending s1 = pending s) by (unfold pending; now rewrite E1, E2).
  destruct (rchars s1) as [|rc rcs] eqn:Er.
  - destruct (Engine.body_block e s1) as [ev3 o] eqn:Eb.
    injection H as <- ->. apply body_block_consumes in Eb. lia.
  - destruct (Engine.annot_block e s1) as [ev2 x] eqn:Ea.
    destruct x as [s2|s2|]; [| |discriminate].
    + injection H as <- <-.
      destruct (annot_block_consumes e s1 ev2 _ s2 ltac:(congruence) Ea eq_refl) as [C L].
      unfold pending in *. rewrite C. lia.
    + destruct (annot_block_consumes e s1 ev2 _ s2 ltac:(congruence) Ea eq_refl) as [C L].
      destruct (Engine.body_block e s2) as [ev3 o] eqn:Eb.
      injection H as <- ->. apply body_block_consumes in Eb.
      unfold pending in *. rewrite C in *. lia.
Qed.

Lemma run_terminates e : forall fuel s,
  (pending s < fuel)%nat ->
  exists ev o, Engine.run e fuel s = Some (ev, o) /\ is_next o = false.
Proof.
  induction fuel as [|fuel IH]; intros s H; [lia|].
  cbn [Engine.run].
  destruct (Engine.step e s) as [ev o] eqn:Es.
  destruct o as [s'| s' |].
  - apply step_consumes in Es.
    destruct (IH s' ltac:(lia)) as (ev' & o' & -> & Ho).
    now exists (ev ++ ev'), o'.
  - now exists ev, (Break s').
  - now exists ev, Raise.
Qed.

Lemma annot_char_overflow (e : Engine) (p : Z) (rc rc' : char)
      (a : Engine.Packing) (f : font) (name : string) :
  Engine.r_pos a = [] ->
  ((N.eqb rc ch_book_open || N.eqb rc ch_book_close) && vline_on (book e))%bool
    = false ->
  Resolver.resolve_comment e rc = (rc', Some f) ->
  vfonts e f = Some name ->
  Py.mem rc' (comment_comma_nop (book e)) = false ->
  exists ev a',
    Engine.annot_char e p rc a = (ev, false, a')
    /\ Engine.a_pcnt a' = Engine.a_pcnt a
    /\ drawn ev = []
    /\ skipped ev = if opt_v e then [rc'] else [].
Proof.
  intros Hr H1 H2 H3 H4. unfold Engine.annot_char.
  rewrite H1, H2, H3, H4, Hr.
  eexists _, _. split; [reflexivity|]. split; [reflexivity|].
  destruct (opt_v e); split; reflexivity.
Qed.

(** ** Annotation packing: half cells and rounding *)

Lemma annot_char_cases e p rc a :
  let r := Engine.annot_char e p rc a in
  (Engine.r_pos (snd r) = Engine.r_pos a
   /\ Engine.a_pcnt (snd r) = Engine.a_pcnt a)
  \/ (exists cell,
        Engine.r_pos a = cell :: Engine.r_pos (snd r)
        /\ Engine.a_pcnt (snd r) = (Engine.a_pcnt a + (1 # 2))%Q
        /\ snd (fst r) = true).
Proof.
  unfold Engine.annot_char.
  repeat break_match; cbn [fst snd Engine.r_pos Engine.a_pcnt];
    try (left; split; reflexivity).
  all: right; eexists; repeat split.
Qed.

Lemma annot_loop_slots e p rcs : forall a,
  exists k : nat,
    (length (Engine.r_pos (snd (Engine.annot_loop e p rcs a))) + k
     = length (Engine.r_pos a))%nat
    /\ Engine.a_pcnt (snd (Engine.annot_loop e p rcs a))
       == Engine.a_pcnt a + inject_Z (Z.of_nat k) * (1 # 2).
Proof.
  induction rcs as [|rc rest IH]; intros a.
  - exists 0%nat. split; [simpl; lia|]. simpl. ring.
  - cbn [Engine.annot_loop].
    pose proof (annot_char_cases e p rc a) as C. cbv zeta in C.
    destruct (Engine.annot_char e p rc a) as [[ev go] a'].
    cbn [fst snd] in C.
    destruct go.
    + destruct (IH a') as (k & Hk & Hp).
      destruct (Engine.annot_loop e p rest a') as [[ev' rem] a''].
      cbn [snd] in *.
      destruct C as [[C1 C2] | (cell & C1 & C2 & _)].
      * exists k. rewrite <- C1, <- C2. now split.
      * exists (S k). rewrite C1. split; [simpl; lia|].
        rewrite Hp, C2, Nat2Z.inj_succ. unfold Z.succ. rewrite inject_Z_plus. ring.
    + cbn [snd]. destruct C as [[C1 C2] | (cell & _ & _ & C3)]; [|discriminate].
      exists 0%nat. rewrite C1, C2. split; [lia|]. simpl. ring.
Qed.

(** The inner loop is left with characters still queued only by the
    [break] of line 961, on an empty position run. *)
Lemma annot_loop_break e p rcs : forall a,
  snd (fst (Engine.annot_loop e p rcs a)) <> [] ->
  Engine.r_pos (snd (Engine.annot_loop e p rcs a)) = [].
Proof.
  induction rcs as [|rc rest IH]; intros a; [simpl; congruence|].
  cbn [Engine.annot_loop].
  destruct (Engine.annot_char e p rc a) as [[ev go] a'] eqn:Ec.
  destruct go.
  - specialize (IH a').
    destruct (Engine.annot_loop e p rest a') as [[ev' rem] a''].
    exact IH.
  - cbn [fst snd]. intros _.
    unfold Engine.annot_char in Ec.
    repeat match type of Ec with
    | context [match ?x with _ => _ end] => destruct x eqn:?
    | context [if ?x then _ else _] => destruct x eqn:?
    end; try discriminate; injection Ec as <- <-; reflexivity.
Qed.

(** C7.  Each annotation character that takes a slot of the position
    run advances the cursor by exactly one half, and no other character
    moves it: after a pass of the inner loop that took [k] slots the
    cursor is the entry value plus [k/2], unrounded.  The annotation
    block converts the cursor to a whole cell count once, after the
    loop, when the queue has been emptied, by [int(pcnt + 0.5)], which
    is the floor of [pcnt + 1/2] (round half up); while characters
    remain queued, which happens only when the position run has been
    used up, the cursor is carried over unrounded. *)
Theorem annotation_half_cell_rounding (e : Engine) :
  (forall p rc a,
     let r := Engine.annot_char e p rc a in
     (Engine.r_pos (snd r) = Engine.r_pos a
      /\ Engine.a_pcnt (snd r) = Engine.a_pcnt a)
     \/ (exists cell,
           Engine.r_pos a = cell :: Engine.r_pos (snd r)
           /\ Engine.a_pcnt (snd r) = (Engine.a_pcnt a + (1 # 2))%Q))
  /\ (forall s : State,
        rchars s <> [] ->
        row_num (geom e) <> 0 ->
        (0 <= pcnt s)%Q ->
        exists ev rem a' x s' (k : nat),
          let run := Engine.annot_rpos e (Py.int (pcnt s))
                       (Engine.annot_cnt e (rchars s)) in
          Engine.annot_loop e (pid s) (rchars s)
            (Engine.mkPacking run (0%Q, 0%Q) (pcnt s) (flag_rbook s))
          = (ev, rem, a')
          /\ (length (Engine.r_pos a') + k = length run)%nat
          /\ Engine.a_pcnt a' == pcnt s + inject_Z (Z.of_nat k) * (1 # 2)
          /\ Engine.annot_block e s = (ev, x)
          /\ exit_state x = Some s'
          /\ rchars s' = rem
          /\ (rem <> [] ->
              pcnt s' = Engine.a_pcnt a' /\ Engine.r_pos a' = [])
          /\ (rem = [] ->
              pcnt s' = inject_Z (Py.int (Engine.a_pcnt a' + (1 # 2))%Q)
              /\ Py.int (Engine.a_pcnt a' + (1 # 2))%Q
                 = Qfloor (pcnt s + inject_Z (Z.of_nat k) * (1 # 2)
                           + (1 # 2)))).
Proof.
  split.
  { intros p rc a. pose proof (annot_char_cases e p rc a) as C.
    cbv zeta in *.
    destruct C as [C|(cell & C1 & C2 & _)]; [now left|right; now exists cell]. }
  intros s Hne HR H0.
  unfold Engine.annot_block.
  destruct (Z.eqb_spec (row_num (geom e)) 0); [contradiction|].
  match goal with |- context [Engine.annot_loop e ?p ?r ?a] =>
    destruct (annot_loop_slots e p r a) as (k & Hk & Hp);
    pose proof (annot_loop_break e p r a) as Hb;
    destruct (Engine.annot_loop e p r a) as [[ev rem] a'] end.
  cbn [fst snd Engine.r_pos Engine.a_pcnt] in Hk, Hp, Hb.
  assert (Hfl : Py.int (Engine.a_pcnt a' + (1 # 2))%Q
                = Qfloor (pcnt s + inject_Z (Z.of_nat k) * (1 # 2) + (1 # 2))).
  { rewrite int_floor.
    - apply Qfloor_comp. rewrite Hp. reflexivity.
    - rewrite Hp.
      pose proof (inject_Z_nonneg (Z.of_nat k) ltac:(lia)). lra. }
  destruct rem as [|r0 rem].
  - destruct (Qle_bool _ _);
      eexists ev, [], a', _, _, k; cbv zeta;
      (split; [reflexivity|]); (split; [exact Hk|]); (split; [exact Hp|]);
      (split; [reflexivity|]); (split; [reflexivity|]); (split; [reflexivity|]);
      (split; [congruence|]); intros _; (split; [reflexivity|exact Hfl]).
  - eexists ev, (r0 :: rem), a', _, _, k; cbv zeta.
    split; [reflexivity|]. split; [exact Hk|]. split; [exact Hp|].
    split; [reflexivity|]. split; [reflexivity|]. split; [reflexivity|].
    split; [intros D; split; [reflexivity|exact (Hb D)]|].
    intros D; discriminate.
Qed.

(** Three annotation characters queued with the cursor on cell 1 of
    the sample grid: three slots are taken, the cursor leaves the loop
    at 5/2 and is rounded to 3. *)
Lemma annotation_half_cell_rounding_witness :
  rchars (Sample.state [65%N] [88; 89; 90]%N (1 # 1)) <> []
  /\ row_num (geom Sample.engine) <> 0
  /\ (0 <= pcnt (Sample.state [65%N] [88; 89; 90]%N (1 # 1)))%Q
  /\ exists ev x s' a',
       Engine.annot_block Sample.engine
         (Sample.state [65%N] [88; 89; 90]%N (1 # 1)) = (ev, x)
       /\ exit_state x = Some s'
       /\ Engine.a_pcnt a' == 5 # 2
       /\ pcnt s' = inject_Z 3.
Proof.
  assert (H1 : rchars (Sample.state [65%N] [88; 89; 90]%N (1 # 1)) <> [])
    by discriminate.
  assert (H2 : row_num (geom Sample.engine) <> 0) by (simpl; lia).
  assert (H3 : (0 <= pcnt (Sample.state [65%N] [88; 89; 90]%N (1 # 1)))%Q)
    by (vm_compute; discriminate).
  split; [exact H1|]. split; [exact H2|]. split; [exact H3|].
  destruct (annotation_half_cell_rounding Sample.engine) as (_ & Hblock).
  destruct (Hblock (Sample.state [65%N] [88; 89; 90]%N (1 # 1)) H1 H2 H3)
    as (ev & rem & a' & x & s' & k & El & Hk & Hp & Eb & Ex & Er
        & _ & Hround).
  exists ev, x, s', a'. split; [exact Eb|]. split; [exact Ex|].
  vm_compute in El. injection El as <- <- <-.
  split; [reflexivity|].
  destruct (Hround eq_refl) as [-> _]. reflexivity.
Defined.

(** ** The loop invariant *)

Lemma whole_inject n : whole (inject_Z n).
Proof. now exists n. Qed.

Lemma whole_succ q : whole q -> whole (q + 1).
Proof. intros [n H]. exists (n + 1). rewrite H. now rewrite inject_Z_plus. Qed.

Lemma whole_pred q : whole q -> whole (q - 1).
Proof.
  intros [n H]. exists (n - 1). rewrite H. now rewrite inject_Z_sub.
Qed.

Lemma capacity_positive e : grid_ready e ->
  0 < row_num (geom e) <= page_chars_num (grid e).
Proof.
  intros (Hg & HC & HR). rewrite (grid_capacity _ _ Hg). nia.
Qed.

Lemma int_nonneg (x : Q) : (0 <= x)%Q -> 0 <= Py.int x.
Proof.
  intros H. rewrite int_floor by assumption.
  replace 0 with (Qfloor 0) by reflexivity. now apply Qfloor_resp_le.
Qed.

Lemma annot_block_inv e s ev x s' :
  (0 <= pcnt s)%Q ->
  Engine.annot_block e s = (ev, x) -> exit_state x = Some s' ->
  loop_inv s'
  /\ (x = Engine.AFallThrough s' ->
      rchars s' = []
      /\ (pcnt s' < inject_Z (page_chars_num (grid e)))%Q).
Proof.
  intros H0. unfold Engine.annot_block.
  destruct (row_num (geom e) =? 0); [intros [= <- <-]; discriminate|].
  match goal with |- context [Engine.annot_loop e ?p ?r ?a] =>
    destruct (annot_loop_slots e p r a) as (k & _ & Hp);
    destruct (Engine.annot_loop e p r a) as [[ev' rem] a'] end.
  cbn [snd Engine.a_pcnt] in Hp.
  assert (Ha : (0 <= Engine.a_pcnt a')%Q).
  { rewrite Hp. pose proof (inject_Z_nonneg (Z.of_nat k) ltac:(lia)). lra. }
  destruct rem as [|r0 rem].
  - assert (Hi : (0 <= inject_Z (Py.int (Engine.a_pcnt a' + (1 # 2))))%Q).
    { apply inject_Z_nonneg, int_nonneg. lra. }
    destruct (Qle_bool _ _) eqn:E; intros [= <- <-] [= <-];
      (split; [split; [exact Hi|intros _; apply whole_inject]|]);
      intros D; try discriminate.
    split; [reflexivity|]. cbn [pcnt]. apply Qltb_lt. unfold Qltb. now rewrite E.
  - intros [= <- <-] [= <-]. split; [|intros D; discriminate].
    split; [exact Ha|]. cbn [rchars]. discriminate.
Qed.

Lemma place_text_inv e s c rest ev s' :
  0 < page_chars_num (grid e) ->
  (0 <= pcnt s)%Q -> whole (pcnt s) ->
  Engine.place_text e s c rest = (ev, Next s') ->
  (0 <= pcnt s')%Q /\ whole (pcnt s').
Proof.
  intros HN H0 Hw. unfold Engine.place_text.
  set (pc := if Qltb (pcnt s) (inject_Z (page_chars_num (grid e)))
             then (pcnt s + 1)%Q else pcnt s).
  assert (Hpc : (0 <= pc)%Q /\ whole pc /\ (1 <= pc)%Q).
  { unfold pc. destruct (Qltb _ _) eqn:E.
    - split; [lra|]. split; [now apply whole_succ|lra].
    - split; [exact H0|]. split; [exact Hw|].
      unfold Qltb in E. rewrite negb_false_iff in E. apply Qle_bool_iff in E.
      assert (1 <= inject_Z (page_chars_num (grid e)))%Q.
      { replace 1%Q with (inject_Z 1) by reflexivity. rewrite <- Zle_Qle. lia. }
      lra. }
  destruct Hpc as (P0 & Pw & P1).
  intros H.
  repeat match type of H with
  | context [Engine.page_end_punct e ?a ?b ?c ?d ?f ?g ?h] =>
      destruct (Engine.page_end_punct e a b c d f g h)
  | context [match ?x with _ => _ end] => destruct x eqn:?
  | context [if ?x then _ else _] => destruct x eqn:?
  end; try discriminate; injection H as <- <-; cbn [pcnt];
  (split; [lra|]); auto using whole_pred.
Qed.

Lemma body_block_inv e s ev s' :
  grid_ready e ->
  (0 <= pcnt s)%Q -> whole (pcnt s) ->
  Engine.body_block e s = (ev, Next s') ->
  loop_inv s'.
Proof.
  intros Hg H0 Hw. pose proof (capacity_positive e Hg) as [HR HN].
  assert (QN : (0 <= inject_Z (page_chars_num (grid e)))%Q)
    by (apply inject_Z_nonneg; lia).
  assert (QH : (0 <= inject_Z (page_chars_num (grid e) / 2))%Q).
  { apply inject_Z_nonneg. apply Z.div_pos; lia. }
  assert (QA : (0 <= inject_Z (page_chars_num (grid e) - row_num (geom e)))%Q)
    by (apply inject_Z_nonneg; lia).
  unfold Engine.body_block. intros H.
  destruct (chars s) as [|c rest]; [discriminate|].
  repeat match type of H with
  | context [Engine.take_note ?r] => destruct (Engine.take_note r)
  | context [if ?x then _ else _] => destruct x
  end;
  try (injection H as <- <-; unfold loop_inv; cbn [pcnt rchars];
       unfold Engine.dollar_jump, Engine.amp_jump;
       repeat break_match; split; auto using whole_inject).
  apply place_text_inv in H; try assumption; try lia.
  destruct H as [A B]. split; auto.
Qed.

Lemma page_check_inv e s ev s1 :
  0 < page_chars_num (grid e) ->
  loop_inv s ->
  Engine.page_check e s = (ev, inr s1) ->
  loop_inv s1 /\ rchars s1 = rchars s
  /\ (pcnt s1 < inject_Z (page_chars_num (grid e)))%Q.
Proof.
  intros HN [H0 Hw]. unfold Engine.page_check. intros H.
  assert (QN : (0 < inject_Z (page_chars_num (grid e)))%Q).
  { replace 0%Q with (inject_Z 0) by reflexivity. now rewrite <- Zlt_Qlt. }
  repeat match type of H with
  | context [match chars s with _ => _ end] => destruct (chars s) eqn:?
  | context [if ?x then _ else _] => destruct x eqn:?
  end; try discriminate; injection H as <- <-; cbn [pcnt rchars];
  unfold loop_inv; cbn [pcnt rchars];
  try (rewrite orb_true_r in *; discriminate).
  all: first
    [ split; [split; [lra|intros _; exists 0; reflexivity]|];
      split; [reflexivity|exact QN]
    | split; [split; assumption|]; split; [reflexivity|];
      rewrite orb_false_r in *; apply Qltb_lt; unfold Qltb;
      match goal with H : Qle_bool _ _ = false |- _ => now rewrite H end ].
Qed.

(** The invariant of the loop head: the cursor is not negative, and it
    is a whole number whenever no annotation is queued.  Body text is
    therefore always placed from a whole cursor below the capacity. *)
Lemma step_inv e s ev s' :
  grid_ready e -> loop_inv s ->
  Engine.step e s = (ev, Next s') -> loop_inv s'.
Proof.
  intros Hg Hi. pose proof (capacity_positive e Hg) as [HR HN].
  unfold Engine.step.
  destruct (Engine.test_mode_stop e (pid s)); [discriminate|].
  destruct (Engine.page_check e s) as [ev1 [s1|s1]] eqn:Ep; [discriminate|].
  apply page_check_inv in Ep; [|lia|assumption].
  destruct Ep as ([P0 Pw] & Er & Plt).
  destruct (rchars s1) as [|rc rcs] eqn:E1.
  - destruct (Engine.body_block e s1) as [ev3 o] eqn:Eb.
    intros [= <- ->]. eapply body_block_inv; eauto.
  - destruct (Engine.annot_block e s1) as [ev2 x] eqn:Ea.
    destruct x as [s2|s2|]; [| |discriminate].
    + intros [= <- <-].
      now destruct (annot_block_inv e s1 ev2 _ s2 P0 Ea eq_refl).
    + destruct (annot_block_inv e s1 ev2 _ s2 P0 Ea eq_refl) as ([A0 Aw] & F).
      destruct (F eq_refl) as [Fr _].
      destruct (Engine.body_block e s2) as [ev3 o] eqn:Eb.
      intros [= <- ->]. eapply body_block_inv; eauto.
Qed.

Lemma step_factor e s :
  Engine.step e s
  = match Engine.before_body e s with
    | (ev, inl o) => (ev, o)
    | (ev, inr s2) =>
        let '(ev3, o) := Engine.body_block e s2 in (ev ++ ev3, o)
    end.
Proof.
  unfold Engine.step, Engine.before_body.
  destruct (Engine.test_mode_stop e (pid s)); [reflexivity|].
  destruct (Engine.page_check e s) as [ev1 [s1|s1]]; [reflexivity|].
  destruct (rchars s1); [reflexivity|].
  destruct (Engine.annot_block e s1) as [ev2 [s2|s2|]]; try reflexivity.
  destruct (Engine.body_block e s2) as [ev3 o]. now rewrite app_assoc.
Qed.

Lemma body_entered_whole e s ev s2 :
  grid_ready e -> loop_inv s ->
  Engine.before_body e s = (ev, inr s2) ->
  rchars s2 = []
  /\ exists n, pcnt s2 == inject_Z n /\ 0 <= n < page_chars_num (grid e).
Proof.
  intros Hg Hi. pose proof (capacity_positive e Hg) as [HR HN].
  unfold Engine.before_body.
  destruct (Engine.test_mode_stop e (pid s)); [discriminate|].
  destruct (Engine.page_check e s) as [ev1 [s1|s1]] eqn:Ep; [discriminate|].
  apply page_check_inv in Ep; [|lia|assumption].
  destruct Ep as ([P0 Pw] & Er & Plt).
  assert (G : forall s2, (0 <= pcnt s2)%Q -> whole (pcnt s2) ->
              (pcnt s2 < inject_Z (page_chars_num (grid e)))%Q ->
              exists n, pcnt s2 == inject_Z n
                        /\ 0 <= n < page_chars_num (grid e)).
  { intros s3 A0 [n An] Alt. exists n. split; [exact An|].
    rewrite An in A0, Alt.
    replace 0%Q with (inject_Z 0) in A0 by reflexivity.
    rewrite <- Zle_Qle in A0. rewrite <- Zlt_Qlt in Alt. lia. }
  destruct (rchars s1) as [|rc rcs] eqn:E1.
  - intros [= <- <-]. split; [exact E1|]. apply G; auto.
  - destruct (Engine.annot_block e s1) as [ev2 x] eqn:Ea.
    destruct x as [s3|s3|]; try discriminate.
    intros [= <- <-].
    destruct (annot_block_inv e s1 ev2 _ s3 P0 Ea eq_refl) as ([A0 Aw] & F).
    destruct (F eq_refl) as [Fr Flt].
    split; [exact Fr|]. apply G; auto.
Qed.

Lemma cell_exists (e : Engine) (n : Z) :
  grid_ready e -> 0 <= n < page_chars_num (grid e) ->
  exists cell, Py.index (pos_l (grid e)) (n + 1) = Some cell.
Proof.
  intros (Hg & HC & HR) Hn. rewrite (grid_capacity _ _ Hg) in Hn.
  destruct (grid_cell (geom e) (grid e) (n + 1) HC HR ltac:(lia) Hg) as [E _].
  eauto.
Qed.

(** ** Font resolution and the placeholder *)

Lemma place_text_unresolved e s c rest c' :
  Resolver.resolve_text e c = (c', None) ->
  exists s', Engine.place_text e s c rest = ([], Next s').
Proof.
  intros H. unfold Engine.place_text. rewrite H.
  destruct (_ && _)%bool; now eexists.
Qed.

(** C8, as stated, fails: the candidates are "a.ttf" (primary, without
    the placeholder) and "b.ttf" (with it); the character U+3042, which
    neither supports, resolves to the placeholder in "b.ttf", not in the
    primary font.  And the space, which no glyph table reports either,
    is not replaced at all: it keeps the first candidate. *)
Lemma placeholder_not_primary :
  try_st (book Sample.two_font_engine) = 0
  /\ (forall f, In f (tfns Sample.two_font_engine) ->
                font_check Sample.two_font_engine f 12354%N = false)
  /\ hd_error (tfns Sample.two_font_engine) = Some "a.ttf"%string
  /\ Resolver.resolve_text Sample.two_font_engine 12354%N
     = (ch_box, Some "b.ttf"%string)
  /\ snd (Resolver.resolve_text Sample.two_font_engine 12354%N)
     <> hd_error (tfns Sample.two_font_engine)
  /\ (forall f, In f (tfns Sample.two_font_engine) ->
                font_check Sample.two_font_engine f ch_space = false)
  /\ Resolver.resolve_text Sample.two_font_engine ch_space
     = (ch_space, Some "a.ttf"%string).
Proof.
  split; [reflexivity|]. split.
  - intros f [<-|[<-|[]]]; reflexivity.
  - split; [reflexivity|]. split; [reflexivity|].
    split; [vm_compute; discriminate|]. split; [|reflexivity].
    intros f [<-|[<-|[]]]; reflexivity.
Qed.

(** C8, amended.  With script fallback disabled, a character other
    than the two spaces that no candidate font supports is replaced by
    the placeholder U+25A1, and the placeholder is resolved by the first
    candidate, in list order, whose glyph table has it: the primary font
    when the primary font has the placeholder.  When no candidate has
    it, resolution gives no font, nothing is drawn and the loop goes on:
    there is no fatal failure. *)
Theorem placeholder_first_supporting_font (e : Engine) (c : char) :
  try_st (book e) = 0 ->
  (forall f, In f (tfns e) -> font_check e f c = false) ->
  c <> ch_space -> c <> ch_ideo_space ->
  Resolver.resolve_text e c
  = (ch_box, find (fun f => font_check e f ch_box) (tfns e))
  /\ (forall f0, hd_error (tfns e) = Some f0 ->
                 font_check e f0 ch_box = true ->
                 Resolver.resolve_text e c = (ch_box, Some f0))
  /\ (find (fun f => font_check e f ch_box) (tfns e) = None ->
      forall s rest, exists s',
        Engine.place_text e s c rest = ([], Next s')).
Proof.
  intros Ht Hall Hs Hi.
  assert (G : Resolver.get_font e c (tfns e) = None).
  { unfold Resolver.get_font.
    destruct (N.eqb_spec c ch_space); [contradiction|].
    destruct (N.eqb_spec c ch_ideo_space); [contradiction|].
    now apply find_none_all. }
  assert (E : Resolver.resolve_text e c
              = (ch_box, find (fun f => font_check e f ch_box) (tfns e))).
  { unfold Resolver.resolve_text. rewrite G, Ht. reflexivity. }
  split; [exact E|]. split.
  - intros f0 Hh Hb. rewrite E. f_equal. now apply find_head.
  - intros Hn s rest. rewrite Hn in E. now apply place_text_unresolved with (c' := ch_box).
Qed.

(** The sample engine, whose only font has the placeholder: U+3042
    resolves to the placeholder in that font. *)
Lemma placeholder_first_supporting_font_witness :
  try_st (book Sample.engine) = 0
  /\ (forall f, In f (tfns Sample.engine) ->
                font_check Sample.engine f 12354%N = false)
  /\ 12354%N <> ch_space /\ 12354%N <> ch_ideo_space
  /\ Resolver.resolve_text Sample.engine 12354%N
     = (ch_box, Some "a.ttf"%string).
Proof.
  assert (H : forall f, In f (tfns Sample.engine) ->
                        font_check Sample.engine f 12354%N = false).
  { intros f [<-|[]]. reflexivity. }
  split; [reflexivity|]. split; [exact H|].
  split; [discriminate|]. split; [discriminate|].
  destruct (placeholder_first_supporting_font Sample.engine 12354%N
              eq_refl H ltac:(discriminate) ltac:(discriminate))
    as (_ & Hprim & _).
  exact (Hprim "a.ttf"%string eq_refl eq_refl).
Defined.

(** ** Punctuation that takes no cell *)

(** The guard of lines 1088-1091 on an integral cursor below the
    capacity: the cursor is advanced and the cell looked up. *)
Lemma place_text_guard e s n cell :
  pcnt s == inject_Z n ->
  n < page_chars_num (grid e) ->
  Py.index (pos_l (grid e)) (n + 1) = Some cell ->
  Qltb (pcnt s) (inject_Z (page_chars_num (grid e))) = true
  /\ (Qle_bool (pcnt s + 1) (inject_Z (page_chars_num (grid e)))
      && (Py.int (pcnt s + 1) <=? Z.of_nat (length (pos_l (grid e))) - 1))%bool
     = true
  /\ Py.index (pos_l (grid e)) (Py.int (pcnt s + 1)) = Some cell.
Proof.
  intros Hp Hn Hc.
  assert (Hi : Py.int (pcnt s + 1) = n + 1).
  { apply int_of_Qeq. rewrite Hp. now rewrite inject_Z_plus. }
  assert (L : (inject_Z n < inject_Z (page_chars_num (grid e)))%Q)
    by now rewrite <- Zlt_Qlt.
  assert (L' : (inject_Z (n + 1) <= inject_Z (page_chars_num (grid e)))%Q)
    by (rewrite <- Zle_Qle; lia).
  split; [|split].
  - apply Qltb_lt. now rewrite Hp.
  - rewrite Hi. apply andb_true_intro. split.
    + apply Qle_bool_iff. rewrite Hp. now rewrite <- inject_Z_succ.
    + apply Z.leb_le. now apply index_some_bound in Hc.
  - now rewrite Hi.
Qed.

(** C6, as stated, fails twice.  A comma configured as punctuation
    that takes no cell, but missing from every font, is replaced by the
    placeholder, drawn in a cell of its own, and the cursor advances
    from 1 to 2.  And in the text ABCD followed by the comma, on a
    four-row column, the comma is drawn at [y = 20], the height of D,
    not at [20 - rh * nop_y = 10]: the bottom guard has raised it. *)
Lemma nop_punctuation_counterexample :
  (Py.mem Sample.ch_comma (text_comma_nop (book Sample.no_comma_engine))
   = true
   /\ exists ev s',
        Engine.place_text Sample.no_comma_engine (Sample.state [] [] (1 # 1))
                          Sample.ch_comma [] = (ev, Next s')
        /\ drawn ev = [ch_box]
        /\ pcnt s' == 2
        /\ ~ pcnt s' == pcnt (Sample.state [] [] (1 # 1)))
  /\ (exists ev o,
        Engine.run Sample.quiet_engine 10
          (Sample.state [65; 66; 67; 68; Sample.ch_comma]%N [] 0)
        = Some (ev, o)
        /\ draws_at ev
           = [(65%N, 65%Q, 80%Q); (66%N, 65%Q, 60%Q); (67%N, 65%Q, 40%Q);
              (68%N, 65%Q, 20%Q); (Sample.ch_comma, 75%Q, 20%Q)]
        /\ rh (grid Sample.quiet_engine)
             * text_comma_nop_y (book Sample.quiet_engine) == 10
        /\ ~ (20 == 20 - rh (grid Sample.quiet_engine)
                        * text_comma_nop_y (book Sample.quiet_engine))
        /\ ~ (20 == 20 + rh (grid Sample.quiet_engine)
                        * text_comma_nop_y (book Sample.quiet_engine))).
Proof.
  split.
  - split; [reflexivity|]. eexists _, _.
    split; [vm_compute; reflexivity|]. split; [reflexivity|].
    split; [reflexivity|]. vm_compute. discriminate.
  - eexists _, _. split; [vm_compute; reflexivity|].
    split; [reflexivity|]. split; [reflexivity|].
    split; vm_compute; discriminate.
Qed.

(** C6, amended.  Let [c'] be the body character after font resolution
    (script fallback, placeholder), resolved to a registered font, with
    the cursor on a whole cell below the capacity.  When [c'] is in the
    configured string of punctuation that takes no cell, the cursor is
    left unchanged and one glyph is drawn at
    [(last.x + cw * nop_x, last.y - rh * nop_y)], with [y] raised to
    [bottomMargin + 10] when it is less than 10 above the bottom margin,
    at the body size times the configured scale; [last] is not changed.
    Otherwise the glyph takes the next cell, the cursor advances by one
    and [last] becomes the coordinate at which the glyph was drawn: so
    [last] is the coordinate of the latest body glyph that took a cell
    (the origin before the first one).  By [body_entered_whole] and
    [cell_exists] every pass of the loop reaches the body text with such
    a cursor and such a cell. *)
Theorem nop_punctuation_shares_cell (e : Engine) (s : State)
        (c c' : char) (rest : list char) (f : font) (name : string)
        (n : Z) (cell : point) :
  Resolver.resolve_text e c = (c', Some f) ->
  vfonts e f = Some name ->
  pcnt s == inject_Z n ->
  n < page_chars_num (grid e) ->
  Py.index (pos_l (grid e)) (n + 1) = Some cell ->
  let bk := book e in
  let size := inject_Z (text_size (fonts e f)) in
  let log := if opt_v e
             then [EvPrint (LogText (pid s) (pcnt s + 1) c' f)] else [] in
  let rule fx fy := if vline_on bk && flag_tbook s
                    then [Engine.side_rule e 2 fx fy] else [] in
  (Py.mem c' (text_comma_nop bk) = true ->
   let x := (fst (last s) + cw (grid e) * text_comma_nop_x bk)%Q in
   let y := Engine.clamp_bottom e
              (snd (last s) - rh (grid e) * text_comma_nop_y bk)%Q in
   exists s',
     Engine.place_text e s c rest
     = (log ++ [EvDraw c' x y name (size * text_comma_nop_size bk)%Q
                       (font_rotate (fonts e f)) (Engine.text_color e c' f)]
            ++ rule x y,
        Next s')
     /\ pcnt s' == pcnt s /\ chars s' = rest /\ last s' = last s)
  /\ (Py.mem c' (text_comma_nop bk) = false ->
      exists ev s' x y size' deg,
        Engine.place_text e s c rest = (ev, Next s')
        /\ In (EvDraw c' x y name size' deg (Engine.text_color e c' f)) ev
        /\ last s' = (x, y)
        /\ pcnt s' == pcnt s + 1).
Proof.
  intros Hres Hv Hp Hn Hc bk size log rule.
  destruct (place_text_guard e s n cell Hp Hn Hc) as (G1 & G2 & G3).
  split.
  - intros Hm x y. unfold Engine.place_text.
    rewrite G1, G2, Hres, Hv, G3. fold bk. rewrite Hm.
    assert (Hq : Qeq_bool (pcnt s + 1 - 1) (inject_Z (page_chars_num (grid e))) = false).
    { destruct (Qeq_bool _ _) eqn:E; [|reflexivity].
      apply Qeq_bool_iff in E. exfalso.
      assert (L : (inject_Z n < inject_Z (page_chars_num (grid e)))%Q)
        by now rewrite <- Zlt_Qlt.
      rewrite Hp in E. lra. }
    unfold Engine.page_end_punct. rewrite Hq.
    eexists. split.
    + rewrite app_nil_r. reflexivity.
    + cbn [pcnt chars last]. repeat split. ring.
  - intros Hm. unfold Engine.place_text.
    rewrite G1, G2, Hres, Hv, G3. fold bk. rewrite Hm.
    match goal with |- context [Engine.page_end_punct e ?pc ?r ?fx ?fy ?fn ?fs ?col] =>
      destruct (Engine.page_end_punct e pc r fx fy fn fs col) as [ev rest'] end.
    eexists _, _, _, _, _, _. split; [reflexivity|].
    split; [|split; [reflexivity|cbn [pcnt]; reflexivity]].
    apply in_or_app. right. now left.
Qed.

(** The sample engine after AB (cursor 2, B drawn at (65, 60)): the
    comma is drawn at [(65 + 40/4, 60 - 20/2)] and the cursor stays
    at 2. *)
Lemma nop_punctuation_shares_cell_witness :
  Resolver.resolve_text Sample.quiet_engine Sample.ch_comma
  = (Sample.ch_comma, Some "a.ttf"%string)
  /\ vfonts Sample.quiet_engine "a.ttf"%string = Some "a.ttf"%string
  /\ 2 < page_chars_num (grid Sample.quiet_engine)
  /\ Py.index (pos_l (grid Sample.quiet_engine)) (2 + 1)
     = Some (100 # 2, 160 # 4)
  /\ Py.mem Sample.ch_comma (text_comma_nop (book Sample.quiet_engine))
     = true
  /\ exists s',
       Engine.place_text Sample.quiet_engine
         (mkState [] [] (2 # 1) 0 false false (65 # 1, 60 # 1))
         Sample.ch_comma []
       = ([EvDraw Sample.ch_comma
                  ((65 # 1) + cw (grid Sample.quiet_engine) * (1 # 4))%Q
                  (Engine.clamp_bottom Sample.quiet_engine
                     ((60 # 1) - rh (grid Sample.quiet_engine) * (1 # 2))%Q)
                  "a.ttf" (inject_Z 10 * 1)%Q 0 "black"%string],
          Next s')
       /\ pcnt s' == 2 # 1.
Proof.
  repeat (split; [first [reflexivity | simpl; lia]|]).
  destruct (nop_punctuation_shares_cell Sample.quiet_engine
              (mkState [] [] (2 # 1) 0 false false (65 # 1, 60 # 1))
              Sample.ch_comma Sample.ch_comma [] "a.ttf"%string
              "a.ttf"%string 2 (100 # 2, 160 # 4)
              eq_refl eq_refl ltac:(reflexivity) ltac:(simpl; lia) eq_refl)
    as [Hnop _].
  destruct (Hnop eq_refl) as (s' & Ep & Hc & _).
  exists s'. split; [exact Ep|exact Hc].
Defined.

(** ** Punctuation after the last cell of a page *)

(** C10, as stated, fails on the coordinate: in ABCDEFGH followed by
    the comma and I, on two columns of four rows, H fills cell 8 at
    (25, 20) and the comma is drawn on the same page (before page
    number 1) at [y = 20], not at [20 - rh * nop_y = 10]: the bottom
    guard has raised it. *)
Lemma page_end_punctuation_clamped :
  exists ev o,
    Engine.run Sample.quiet_engine 20
      (Sample.state [65; 66; 67; 68; 69; 70; 71; 72; Sample.ch_comma; 73]%N
                    [] 0)
    = Some (ev, o)
    /\ draws_at (firstn 9 ev)
       = [(65%N, 65%Q, 80%Q); (66%N, 65%Q, 60%Q); (67%N, 65%Q, 40%Q);
          (68%N, 65%Q, 20%Q); (69%N, 25%Q, 80%Q); (70%N, 25%Q, 60%Q);
          (71%N, 25%Q, 40%Q); (72%N, 25%Q, 20%Q);
          (Sample.ch_comma, 35%Q, 20%Q)]
    /\ nth_error ev 9 = Some (EvPageNumber 1)
    /\ rh (grid Sample.quiet_engine)
         * text_comma_nop_y (book Sample.quiet_engine) == 10
    /\ ~ (20 == 20 - rh (grid Sample.quiet_engine)
                    * text_comma_nop_y (book Sample.quiet_engine))
    /\ ~ (20 == 20 + rh (grid Sample.quiet_engine)
                    * text_comma_nop_y (book Sample.quiet_engine)).
Proof.
  eexists _, _. split; [vm_compute; reflexivity|].
  split; [reflexivity|]. split; [reflexivity|]. split; [reflexivity|].
  split; vm_compute; discriminate.
Qed.

(** C10, amended.  When a body glyph that takes a cell is drawn on the
    last cell of the page (the cursor becomes exactly [C * R]) and the
    next character of the body stream is in the configured string of
    punctuation that takes no cell, that character is popped in the same
    pass and drawn, with the glyph's font and colour and the glyph's size
    times the configured scale, at [(fx + cw * nop_x, fy - rh * nop_y)]
    where [(fx, fy)] is where the glyph was drawn, with [y] raised to
    [bottomMargin + 10] when it is less than 10 above the bottom margin.
    The page is flushed only by the next pass, so the punctuation is on
    the page just completed. *)
Theorem page_end_punctuation (e : Engine) (s : State) (c c' next : char)
        (rest : list char) (f : font) (name : string) (cell : point) :
  Resolver.resolve_text e c = (c', Some f) ->
  vfonts e f = Some name ->
  Py.mem c' (text_comma_nop (book e)) = false ->
  pcnt s == inject_Z (page_chars_num (grid e) - 1) ->
  Py.index (pos_l (grid e)) (page_chars_num (grid e)) = Some cell ->
  Py.mem next (text_comma_nop (book e)) = true ->
  let bk := book e in
  let log := if opt_v e
             then [EvPrint (LogText (pid s) (pcnt s + 1) c' f)] else [] in
  exists fx fy size deg s',
    Engine.place_text e s c (next :: rest)
    = (log ++ [EvDraw c' fx fy name size deg (Engine.text_color e c' f)]
           ++ (if vline_on bk && flag_tbook s
               then [Engine.side_rule e 2 fx fy] else [])
           ++ [EvDraw next
                      (fx + cw (grid e) * text_comma_nop_x bk)%Q
                      (Engine.clamp_bottom e
                         (fy - rh (grid e) * text_comma_nop_y bk)%Q)
                      name (size * text_comma_nop_size bk)%Q 0
                      (Engine.text_color e c' f)],
       Next s')
    /\ chars s' = rest
    /\ pcnt s' == inject_Z (page_chars_num (grid e))
    /\ last s' = (fx, fy)
    /\ (Engine.test_mode_stop e (pid s) = false ->
        exists ev o, Engine.step e s' = (EvPageNumber (pid s + 1) :: ev, o)).
Proof.
  intros Hres Hv Hm Hp Hc Hnext bk log.
  set (N := page_chars_num (grid e)) in *.
  replace N with (N - 1 + 1) in Hc by lia.
  destruct (place_text_guard e s (N - 1) cell Hp ltac:(fold N; lia) Hc) as (G1 & G2 & G3).
  fold N in G1, G2.
  unfold Engine.place_text. fold N.
  rewrite G1, G2, Hres, Hv, G3. fold bk. unfold bk at 1. rewrite Hm.
  assert (Hq : (pcnt s + 1 == inject_Z N)%Q).
  { rewrite Hp. rewrite <- inject_Z_succ. apply inject_Z_injective. lia. }
  unfold Engine.page_end_punct. fold N.
  rewrite (Qeq_eq_bool _ _ Hq). fold bk. unfold bk at 1. rewrite Hnext.
  eexists _, _, _, _, _. split; [reflexivity|].
  cbn [chars pcnt last pid]. split; [reflexivity|]. split; [exact Hq|].
  split; [reflexivity|].
  intros Ht.
  match goal with |- context [Engine.step e ?st] =>
    destruct (step_flushes e st) as (ev & o & Es) end.
  { cbn [pcnt]. fold N. rewrite Hq. apply Qle_refl. }
  { exact Ht. }
  now exists ev, o.
Qed.

(** The sample engine with the cursor on cell 7: H fills cell 8, the
    comma that follows is popped and drawn in the same pass, and the
    cursor stands at the capacity. *)
Lemma page_end_punctuation_witness :
  Resolver.resolve_text Sample.quiet_engine 72%N
  = (72%N, Some "a.ttf"%string)
  /\ vfonts Sample.quiet_engine "a.ttf"%string = Some "a.ttf"%string
  /\ Py.mem 72%N (text_comma_nop (book Sample.quiet_engine)) = false
  /\ Py.index (pos_l (grid Sample.quiet_engine))
              (page_chars_num (grid Sample.quiet_engine))
     = Some (20 # 2, 80 # 4)
  /\ Py.mem Sample.ch_comma (text_comma_nop (book Sample.quiet_engine))
     = true
  /\ exists ev s',
       Engine.place_text Sample.quiet_engine (Sample.state [] [] (7 # 1))
                         72%N [Sample.ch_comma; 73%N]
       = (ev, Next s')
       /\ drawn ev = [72%N; Sample.ch_comma]
       /\ chars s' = [73%N]
       /\ pcnt s' == 8 # 1.
Proof.
  repeat (split; [reflexivity|]).
  destruct (page_end_punctuation Sample.quiet_engine
              (Sample.state [] [] (7 # 1)) 72%N 72%N Sample.ch_comma [73%N]
              "a.ttf"%string "a.ttf"%string (20 # 2, 80 # 4)
              eq_refl eq_refl eq_refl ltac:(reflexivity) eq_refl eq_refl)
    as (fx & fy & size & deg & s' & Ep & Hc & Hp & _).
  eexists _, s'. split; [exact Ep|]. split; [reflexivity|].
  split; [exact Hc|exact Hp].
Defined.

(** ** Annotation overflow and termination of the loop *)

Lemma place_text_next e s c rest n :
  grid_ready e ->
  pcnt s == inject_Z n -> 0 <= n < page_chars_num (grid e) ->
  exists ev s', Engine.place_text e s c rest = (ev, Next s').
Proof.
  intros Hg Hp Hn.
  destruct (cell_exists e n Hg Hn) as [cell Hc].
  destruct (place_text_guard e s n cell Hp ltac:(lia) Hc) as (G1 & G2 & G3).
  unfold Engine.place_text. rewrite G1, G2.
  destruct (Resolver.resolve_text e c) as [c' [f|]]; [|now eexists _, _].
  destruct (vfonts e f); [|now eexists _, _].
  rewrite G3.
  destruct (Py.mem c' (text_comma_nop (book e)));
    match goal with |- context [Engine.page_end_punct e ?a ?b ?c ?d ?f ?g ?h] =>
      destruct (Engine.page_end_punct e a b c d f g h) end;
    now eexists _, _.
Qed.

Lemma body_block_next e s n :
  grid_ready e -> chars s <> [] ->
  pcnt s == inject_Z n -> 0 <= n < page_chars_num (grid e) ->
  exists ev s', Engine.body_block e s = (ev, Next s').
Proof.
  intros Hg Hc Hp Hn. unfold Engine.body_block.
  destruct (chars s) as [|c rest]; [congruence|].
  repeat match goal with
  | |- context [Engine.take_note ?r] => destruct (Engine.take_note r)
  | |- context [if ?x then _ else _] => destruct x
  end; try (now eexists _, _).
  now apply place_text_next with (n := n).
Qed.

(** From a state that satisfies the invariant, a pass never raises. *)
Lemma step_no_raise e s ev :
  grid_ready e -> loop_inv s -> Engine.step e s <> (ev, Raise).
Proof.
  intros Hg Hi. rewrite step_factor.
  destruct (Engine.before_body e s) as [ev0 [o|s2]] eqn:Eb.
  - unfold Engine.before_body in Eb.
    destruct (Engine.test_mode_stop e (pid s)); [congruence|].
    destruct (Engine.page_check e s) as [ev1 [s1|s1]]; [congruence|].
    destruct (rchars s1); [congruence|].
    destruct (Engine.annot_block e s1) as [ev2 x] eqn:Ea.
    destruct x; try congruence.
    unfold Engine.annot_block in Ea.
    destruct Hg as (_ & _ & HR).
    destruct (Z.eqb_spec (row_num (geom e)) 0); [lia|].
    destruct (Engine.annot_loop e _ _ _) as [[ev' rem] a'].
    destruct rem; [destruct (Qle_bool _ _)|]; discriminate.
  - destruct (body_entered_whole e s ev0 s2 Hg Hi Eb) as (_ & n & Hp & Hn).
    assert (Hc : chars s2 <> []).
    { unfold Engine.before_body in Eb.
      destruct (Engine.test_mode_stop e (pid s)); [discriminate|].
      destruct (Engine.page_check e s) as [ev1 [s1|s1]] eqn:Ep; [discriminate|].
      apply page_check_keeps in Ep. destruct Ep as (E1 & _ & Hne).
      destruct (rchars s1) as [|rc rcs] eqn:Er.
      - injection Eb as <- <-. congruence.
      - destruct (Engine.annot_block e s1) as [ev2 x] eqn:Ea.
        destruct x as [s3|s3|]; try discriminate. injection Eb as <- <-.
        destruct (annot_block_consumes e s1 ev2 _ s3 ltac:(congruence) Ea eq_refl)
          as [C _].
        congruence. }
    destruct (body_block_next e s2 n Hg Hc Hp Hn) as (ev3 & s' & ->).
    discriminate.
Qed.

Lemma run_breaks e : forall fuel s,
  grid_ready e -> loop_inv s ->
  (pending s < fuel)%nat ->
  exists ev s', Engine.run e fuel s = Some (ev, Break s').
Proof.
  induction fuel as [|fuel IH]; intros s Hg Hi H; [lia|].
  cbn [Engine.run].
  destruct (Engine.step e s) as [ev o] eqn:Es.
  destruct o as [s'| s' |].
  - pose proof (step_consumes _ _ _ _ Es).
    pose proof (step_inv _ _ _ _ Hg Hi Es) as Hi'.
    destruct (IH s' Hg Hi' ltac:(lia)) as (ev' & s'' & ->).
    now exists (ev ++ ev'), s''.
  - now exists ev, s'.
  - exfalso. now apply (step_no_raise e s ev Hg Hi).
Qed.

(** C5, as stated, fails on the warning: without [-v] the character
    that overflows is dropped in silence.  Five annotation characters
    are queued with the cursor on cell 2 of a four-row column: four are
    drawn in the two cells that remain, the fifth is dropped, and the
    pass prints nothing. *)
Lemma annotation_overflow_silent :
  opt_v Sample.quiet_engine = false
  /\ exists ev s',
       Engine.annot_block Sample.quiet_engine
         (Sample.state [65%N] [86; 87; 88; 89; 90]%N (2 # 1))
       = (ev, Engine.AFallThrough s')
       /\ drawn ev = [86; 87; 88; 89]%N
       /\ rchars s' = []
       /\ skipped ev = []
       /\ forall l, ~ In (EvPrint l) ev.
Proof.
  split; [reflexivity|].
  eexists _, _. split; [vm_compute; reflexivity|].
  repeat (split; [reflexivity|]).
  intros l H. simpl in H.
  repeat (destruct H as [H|H]; [discriminate|]). exact H.
Qed.

(** C5, amended.  When a queued annotation character that needs a cell
    finds the position run empty, the inner loop is left with that
    character removed from the queue: it is not drawn, not put back, and
    the cursor is not moved; the skip warning is printed only in verbose
    mode ([-v]).  The same holds for the whole annotation block when the
    run is empty from the start.  The main loop leaves after at most one
    more pass than there are characters in the body stream and the
    queue, whatever the state it starts from; on the grid computed from
    the geometry, from a cursor that is not negative and is whole when
    no annotation is queued, it leaves by [break], without an
    exception. *)
Theorem annotation_overflow_drops (e : Engine) :
  (forall (rc rc' : char) (rest : list char) (f : font) (name : string),
     ((N.eqb rc ch_book_open || N.eqb rc ch_book_close)
      && vline_on (book e))%bool = false ->
     Resolver.resolve_comment e rc = (rc', Some f) ->
     vfonts e f = Some name ->
     Py.mem rc' (comment_comma_nop (book e)) = false ->
     (forall p a,
        Engine.r_pos a = [] ->
        exists ev a',
          Engine.annot_loop e p (rc :: rest) a = (ev, rest, a')
          /\ Engine.a_pcnt a' = Engine.a_pcnt a
          /\ drawn ev = []
          /\ skipped ev = if opt_v e then [rc'] else [])
     /\ (forall s,
           rchars s = rc :: rest ->
           row_num (geom e) <> 0 ->
           Engine.annot_rpos e (Py.int (pcnt s))
                             (Engine.annot_cnt e (rchars s)) = [] ->
           exists ev x s',
             Engine.annot_block e s = (ev, x)
             /\ exit_state x = Some s'
             /\ rchars s' = rest /\ chars s' = chars s /\ pid s' = pid s
             /\ (rest <> [] -> pcnt s' = pcnt s)
             /\ drawn ev = []
             /\ skipped ev = if opt_v e then [rc'] else []))
  /\ (forall s0 : State,
        exists ev o,
          Engine.run e (S (length (chars s0) + length (rchars s0))) s0
          = Some (ev, o)
          /\ is_next o = false)
  /\ (grid_ready e ->
      forall s0 : State,
        loop_inv s0 ->
        exists ev s',
          Engine.run e (S (length (chars s0) + length (rchars s0))) s0
          = Some (ev, Break s')).
Proof.
  split; [|split].
  - intros rc rc' rest f name H1 H2 H3 H4. split.
    + intros p a Hr. cbn [Engine.annot_loop].
      destruct (annot_char_overflow e p rc rc' a f name Hr H1 H2 H3 H4)
        as (ev & a' & Ec & Ep & Ed & Ew).
      rewrite Ec. now exists ev, a'.
    + intros s Hq HR Hrun. unfold Engine.annot_block.
      destruct (Z.eqb_spec (row_num (geom e)) 0); [contradiction|].
      rewrite Hrun. rewrite Hq. cbn [Engine.annot_loop].
      match goal with |- context [Engine.annot_char e ?p rc ?a] =>
        destruct (annot_char_overflow e p rc rc' a f name eq_refl H1 H2 H3 H4)
          as (ev & a' & Ec & Ep & Ed & Ew); rewrite Ec end.
      cbn [Engine.a_pcnt] in Ep.
      destruct rest as [|r0 rest].
      * destruct (Qle_bool _ _); eexists _, _, _;
          (split; [reflexivity|]); (split; [reflexivity|]);
          cbn [rchars chars pid pcnt]; repeat split; try assumption;
          congruence.
      * eexists _, _, _. split; [reflexivity|]. split; [reflexivity|].
        cbn [rchars chars pid pcnt].
        repeat split; try assumption. intros _. exact Ep.
  - intros s0. apply run_terminates. unfold pending. lia.
  - intros Hg s0 Hi. apply run_breaks; [assumption|assumption|].
    unfold pending. lia.
Qed.

(** The verbose sample engine with the cursor on cell 3 of a four-row
    column: the position run is empty, the queued X is dropped with its
    warning, and the run over the whole input ends. *)
Lemma annotation_overflow_drops_witness :
  Resolver.resolve_comment Sample.engine 88%N = (88%N, Some "a.ttf"%string)
  /\ vfonts Sample.engine "a.ttf"%string = Some "a.ttf"%string
  /\ Py.mem 88%N (comment_comma_nop (book Sample.engine)) = false
  /\ Engine.annot_rpos Sample.engine 3
       (Engine.annot_cnt Sample.engine [88; 89]%N) = []
  /\ (exists ev x s',
        Engine.annot_block Sample.engine
          (Sample.state [65%N] [88; 89]%N (3 # 1)) = (ev, x)
        /\ exit_state x = Some s'
        /\ rchars s' = [89%N]
        /\ drawn ev = []
        /\ skipped ev = [88%N])
  /\ (exists ev o,
        Engine.run Sample.engine 4 (Sample.state [65%N] [88; 89]%N (3 # 1))
        = Some (ev, o)
        /\ is_next o = false)
  /\ grid_ready Sample.engine
  /\ loop_inv (Sample.state [65%N] [88; 89]%N (3 # 1))
  /\ exists ev s',
       Engine.run Sample.engine 4 (Sample.state [65%N] [88; 89]%N (3 # 1))
       = Some (ev, Break s').
Proof.
  assert (Hg : grid_ready Sample.engine).
  { split; [reflexivity|]. simpl. lia. }
  assert (Hi : loop_inv (Sample.state [65%N] [88; 89]%N (3 # 1))).
  { split; [vm_compute; discriminate|]. discriminate. }
  destruct (annotation_overflow_drops Sample.engine)
    as (Hdrop & Hrun & Hbreak).
  destruct (Hdrop 88%N 88%N [89%N] "a.ttf"%string "a.ttf"%string
                  eq_refl eq_refl eq_refl eq_refl) as (_ & Hblock).
  repeat (split; [reflexivity|]).
  split.
  - destruct (Hblock (Sample.state [65%N] [88; 89]%N (3 # 1))
                     eq_refl ltac:(simpl; lia) eq_refl)
      as (ev & x & s' & Eb & Ex & Er & _ & _ & _ & Ed & Ew).
    exists ev, x, s'. repeat split; assumption.
  - split; [exact (Hrun (Sample.state [65%N] [88; 89]%N (3 # 1)))|].
    split; [exact Hg|]. split; [exact Hi|].
    exact (Hbreak Hg (Sample.state [65%N] [88; 89]%N (3 # 1)) Hi).
Defined.

(** ** The directives ['%'] and ['&'] *)

(** X1.  The directive ['%'] (lines 1046-1051): when it is popped from
    the body stream, the spaces that follow it are discarded, at most
    [R - 1] of them, and the cursor is set to the page capacity
    wherever it stood, also at 0 on a page that is still empty; nothing
    is drawn and nothing else changes.  Unless the page limit of the
    test mode ends it, the next pass opens with the page flush and
    emits the page number [pid + 1]. *)
Theorem percent_directive_page_end (e : Engine) (s : State)
        (rest : list char) :
  chars s = ch_percent :: rest ->
  exists s',
    Engine.body_block e s = ([], Next s')
    /\ pcnt s' = inject_Z (page_chars_num (grid e))
    /\ (exists k : nat,
          Z.of_nat k <= Z.max 0 (row_num (geom e) - 1)
          /\ rest = repeat ch_space k ++ chars s'
          /\ (Z.of_nat k < row_num (geom e) - 1 ->
              hd_error (chars s') <> Some ch_space))
    /\ rchars s' = rchars s /\ pid s' = pid s
    /\ flag_tbook s' = flag_tbook s /\ flag_rbook s' = flag_rbook s
    /\ last s' = last s
    /\ (Engine.test_mode_stop e (pid s) = false ->
        exists ev o, Engine.step e s' = (EvPageNumber (pid s + 1) :: ev, o)).
Proof.
  intros Hc. unfold Engine.body_block. rewrite Hc.
  change (N.eqb ch_percent ch_dollar) with false.
  change (N.eqb ch_percent ch_percent) with true. cbv iota.
  eexists. split; [reflexivity|].
  cbn [chars pcnt rchars pid flag_tbook flag_rbook last].
  split; [reflexivity|]. split.
  - destruct (skip_spaces_spec (Z.to_nat (row_num (geom e) - 1)) rest)
      as (k & Hk & E & H).
    exists k. repeat split; [lia|exact E|]. intros Hlt. apply H. lia.
  - repeat split. intros Ht.
    match goal with |- context [Engine.step e ?st] =>
      destruct (step_flushes e st) as (ev & o & Es) end.
    { cbn [pcnt]. apply Qle_refl. }
    { exact Ht. }
    now exists ev, o.
Qed.

(** The sample engine, cursor 0: ['%'] and one space, then a letter. *)
Lemma percent_directive_page_end_witness :
  exists s',
    Engine.body_block Sample.engine
      (Sample.state [ch_percent; ch_space; 65%N] [] 0) = ([], Next s')
    /\ pcnt s' = inject_Z 8
    /\ chars s' = [65%N]
    /\ exists ev o, Engine.step Sample.engine s' = (EvPageNumber 1 :: ev, o).
Proof.
  destruct (percent_directive_page_end Sample.engine
              (Sample.state [ch_percent; ch_space; 65%N] [] 0)
              [ch_space; 65%N] eq_refl)
    as (s' & Eb & Hp & _ & _ & _ & _ & _ & _ & Hs).
  exists s'. split; [exact Eb|]. split; [exact Hp|].
  split.
  - vm_compute in Eb. now injection Eb as <-.
  - apply Hs. reflexivity.
Defined.

(** X2.  The directive ['&'] (lines 1053-1059): the spaces that follow
    it are discarded, at most [R - 1]; a cursor at or below
    [C*R - R + 1] is set to [C*R - R], so that the next glyph takes the
    cell [C*R - R + 1], which on the computed grid is the top cell of
    the last column; a cursor beyond is left alone.  A cursor that
    stands exactly on [C*R - R + 1] (one glyph already in the last
    column) moves back by one cell.  Nothing is drawn and nothing else
    changes. *)
Theorem amp_directive_last_column (e : Engine) (s : State)
        (rest : list char) :
  chars s = ch_amp :: rest ->
  let N := page_chars_num (grid e) in
  let R := row_num (geom e) in
  exists s',
    Engine.body_block e s = ([], Next s')
    /\ ((pcnt s <= inject_Z (N - R + 1))%Q -> pcnt s' = inject_Z (N - R))
    /\ ((inject_Z (N - R + 1) < pcnt s)%Q -> pcnt s' = pcnt s)
    /\ (pcnt s == inject_Z (N - R + 1) -> (pcnt s' < pcnt s)%Q)
    /\ (exists k : nat,
          Z.of_nat k <= Z.max 0 (R - 1)
          /\ rest = repeat ch_space k ++ chars s'
          /\ (Z.of_nat k < R - 1 -> hd_error (chars s') <> Some ch_space))
    /\ rchars s' = rchars s /\ pid s' = pid s
    /\ flag_tbook s' = flag_tbook s /\ flag_rbook s' = flag_rbook s
    /\ last s' = last s
    /\ (grid_ready e ->
        Py.index (pos_l (grid e)) (N - R + 1)
        = Some (Positions.pos_x (geom e) (leaf_col (geom e)),
                Positions.pos_y (geom e) 1)).
Proof.
  intros Hc N R. unfold Engine.body_block. rewrite Hc.
  change (N.eqb ch_amp ch_dollar) with false.
  change (N.eqb ch_amp ch_percent) with false.
  change (N.eqb ch_amp ch_amp) with true. cbv iota.
  eexists. split; [reflexivity|].
  cbn [chars pcnt rchars pid flag_tbook flag_rbook last].
  unfold Engine.amp_jump. fold N R.
  split; [|split; [|split; [|split]]].
  - intros H. apply Qle_bool_iff in H. now rewrite H.
  - intros H. destruct (Qle_bool (pcnt s) (inject_Z (N - R + 1))) eqn:E;
      [|reflexivity].
    apply Qle_bool_iff in E. exfalso. now apply (Qle_not_lt _ _ E).
  - intros H.
    assert (L : (pcnt s <= inject_Z (N - R + 1))%Q) by (rewrite H; apply Qle_refl).
    apply Qle_bool_iff in L. rewrite L. rewrite H.
    rewrite <- Zlt_Qlt. lia.
  - destruct (skip_spaces_spec (Z.to_nat (row_num (geom e) - 1)) rest)
      as (k & Hk & E & H).
    exists k. fold R in Hk, E, H |- *. repeat split; [lia|exact E|].
    intros Hlt. apply H. lia.
  - repeat split. intros (Hg & HC & HR).
    pose proof (grid_capacity _ _ Hg) as HN. subst N R. rewrite HN.
    set (C := leaf_col (geom e)) in *. set (R := row_num (geom e)) in *.
    assert (Hk : 1 <= C * R - R + 1 <= C * R) by nia.
    destruct (grid_cell (geom e) (grid e) (C * R - R + 1) HC HR Hk Hg)
      as [El _].
    rewrite El. f_equal.
    assert (Ec : Positions.col_of (geom e) (C * R - R + 1) = C).
    { unfold Positions.col_of. fold R.
      replace (C * R - R + 1 + R - 1) with (C * R) by lia.
      apply Z.div_mul. lia. }
    assert (Er : Positions.row_of (geom e) (C * R - R + 1) = 1).
    { unfold Positions.row_of. fold R.
      replace (C * R - R + 1 - 1) with ((C - 1) * R) by lia.
      rewrite Z.mod_mul; [reflexivity|]. lia. }
    now rewrite Ec, Er.
Qed.

(** The sample engine (capacity 8, rows of 4) with the cursor on cell
    5, the top of the last column: the cursor moves back to 4. *)
Lemma amp_directive_last_column_witness :
  exists s',
    Engine.body_block Sample.engine
      (Sample.state [ch_amp; 65%N] [] (5 # 1)) = ([], Next s')
    /\ pcnt s' = inject_Z 4
    /\ (pcnt s' < 5 # 1)%Q
    /\ Py.index (pos_l (grid Sample.engine)) 5
       = Some (Positions.pos_x Sample.geometry 2,
               Positions.pos_y Sample.geometry 1).
Proof.
  destruct (amp_directive_last_column Sample.engine
              (Sample.state [ch_amp; 65%N] [] (5 # 1)) [65%N] eq_refl)
    as (s' & Eb & Hle & _ & Hback & _ & _ & _ & _ & _ & _ & Hcell).
  exists s'. split; [exact Eb|].
  split; [apply Hle; vm_compute; discriminate|].
  split; [apply Hback; reflexivity|].
  apply Hcell. repeat split.
Defined.

(** ** Title marks and annotation spans in the body stream *)

Lemma strip_set_cons_keep set c l :
  Py.mem c set = false -> Py.strip_set set (c :: l) = c :: Py.strip_set set l.
Proof. intros H. unfold Py.strip_set. simpl. now rewrite H. Qed.

Lemma effective_len_cons (b : Book) (c : char) (line : list char) :
  Preprocess.stripped b (c :: line) = c :: Preprocess.stripped b line ->
  c <> ch_note_open ->
  Preprocess.effective_len b (c :: line)
  = 1 + Preprocess.effective_len b line.
Proof.
  intros Hs Hc. unfold Preprocess.effective_len, Preprocess.chars_len.
  rewrite Hs. cbn [Preprocess.scan].
  destruct (N.eqb_spec c ch_note_open) as [E|_]; [contradiction|].
  destruct (Preprocess.scan (Preprocess.stripped b line) None) as [bd sp].
  cbn [fst snd length]. lia.
Qed.

(** X3.  A title mark (U+300A or U+300B) popped from the body stream
    is never drawn and takes no cell, whether the side-rule option is
    on or off (lines 1062-1069: the branch is taken, so the placement
    code of the final [else] is not reached): the pass only sets or
    clears the title flag.  The row padding of [load_texts] agrees
    with this only when the side-rule option is on; with the option off
    it counts the mark as one cell (lines 459-461). *)
Theorem body_title_marks_take_no_cell (e : Engine) (s : State) (c : char)
        (rest : list char) :
  chars s = c :: rest ->
  c = ch_book_open \/ c = ch_book_close ->
  (exists s',
     Engine.body_block e s = ([], Next s')
     /\ chars s' = rest /\ pcnt s' = pcnt s
     /\ flag_tbook s' = N.eqb c ch_book_open
     /\ rchars s' = rchars s /\ pid s' = pid s
     /\ flag_rbook s' = flag_rbook s /\ last s' = last s)
  /\ (forall line,
        vline_on (book e) = false ->
        Py.mem c (text_comma_nop_clean (book e)) = false ->
        Py.mem c (comment_comma_nop_clean (book e)) = false ->
        Preprocess.effective_len (book e) (c :: line)
        = 1 + Preprocess.effective_len (book e) line)
  /\ (forall line,
        vline_on (book e) = true ->
        Preprocess.effective_len (book e) (c :: line)
        = Preprocess.effective_len (book e) line).
Proof.
  intros Hc Hm. split; [|split].
  - unfold Engine.body_block. rewrite Hc.
    destruct Hm as [-> | ->].
    + change (N.eqb ch_book_open ch_dollar) with false.
      change (N.eqb ch_book_open ch_percent) with false.
      change (N.eqb ch_book_open ch_amp) with false.
      change (N.eqb ch_book_open ch_book_open) with true. cbv iota.
      eexists. split; [reflexivity|]. repeat split.
    + change (N.eqb ch_book_close ch_dollar) with false.
      change (N.eqb ch_book_close ch_percent) with false.
      change (N.eqb ch_book_close ch_amp) with false.
      change (N.eqb ch_book_close ch_book_open) with false.
      change (N.eqb ch_book_close ch_book_close) with true. cbv iota.
      eexists. split; [reflexivity|]. repeat split.
  - intros line Hv H1 H2. apply effective_len_cons.
    + unfold Preprocess.stripped. rewrite Hv.
      now rewrite !strip_set_cons_keep.
    + destruct Hm as [-> | ->]; discriminate.
  - intros line Hv.
    unfold Preprocess.effective_len, Preprocess.chars_len.
    assert (E : Preprocess.stripped (book e) (c :: line)
                = Preprocess.stripped (book e) line).
    { unfold Preprocess.stripped, Py.strip_set. rewrite Hv.
      cbn [filter].
      destruct (negb (Py.mem c (text_comma_nop_clean (book e))));
        [|reflexivity].
      cbn [filter].
      destruct (negb (Py.mem c (comment_comma_nop_clean (book e))));
        [|reflexivity].
      unfold Preprocess.strip_book_marks. cbn [filter].
      destruct Hm as [-> | ->]; reflexivity. }
    now rewrite E.
Qed.

(** The sample engine and the sample book (side rule off). *)
Lemma body_title_marks_take_no_cell_witness :
  (exists s',
     Engine.body_block Sample.engine
       (Sample.state [ch_book_open; 65%N] [] (3 # 1)) = ([], Next s')
     /\ chars s' = [65%N] /\ pcnt s' = 3 # 1)
  /\ Preprocess.effective_len Sample.sample_book [ch_book_open; 65%N]
     = 1 + Preprocess.effective_len Sample.sample_book [65%N].
Proof.
  destruct (body_title_marks_take_no_cell Sample.engine
              (Sample.state [ch_book_open; 65%N] [] (3 # 1))
              ch_book_open [65%N] eq_refl (or_introl eq_refl))
    as ((s' & Eb & Hch & Hp & _) & Hpad & _).
  split.
  - exists s'. split; [exact Eb|]. split; [exact Hch|exact Hp].
  - apply (Hpad [65%N]); reflexivity.
Defined.

Lemma take_note_closed (rdat rest : list char) :
  ~ In ch_note_close rdat ->
  Engine.take_note (rdat ++ ch_note_close :: rest) = (rdat, rest).
Proof.
  induction rdat as [|c d IH]; intros H; cbn [app Engine.take_note].
  - now rewrite N.eqb_refl.
  - destruct (N.eqb_spec c ch_note_close) as [->|Hc].
    + exfalso. apply H. now left.
    + rewrite IH; [reflexivity|]. intros H'. apply H. now right.
Qed.

Lemma take_note_unclosed (rdat : list char) :
  ~ In ch_note_close rdat -> Engine.take_note rdat = (rdat, []).
Proof.
  induction rdat as [|c d IH]; intros H; cbn [Engine.take_note].
  - reflexivity.
  - destruct (N.eqb_spec c ch_note_close) as [->|Hc].
    + exfalso. apply H. now left.
    + rewrite IH; [reflexivity|]. intros H'. apply H. now right.
Qed.

Lemma take_note_spec (cs : list char) :
  ~ In ch_note_close (fst (Engine.take_note cs))
  /\ (In ch_note_close cs ->
      cs = fst (Engine.take_note cs)
             ++ ch_note_close :: snd (Engine.take_note cs))
  /\ (~ In ch_note_close cs ->
      fst (Engine.take_note cs) = cs /\ snd (Engine.take_note cs) = []).
Proof.
  induction cs as [|c rest IH]; cbn [Engine.take_note].
  - cbn [fst snd]. split; [intros []|]. split; [intros []|]. now split.
  - destruct (N.eqb_spec c ch_note_close) as [->|Hc].
    + cbn [fst snd]. split; [intros []|]. split; [reflexivity|].
      intros Hn. exfalso. apply Hn. now left.
    + destruct IH as (I1 & I2 & I3).
      destruct (Engine.take_note rest) as [d r]. cbn [fst snd] in *.
      split; [|split].
      * intros [Hi|Hi]; [congruence|contradiction].
      * intros [Hi|Hi]; [congruence|]. cbn [app]. f_equal. now apply I2.
      * intros Hn. destruct I3 as [-> ->]; [|split; reflexivity].
        intros H'. apply Hn. now right.
Qed.

(** X4.  The opening annotation marker (lines 1072-1084): the
    characters up to the first closing marker become the annotation
    queue, the closing marker is dropped and the body stream goes on
    after it; when no closing marker follows, the whole rest of the
    body stream becomes the annotation queue and the body stream is
    left empty.  Cursor, page index and flags are unchanged and nothing
    is drawn. *)
Theorem annotation_span_extraction (e : Engine) (s : State)
        (rest : list char) :
  chars s = ch_note_open :: rest ->
  exists s',
    Engine.body_block e s = ([], Next s')
    /\ ~ In ch_note_close (rchars s')
    /\ (In ch_note_close rest ->
        rest = rchars s' ++ ch_note_close :: chars s')
    /\ (~ In ch_note_close rest -> rchars s' = rest /\ chars s' = [])
    /\ pcnt s' = pcnt s /\ pid s' = pid s
    /\ flag_tbook s' = flag_tbook s /\ flag_rbook s' = flag_rbook s
    /\ last s' = last s.
Proof.
  intros Hc. unfold Engine.body_block. rewrite Hc.
  change (N.eqb ch_note_open ch_dollar) with false.
  change (N.eqb ch_note_open ch_percent) with false.
  change (N.eqb ch_note_open ch_amp) with false.
  change (N.eqb ch_note_open ch_book_open) with false.
  change (N.eqb ch_note_open ch_book_close) with false.
  change (N.eqb ch_note_open ch_note_open) with true. cbv iota.
  destruct (take_note_spec rest) as (H1 & H2 & H3).
  destruct (Engine.take_note rest) as [rdat rest'].
  cbn [fst snd] in *.
  eexists. split; [reflexivity|].
  cbn [chars pcnt rchars pid flag_tbook flag_rbook last].
  repeat split; auto; now apply H3.
Qed.

(** A span of two characters followed by a letter. *)
Lemma annotation_span_extraction_witness :
  exists s',
    Engine.body_block Sample.engine
      (Sample.state [ch_note_open; 88; 89; ch_note_close; 65]%N [] (1 # 1))
    = ([], Next s')
    /\ [88; 89; ch_note_close; 65]%N = rchars s' ++ ch_note_close :: chars s'
    /\ pcnt s' = 1 # 1.
Proof.
  destruct (annotation_span_extraction Sample.engine
              (Sample.state [ch_note_open; 88; 89; ch_note_close; 65]%N []
                            (1 # 1))
              [88; 89; ch_note_close; 65]%N eq_refl)
    as (s' & Eb & _ & Hin & _ & Hp & _).
  exists s'. split; [exact Eb|]. split; [|exact Hp].
  apply Hin. right. right. left. reflexivity.
Defined.

Lemma drawn_app a b : drawn (a ++ b) = drawn a ++ drawn b.
Proof.
  induction a as [|x a IH]; [reflexivity|].
  destruct x; simpl; now rewrite ?IH.
Qed.

Lemma page_check_draws_nothing e s :
  drawn (fst (Engine.page_check e s)) = [].
Proof.
  unfold Engine.page_check.
  repeat break_match; cbn [fst]; try reflexivity.
Qed.

(** X5.  An annotation that ends the text is never drawn.  When the
    body stream holds nothing but one annotation span, closed or not,
    the pass that extracts it empties the body stream, and the next
    pass leaves the loop at the page flush (line 860) before the
    annotation block is reached: the run ends within two passes and
    draws no glyph.  From a cursor below the capacity, outside the test
    mode's stop, the whole trace is the page number [pid + 1], and the
    annotation is still queued when the loop is left. *)
Theorem trailing_annotation_not_drawn (e : Engine) (s : State)
        (rdat : list char) :
  rchars s = [] ->
  ~ In ch_note_close rdat ->
  chars s = ch_note_open :: rdat ++ [ch_note_close]
  \/ chars s = ch_note_open :: rdat ->
  exists ev s',
    Engine.run e 2 s = Some (ev, Break s')
    /\ drawn ev = []
    /\ (Engine.test_mode_stop e (pid s) = false ->
        (pcnt s < inject_Z (page_chars_num (grid e)))%Q ->
        ev = [EvPageNumber (pid s + 1)]
        /\ chars s' = [] /\ rchars s' = rdat).
Proof.
  intros Hr Hn Hc.
  assert (Hb : forall s1, chars s1 = chars s ->
            Engine.body_block e s1
            = ([], Next (mkState [] rdat (pcnt s1) (pid s1) (flag_tbook s1)
                                 (flag_rbook s1) (last s1)))).
  { intros s1 E1. unfold Engine.body_block. rewrite E1.
    destruct Hc as [-> | ->];
      change (N.eqb ch_note_open ch_dollar) with false;
      change (N.eqb ch_note_open ch_percent) with false;
      change (N.eqb ch_note_open ch_amp) with false;
      change (N.eqb ch_note_open ch_book_open) with false;
      change (N.eqb ch_note_open ch_book_close) with false;
      change (N.eqb ch_note_open ch_note_open) with true; cbv iota.
    - now rewrite (take_note_closed rdat [] Hn).
    - now rewrite (take_note_unclosed rdat Hn). }
  assert (Hend : forall s2, chars s2 = [] ->
            Engine.test_mode_stop e (pid s2) = false ->
            Engine.step e s2
            = ([EvPageNumber (pid s2 + 1)],
               Break (mkState [] (rchars s2) 0 (pid s2 + 1) (flag_tbook s2)
                              (flag_rbook s2) (last s2)))).
  { intros s2 E2 T2. unfold Engine.step, Engine.page_check.
    rewrite T2, E2, orb_true_r.
    now destruct (Engine.test_mode_stop e (pid s2 + 1)). }
  cbn [Engine.run].
  destruct (Engine.test_mode_stop e (pid s)) eqn:Ht.
  { unfold Engine.step. rewrite Ht.
    exists [], s. split; [reflexivity|]. split; [reflexivity|].
    intros; discriminate. }
  destruct (Engine.page_check e s) as [ev1 r] eqn:Ep.
  pose proof (page_check_draws_nothing e s) as D1. rewrite Ep in D1.
  cbn [fst] in D1.
  destruct r as [s1|s1].
  - unfold Engine.step at 1. rewrite Ht, Ep.
    exists ev1, s1. split; [reflexivity|]. split; [exact D1|].
    intros _ Hlt. exfalso.
    rewrite page_check_idle in Ep.
    + discriminate.
    + intros L. now apply (Qle_not_lt _ _ L).
    + destruct Hc as [-> | ->]; discriminate.
  - destruct (page_check_keeps e s ev1 s1 Ep) as (Ec1 & Er1 & _).
    destruct (page_check_pid e s ev1 s1 Ep) as [Ep1|[Ep1 Tn]].
    + unfold Engine.step at 1. rewrite Ht, Ep, Er1, Hr, (Hb s1 Ec1).
      rewrite Hend; [|reflexivity|cbn [pid]; now rewrite Ep1].
      eexists _, _. split; [reflexivity|].
      split.
      { rewrite !drawn_app, D1. reflexivity. }
      intros _ Hlt. cbn [chars rchars pid].
      rewrite page_check_idle in Ep.
      * injection Ep as <- <-. repeat split.
      * intros L. now apply (Qle_not_lt _ _ L).
      * destruct Hc as [-> | ->]; discriminate.
    + unfold Engine.step at 1. rewrite Ht, Ep, Er1, Hr, (Hb s1 Ec1).
      rewrite Hend; [|reflexivity|cbn [pid]; now rewrite Ep1].
      eexists _, _. split; [reflexivity|].
      split.
      { rewrite !drawn_app, D1. reflexivity. }
      intros _ Hlt. exfalso.
      rewrite page_check_idle in Ep.
      * injection Ep as _ <-. lia.
      * intros L. now apply (Qle_not_lt _ _ L).
      * destruct Hc as [-> | ->]; discriminate.
Qed.

(** The sample engine on a text that is one annotation span. *)
Lemma trailing_annotation_not_drawn_witness :
  exists ev s',
    Engine.run Sample.engine 2
      (Sample.state [ch_note_open; 88; 89; ch_note_close]%N [] (1 # 1))
    = Some (ev, Break s')
    /\ drawn ev = []
    /\ ev = [EvPageNumber 1] /\ rchars s' = [88; 89]%N.
Proof.
  destruct (trailing_annotation_not_drawn Sample.engine
              (Sample.state [ch_note_open; 88; 89; ch_note_close]%N []
                            (1 # 1))
              [88; 89]%N eq_refl) as (ev & s' & Er & Hd & Hx).
  - intros [H|[H|[]]]; discriminate.
  - left. reflexivity.
  - exists ev, s'. split; [exact Er|]. split; [exact Hd|].
    destruct Hx as (E1 & _ & E3); [reflexivity|reflexivity|].
    split; [exact E1|exact E3].
Defined.

(** ** Page numbers of a whole run *)

Lemma pages_from_S (p : Z) (k : nat) :
  pages_from p (S k) = (p + 1) :: pages_from (p + 1) k.
Proof.
  unfold pages_from. cbn [seq map]. f_equal.
  rewrite <- seq_shift, map_map. apply map_ext. intros i. lia.
Qed.

Lemma step_page_numbers e s ev o :
  Engine.step e s = (ev, o) ->
  (page_numbers ev = []
   /\ forall s', outcome_state o = Some s' -> pid s' = pid s)
  \/ (page_numbers ev = [pid s + 1]
      /\ forall s', outcome_state o = Some s' -> pid s' = pid s + 1).
Proof.
  intros Hs.
  destruct (Engine.test_mode_stop e (pid s)) eqn:Ht.
  { unfold Engine.step in Hs. rewrite Ht in Hs. injection Hs as <- <-.
    left. split; [reflexivity|]. intros s' [= <-]. reflexivity. }
  assert (D : ((inject_Z (page_chars_num (grid e)) <= pcnt s)%Q
               \/ chars s = [])
              \/ (~ (inject_Z (page_chars_num (grid e)) <= pcnt s)%Q
                  /\ chars s <> [])).
  { destruct (Qlt_le_dec (pcnt s) (inject_Z (page_chars_num (grid e))))
      as [L|L]; [|now left; left].
    destruct (chars s); [now left; right|].
    right. split; [|discriminate]. intros H. now apply (Qle_not_lt _ _ H). }
  destruct D as [F|[F1 F2]].
  - right.
    destruct (page_check_fires e s F)
      as (ev1 & r & s1 & Ep & Tp & Hr & P1 & _).
    destruct Hr as [-> | ->].
    + unfold Engine.step in Hs. rewrite Ht, Ep in Hs. injection Hs as <- <-.
      split; [simpl; now rewrite Tp|]. intros s' [= <-]. exact P1.
    + destruct (step_unfold e s Ht _ _ Ep) as (ev2 & o' & Es & T2 & P2).
      rewrite Es in Hs. injection Hs as <- <-.
      split.
      * cbn [app page_numbers]. now rewrite page_numbers_app, Tp, T2.
      * intros s' D. rewrite (P2 s' D). exact P1.
  - left.
    pose proof (page_check_idle e s F1 F2) as Ep.
    destruct (step_unfold e s Ht _ _ Ep) as (ev2 & o' & Es & T2 & P2).
    rewrite Es in Hs. injection Hs as <- <-.
    split; [exact T2|exact P2].
Qed.

(** X6.  The page numbers emitted by a run of the main loop, of any
    length and from any state, are [pid + 1, pid + 2, ..., pid + k] in
    order, without gap or repetition, and the page index on exit is
    [pid + k], the last number emitted. *)
Theorem page_numbers_consecutive (e : Engine) (fuel : nat) (s : State)
        (ev : list Event) (o : Outcome) :
  Engine.run e fuel s = Some (ev, o) ->
  exists k : nat,
    page_numbers ev = map (fun i => pid s + Z.of_nat i) (seq 1 k)
    /\ forall s', outcome_state o = Some s' -> pid s' = pid s + Z.of_nat k.
Proof.
  change (Engine.run e fuel s = Some (ev, o) ->
          exists k : nat,
            page_numbers ev = pages_from (pid s) k
            /\ forall s', outcome_state o = Some s'
                          -> pid s' = pid s + Z.of_nat k).
  revert s ev o. induction fuel as [|fuel IH]; intros s ev o Hr.
  { discriminate. }
  cbn [Engine.run] in Hr.
  destruct (Engine.step e s) as [ev1 o1] eqn:Es.
  pose proof (step_page_numbers e s ev1 o1 Es) as Hp.
  destruct o1 as [s1|s1|].
  - destruct (Engine.run e fuel s1) as [[ev' o']|] eqn:Er; [|discriminate].
    injection Hr as <- <-.
    destruct (IH s1 ev' o' Er) as (k & Ek & Pk).
    rewrite page_numbers_app, Ek.
    destruct Hp as [[T P]|[T P]]; rewrite T, (P s1 eq_refl) in *.
    + exists k. split; [reflexivity|exact Pk].
    + exists (S k). split; [now rewrite pages_from_S|].
      intros s' D. rewrite (Pk s' D). lia.
  - injection Hr as <- <-.
    destruct Hp as [[T P]|[T P]]; rewrite T.
    + exists 0%nat. split; [reflexivity|].
      intros s' D. rewrite (P s' D). simpl. lia.
    + exists 1%nat. split; [reflexivity|].
      intros s' D. rewrite (P s' D). simpl. lia.
  - injection Hr as <- <-.
    destruct Hp as [[T P]|[T P]]; rewrite T.
    + exists 0%nat. split; [reflexivity|]. intros s' D. discriminate.
    + exists 1%nat. split; [reflexivity|]. intros s' D. discriminate.
Qed.

(** Nine letters on pages of eight cells: the pages 1 and 2. *)
Lemma page_numbers_consecutive_witness :
  exists ev o,
    Engine.run Sample.quiet_engine 20
      (Sample.state [65; 66; 67; 68; 69; 70; 71; 72; 73]%N [] 0)
    = Some (ev, o)
    /\ exists k : nat,
         page_numbers ev
         = map (fun i => pid (Sample.state [65; 66; 67; 68; 69; 70; 71; 72;
                                            73]%N [] 0) + Z.of_nat i)
               (seq 1 k)
         /\ forall s', outcome_state o = Some s'
                       -> pid s' = pid (Sample.state [65; 66; 67; 68; 69; 70;
                                                     71; 72; 73]%N [] 0)
                                  + Z.of_nat k.
Proof.
  eexists _, _. split; [vm_compute; reflexivity|].
  apply (page_numbers_consecutive Sample.quiet_engine 20).
  vm_compute. reflexivity.
Defined.

(** ** The end of a text, and the page limit of the test mode *)

Lemma place_text_no_break e s c rest ev s' :
  Engine.place_text e s c rest <> (ev, Break s').
Proof.
  unfold Engine.place_text. intros H.
  repeat match type of H with
  | context [Engine.page_end_punct e ?pc ?rest ?fx ?fy ?fn ?fs ?col] =>
      destruct (Engine.page_end_punct e pc rest fx fy fn fs col)
  | context [match ?x with _ => _ end] => destruct x eqn:?
  | context [if ?x then _ else _] => destruct x eqn:?
  end; discriminate.
Qed.

Lemma body_block_break e s ev s' :
  Engine.body_block e s = (ev, Break s') -> chars s = [].
Proof.
  unfold Engine.body_block. intros H.
  destruct (chars s) as [|c rest]; [reflexivity|]. exfalso.
  repeat match type of H with
  | context [Engine.take_note ?r] => destruct (Engine.take_note r)
  | context [if ?x then _ else _] => destruct x
  end; try discriminate.
  now apply place_text_no_break in H.
Qed.

(** A pass that the guard at the head of the loop does not end leaves
    the loop only through the page flush: after the page number, with
    the cursor reset. *)
Lemma step_break_flush e s ev s' :
  Engine.test_mode_stop e (pid s) = false ->
  Engine.step e s = (ev, Break s') ->
  ev = [EvPageNumber (pid s')]
  /\ pcnt s' = 0%Q /\ pid s' = pid s + 1
  /\ (chars s' = [] \/ Engine.test_mode_stop e (pid s') = true).
Proof.
  intros Ht Hs. unfold Engine.step in Hs. rewrite Ht in Hs.
  destruct (Engine.page_check e s) as [ev1 [s1|s1]] eqn:Ep.
  - injection Hs as <- <-. unfold Engine.page_check in Ep.
    destruct (Qle_bool _ (pcnt s) || _)%bool; [|discriminate].
    destruct (Engine.test_mode_stop e (pid s + 1)) eqn:Et.
    + injection Ep as <- <-. cbn [pid pcnt chars]. repeat split. now right.
    + destruct (chars s) eqn:Ec; [|discriminate].
      injection Ep as <- <-. cbn [pid pcnt chars]. repeat split. now left.
  - exfalso.
    destruct (page_check_keeps e s ev1 s1 Ep) as (Ec1 & _ & Hne).
    destruct (rchars s1).
    + destruct (Engine.body_block e s1) as [ev3 o] eqn:Eb.
      injection Hs as _ ->. apply body_block_break in Eb. congruence.
    + destruct (Engine.annot_block e s1) as [ev2 x] eqn:Ea.
      destruct (annot_block_trace e s1 ev2 x Ea) as [_ P].
      destruct x as [s2|s2|]; try discriminate.
      destruct (Engine.body_block e s2) as [ev3 o] eqn:Eb.
      injection Hs as _ ->. apply body_block_break in Eb.
      destruct (P s2 eq_refl) as [_ E2]. congruence.
Qed.

Lemma step_pid_mono e s ev s' :
  Engine.step e s = (ev, Next s') -> pid s <= pid s'.
Proof.
  intros Hs. destruct (step_page_numbers e s ev _ Hs) as [[_ P]|[_ P]];
    rewrite (P s' eq_refl); lia.
Qed.

Lemma run_break_flush e : forall fuel s ev s',
  below_limit e (pid s) ->
  Engine.run e fuel s = Some (ev, Break s') ->
  (exists ev0, ev = ev0 ++ [EvPageNumber (pid s')])
  /\ pcnt s' = 0%Q /\ pid s < pid s'
  /\ (chars s' = [] \/ Engine.test_mode_stop e (pid s') = true).
Proof.
  induction fuel as [|fuel IH]; intros s ev s' Hb Hr; [discriminate|].
  cbn [Engine.run] in Hr.
  destruct (Engine.step e s) as [ev1 o1] eqn:Es.
  destruct o1 as [s1|s1|].
  - destruct (Engine.run e fuel s1) as [[ev' o']|] eqn:Er; [|discriminate].
    injection Hr as <- ->.
    pose proof (step_below_limit e s ev1 s1 Hb Es) as Hb1.
    destruct (IH s1 ev' s' Hb1 Er) as ((ev0 & ->) & Hp & Hlt & Hc).
    pose proof (step_pid_mono e s ev1 s1 Es).
    split; [exists (ev1 ++ ev0); now rewrite app_assoc|].
    repeat split; auto. lia.
  - injection Hr as <- <-.
    destruct (step_break_flush e s ev1 s1 (below_limit_goes_on e _ Hb) Es)
      as (-> & Hp & Hi & Hc).
    split; [now exists []|]. repeat split; auto. lia.
  - discriminate.
Qed.

(** X7.  On the computed grid, and with a configuration on which the
    character class of the annotation block compiles
    ([annot_class_ok]: [comment_comma_nop] is empty or holds a
    character other than ['|']; otherwise [re.sub] of line 878 raises
    [re.error] as soon as an annotation is queued), a call of
    [process_text_layout_complete] with an empty annotation queue and a
    whole, non-negative cursor, entered below the page limit of the
    test mode (as [create_pdf] enters it), returns normally: its last
    event is the page number of the page index it returns, the cursor
    returned is 0 and the page index has advanced by one at least.  An
    empty text still yields one numbered page. *)
Theorem text_ends_with_page_number (e : Engine) (cs : list char)
        (n p : Z) :
  grid_ready e ->
  annot_class_ok (book e) ->
  below_limit e p ->
  0 <= n ->
  exists ev0 p',
    Engine.process_text_layout_complete e (S (length cs)) cs []
                                        (inject_Z n) p
    = Some (ev0 ++ [EvPageNumber p'], Some (p', 0%Q))
    /\ p < p'.
Proof.
  intros Hg _ Hz Hn. unfold Engine.process_text_layout_complete.
  destruct (run_breaks e (S (length cs))
              (Engine.initial cs [] (inject_Z n) p) Hg)
    as (ev & s' & Er).
  { split; [now apply inject_Z_nonneg|]. intros _. apply whole_inject. }
  { unfold pending. simpl. lia. }
  rewrite Er.
  destruct (run_break_flush e _ (Engine.initial cs [] (inject_Z n) p)
              _ _ Hz Er)
    as ((ev0 & ->) & Hp & Hlt & _).
  exists ev0, (pid s'). rewrite Hp. split; [reflexivity|exact Hlt].
Qed.

(** The empty text, entered with page index 4. *)
Lemma text_ends_with_page_number_witness :
  exists ev0 p',
    Engine.process_text_layout_complete Sample.quiet_engine 1 [] []
                                        (inject_Z 0) 4
    = Some (ev0 ++ [EvPageNumber p'], Some (p', 0%Q))
    /\ 4 < p'.
Proof.
  apply (text_ends_with_page_number Sample.quiet_engine [] 0 4).
  - repeat split.
  - right. vm_compute. discriminate.
  - intros z Hz. discriminate.
  - lia.
Defined.

(** X8.  In test mode ([-z z] with [z] not zero) a run entered with a
    page index below [z] never emits a page number above [z] and never
    ends with a page index above [z]. *)
Theorem test_mode_page_limit (e : Engine) (z : Z) (fuel : nat) (s : State)
        (ev : list Event) (o : Outcome) :
  opt_z e = Some z -> z <> 0 -> pid s < z ->
  Engine.run e fuel s = Some (ev, o) ->
  Forall (fun p => p <= z) (page_numbers ev)
  /\ forall s', outcome_state o = Some s' -> pid s' <= z.
Proof.
  intros Hz Hz0. revert s ev o.
  induction fuel as [|fuel IH]; intros s ev o Hlt Hr; [discriminate|].
  cbn [Engine.run] in Hr.
  destruct (Engine.step e s) as [ev1 o1] eqn:Es.
  assert (H1 : Forall (fun p => p <= z) (page_numbers ev1)
               /\ forall s', outcome_state o1 = Some s' -> pid s' <= z).
  { destruct (step_page_numbers e s ev1 o1 Es) as [[T P]|[T P]]; rewrite T.
    - split; [constructor|]. intros s' D. rewrite (P s' D). lia.
    - split; [repeat constructor; lia|].
      intros s' D. rewrite (P s' D). lia. }
  destruct H1 as [F1 P1].
  destruct o1 as [s1|s1|].
  - destruct (Engine.run e fuel s1) as [[ev' o']|] eqn:Er; [|discriminate].
    injection Hr as <- <-.
    assert (Hb : below_limit e (pid s)).
    { intros z' Hz' _. rewrite Hz in Hz'. injection Hz' as <-. exact Hlt. }
    pose proof (step_below_limit e s ev1 s1 Hb Es z Hz Hz0) as Hlt1.
    destruct (IH s1 ev' o' Hlt1 Er) as [F2 P2].
    split; [|exact P2].
    rewrite page_numbers_app. apply Forall_app. now split.
  - injection Hr as <- <-. now split.
  - injection Hr as <- <-. now split.
Qed.

(** Nine letters on pages of eight cells with a limit of one page. *)
Lemma test_mode_page_limit_witness :
  exists ev o,
    Engine.run (mkEngine Sample.sample_book Sample.geometry
                         (Sample.grid_of Sample.geometry)
                         ["a.ttf"%string] ["a.ttf"%string] ["a.ttf"%string]
                         (fun _ => mkFontEntry 10 6 0) (fun f => Some f)
                         Sample.full_font None (Some 1) false true)
               20 (Sample.state [65; 66; 67; 68; 69; 70; 71; 72; 73]%N [] 0)
    = Some (ev, o)
    /\ Forall (fun p => p <= 1) (page_numbers ev)
    /\ forall s', outcome_state o = Some s' -> pid s' <= 1.
Proof.
  eexists _, _. split; [vm_compute; reflexivity|].
  apply (test_mode_page_limit
           (mkEngine Sample.sample_book Sample.geometry
                     (Sample.grid_of Sample.geometry)
                     ["a.ttf"%string] ["a.ttf"%string] ["a.ttf"%string]
                     (fun _ => mkFontEntry 10 6 0) (fun f => Some f)
                     Sample.full_font None (Some 1) false true)
           1 20 (Sample.state [65; 66; 67; 68; 69; 70; 71; 72; 73]%N [] 0)).
  - reflexivity.
  - lia.
  - simpl. lia.
  - vm_compute. reflexivity.
Defined.

(** ** Font lookup *)

Lemma find_first {A} (p : A -> bool) (l : list A) (a : A) :
  find p l = Some a ->
  p a = true
  /\ exists l1 l2, l = l1 ++ a :: l2 /\ forall x, In x l1 -> p x = false.
Proof.
  induction l as [|b l IH]; [discriminate|]. cbn [find].
  destruct (p b) eqn:Eb.
  - intros [= ->]. split; [exact Eb|]. exists [], l. split; [reflexivity|].
    intros x [].
  - intros H. destruct (IH H) as (Ha & l1 & l2 & -> & Hl).
    split; [exact Ha|]. exists (b :: l1), l2. split; [reflexivity|].
    intros x [<-|Hx]; [exact Eb|now apply Hl].
Qed.

Lemma find_none_iff {A} (p : A -> bool) (l : list A) :
  find p l = None <-> forall x, In x l -> p x = false.
Proof.
  split; [|apply find_none_all].
  intros H x Hx. exact (find_none p l H x Hx).
Qed.

Lemma get_font_plain e c l :
  c <> ch_space -> c <> ch_ideo_space ->
  Resolver.get_font e c l = find (fun f => font_check e f c) l.
Proof.
  intros H1 H2. unfold Resolver.get_font.
  destruct (N.eqb_spec c ch_space); [contradiction|].
  destruct (N.eqb_spec c ch_ideo_space); [contradiction|]. reflexivity.
Qed.

Lemma get_font_in e c l f : Resolver.get_font e c l = Some f -> In f l.
Proof.
  unfold Resolver.get_font.
  destruct (N.eqb c ch_space || N.eqb c ch_ideo_space)%bool.
  - destruct l; [discriminate|]. intros [= ->]. now left.
  - intros H. now apply find_some in H.
Qed.

(** X9.  [get_font]: for the two space characters the result is the
    first font of the list, whatever its glyph table says (nothing when
    the list is empty).  For any other character the result is the
    first font of the list, in list order, whose glyph table holds the
    character, and it is nothing exactly when no font of the list holds
    it.  A font returned is always a member of the list. *)
Theorem get_font_first_supporting (e : Engine) (c : char)
        (font_list : list font) :
  (c = ch_space \/ c = ch_ideo_space ->
   Resolver.get_font e c font_list = hd_error font_list)
  /\ (c <> ch_space -> c <> ch_ideo_space ->
      (forall f,
         Resolver.get_font e c font_list = Some f ->
         font_check e f c = true
         /\ exists l1 l2,
              font_list = l1 ++ f :: l2
              /\ forall g, In g l1 -> font_check e g c = false)
      /\ (Resolver.get_font e c font_list = None
          <-> forall f, In f font_list -> font_check e f c = false))
  /\ (forall f, Resolver.get_font e c font_list = Some f -> In f font_list).
Proof.
  split; [|split].
  - intros [-> | ->]; reflexivity.
  - intros H1 H2. rewrite (get_font_plain e c font_list H1 H2). split.
    + intros f Hf.
      exact (find_first (fun g => font_check e g c) font_list f Hf).
    + exact (find_none_iff (fun g => font_check e g c) font_list).
  - intros f. apply get_font_in.
Qed.

(** ** Script fallback *)

Lemma try_converted_spec e s c' :
  Resolver.try_converted e s = Some c' ->
  hd_error (Resolver.drop_brackets s) = Some c'
  /\ exists f0, hd_error (fns e) = Some f0
                /\ Resolver.get_font e c' (fns e) = Some f0.
Proof.
  unfold Resolver.try_converted.
  destruct (Resolver.drop_brackets s) as [|c rest]; [discriminate|].
  destruct (hd_error (fns e)) as [f0|]; [|discriminate].
  destruct (Resolver.get_font e c (fns e)) as [f|] eqn:Eg;
    cbn [opt_font_eqb]; [|discriminate].
  unfold font_eqb. destruct (String.eqb_spec f f0) as [->|]; [|discriminate].
  intros [= <-]. split; [reflexivity|]. now exists f0.
Qed.

(** X10.  [try_st_trans]: without the converters, or with no font
    configured, the result is empty.  A character returned is the first
    character of the simplified-to-traditional conversion, or, only
    when that one is not accepted, of the traditional-to-simplified
    one (both after the deletion of the bracket pair), and [get_font]
    over all fonts resolves it to the main font [fns[0]]. *)
Theorem script_fallback_main_font (e : Engine) (c : char) :
  (opencc e = None -> Resolver.try_st_trans e c = None)
  /\ (fns e = [] -> Resolver.try_st_trans e c = None)
  /\ (forall c',
        Resolver.try_st_trans e c = Some c' ->
        exists s2t t2s f0,
          opencc e = Some (s2t, t2s)
          /\ hd_error (fns e) = Some f0
          /\ Resolver.get_font e c' (fns e) = Some f0
          /\ (hd_error (Resolver.drop_brackets (s2t c)) = Some c'
              \/ (Resolver.try_converted e (s2t c) = None
                  /\ hd_error (Resolver.drop_brackets (t2s c)) = Some c'))).
Proof.
  unfold Resolver.try_st_trans. split; [|split].
  - now intros ->.
  - intros Hf. destruct (opencc e) as [[s2t t2s]|]; [|reflexivity].
    unfold Resolver.try_converted. rewrite Hf. cbn [hd_error].
    destruct (Resolver.drop_brackets (s2t c));
      destruct (Resolver.drop_brackets (t2s c)); reflexivity.
  - intros c' H. destruct (opencc e) as [[s2t t2s]|]; [|discriminate].
    destruct (Resolver.try_converted e (s2t c)) as [c1|] eqn:E1.
    + injection H as <-.
      destruct (try_converted_spec e _ _ E1) as (Hh & f0 & Hf & Hg).
      exists s2t, t2s, f0. repeat split; auto.
    + destruct (try_converted_spec e _ _ H) as (Hh & f0 & Hf & Hg).
      exists s2t, t2s, f0. repeat split; auto.
Qed.

(** A converter from lower case to capitals: ['a'] becomes ['A'],
    which the main font holds. *)
Lemma script_fallback_main_font_witness :
  Resolver.try_st_trans Demo.converting_engine 97%N = Some 65%N
  /\ exists s2t t2s f0,
       opencc Demo.converting_engine = Some (s2t, t2s)
       /\ hd_error (fns Demo.converting_engine) = Some f0
       /\ Resolver.get_font Demo.converting_engine 65%N
            (fns Demo.converting_engine) = Some f0
       /\ (hd_error (Resolver.drop_brackets (s2t 97%N)) = Some 65%N
           \/ (Resolver.try_converted Demo.converting_engine (s2t 97%N)
               = None
               /\ hd_error (Resolver.drop_brackets (t2s 97%N)) = Some 65%N)).
Proof.
  split; [reflexivity|].
  apply (proj2 (proj2 (script_fallback_main_font Demo.converting_engine
                         97%N))).
  reflexivity.
Defined.

(** X11.  Glyph resolution of a body character (lines 1093-1102)
    returns a font of [tfns], and that of an annotation character
    (lines 926-935) a font of [cfns], also after the script fallback.
    It returns no font only together with the placeholder, and only
    when no candidate font holds the placeholder. *)
Theorem resolved_font_is_candidate (e : Engine) (c : char) :
  (forall c' f, Resolver.resolve_text e c = (c', Some f) -> In f (tfns e))
  /\ (forall c' f,
        Resolver.resolve_comment e c = (c', Some f) -> In f (cfns e))
  /\ (forall c',
        Resolver.resolve_text e c = (c', None) ->
        c' = ch_box
        /\ forall f, In f (tfns e) -> font_check e f ch_box = false)
  /\ (forall c',
        Resolver.resolve_comment e c = (c', None) ->
        c' = ch_box
        /\ forall f, In f (cfns e) -> font_check e f ch_box = false).
Proof.
  assert (Hd : forall (l : list font) f, hd_error l = Some f -> In f l).
  { intros [|a l] f; [discriminate|]. intros [= ->]. now left. }
  assert (Hbox : forall l, Resolver.get_font e ch_box l = None ->
                           forall f, In f l -> font_check e f ch_box = false).
  { intros l. rewrite get_font_plain by discriminate.
    exact (proj1 (find_none_iff (fun g => font_check e g ch_box) l)). }
  split; [|split; [|split]].
  - intros c' f. unfold Resolver.resolve_text.
    destruct (Resolver.get_font e c (tfns e)) as [f1|] eqn:Eg.
    + intros [= _ <-]. now apply get_font_in in Eg.
    + destruct (negb (try_st (book e) =? 0)).
      * destruct (Resolver.try_st_trans e c).
        -- destruct (hd_error (tfns e)) as [f0|] eqn:Eh.
           ++ intros [= _ <-]. now apply Hd.
           ++ intros [= _ H]. now apply get_font_in in H.
        -- intros [= _ H]. now apply get_font_in in H.
      * intros [= _ H]. now apply get_font_in in H.
  - intros c' f. unfold Resolver.resolve_comment.
    destruct (Resolver.get_font e c (cfns e)) as [f1|] eqn:Eg.
    + destruct (negb (opt_font_eqb (Some f1) (hd_error (fns e)))
                && negb (try_st (book e) =? 0))%bool.
      * destruct (Resolver.try_st_trans e c).
        -- destruct (hd_error (cfns e)) as [f0|] eqn:Eh.
           ++ intros [= _ <-]. now apply Hd.
           ++ intros [= _ H]. now apply get_font_in in H.
        -- intros [= _ <-]. now apply get_font_in in Eg.
      * intros [= _ <-]. now apply get_font_in in Eg.
    + intros [= _ H]. now apply get_font_in in H.
  - intros c'. unfold Resolver.resolve_text.
    destruct (Resolver.get_font e c (tfns e)) as [f1|] eqn:Eg;
      [discriminate|].
    destruct (negb (try_st (book e) =? 0)).
    + destruct (Resolver.try_st_trans e c).
      * destruct (hd_error (tfns e)); [discriminate|].
        intros [= <- H]. split; [reflexivity|now apply Hbox].
      * intros [= <- H]. split; [reflexivity|now apply Hbox].
    + intros [= <- H]. split; [reflexivity|now apply Hbox].
  - intros c'. unfold Resolver.resolve_comment.
    destruct (Resolver.get_font e c (cfns e)) as [f1|] eqn:Eg.
    + destruct (negb (opt_font_eqb (Some f1) (hd_error (fns e)))
                && negb (try_st (book e) =? 0))%bool.
      * destruct (Resolver.try_st_trans e c).
        -- destruct (hd_error (cfns e)); [discriminate|].
           intros [= <- H]. split; [reflexivity|now apply Hbox].
        -- discriminate.
      * discriminate.
    + intros [= <- H]. split; [reflexivity|now apply Hbox].
Qed.

(** ** Row padding, continued *)

Lemma effective_len_app_spaces b line k :
  Py.mem ch_space (text_comma_nop_clean b) = false ->
  Py.mem ch_space (comment_comma_nop_clean b) = false ->
  Preprocess.effective_len b (line ++ repeat ch_space k)
  = Preprocess.effective_len b line + Z.of_nat k.
Proof.
  intros H1 H2. unfold Preprocess.effective_len, Preprocess.chars_len.
  rewrite stripped_app_spaces, scan_app_spaces by assumption.
  cbn [fst snd]. rewrite length_app, repeat_length. lia.
Qed.

(** X12.  Row padding is idempotent: when the space is not configured
    as punctuation that takes no cell, padding a paragraph that
    [load_texts] has already padded appends nothing. *)
Theorem pad_line_idempotent (b : Book) (R : Z) (line padded : list char) :
  Py.mem ch_space (text_comma_nop_clean b) = false ->
  Py.mem ch_space (comment_comma_nop_clean b) = false ->
  Preprocess.pad_line b R line = Some padded ->
  Preprocess.pad_line b R padded = Some padded.
Proof.
  intros H1 H2. unfold Preprocess.pad_line.
  destruct (Z.eqb_spec R 0) as [|HR]; [discriminate|].
  assert (Hs : forall l, Preprocess.spaces_num b R l
                         = R - Preprocess.effective_len b l mod R).
  { intros l. unfold Preprocess.spaces_num. rewrite rnum_effective.
    pose proof (Z.div_mod (Preprocess.effective_len b l) R HR). lia. }
  rewrite !Hs.
  set (n := Preprocess.effective_len b line).
  destruct (Z.ltb_spec 0 (R - n mod R)) as [L1|L1]; cbn [andb].
  - destruct (Z.ltb_spec (R - n mod R) R) as [L2|L2].
    + intros [= <-].
      rewrite effective_len_app_spaces by assumption. fold n.
      rewrite Z2Nat.id by lia.
      assert (E : (n + (R - n mod R)) mod R = 0).
      { pose proof (Z.div_mod n R HR).
        replace (n + (R - n mod R)) with ((n / R + 1) * R) by lia.
        now apply Z.mod_mul. }
      rewrite E, Z.sub_0_r, Z.ltb_irrefl, andb_false_r. reflexivity.
    + intros [= <-]. fold n.
      destruct (Z.ltb_spec 0 (R - n mod R)); [|lia].
      destruct (Z.ltb_spec (R - n mod R) R); [lia|]. reflexivity.
  - intros [= <-]. fold n.
    destruct (Z.ltb_spec 0 (R - n mod R)); [lia|]. reflexivity.
Qed.

(** The padded paragraph of the row-padding witness. *)
Lemma pad_line_idempotent_witness :
  Preprocess.pad_line Sample.sample_book 4
    ([65; 66; ch_note_open; 88; 89; 90; ch_note_close; 67]%N
       ++ repeat ch_space 3)
  = Some ([65; 66; ch_note_open; 88; 89; 90; ch_note_close; 67]%N
            ++ repeat ch_space 3).
Proof.
  apply (pad_line_idempotent Sample.sample_book 4
           [65; 66; ch_note_open; 88; 89; 90; ch_note_close; 67]%N);
    reflexivity.
Defined.

Lemma scan_unclosed (cs : list char) :
  ~ In ch_note_close cs ->
  forall cur,
    Preprocess.scan cs cur
    = (match cur with
       | None => cs
       | Some acc => ch_note_open :: acc ++ cs
       end, []).
Proof.
  induction cs as [|c cs IH]; intros Hn cur.
  - destruct cur; cbn [Preprocess.scan]; now rewrite ?app_nil_r.
  - assert (Hc : N.eqb c ch_note_close = false).
    { apply N.eqb_neq. intros ->. apply Hn. now left. }
    assert (Hn' : ~ In ch_note_close cs) by (intros H; apply Hn; now right).
    destruct cur as [acc|]; cbn [Preprocess.scan].
    + rewrite Hc, (IH Hn'). now rewrite <- app_assoc.
    + destruct (N.eqb c ch_note_open) eqn:Eo.
      * rewrite (IH Hn'). apply N.eqb_eq in Eo. now subst.
      * now rewrite (IH Hn').
Qed.

(** X13.  A paragraph without closing annotation marker has no
    annotation span for the row padding: an opening marker that is
    never closed, and everything after it, are counted as body
    characters, one cell each. *)
Theorem unclosed_span_counts_as_text (b : Book) (line : list char) :
  ~ In ch_note_close line ->
  Preprocess.rnum b line = 0
  /\ Preprocess.chars_len b line
     = Z.of_nat (length (Preprocess.stripped b line))
  /\ Preprocess.effective_len b line
     = Z.of_nat (length (Preprocess.stripped b line)).
Proof.
  intros Hn.
  assert (Hs : ~ In ch_note_close (Preprocess.stripped b line)).
  { unfold Preprocess.stripped, Py.strip_set, Preprocess.strip_book_marks.
    intros H. apply Hn.
    destruct (vline_on b);
      repeat (apply filter_In in H; destruct H as [H _]); exact H. }
  unfold Preprocess.rnum, Preprocess.chars_len, Preprocess.effective_len,
    Preprocess.chars_len.
  rewrite (scan_unclosed _ Hs None). cbn [fst snd fold_left map list_sum_Z fold_right].
  repeat split. lia.
Qed.

(** An opening marker that is never closed. *)
Lemma unclosed_span_counts_as_text_witness :
  Preprocess.rnum Sample.sample_book [65; ch_note_open; 88; 89]%N = 0
  /\ Preprocess.chars_len Sample.sample_book [65; ch_note_open; 88; 89]%N
     = Z.of_nat (length (Preprocess.stripped Sample.sample_book
                           [65; ch_note_open; 88; 89]%N))
  /\ Preprocess.effective_len Sample.sample_book
       [65; ch_note_open; 88; 89]%N
     = Z.of_nat (length (Preprocess.stripped Sample.sample_book
                           [65; ch_note_open; 88; 89]%N)).
Proof.
  apply (unclosed_span_counts_as_text Sample.sample_book
           [65; ch_note_open; 88; 89]%N).
  intros [H|[H|[H|[H|[]]]]]; discriminate.
Defined.

(** ** The two grid builders *)

Lemma cells_length (g : Geometry) (px : Z -> Q) :
  length (Positions.cells g px)
  = (Z.to_nat (leaf_col g) * Z.to_nat (row_num g))%nat.
Proof.
  unfold Positions.cells.
  rewrite <- (range1_length (leaf_col g)).
  induction (Py.range1 (leaf_col g)) as [|i l IH]; [reflexivity|].
  cbn [flat_map length]. rewrite length_app, length_map, range1_length.
  apply (f_equal (fun n => (Z.to_nat (row_num g) + n)%nat)) in IH.
  etransitivity; [exact IH|]. lia.
Qed.

Lemma cells_novel (g : Geometry) :
  Positions.cells g (Positions.pos_x_novel g)
  = Positions.cells g (Positions.pos_x g).
Proof.
  unfold Positions.cells. apply flat_map_ext. intros i.
  apply map_ext. intros j. f_equal.
  unfold Positions.pos_x_novel, Positions.pos_x.
  now rewrite novel_test_agrees.
Qed.

(** X14.  [VRainPDFGenerator._calculate_positions] succeeds exactly on
    a geometry that satisfies the validity invariant (it raises
    [ValueError] otherwise); [VRainPerfect.calculate_positions] fails
    only on a zero column or row count (division by zero).  Where the
    first succeeds the second does too and the two grids agree: the
    same cells in the same order behind the placeholder that [vrain.py]
    keeps at index 0, the same capacity [C * R], which is the number of
    cells, the same column width and row height. *)
Theorem grid_builders_agree (g : Geometry) :
  ((exists gn, Positions._calculate_positions g = Some gn)
   <-> Positions.valid g)
  /\ (Positions.calculate_positions g = None
      <-> leaf_col g = 0 \/ row_num g = 0)
  /\ (forall gn,
        Positions._calculate_positions g = Some gn ->
        exists gr,
          Positions.calculate_positions g = Some gr
          /\ pos_l gr = (0%Q, 0%Q) :: pos_l gn
          /\ pos_r gr = (0%Q, 0%Q) :: pos_r gn
          /\ page_chars_num gr = page_chars_num gn
          /\ page_chars_num gn = leaf_col g * row_num g
          /\ length (pos_l gn) = Z.to_nat (leaf_col g * row_num g)
          /\ length (pos_r gn) = length (pos_l gn)
          /\ cw gr = cw gn /\ rh gr = rh gn).
Proof.
  split; [|split].
  - unfold Positions._calculate_positions, Positions.valid. split.
    + intros [gn H].
      destruct (Z.leb_spec (leaf_col g) 0); [discriminate|].
      destruct (Z.leb_spec (row_num g) 0); [discriminate|].
      cbn [orb] in H.
      destruct (Z.leb_spec (canvas_width g)
                  (margins_left g + margins_right g + leaf_center_width g));
        [discriminate|].
      destruct (Z.leb_spec (canvas_height g)
                  (margins_top g + margins_bottom g)); [discriminate|].
      lia.
    + intros (H1 & H2 & H3 & H4).
      destruct (Z.leb_spec (leaf_col g) 0); [lia|].
      destruct (Z.leb_spec (row_num g) 0); [lia|]. cbn [orb].
      destruct (Z.leb_spec (canvas_width g)
                  (margins_left g + margins_right g + leaf_center_width g));
        [lia|].
      destruct (Z.leb_spec (canvas_height g)
                  (margins_top g + margins_bottom g)); [lia|].
      eexists. reflexivity.
  - unfold Positions.calculate_positions.
    destruct (Z.eqb_spec (leaf_col g) 0) as [H1|H1];
      destruct (Z.eqb_spec (row_num g) 0) as [H2|H2]; cbn [orb];
      split; auto; try discriminate; intros [H|H]; contradiction.
  - intros gn H. unfold Positions._calculate_positions in H.
    destruct (Z.leb_spec (leaf_col g) 0) as [|HC]; [discriminate|].
    destruct (Z.leb_spec (row_num g) 0) as [|HR]; [discriminate|].
    cbn [orb] in H.
    destruct (canvas_width g
              <=? margins_left g + margins_right g + leaf_center_width g);
      [discriminate|].
    destruct (canvas_height g <=? margins_top g + margins_bottom g);
      [discriminate|].
    injection H as <-. cbn [pos_l pos_r page_chars_num cw rh].
    unfold Positions.calculate_positions.
    destruct (Z.eqb_spec (leaf_col g) 0); [lia|].
    destruct (Z.eqb_spec (row_num g) 0); [lia|]. cbn [orb].
    eexists. split; [reflexivity|].
    cbn [pos_l pos_r page_chars_num cw rh].
    rewrite cells_novel, length_map, cells_length.
    repeat split; lia.
Qed.

Lemma pos_y_descends (g : Geometry) (j1 j2 : Z) :
  Positions.valid g -> j1 < j2 ->
  (Positions.pos_y g j2 < Positions.pos_y g j1)%Q.
Proof.
  intros (_ & Hh & _ & HR) Hj. unfold Positions.pos_y.
  assert (Hrh : (0 < Positions.row_height g)%Q).
  { unfold Positions.row_height. apply Qlt_shift_div_l.
    - replace 0%Q with (inject_Z 0) by reflexivity. now rewrite <- Zlt_Qlt.
    - rewrite Qmult_0_l. replace 0%Q with (inject_Z 0) by reflexivity.
      rewrite <- Zlt_Qlt. lia. }
  assert (Hq : (inject_Z j1 < inject_Z j2)%Q) by now rewrite <- Zlt_Qlt.
  set (rh := Positions.row_height g) in *. nra.
Qed.

Lemma pos_x_leftwards (g : Geometry) (i1 i2 : Z) :
  Positions.valid g -> 0 <= leaf_center_width g -> i1 < i2 ->
  (Positions.pos_x g i2 < Positions.pos_x g i1)%Q.
Proof.
  intros (Hw & _ & HC & _) Hlc Hi. unfold Positions.pos_x.
  assert (Hcw : (0 < Positions.col_width g)%Q).
  { unfold Positions.col_width. apply Qlt_shift_div_l.
    - replace 0%Q with (inject_Z 0) by reflexivity. now rewrite <- Zlt_Qlt.
    - rewrite Qmult_0_l. replace 0%Q with (inject_Z 0) by reflexivity.
      rewrite <- Zlt_Qlt. lia. }
  assert (Hq : (inject_Z i1 < inject_Z i2)%Q) by now rewrite <- Zlt_Qlt.
  assert (Hl : (0 <= inject_Z (leaf_center_width g))%Q)
    by now apply inject_Z_nonneg.
  set (cw := Positions.col_width g) in *.
  set (lc := inject_Z (leaf_center_width g)) in *.
  destruct (Z.leb_spec i1 (leaf_col g / 2));
    destruct (Z.leb_spec i2 (leaf_col g / 2)); try lia; nra.
Qed.

(** X15.  On a valid geometry whose gutter width is not negative the
    cells are laid out column by column from right to left, each
    column from top to bottom: for cell indices [k1 < k2] the column of
    [k1] is not after that of [k2]; in the same column the two cells
    have the same x and [k2] lies lower; in a later column [k2] lies
    further left.  No two cells coincide. *)
Theorem grid_cells_distinct (g : Geometry) (gr : Grid) (k1 k2 : Z)
        (p1 p2 : point) :
  Positions.valid g ->
  0 <= leaf_center_width g ->
  Positions.calculate_positions g = Some gr ->
  1 <= k1 -> k1 < k2 -> k2 <= leaf_col g * row_num g ->
  Py.index (pos_l gr) k1 = Some p1 ->
  Py.index (pos_l gr) k2 = Some p2 ->
  Positions.col_of g k1 <= Positions.col_of g k2
  /\ (Positions.col_of g k1 = Positions.col_of g k2 ->
      fst p1 = fst p2 /\ (snd p2 < snd p1)%Q)
  /\ (Positions.col_of g k1 < Positions.col_of g k2 ->
      (fst p2 < fst p1)%Q)
  /\ ~ (fst p1 == fst p2 /\ snd p1 == snd p2)%Q.
Proof.
  intros Hv Hlc Hg H1 H12 H2 E1 E2.
  pose proof Hv as (_ & _ & HC & HR).
  destruct (grid_cell g gr k1 HC HR ltac:(lia) Hg) as [G1 _].
  destruct (grid_cell g gr k2 HC HR ltac:(lia) Hg) as [G2 _].
  rewrite G1 in E1. rewrite G2 in E2.
  injection E1 as <-. injection E2 as <-. cbn [fst snd].
  destruct (col_row_decompose g k1 HR ltac:(lia)) as (D1 & B1 & _).
  destruct (col_row_decompose g k2 HR ltac:(lia)) as (D2 & B2 & _).
  set (i1 := Positions.col_of g k1) in *.
  set (i2 := Positions.col_of g k2) in *.
  set (j1 := Positions.row_of g k1) in *.
  set (j2 := Positions.row_of g k2) in *.
  assert (Hle : i1 <= i2) by nia.
  assert (Hsame : i1 = i2 ->
            Positions.pos_x g i1 = Positions.pos_x g i2
            /\ (Positions.pos_y g j2 < Positions.pos_y g j1)%Q).
  { intros E. rewrite E. split; [reflexivity|].
    apply pos_y_descends; [exact Hv|]. nia. }
  assert (Hleft : i1 < i2 ->
            (Positions.pos_x g i2 < Positions.pos_x g i1)%Q).
  { intros L. now apply pos_x_leftwards. }
  split; [exact Hle|]. split; [exact Hsame|]. split; [exact Hleft|].
  intros [Ex Ey].
  destruct (Z.eq_dec i1 i2) as [E|N].
  - destruct (Hsame E) as [_ L]. rewrite Ey in L.
    now apply (Qlt_irrefl _ L).
  - assert (L : i1 < i2) by lia. apply Hleft in L. rewrite Ex in L.
    now apply (Qlt_irrefl _ L).
Qed.

(** The sample grid: cell 4, bottom of the first column, and cell 5,
    top of the second. *)
Lemma grid_cells_distinct_witness :
  Positions.col_of Sample.geometry 4 <= Positions.col_of Sample.geometry 5
  /\ (Positions.col_of Sample.geometry 4 < Positions.col_of Sample.geometry 5
      -> (fst (20 # 2, 320 # 4) < fst (100 # 2, 80 # 4))%Q)
  /\ ~ (fst (100 # 2, 80 # 4) == fst (20 # 2, 320 # 4)
        /\ snd (100 # 2, 80 # 4) == snd (20 # 2, 320 # 4))%Q.
Proof.
  destruct (grid_cells_distinct Sample.geometry
              (Sample.grid_of Sample.geometry) 4 5
              (100 # 2, 80 # 4) (20 # 2, 320 # 4))
    as (H1 & _ & H3 & H4).
  - unfold Positions.valid. simpl. lia.
  - simpl. lia.
  - reflexivity.
  - lia.
  - lia.
  - simpl. lia.
  - reflexivity.
  - reflexivity.
  - split; [exact H1|]. split; [exact H3|exact H4].
Defined.

(** ** Configuration lines *)

Lemma remove_spaces_clean (s : list char) :
  Forall (fun c => Config.is_space c = false) (Config.remove_spaces s).
Proof.
  unfold Config.remove_spaces. apply Forall_forall. intros c H.
  apply filter_In in H. destruct H as [_ H]. now apply negb_true_iff in H.
Qed.

Lemma split_first_spec (s : list char) :
  In Config.ch_equals s ->
  s = fst (Config.split_first s)
        ++ Config.ch_equals :: snd (Config.split_first s)
  /\ ~ In Config.ch_equals (fst (Config.split_first s)).
Proof.
  induction s as [|c rest IH]; [intros []|].
  intros Hin. cbn [Config.split_first].
  destruct (N.eqb_spec c Config.ch_equals) as [->|Hc].
  - cbn [fst snd app]. split; [reflexivity|]. intros [].
  - destruct Hin as [E|Hin]; [congruence|].
    destruct (IH Hin) as [E Hn].
    destruct (Config.split_first rest) as [k v]. cbn [fst snd] in *.
    split; [cbn [app]; now f_equal|].
    intros [H|H]; [congruence|contradiction].
Qed.

Lemma mem_In (c : char) (s : list char) : Py.mem c s = true <-> In c s.
Proof.
  unfold Py.mem. rewrite existsb_exists. split.
  - intros (x & Hx & E). apply N.eqb_eq in E. now subst.
  - intros H. exists c. split; [exact H|apply N.eqb_refl].
Qed.

Lemma remove_spaces_lstrip (s : list char) :
  Config.remove_spaces (Config.lstrip s) = Config.remove_spaces s.
Proof.
  induction s as [|c rest IH]; [reflexivity|].
  cbn [Config.lstrip]. destruct (Config.is_space c) eqn:E; [|reflexivity].
  rewrite IH. unfold Config.remove_spaces. cbn [filter]. now rewrite E.
Qed.

Lemma rstrip_nil_spaces (s : list char) :
  Config.rstrip s = [] -> Forall (fun c => Config.is_space c = true) s.
Proof.
  induction s as [|c rest IH]; [constructor|].
  cbn [Config.rstrip]. destruct (Config.rstrip rest) as [|d r].
  - destruct (Config.is_space c) eqn:E; [|discriminate].
    intros _. constructor; [exact E|now apply IH].
  - discriminate.
Qed.

Lemma remove_spaces_all (s : list char) :
  Forall (fun c => Config.is_space c = true) s -> Config.remove_spaces s = [].
Proof.
  induction 1 as [|c rest Hc _ IH]; [reflexivity|].
  unfold Config.remove_spaces in *. cbn [filter]. now rewrite Hc.
Qed.

Lemma remove_spaces_rstrip (s : list char) :
  Config.remove_spaces (Config.rstrip s) = Config.remove_spaces s.
Proof.
  induction s as [|c rest IH]; [reflexivity|].
  cbn [Config.rstrip].
  destruct (Config.rstrip rest) as [|d r] eqn:Er.
  - pose proof (remove_spaces_all _ (rstrip_nil_spaces _ Er)) as Hs.
    unfold Config.remove_spaces in *. cbn [filter].
    destruct (Config.is_space c) eqn:E; cbn [negb filter]; rewrite ?E;
      cbn [negb]; now rewrite Hs.
  - unfold Config.remove_spaces in *. cbn [filter].
    destruct (negb (Config.is_space c)); now rewrite <- IH.
Qed.

Lemma remove_spaces_strip (s : list char) :
  Config.remove_spaces (Config.strip s) = Config.remove_spaces s.
Proof.
  unfold Config.strip. now rewrite remove_spaces_rstrip, remove_spaces_lstrip.
Qed.

Lemma space_not_hash c : Config.is_space c = true -> N.eqb c Config.ch_hash = false.
Proof.
  intros H. destruct (N.eqb_spec c Config.ch_hash) as [->|]; [|reflexivity].
  discriminate.
Qed.

Lemma cut_comment_spaces (s : list char) :
  Forall (fun c => Config.is_space c = true) s -> Config.cut_comment s = s.
Proof.
  induction 1 as [|c rest Hc _ IH]; [reflexivity|].
  cbn [Config.cut_comment]. rewrite (space_not_hash c Hc). now rewrite IH.
Qed.

Lemma cut_lstrip (s : list char) :
  Config.remove_spaces (Config.cut_comment (Config.lstrip s))
  = Config.remove_spaces (Config.cut_comment s).
Proof.
  induction s as [|c rest IH]; [reflexivity|].
  cbn [Config.lstrip]. destruct (Config.is_space c) eqn:E; [|reflexivity].
  rewrite IH. cbn [Config.cut_comment]. rewrite (space_not_hash c E).
  unfold Config.remove_spaces. cbn [filter]. now rewrite E.
Qed.

Lemma cut_rstrip (s : list char) :
  Config.remove_spaces (Config.cut_comment (Config.rstrip s))
  = Config.remove_spaces (Config.cut_comment s).
Proof.
  induction s as [|c rest IH]; [reflexivity|].
  cbn [Config.rstrip].
  destruct (Config.rstrip rest) as [|d r] eqn:Er.
  - pose proof (rstrip_nil_spaces _ Er) as Hs.
    cbn [Config.cut_comment].
    destruct (Config.is_space c) eqn:E.
    + rewrite (space_not_hash c E). rewrite (cut_comment_spaces _ Hs).
      unfold Config.remove_spaces. cbn [filter Config.cut_comment].
      rewrite E. cbn [negb]. symmetry. now apply remove_spaces_all.
    + cbn [Config.cut_comment].
      destruct (N.eqb c Config.ch_hash); [reflexivity|].
      rewrite (cut_comment_spaces _ Hs).
      unfold Config.remove_spaces. cbn [filter Config.cut_comment].
      rewrite E. cbn [negb]. f_equal. symmetry.
      now apply remove_spaces_all.
  - set (dr := d :: r) in *. cbn [Config.cut_comment].
    destruct (N.eqb c Config.ch_hash); [reflexivity|].
    unfold Config.remove_spaces in *. cbn [filter].
    destruct (negb (Config.is_space c)); now rewrite IH.
Qed.

Lemma cut_strip (s : list char) :
  Config.remove_spaces (Config.cut_comment (Config.strip s))
  = Config.remove_spaces (Config.cut_comment s).
Proof. unfold Config.strip. now rewrite cut_rstrip, cut_lstrip. Qed.

(** The test ['=#' in line] does not depend on the stripping. *)
Lemma contains_lstrip (s : list char) :
  Config.contains [Config.ch_equals; Config.ch_hash] (Config.lstrip s)
  = Config.contains [Config.ch_equals; Config.ch_hash] s.
Proof.
  induction s as [|c rest IH]; [reflexivity|].
  cbn [Config.lstrip]. destruct (Config.is_space c) eqn:E; [|reflexivity].
  rewrite IH. cbn [Config.contains Config.starts_with].
  destruct (N.eqb_spec Config.ch_equals c) as [<-|]; [discriminate|].
  reflexivity.
Qed.

Lemma rstrip_head (c : char) (rest : list char) (d : char) (r : list char) :
  Config.rstrip (c :: rest) = d :: r -> d = c.
Proof.
  cbn [Config.rstrip]. destruct (Config.rstrip rest).
  - destruct (Config.is_space c); [discriminate|]. now intros [= <- _].
  - now intros [= <- _].
Qed.

Lemma starts_hash_rstrip (s : list char) :
  Config.starts_with [Config.ch_hash] (Config.rstrip s)
  = Config.starts_with [Config.ch_hash] s.
Proof.
  destruct s as [|c rest]; [reflexivity|].
  destruct (Config.rstrip (c :: rest)) as [|d r] eqn:Er.
  - apply rstrip_nil_spaces in Er. inversion Er as [|? ? Hc _]; subst.
    cbn [Config.starts_with].
    destruct (N.eqb_spec Config.ch_hash c) as [<-|]; [discriminate|].
    reflexivity.
  - apply rstrip_head in Er. subst d. reflexivity.
Qed.

Lemma contains_all_spaces (s : list char) :
  Forall (fun c => Config.is_space c = true) s ->
  Config.contains [Config.ch_equals; Config.ch_hash] s = false.
Proof.
  induction 1 as [|c rest Hc _ IH]; [reflexivity|].
  cbn [Config.contains Config.starts_with].
  destruct (N.eqb_spec Config.ch_equals c) as [<-|]; [discriminate|].
  exact IH.
Qed.

Lemma contains_rstrip (s : list char) :
  Config.contains [Config.ch_equals; Config.ch_hash] (Config.rstrip s)
  = Config.contains [Config.ch_equals; Config.ch_hash] s.
Proof.
  induction s as [|c rest IH]; [reflexivity|].
  pose proof (starts_hash_rstrip rest) as Hh.
  cbn [Config.rstrip].
  destruct (Config.rstrip rest) as [|d r] eqn:Er.
  - pose proof (rstrip_nil_spaces _ Er) as Hs.
    cbn [Config.contains]. rewrite (contains_all_spaces _ Hs).
    cbn [Config.starts_with] in *.
    destruct (Config.is_space c) eqn:E.
    + destruct (N.eqb_spec Config.ch_equals c) as [<-|]; [discriminate|].
      reflexivity.
    + cbn [Config.contains Config.starts_with].
      destruct (N.eqb Config.ch_equals c); cbn [andb orb]; [|reflexivity].
      destruct rest as [|x rest']; [reflexivity|].
      inversion Hs as [|? ? Hx _]; subst.
      destruct (N.eqb_spec Config.ch_hash x) as [<-|]; [discriminate|].
      reflexivity.
  - cbn [Config.contains]. rewrite <- IH. f_equal.
    cbn [Config.starts_with] in *.
    destruct (N.eqb Config.ch_equals c); cbn [andb]; [|reflexivity].
    exact Hh.
Qed.

Lemma contains_strip (s : list char) :
  Config.contains [Config.ch_equals; Config.ch_hash] (Config.strip s)
  = Config.contains [Config.ch_equals; Config.ch_hash] s.
Proof. unfold Config.strip. now rewrite contains_rstrip, contains_lstrip. Qed.

Lemma cut_comment_no_hash (s : list char) :
  ~ In Config.ch_hash (Config.cut_comment s).
Proof.
  induction s as [|c rest IH]; [intros []|].
  cbn [Config.cut_comment].
  destruct (N.eqb_spec c Config.ch_hash) as [|Hc]; [intros []|].
  intros [H|H]; [congruence|contradiction].
Qed.

Lemma cut_comment_id (s : list char) :
  Py.mem Config.ch_hash s = false -> Config.cut_comment s = s.
Proof.
  induction s as [|c rest IH]; [reflexivity|].
  unfold Py.mem. cbn [existsb Config.cut_comment].
  rewrite (N.eqb_sym c Config.ch_hash).
  destruct (N.eqb Config.ch_hash c); [discriminate|].
  cbn [orb]. intros H. now rewrite (IH H).
Qed.

(** What the line is reduced to before it is split. *)
Lemma parse_line_split (raw k v : list char) :
  Config.parse_line raw = Some (k, v) ->
  let body :=
    Config.remove_spaces
      (if Config.contains [Config.ch_equals; Config.ch_hash] raw
       then raw else Config.cut_comment raw) in
  In Config.ch_equals body /\ Config.split_first body = (k, v).
Proof.
  intros H body. unfold Config.parse_line in H.
  destruct (Config.strip raw) as [|c rest] eqn:Es; [discriminate|].
  destruct (N.eqb c Config.ch_hash); [discriminate|].
  rewrite <- Es in H.
  assert (E : Config.remove_spaces
                (if Py.mem Config.ch_hash (Config.strip raw)
                    && negb (Config.contains [Config.ch_equals; Config.ch_hash]
                                             (Config.strip raw))
                 then Config.cut_comment (Config.strip raw)
                 else Config.strip raw) = body).
  { subst body. rewrite contains_strip.
    destruct (Config.contains [Config.ch_equals; Config.ch_hash] raw).
    - rewrite andb_false_r. apply remove_spaces_strip.
    - rewrite andb_true_r.
      destruct (Py.mem Config.ch_hash (Config.strip raw)) eqn:Em.
      + apply cut_strip.
      + rewrite <- cut_strip. now rewrite (cut_comment_id _ Em). }
  rewrite E in H.
  destruct (Py.mem Config.ch_equals body) eqn:Em; [|discriminate].
  apply mem_In in Em. split; [exact Em|]. now injection H.
Qed.

(** X16.  A line of a configuration file that makes an assignment of
    [v] to [k] (lines 163-175 and 255-267): [k] and [v] hold no
    whitespace, also none inside (a title of two words loses its
    space), and [k] holds no ['=']: the line is split at its first
    ['='].  What is split is the line without its whitespace, cut at
    the first ['#'] unless the line holds ['=#'] somewhere; then
    nothing is cut (a colour value [#rrggbb] is kept, and so is a
    comment that follows it).  Without ['=#'] neither key nor value
    holds a ['#']. *)
Theorem config_line_shape (raw k v : list char) :
  Config.parse_line raw = Some (k, v) ->
  Forall (fun c => Config.is_space c = false) (k ++ v)
  /\ ~ In Config.ch_equals k
  /\ k ++ Config.ch_equals :: v
     = Config.remove_spaces
         (if Config.contains [Config.ch_equals; Config.ch_hash] raw
          then raw else Config.cut_comment raw)
  /\ (Config.contains [Config.ch_equals; Config.ch_hash] raw = false ->
      ~ In Config.ch_hash (k ++ v)).
Proof.
  intros H. destruct (parse_line_split raw k v H) as [Hin Hs].
  destruct (split_first_spec _ Hin) as [E Hk]. rewrite Hs in E, Hk.
  cbn [fst snd] in E, Hk.
  set (body := Config.remove_spaces _) in *.
  assert (Hc : Forall (fun c => Config.is_space c = false) body)
    by apply remove_spaces_clean.
  split; [|split; [exact Hk|split; [now symmetry|]]].
  - rewrite E in Hc. apply Forall_app in Hc. destruct Hc as [Hc1 Hc2].
    apply Forall_app. split; [exact Hc1|]. now inversion Hc2.
  - intros Hno Hh. subst body. rewrite Hno in E.
    apply (cut_comment_no_hash raw).
    assert (Hb : In Config.ch_hash (k ++ Config.ch_equals :: v)).
    { apply in_app_or in Hh. apply in_or_app.
      destruct Hh as [Hh|Hh]; [now left|right; now right]. }
    rewrite <- E in Hb. unfold Config.remove_spaces in Hb.
    apply filter_In in Hb. now destruct Hb.
Qed.

(** The line [ title = A B # x]. *)
Lemma config_line_shape_witness :
  Forall (fun c => Config.is_space c = false)
         ([116; 105; 116; 108; 101] ++ [65; 66])%N
  /\ ~ In Config.ch_equals [116; 105; 116; 108; 101]%N
  /\ ~ In Config.ch_hash ([116; 105; 116; 108; 101] ++ [65; 66])%N.
Proof.
  destruct (config_line_shape
              [32; 116; 105; 116; 108; 101; 32; 61; 32; 65; 32; 66; 32;
               35; 32; 120; 10]%N
              [116; 105; 116; 108; 101]%N [65; 66]%N eq_refl)
    as (H1 & H2 & _ & H4).
  split; [exact H1|]. split; [exact H2|]. apply H4. reflexivity.
Defined.

(** ** Loading a configuration file *)

Lemma load_lines_app (l1 l2 : list (list char)) (d : Config.dict) :
  Config.load_lines (l1 ++ l2) d
  = Config.load_lines l2 (Config.load_lines l1 d).
Proof. unfold Config.load_lines. apply fold_left_app. Qed.

Lemma str_eqb_refl (k : list char) : Config.str_eqb k k = true.
Proof.
  induction k as [|c k IH]; [reflexivity|].
  cbn [Config.str_eqb]. now rewrite N.eqb_refl, IH.
Qed.

Lemma str_eqb_eq (a b : list char) : Config.str_eqb a b = true -> a = b.
Proof.
  revert b. induction a as [|x a IH]; intros [|y b]; cbn [Config.str_eqb];
    try discriminate; [reflexivity|].
  intros H. apply andb_true_iff in H. destruct H as [H1 H2].
  apply N.eqb_eq in H1. subst. f_equal. now apply IH.
Qed.

Lemma load_lines_untouched (lines : list (list char)) (k : list char) :
  (forall raw v, In raw lines -> Config.parse_line raw <> Some (k, v)) ->
  forall d,
    Config.dict_get (Config.load_lines lines d) k = Config.dict_get d k.
Proof.
  induction lines as [|raw lines IH]; intros Hn d; [reflexivity|].
  change (Config.load_lines (raw :: lines) d)
    with (Config.load_lines lines
            (match Config.parse_line raw with
             | Some (k', v') => Config.dict_set d k' v'
             | None => d
             end)).
  rewrite IH by (intros r v Hr; apply Hn; now right).
  destruct (Config.parse_line raw) as [[k' v']|] eqn:Ep; [|reflexivity].
  unfold Config.dict_get, Config.dict_set. cbn [find fst].
  destruct (Config.str_eqb k' k) eqn:E; [|reflexivity].
  apply str_eqb_eq in E. subst k'. exfalso.
  apply (Hn raw v' (or_introl eq_refl)). exact Ep.
Qed.

(** X17.  Loading a configuration file ([load_book_config] and
    [load_canvas_config] run the same code): a line that makes no
    assignment changes nothing, and a blank line and a line whose first
    character after leading whitespace is ['#'] make none; of several
    assignments to one key the last one wins; a key that no line
    assigns keeps the value it had. *)
Theorem config_last_assignment_wins (l1 l2 : list (list char))
        (raw : list char) (d : Config.dict) :
  (Config.parse_line raw = None ->
   Config.load_book_config (l1 ++ raw :: l2) d
   = Config.load_book_config (l1 ++ l2) d)
  /\ (forall k v,
        Config.parse_line raw = Some (k, v) ->
        (forall raw' v', In raw' l2 -> Config.parse_line raw' <> Some (k, v'))
        -> Config.dict_get (Config.load_book_config (l1 ++ raw :: l2) d) k
           = Some v)
  /\ (forall k,
        (forall raw' v', In raw' l1 -> Config.parse_line raw' <> Some (k, v'))
        -> Config.dict_get (Config.load_book_config l1 d) k
           = Config.dict_get d k)
  /\ (Forall (fun c => Config.is_space c = true) raw ->
      Config.parse_line raw = None)
  /\ (forall rest,
        Config.lstrip raw = Config.ch_hash :: rest ->
        Config.parse_line raw = None).
Proof.
  unfold Config.load_book_config.
  split; [|split; [|split; [|split]]].
  - intros Hn. rewrite !load_lines_app.
    change (Config.load_lines (raw :: l2) (Config.load_lines l1 d))
      with (Config.load_lines l2
              (match Config.parse_line raw with
               | Some (k', v') =>
                   Config.dict_set (Config.load_lines l1 d) k' v'
               | None => Config.load_lines l1 d
               end)).
    now rewrite Hn.
  - intros k v Hp Hn. rewrite load_lines_app.
    change (Config.load_lines (raw :: l2) (Config.load_lines l1 d))
      with (Config.load_lines l2
              (match Config.parse_line raw with
               | Some (k', v') =>
                   Config.dict_set (Config.load_lines l1 d) k' v'
               | None => Config.load_lines l1 d
               end)).
    rewrite Hp, (load_lines_untouched l2 k Hn).
    unfold Config.dict_get, Config.dict_set. cbn [find fst].
    now rewrite str_eqb_refl.
  - intros k Hn. now apply load_lines_untouched.
  - intros Hs. unfold Config.parse_line.
    assert (E : Config.strip raw = []).
    { pose proof (remove_spaces_strip raw) as E.
      rewrite (remove_spaces_all raw Hs) in E.
      destruct (Config.strip raw) as [|c r] eqn:Es; [reflexivity|].
      exfalso.
      assert (Hl : Config.lstrip raw = []).
      { clear -Hs. induction Hs as [|c rest Hc _ IH]; [reflexivity|].
        cbn [Config.lstrip]. now rewrite Hc. }
      unfold Config.strip in Es. rewrite Hl in Es. discriminate. }
    now rewrite E.
  - intros rest Hl. unfold Config.parse_line, Config.strip. rewrite Hl.
    destruct (Config.rstrip (Config.ch_hash :: rest)) as [|c r] eqn:Er;
      [reflexivity|].
    apply rstrip_head in Er. subst c. reflexivity.
Qed.

(** ** Font arrays *)

Lemma index_in {A} (l : list A) (i : Z) (x : A) :
  Py.index l i = Some x -> In x l.
Proof.
  unfold Py.index.
  destruct (i <? 0); [destruct (0 <=? i + Z.of_nat (length l))|];
    try discriminate; apply nth_error_In.
Qed.

Lemma index_in_range {A} (l : list A) (i : Z) :
  0 <= i < Z.of_nat (length l) -> exists x, Py.index l i = Some x.
Proof.
  intros H. rewrite index_nonneg by lia.
  destruct (nth_error l (Z.to_nat i)) as [x|] eqn:E; [now exists x|].
  apply nth_error_None in E. lia.
Qed.

Lemma select_incl int_char fns arr : forall l,
  Fonts.select int_char fns arr = Some l ->
  incl l fns /\ (length l <= length arr)%nat.
Proof.
  induction arr as [|c rest IH]; intros l; cbn [Fonts.select].
  - intros [= <-]. split; [intros x []|simpl; lia].
  - destruct (int_char c) as [n|]; [|discriminate].
    destruct (Fonts.select int_char fns rest) as [l0|]; [|discriminate].
    destruct (IH l0 eq_refl) as [Hi Hl].
    destruct ((0 <=? n - 1) && (n - 1 <? Z.of_nat (length fns)))%bool.
    + destruct (Py.index fns (n - 1)) as [f|] eqn:E; [|discriminate].
      intros [= <-]. split.
      * intros x [<-|Hx]; [now apply index_in in E|now apply Hi].
      * simpl. lia.
    + intros [= <-]. split; [exact Hi|simpl; lia].
Qed.

Lemma select_none int_char fns arr :
  Fonts.select int_char fns arr = None
  <-> exists c, In c arr /\ int_char c = None.
Proof.
  induction arr as [|c rest IH]; cbn [Fonts.select].
  - split; [discriminate|]. intros (c & [] & _).
  - destruct (int_char c) as [n|] eqn:Ec.
    + destruct (Fonts.select int_char fns rest) as [l0|].
      * assert (Hno : ~ exists c0, In c0 rest /\ int_char c0 = None).
        { intros H. apply IH in H. discriminate. }
        destruct (Z.leb_spec 0 (n - 1)); cbn [andb].
        -- destruct (Z.ltb_spec (n - 1) (Z.of_nat (length fns))).
           ++ destruct (index_in_range fns (n - 1) ltac:(lia)) as [f ->].
              split; [discriminate|].
              intros (c0 & [<-|Hc0] & E0); [congruence|].
              exfalso. apply Hno. now exists c0.
           ++ split; [discriminate|].
              intros (c0 & [<-|Hc0] & E0); [congruence|].
              exfalso. apply Hno. now exists c0.
        -- split; [discriminate|].
           intros (c0 & [<-|Hc0] & E0); [congruence|].
           exfalso. apply Hno. now exists c0.
      * split; [|reflexivity]. intros _.
        destruct (proj1 IH eq_refl) as (c0 & Hc0 & E0).
        exists c0. split; [now right|exact E0].
    + split; [|reflexivity]. intros _. exists c. split; [now left|exact Ec].
Qed.

Lemma configured_nonempty_names cfg : ~ In EmptyString (Fonts.configured cfg).
Proof.
  unfold Fonts.configured. intros H. apply in_flat_map in H.
  destruct H as (o & _ & H). destruct o as [f|]; [|destruct H].
  destruct (String.eqb_spec f EmptyString) as [|Hf]; [destruct H|].
  destruct H as [H|[]]. congruence.
Qed.

Lemma select_digits (fns : list font) : forall (m k : nat),
  (k + m <= 9)%nat ->
  Fonts.select Fonts.ascii_digit fns
    (map (fun i => N.of_nat (49 + k + i)) (seq 0 m))
  = Some (firstn m (skipn k fns)).
Proof.
  induction m as [|m IH]; intros k Hk; [reflexivity|].
  cbn [seq map]. rewrite <- seq_shift, map_map.
  rewrite (map_ext _ (fun i => N.of_nat (49 + S k + i)))
    by (intros i; f_equal; lia).
  cbn [Fonts.select]. rewrite (IH (S k)) by lia.
  assert (Ed : Fonts.ascii_digit (N.of_nat (49 + k + 0))
               = Some (Z.of_nat k + 1)).
  { unfold Fonts.ascii_digit.
    destruct (N.leb_spec 48 (N.of_nat (49 + k + 0))); [|lia].
    destruct (N.leb_spec (N.of_nat (49 + k + 0)) 57); [|lia].
    cbn [andb]. f_equal. lia. }
  rewrite Ed. replace (Z.of_nat k + 1 - 1) with (Z.of_nat k) by lia.
  destruct (Z.leb_spec 0 (Z.of_nat k)); [|lia]. cbn [andb].
  destruct (Z.ltb_spec (Z.of_nat k) (Z.of_nat (length fns))) as [L|L].
  - rewrite index_nonneg by lia. rewrite Nat2Z.id.
    destruct (nth_error fns k) as [f|] eqn:E.
    + f_equal.
      assert (Es : skipn k fns = f :: skipn (S k) fns).
      { clear -E. revert fns E. induction k as [|k IHk]; intros [|a l] E;
          try discriminate.
        - now injection E as ->.
        - cbn [skipn]. now apply IHk. }
      now rewrite Es.
    + apply nth_error_None in E. lia.
  - rewrite (skipn_all2 fns) by lia.
    rewrite (skipn_all2 fns) by lia. now rewrite !firstn_nil.
Qed.

Lemma fonts_of_names int_str : forall slots es,
  Fonts.fonts_of int_str slots = Some es ->
  map fst es = Fonts.configured (map Fonts.font_file slots).
Proof.
  induction slots as [|s rest IH]; intros es; cbn [Fonts.fonts_of].
  - now intros [= <-].
  - cbn [map]. unfold Fonts.configured. cbn [flat_map].
    fold (Fonts.configured (map Fonts.font_file rest)).
    destruct (Fonts.font_file s) as [f|]; [|exact (IH es)].
    destruct (String.eqb f EmptyString); [exact (IH es)|].
    destruct (Fonts.entry int_str s) as [x|]; [|discriminate].
    destruct (Fonts.fonts_of int_str rest) as [l|]; [|discriminate].
    intros [= <-]. cbn [map fst app]. f_equal. now apply IH.
Qed.

Lemma fonts_of_none int_str : forall slots,
  Fonts.fonts_of int_str slots = None
  <-> exists s f, In s slots /\ Fonts.font_file s = Some f
                  /\ f <> EmptyString /\ Fonts.entry int_str s = None.
Proof.
  induction slots as [|s rest IH]; cbn [Fonts.fonts_of].
  - split; [discriminate|]. intros (s & f & [] & _).
  - assert (Hrest : Fonts.fonts_of int_str rest = None
                    -> exists s0 f, In s0 (s :: rest)
                         /\ Fonts.font_file s0 = Some f
                         /\ f <> EmptyString
                         /\ Fonts.entry int_str s0 = None).
    { intros H. apply IH in H. destruct H as (s0 & f & Hin & H).
      exists s0, f. split; [now right|exact H]. }
    destruct (Fonts.font_file s) as [f|] eqn:Ef.
    + destruct (String.eqb_spec f EmptyString) as [->|Hf].
      * split; [exact Hrest|].
        intros (s0 & f0 & [<-|Hin] & E0 & N0 & X0); [congruence|].
        apply IH. now exists s0, f0.
      * destruct (Fonts.entry int_str s) as [x|] eqn:Ex.
        -- destruct (Fonts.fonts_of int_str rest) as [l|] eqn:El.
           ++ split; [discriminate|].
              intros (s0 & f0 & [<-|Hin] & E0 & N0 & X0); [congruence|].
              enough (Some l = None) by discriminate.
              apply IH. now exists s0, f0.
           ++ split; [intros _; now apply Hrest|reflexivity].
        -- split; [|reflexivity]. intros _. exists s, f.
           split; [now left|]. split; [exact Ef|]. split; assumption.
    + split; [exact Hrest|].
      intros (s0 & f0 & [<-|Hin] & E0 & N0 & X0); [congruence|].
      apply IH. now exists s0, f0.
Qed.

Lemma entry_none int_str (s : Fonts.Slot) :
  Fonts.entry int_str s = None
  <-> Fonts.int_or int_str 42 (Fonts.text_size_cfg s) = None
      \/ Fonts.int_or int_str 30 (Fonts.comment_size_cfg s) = None
      \/ Fonts.int_or int_str 0 (Fonts.rotate_cfg s) = None.
Proof.
  unfold Fonts.entry.
  destruct (Fonts.int_or int_str 42 _) as [a|];
    [|split; [now left|reflexivity]].
  destruct (Fonts.int_or int_str 30 _) as [b|];
    [|split; [right; now left|reflexivity]].
  destruct (Fonts.int_or int_str 0 _) as [c|];
    [|split; [right; now right|reflexivity]].
  split; [discriminate|]. intros [H|[H|H]]; discriminate.
Qed.

(** X18.  [setup_fonts] (lines 213-244).  When it returns, [fns] holds
    the values of [font1] ... [font5] that are set, in order, none
    empty, with one entry of [fonts] each; [tfns] and [cfns] hold fonts
    of [fns] only, at most one per character of their array.  The call
    fails exactly when [int] fails on the text size, the annotation
    size or the rotation of a font that is set (lines 226-230; a key
    that is missing takes its default and cannot fail), or on a
    character of an array.  A digit that is 0 or above the number of
    fonts picks nothing (no wrap-around to the last font), and the
    default array ['12345'] picks the first five fonts, in order. *)
Theorem font_arrays_pick_configured_fonts (int_char : char -> option Z)
        (int_str : list char -> option Z)
        (slots : list Fonts.Slot) (tfsarray cfsarray : list char) :
  (forall fns es tfns cfns,
     Fonts.setup_fonts int_char int_str slots tfsarray cfsarray
     = Some (fns, es, tfns, cfns) ->
     fns = Fonts.configured (map Fonts.font_file slots)
     /\ map fst es = fns
     /\ ~ In EmptyString fns
     /\ incl tfns fns /\ incl cfns fns
     /\ (length tfns <= length tfsarray)%nat
     /\ (length cfns <= length cfsarray)%nat)
  /\ (Fonts.setup_fonts int_char int_str slots tfsarray cfsarray = None
      <-> (exists s f, In s slots /\ Fonts.font_file s = Some f
                       /\ f <> EmptyString
                       /\ Fonts.entry int_str s = None)
          \/ (exists c, In c (tfsarray ++ cfsarray) /\ int_char c = None))
  /\ (forall s,
        Fonts.entry int_str s = None
        <-> Fonts.int_or int_str 42 (Fonts.text_size_cfg s) = None
            \/ Fonts.int_or int_str 30 (Fonts.comment_size_cfg s) = None
            \/ Fonts.int_or int_str 0 (Fonts.rotate_cfg s) = None)
  /\ (forall d v,
        Fonts.int_or int_str d v = None
        <-> exists str, v = Some str /\ int_str str = None)
  /\ (forall fns c rest n,
        int_char c = Some n ->
        n <= 0 \/ Z.of_nat (length fns) < n ->
        Fonts.select int_char fns (c :: rest)
        = Fonts.select int_char fns rest)
  /\ Fonts.select Fonts.ascii_digit
                  (Fonts.configured (map Fonts.font_file slots))
                  Fonts.default_array
     = Some (firstn 5 (Fonts.configured (map Fonts.font_file slots))).
Proof.
  split; [|split; [|split; [|split; [|split]]]].
  - intros fns es tfns cfns. unfold Fonts.setup_fonts.
    destruct (Fonts.fonts_of int_str slots) as [es0|] eqn:Ee;
      [|discriminate].
    cbv zeta.
    destruct (Fonts.select int_char _ tfsarray) as [t|] eqn:Et;
      [|discriminate].
    destruct (Fonts.select int_char _ cfsarray) as [c|] eqn:Ec;
      [|discriminate].
    intros [= <- <- <- <-].
    destruct (select_incl _ _ _ _ Et) as [It Lt].
    destruct (select_incl _ _ _ _ Ec) as [Ic Lc].
    pose proof (fonts_of_names _ _ _ Ee) as En.
    split; [exact En|]. split; [reflexivity|].
    split; [rewrite En; apply configured_nonempty_names|].
    repeat split; assumption.
  - unfold Fonts.setup_fonts. split.
    + intros H.
      destruct (Fonts.fonts_of int_str slots) as [es0|] eqn:Ee.
      * right. cbv zeta in H.
        destruct (Fonts.select int_char _ tfsarray) as [t|] eqn:Et.
        -- destruct (Fonts.select int_char _ cfsarray) as [c|] eqn:Ec;
             [discriminate|].
           apply select_none in Ec. destruct Ec as (c & Hc & E).
           exists c. split; [apply in_or_app; now right|exact E].
        -- apply select_none in Et. destruct Et as (c & Hc & E).
           exists c. split; [apply in_or_app; now left|exact E].
      * left. now apply fonts_of_none.
    + intros [H|(c & Hc & E)].
      * apply fonts_of_none in H. now rewrite H.
      * destruct (Fonts.fonts_of int_str slots) as [es0|]; [|reflexivity].
        cbv zeta. apply in_app_or in Hc. destruct Hc as [Hc|Hc].
        -- assert (Et : Fonts.select int_char (map fst es0) tfsarray = None)
             by (apply select_none; now exists c).
           now rewrite Et.
        -- assert (Ec : Fonts.select int_char (map fst es0) cfsarray = None)
             by (apply select_none; now exists c).
           rewrite Ec. now destruct (Fonts.select int_char _ tfsarray).
  - intros s. apply entry_none.
  - intros d v. unfold Fonts.int_or. destruct v as [str|].
    + split; [intros H; now exists str|]. now intros (s0 & [= <-] & H).
    + split; [discriminate|]. now intros (s0 & E & _).
  - intros fns c rest n Hc Hn. cbn [Fonts.select]. rewrite Hc.
    assert (E : ((0 <=? n - 1) && (n - 1 <? Z.of_nat (length fns)))%bool
                = false).
    { destruct (Z.leb_spec 0 (n - 1)); [|reflexivity].
      destruct (Z.ltb_spec (n - 1) (Z.of_nat (length fns))); [lia|].
      reflexivity. }
    rewrite E. now destruct (Fonts.select int_char fns rest).
  - exact (select_digits (Fonts.configured (map Fonts.font_file slots)) 5 0
             ltac:(lia)).
Qed.

Lemma select_lenient_incl int_char available arr :
  incl (Fonts.select_lenient int_char available arr) available.
Proof.
  induction arr as [|c rest IH]; cbn [Fonts.select_lenient];
    [intros x []|].
  destruct (int_char c) as [n|]; [|exact IH].
  destruct ((0 <=? n - 1) && (n - 1 <? Z.of_nat (length available)))%bool;
    [|exact IH].
  destruct (Py.index available (n - 1)) as [f|] eqn:E; [|exact IH].
  intros x [<-|Hx]; [now apply index_in in E|now apply IH].
Qed.

Lemma or_first_spec available selected :
  incl selected available ->
  incl (Fonts.or_first available selected) available
  /\ (available <> [] -> Fonts.or_first available selected <> [])
  /\ (selected <> [] -> Fonts.or_first available selected = selected)
  /\ (available = [] -> Fonts.or_first available selected = []).
Proof.
  intros Hi. unfold Fonts.or_first.
  destruct selected as [|s sl]; destruct available as [|a al];
    repeat split; auto; try congruence; try discriminate.
  - intros x [<-|[]]. now left.
  - intros _. exfalso. apply (Hi s). now left.
Qed.

Lemma select_lenient_agrees int_char available arr : forall l,
  Fonts.select int_char available arr = Some l ->
  Fonts.select_lenient int_char available arr = l.
Proof.
  induction arr as [|c rest IH]; intros l;
    cbn [Fonts.select Fonts.select_lenient].
  - now intros [= <-].
  - destruct (int_char c) as [n|]; [|discriminate].
    destruct (Fonts.select int_char available rest) as [l0|];
      [|discriminate].
    rewrite (IH l0 eq_refl).
    destruct ((0 <=? n - 1) && (n - 1 <? Z.of_nat (length available)))%bool.
    + destruct (Py.index available (n - 1)); [|discriminate].
      now intros [= <-].
    + now intros [= <-].
Qed.

(** X19.  [_setup_font_arrays] of [vrainNovel.py]: both arrays hold
    available fonts only; they are not empty when a font is available
    (an array that picks nothing falls back to the first available
    font) and both are empty when none is, which is the case when only
    a default font was loaded, since [_setup_fonts] passes the list of
    the configured fonts (line 465).  Where the strict selection of
    [vrain.py] succeeds, the lenient one selects the same fonts. *)
Theorem novel_font_arrays_never_empty (int_char : char -> option Z)
        (available : list font)
        (text_fonts_array comment_fonts_array : list char) :
  incl (fst (Fonts._setup_font_arrays int_char available text_fonts_array
                                      comment_fonts_array)) available
  /\ incl (snd (Fonts._setup_font_arrays int_char available text_fonts_array
                                         comment_fonts_array)) available
  /\ (available <> [] ->
      fst (Fonts._setup_font_arrays int_char available text_fonts_array
                                    comment_fonts_array) <> []
      /\ snd (Fonts._setup_font_arrays int_char available text_fonts_array
                                       comment_fonts_array) <> [])
  /\ (available = [] ->
      Fonts._setup_font_arrays int_char available text_fonts_array
                               comment_fonts_array = ([], []))
  /\ (Fonts.select_lenient int_char available text_fonts_array = [] ->
      fst (Fonts._setup_font_arrays int_char available text_fonts_array
                                    comment_fonts_array)
      = firstn 1 available)
  /\ (forall l,
        Fonts.select int_char available text_fonts_array = Some l ->
        Fonts.select_lenient int_char available text_fonts_array = l).
Proof.
  unfold Fonts._setup_font_arrays. cbn [fst snd].
  destruct (or_first_spec available _
              (select_lenient_incl int_char available text_fonts_array))
    as (T1 & T2 & _ & T4).
  destruct (or_first_spec available _
              (select_lenient_incl int_char available comment_fonts_array))
    as (C1 & C2 & _ & C4).
  split; [exact T1|]. split; [exact C1|].
  split; [intros H; split; auto|].
  split; [intros H; now rewrite (T4 H), (C4 H)|].
  split.
  - intros ->. unfold Fonts.or_first. now destruct available.
  - apply select_lenient_agrees.
Qed.

(** ** Font lookup in the novel generator *)

(** X20.  [get_font_for_char] of [vrainNovel.py] returns no font only
    for an empty list.  A font returned is a member of the list: its
    first font, or, for a character that is not blank, the first
    loaded font of the list whose glyph table holds the character.
    When no loaded font holds the character the first font of the list
    is returned all the same, where [get_font] of [vrain.py] returns
    nothing.  A blank character is supported by every font. *)
Theorem novel_font_lookup_falls_back (g : Novel.Generator) (c : char)
        (font_list : list font) :
  (Novel.get_font_for_char g c font_list = None <-> font_list = [])
  /\ (forall f,
        Novel.get_font_for_char g c font_list = Some f ->
        In f font_list
        /\ (hd_error font_list = Some f
            \/ (Novel.is_blank c = false
                /\ Novel.loaded g f = true /\ Novel.glyph g f c = true
                /\ exists l1 l2,
                     font_list = l1 ++ f :: l2
                     /\ forall x, In x l1 ->
                          Novel.loaded g x && Novel.glyph g x c = false)))
  /\ ((forall f, In f font_list ->
         Novel.loaded g f && Novel.glyph g f c = false) ->
      Novel.get_font_for_char g c font_list = hd_error font_list)
  /\ (Novel.is_blank c = true ->
      forall f, Novel.check_font_support g f c = true).
Proof.
  unfold Novel.get_font_for_char, Novel.check_font_support.
  split; [|split; [|split]].
  - destruct (Novel.is_blank c).
    + destruct font_list; cbn [hd_error]; split; congruence.
    + destruct (find _ font_list) as [f|] eqn:Ef.
      * split; [discriminate|]. intros ->. discriminate.
      * destruct font_list; cbn [hd_error]; split; congruence.
  - intros f. destruct (Novel.is_blank c) eqn:Eb.
    + intros H. split; [|now left].
      destruct font_list; [discriminate|]. injection H as ->. now left.
    + destruct (find _ font_list) as [f'|] eqn:Ef.
      * intros [= <-].
        destruct (find_first _ font_list f' Ef) as (Hp & l1 & l2 & E & Hl).
        cbn beta iota in Hp, Hl.
        apply andb_true_iff in Hp. destruct Hp as [Hp1 Hp2].
        split; [now apply find_some in Ef|].
        right. repeat split; auto. now exists l1, l2.
      * intros H. split; [|now left].
        destruct font_list; [discriminate|]. injection H as ->. now left.
  - intros Hn. destruct (Novel.is_blank c); [reflexivity|].
    rewrite find_none_all; [reflexivity|]. exact Hn.
  - intros Hb f. now rewrite Hb.
Qed.

(** ** Page title and page number *)

Lemma column_drawn (e : Engine) (st : Labels.Style) (size : Z) (col : color)
      (y0 : Z) (cs : list char) :
  drawn (Labels.column e st size col y0 cs) = filter (Labels.drawable e) cs.
Proof.
  unfold Labels.column, Builtins.enumerate.
  match goal with |- context [flat_map ?f _] => set (F := f) end.
  generalize 0.
  induction cs as [|c rest IH]; intros k; [reflexivity|].
  cbn [Builtins.enumerate_from flat_map filter].
  rewrite drawn_app, IH. unfold F, Labels.drawable.
  destruct (Resolver.get_font e c (tfns e)) as [fn|]; [|reflexivity].
  destruct (String.eqb fn EmptyString); [reflexivity|].
  destruct (vfonts e fn); reflexivity.
Qed.

Lemma column_places (e : Engine) (st : Labels.Style) (size : Z) (col : color)
      (y0 : Z) (cs : list char) (i : nat) (c : char) :
  nth_error cs i = Some c ->
  Labels.drawable e c = true ->
  exists name,
    In (EvDraw c
          (inject_Z (if String.eqb (Labels.if_tpcenter st) "0"%string
                     then (- size) / 2
                     else canvas_width (geom e) / 2 - size / 2))
          (inject_Z y0
           - inject_Z size * inject_Z (Z.of_nat i) * Labels.title_ydis st)%Q
          name (inject_Z size) 0 col)
       (Labels.column e st size col y0 cs).
Proof.
  intros Hn Hd. unfold Labels.column, Builtins.enumerate.
  match goal with |- context [flat_map ?f _] => set (F := f) end.
  assert (G : forall cs' i' k,
            nth_error cs' i' = Some c ->
            exists name,
              In (EvDraw c
                    (inject_Z
                       (if String.eqb (Labels.if_tpcenter st) "0"%string
                        then (- size) / 2
                        else canvas_width (geom e) / 2 - size / 2))
                    (inject_Z y0
                     - inject_Z size * inject_Z (k + Z.of_nat i')
                       * Labels.title_ydis st)%Q
                    name (inject_Z size) 0 col)
                 (flat_map F (Builtins.enumerate_from k cs'))).
  { clear Hn. induction cs' as [|c0 rest IH]; intros i' k Hn.
    - destruct i'; discriminate.
    - cbn [Builtins.enumerate_from flat_map]. destruct i' as [|i'].
      + injection Hn as ->. unfold F at 1. unfold Labels.drawable in Hd.
        destruct (Resolver.get_font e c (tfns e)) as [fn|]; [|discriminate].
        destruct (String.eqb fn EmptyString); [discriminate|].
        destruct (vfonts e fn) as [name|]; [|discriminate].
        exists name. apply in_or_app. left. left.
        replace (k + Z.of_nat 0) with k by lia. reflexivity.
      + destruct (IH i' (k + 1) Hn) as [name Hin].
        exists name. apply in_or_app. right.
        replace (k + Z.of_nat (S i')) with (k + 1 + Z.of_nat i') by lia.
        exact Hin. }
  destruct (G cs i 0 Hn) as [name Hin]. exists name. exact Hin.
Qed.

(** X21.  [add_page_number] and [add_page_title]: the glyphs drawn are
    the characters of the label that [get_font] resolves to a
    registered font, in order; the character of index [i] of the label
    is drawn at [y0 - size * i * title_ydis], so a character that is
    not resolved leaves its slot empty; the label of a page number is
    its entry in the table of [load_zh_numbers], and its decimal
    digits when it has none. *)
Theorem page_label_skips_unresolved (e : Engine) (st : Labels.Style)
        (n : Z) (tpchars : list char) :
  drawn (Labels.add_page_number e st n)
  = filter (Labels.drawable e) (Labels.page_zh st n)
  /\ drawn (Labels.add_page_title e st tpchars)
     = filter (Labels.drawable e) tpchars
  /\ (forall i c,
        nth_error (Labels.page_zh st n) i = Some c ->
        Labels.drawable e c = true ->
        exists name,
          In (EvDraw c
                (inject_Z
                   (if String.eqb (Labels.if_tpcenter st) "0"%string
                    then (- Labels.pager_font_size st) / 2
                    else canvas_width (geom e) / 2
                         - Labels.pager_font_size st / 2))
                (inject_Z (Labels.pager_y st)
                 - inject_Z (Labels.pager_font_size st)
                   * inject_Z (Z.of_nat i) * Labels.title_ydis st)%Q
                name (inject_Z (Labels.pager_font_size st)) 0
                (Labels.pager_font_color st))
             (Labels.add_page_number e st n))
  /\ (forall i c,
        nth_error tpchars i = Some c ->
        Labels.drawable e c = true ->
        exists name,
          In (EvDraw c
                (inject_Z
                   (if String.eqb (Labels.if_tpcenter st) "0"%string
                    then (- Labels.title_font_size st) / 2
                    else canvas_width (geom e) / 2
                         - Labels.title_font_size st / 2))
                (inject_Z (Labels.title_y st)
                 - inject_Z (Labels.title_font_size st)
                   * inject_Z (Z.of_nat i) * Labels.title_ydis st)%Q
                name (inject_Z (Labels.title_font_size st)) 0
                (Labels.title_font_color st))
             (Labels.add_page_title e st tpchars))
  /\ (Labels.zhnums st n = None -> Labels.page_zh st n = Builtins.str n)
  /\ (forall s, Labels.zhnums st n = Some s -> Labels.page_zh st n = s).
Proof.
  unfold Labels.add_page_number, Labels.add_page_title.
  split; [apply column_drawn|]. split; [apply column_drawn|].
  split; [intros i c; apply column_places|].
  split; [intros i c; apply column_places|].
  unfold Labels.page_zh. split.
  - now intros ->.
  - now intros s ->.
Qed.

(** ** The end of an annotation in the novel generator *)

Lemma range_cons (a b : Z) :
  a < b -> Builtins.range a b = a :: Builtins.range (a + 1) b.
Proof.
  intros H. unfold Builtins.range.
  replace (Z.to_nat (b - a)) with (S (Z.to_nat (b - (a + 1)))) by lia.
  cbn [seq map]. f_equal; [lia|].
  rewrite <- seq_shift, map_map. apply map_ext. intros i. lia.
Qed.

Lemma range_nil (a b : Z) : b <= a -> Builtins.range a b = [].
Proof.
  intros H. unfold Builtins.range.
  now replace (Z.to_nat (b - a)) with 0%nat by lia.
Qed.

Lemma first_close_range (chars : list char) : forall (n : nat) (a : Z),
  0 <= a -> a + Z.of_nat n = Z.of_nat (length chars) ->
  exists r,
    Novel.first_close chars (Builtins.range a (Z.of_nat (length chars)))
    = Some r
    /\ ((r = -1
         /\ forall j, a <= j < Z.of_nat (length chars) ->
                      Py.index chars j <> Some ch_note_close)
        \/ (a <= r < Z.of_nat (length chars)
            /\ Py.index chars r = Some ch_note_close
            /\ forall j, a <= j < r ->
                         Py.index chars j <> Some ch_note_close)).
Proof.
  induction n as [|n IH]; intros a Ha Hn.
  - rewrite range_nil by lia. exists (-1). split; [reflexivity|].
    left. split; [reflexivity|]. intros j Hj. lia.
  - rewrite range_cons by lia. cbn [Novel.first_close].
    destruct (index_in_range chars a ltac:(lia)) as [c Ec]. rewrite Ec.
    destruct (N.eqb_spec c ch_note_close) as [->|Hc].
    + exists a. split; [reflexivity|]. right.
      split; [lia|]. split; [exact Ec|]. intros j Hj. lia.
    + destruct (IH (a + 1) ltac:(lia) ltac:(lia)) as (r & Er & Hr).
      exists r. split; [exact Er|].
      assert (Hnot : forall j, a <= j < a + 1 ->
                Py.index chars j <> Some ch_note_close).
      { intros j Hj. replace j with a by lia. rewrite Ec. congruence. }
      destruct Hr as [[-> Hall]|(Hb & Hi & Hall)].
      * left. split; [reflexivity|]. intros j Hj.
        destruct (Z.eq_dec j a) as [->|]; [apply Hnot; lia|apply Hall; lia].
      * right. split; [lia|]. split; [exact Hi|]. intros j Hj.
        destruct (Z.eq_dec j a) as [->|]; [apply Hnot; lia|apply Hall; lia].
Qed.

(** X22.  [_find_comment_end] on a start index that is not negative
    never fails; it returns the index of the first closing marker
    strictly after the start index, and [-1] exactly when there is
    none. *)
Theorem comment_end_is_first_closing_marker (chars : list char)
        (start_index : Z) :
  0 <= start_index ->
  exists r,
    Novel._find_comment_end chars start_index = Some r
    /\ ((r = -1
         /\ forall j, start_index < j < Z.of_nat (length chars) ->
                      Py.index chars j <> Some ch_note_close)
        \/ (start_index < r < Z.of_nat (length chars)
            /\ Py.index chars r = Some ch_note_close
            /\ forall j, start_index < j < r ->
                         Py.index chars j <> Some ch_note_close)).
Proof.
  intros H0. unfold Novel._find_comment_end.
  destruct (Z.le_gt_cases (Z.of_nat (length chars)) (start_index + 1))
    as [L|L].
  - rewrite range_nil by lia. exists (-1). split; [reflexivity|].
    left. split; [reflexivity|]. intros j Hj. lia.
  - destruct (first_close_range chars
                (Z.to_nat (Z.of_nat (length chars) - (start_index + 1)))
                (start_index + 1) ltac:(lia) ltac:(lia)) as (r & Er & Hr).
    exists r. split; [exact Er|].
    destruct Hr as [[-> Hall]|(Hb & Hi & Hall)].
    + left. split; [reflexivity|]. intros j Hj. apply Hall. lia.
    + right. split; [lia|]. split; [exact Hi|].
      intros j Hj. apply Hall. lia.
Qed.

(** Two closing markers after the opening one at index 1. *)
Lemma comment_end_is_first_closing_marker_witness :
  exists r,
    Novel._find_comment_end
      [65; ch_note_open; 88; ch_note_close; 66; ch_note_close]%N 1 = Some r
    /\ ((r = -1
         /\ forall j, 1 < j < 6 ->
              Py.index [65; ch_note_open; 88; ch_note_close; 66;
                        ch_note_close]%N j <> Some ch_note_close)
        \/ (1 < r < 6
            /\ Py.index [65; ch_note_open; 88; ch_note_close; 66;
                         ch_note_close]%N r = Some ch_note_close
            /\ forall j, 1 < j < r ->
                 Py.index [65; ch_note_open; 88; ch_note_close; 66;
                           ch_note_close]%N j <> Some ch_note_close)).
Proof.
  apply (comment_end_is_first_closing_marker
           [65; ch_note_open; 88; ch_note_close; 66; ch_note_close]%N 1).
  lia.
Defined.

(** ** Page breaks and page numbers of a whole document *)

Lemma skeleton_app a b : skeleton (a ++ b) = skeleton a ++ skeleton b.
Proof. apply filter_app. Qed.

Lemma annot_char_skeleton e p rc a :
  skeleton (fst (fst (Engine.annot_char e p rc a))) = [].
Proof.
  unfold Engine.annot_char.
  repeat break_match; cbn [fst]; rewrite ?skeleton_app; reflexivity.
Qed.

Lemma annot_loop_skeleton e p rcs : forall a,
  skeleton (fst (fst (Engine.annot_loop e p rcs a))) = [].
Proof.
  induction rcs as [|rc rest IH]; intros a; [reflexivity|].
  cbn [Engine.annot_loop].
  pose proof (annot_char_skeleton e p rc a) as H.
  destruct (Engine.annot_char e p rc a) as [[ev go] a'].
  destruct go.
  - specialize (IH a').
    destruct (Engine.annot_loop e p rest a') as [[ev' rem] a''].
    cbn [fst] in *. now rewrite skeleton_app, H, IH.
  - exact H.
Qed.

Lemma annot_block_skeleton e s ev x :
  Engine.annot_block e s = (ev, x) -> skeleton ev = [].
Proof.
  unfold Engine.annot_block. intros H.
  destruct (row_num (geom e) =? 0).
  { now injection H as <- <-. }
  match type of H with context [Engine.annot_loop e ?p ?r ?a] =>
    pose proof (annot_loop_skeleton e p r a) as T;
    destruct (Engine.annot_loop e p r a) as [[ev' rem] a'] end.
  cbn [fst] in T.
  destruct rem.
  - match type of H with context [if ?c then _ else _] => destruct c end;
      injection H as <- <-; exact T.
  - injection H as <- <-. exact T.
Qed.

Lemma page_end_punct_skeleton e pc rest fx fy fname fsize col :
  skeleton (fst (Engine.page_end_punct e pc rest fx fy fname fsize col)) = [].
Proof.
  unfold Engine.page_end_punct. repeat break_match; reflexivity.
Qed.

Lemma place_text_skeleton e s c rest ev o :
  Engine.place_text e s c rest = (ev, o) -> skeleton ev = [].
Proof.
  unfold Engine.place_text. intros H.
  repeat match type of H with
  | context [Engine.page_end_punct e ?pc ?rest ?fx ?fy ?fn ?fs ?col] =>
      pose proof (page_end_punct_skeleton e pc rest fx fy fn fs col);
      destruct (Engine.page_end_punct e pc rest fx fy fn fs col)
  | context [match ?x with _ => _ end] => destruct x eqn:?
  | context [if ?x then _ else _] => destruct x eqn:?
  end;
  injection H as <- <-; cbn [fst] in *;
  rewrite ?skeleton_app; cbn [skeleton filter is_page_event app];
  rewrite ?skeleton_app; cbn [skeleton filter is_page_event app];
  try assumption; try reflexivity.
Qed.

Lemma body_block_skeleton e s ev o :
  Engine.body_block e s = (ev, o) -> skeleton ev = [].
Proof.
  unfold Engine.body_block. intros H.
  destruct (chars s) as [|c rest].
  { now injection H as <- <-. }
  repeat match type of H with
  | context [Engine.take_note ?r] => destruct (Engine.take_note r)
  | context [if ?x then _ else _] => destruct x
  end;
  try (injection H as <- <-; reflexivity).
  now apply place_text_skeleton in H.
Qed.

Lemma page_check_skeleton e s ev s1 :
  Engine.page_check e s = (ev, inr s1) ->
  (skeleton ev = [] /\ pid s1 = pid s)
  \/ (skeleton ev = [EvPageNumber (pid s + 1); EvShowPage]
      /\ pid s1 = pid s + 1).
Proof.
  unfold Engine.page_check. intros H.
  repeat match type of H with
  | context [match chars s with _ => _ end] => destruct (chars s) eqn:?
  | context [if ?x then _ else _] => destruct x eqn:?
  end; try discriminate; injection H as <- <-; cbn [pid]; auto.
Qed.

Lemma step_skeleton e s ev s' :
  Engine.test_mode_stop e (pid s) = false ->
  Engine.step e s = (ev, Next s') ->
  (skeleton ev = [] /\ pid s' = pid s)
  \/ (skeleton ev = [EvPageNumber (pid s + 1); EvShowPage]
      /\ pid s' = pid s + 1).
Proof.
  intros Ht Hs. unfold Engine.step in Hs. rewrite Ht in Hs.
  destruct (Engine.page_check e s) as [ev1 [s1|s1]] eqn:Ep;
    [discriminate|].
  pose proof (page_check_skeleton e s ev1 s1 Ep) as Hk.
  assert (G : forall ev2,
            skeleton ev2 = [] -> pid s' = pid s1 ->
            (skeleton (ev1 ++ ev2) = [] /\ pid s' = pid s)
            \/ (skeleton (ev1 ++ ev2)
                = [EvPageNumber (pid s + 1); EvShowPage]
                /\ pid s' = pid s + 1)).
  { intros ev2 E2 Ep2. rewrite skeleton_app, E2, app_nil_r, Ep2.
    exact Hk. }
  destruct (rchars s1).
  - destruct (Engine.body_block e s1) as [ev3 o] eqn:Eb.
    injection Hs as <- ->.
    apply G; [now apply body_block_skeleton in Eb|].
    now apply (proj2 (body_block_trace e s1 ev3 _ Eb)).
  - destruct (Engine.annot_block e s1) as [ev2 x] eqn:Ea.
    pose proof (annot_block_skeleton e s1 ev2 x Ea) as K2.
    destruct (annot_block_trace e s1 ev2 x Ea) as [_ P2].
    destruct x as [s2|s2|]; [| |discriminate].
    + injection Hs as <- <-. apply G; [exact K2|].
      now apply (P2 s2 eq_refl).
    + destruct (Engine.body_block e s2) as [ev3 o] eqn:Eb.
      injection Hs as <- ->.
      apply G.
      * rewrite skeleton_app, K2. now apply body_block_skeleton in Eb.
      * rewrite (proj2 (body_block_trace e s2 ev3 _ Eb) s' eq_refl).
        now apply (P2 s2 eq_refl).
Qed.

(** The page breaks and numbers of a run entered below the page limit:
    the number of the page under way, then one break and one number
    for every further page. *)
Lemma run_skeleton e : forall fuel s ev s',
  below_limit e (pid s) ->
  Engine.run e fuel s = Some (ev, Break s') ->
  exists m : nat,
    skeleton ev
    = EvPageNumber (pid s + 1)
        :: numbered_pages (pages_from (pid s + 1) m)
    /\ pid s' = pid s + 1 + Z.of_nat m
    /\ pcnt s' = 0%Q
    /\ forall z, opt_z e = Some z -> z <> 0 -> pid s' <= z.
Proof.
  induction fuel as [|fuel IH]; intros s ev s' Hb Hr; [discriminate|].
  cbn [Engine.run] in Hr.
  pose proof (below_limit_goes_on e _ Hb) as Ht.
  destruct (Engine.step e s) as [ev1 o1] eqn:Es.
  destruct o1 as [s1|s1|].
  - destruct (Engine.run e fuel s1) as [[ev' o']|] eqn:Er; [|discriminate].
    injection Hr as <- ->.
    pose proof (step_below_limit e s ev1 s1 Hb Es) as Hb1.
    destruct (IH s1 ev' s' Hb1 Er) as (m & Ek & Ep & Hc & Hz).
    rewrite skeleton_app, Ek.
    destruct (step_skeleton e s ev1 s1 Ht Es) as [[K P]|[K P]];
      rewrite K, P in *.
    + exists m. repeat split; auto.
    + exists (S m). rewrite pages_from_S. cbn [app numbered_pages flat_map].
      repeat split; auto. lia.
  - injection Hr as <- <-.
    destruct (step_break_flush e s ev1 s1 Ht Es) as (-> & Hp & Hi & _).
    exists 0%nat. rewrite Hi. repeat split; auto; [lia|].
    intros z Hz Hz0. specialize (Hb z Hz Hz0). lia.
  - discriminate.
Qed.

Lemma numbered_pages_app a b :
  numbered_pages (a ++ b) = numbered_pages a ++ numbered_pages b.
Proof. unfold numbered_pages. apply flat_map_app. Qed.

Lemma pages_from_app p (k m : nat) :
  pages_from p (k + m) = pages_from p k ++ pages_from (p + Z.of_nat k) m.
Proof.
  unfold pages_from. rewrite seq_app, map_app. f_equal.
  assert (G : forall n a,
            map (fun i => p + Z.of_nat i) (seq (a + k) n)
            = map (fun i => p + Z.of_nat k + Z.of_nat i) (seq a n)).
  { induction n as [|n IH]; intros a; [reflexivity|].
    cbn [seq map]. f_equal; [lia|]. exact (IH (S a)). }
  exact (G m 1%nat).
Qed.

Lemma page_numbers_skeleton ev : page_numbers (skeleton ev) = page_numbers ev.
Proof.
  induction ev as [|x ev IH]; [reflexivity|].
  destruct x; cbn [skeleton filter is_page_event page_numbers];
    unfold skeleton in IH; now rewrite ?IH.
Qed.

Lemma page_numbers_numbered ps : page_numbers (numbered_pages ps) = ps.
Proof.
  induction ps as [|p ps IH]; [reflexivity|].
  cbn [numbered_pages flat_map app page_numbers].
  unfold numbered_pages in IH. now rewrite IH.
Qed.

Lemma text_pass_pages (e : Engine) (dats : list (list char)) (tid p : Z) :
  grid_ready e -> 0 <= tid ->
  exists ev r,
    Document.text_pass e dats tid p 0 = Some (ev, r)
    /\ ((r = Document.PBreak /\ ev = [])
        \/ exists m : nat,
             r = Document.PNext (p + 1 + Z.of_nat m) 0
             /\ skeleton ev = numbered_pages (pages_from p (S m))
             /\ forall z, opt_z e = Some z -> z <> 0 ->
                          p + 1 + Z.of_nat m <= z).
Proof.
  intros Hg Htid. unfold Document.text_pass.
  destruct (Document.page_limit_reached e p) eqn:El.
  { exists [], Document.PBreak. split; [reflexivity|]. now left. }
  destruct (Z.leb_spec (Z.of_nat (length dats)) tid) as [L|L].
  { exists [], Document.PBreak. split; [reflexivity|]. now left. }
  destruct (index_in_range dats tid ltac:(lia)) as [dat ->].
  assert (Hb : below_limit e p).
  { intros z Hz Hz0. unfold Document.page_limit_reached in El.
    rewrite Hz in El. destruct (Z.eqb_spec z 0); [contradiction|].
    cbn [negb andb] in El. apply Z.leb_gt in El. exact El. }
  unfold Engine.process_text_layout_complete.
  destruct (run_breaks e (S (length dat)) (Engine.initial dat [] 0 p) Hg)
    as (ev & s' & Er).
  { split; [apply Qle_refl|]. intros _. exact (whole_inject 0). }
  { unfold pending. simpl. lia. }
  rewrite Er.
  destruct (run_skeleton e _ (Engine.initial dat [] 0 p) _ _ Hb Er)
    as (m & Ek & Ep & Hc & Hz).
  cbn [Engine.initial pid] in Ek, Ep.
  eexists _, _. split; [reflexivity|]. right. exists m.
  rewrite Ep, Hc. split; [reflexivity|]. split.
  - rewrite skeleton_app, Ek, pages_from_S.
    now destruct (bg_exists e).
  - intros z Hz1 Hz0. rewrite <- Ep. now apply Hz.
Qed.

Lemma texts_pages (e : Engine) (dats : list (list char)) :
  grid_ready e ->
  forall tids p,
    (forall tid, In tid tids -> 0 <= tid) ->
    exists ev (k : nat),
      Document.texts e dats tids p 0 = Some (ev, Some (p + Z.of_nat k, 0%Q))
      /\ skeleton ev = numbered_pages (pages_from p k)
      /\ forall z, opt_z e = Some z -> z <> 0 -> p <= z ->
                   p + Z.of_nat k <= z.
Proof.
  intros Hg tids. induction tids as [|tid rest IH]; intros p Hpos.
  - exists [], 0%nat. cbn [Document.texts].
    replace (p + Z.of_nat 0) with p by lia.
    repeat split; auto.
  - cbn [Document.texts].
    destruct (text_pass_pages e dats tid p Hg (Hpos tid (or_introl eq_refl)))
      as (ev & r & -> & Hr).
    destruct Hr as [[-> ->]|(m & -> & Ek & Hz)].
    + exists [], 0%nat. replace (p + Z.of_nat 0) with p by lia.
      repeat split; auto.
    + destruct (IH (p + 1 + Z.of_nat m)
                  (fun t Ht => Hpos t (or_intror Ht)))
        as (ev' & k & -> & Ek' & Hz').
      exists (ev ++ ev'), (S m + k)%nat. split; [|split].
      * replace (p + Z.of_nat (S m + k)) with (p + 1 + Z.of_nat m + Z.of_nat k)
          by lia.
        reflexivity.
      * rewrite skeleton_app, Ek, Ek', pages_from_app, numbered_pages_app.
        replace (p + Z.of_nat (S m)) with (p + 1 + Z.of_nat m) by lia.
        reflexivity.
      * intros z Hz1 Hz0 Hle.
        specialize (Hz z Hz1 Hz0). specialize (Hz' z Hz1 Hz0 Hz). lia.
Qed.

(** X23.  The loop of [create_pdf] over the text files (lines 545-601),
    on the computed grid, with a configuration on which the character
    class of the annotation block compiles ([annot_class_ok]) and from
    a first text index that is not negative, ends without exception and
    with the cursor 0.  In the trace of the whole document page breaks
    and page numbers alternate: every page after the cover is opened
    by a page break and gets exactly one page number, at its end; the
    numbers are [1, 2, ..., k] across all text files, [k] being the
    final page index, and in test mode [k] is at most the limit. *)
Theorem document_pages_numbered_in_order (e : Engine)
        (dats : list (list char)) (from_page to_page : Z) :
  grid_ready e ->
  annot_class_ok (book e) ->
  0 <= from_page ->
  exists ev (k : nat),
    Document.create_pdf e dats from_page to_page
    = Some (ev, Some (Z.of_nat k, 0%Q))
    /\ skeleton ev
       = flat_map (fun p => [EvShowPage; EvPageNumber p])
                  (map Z.of_nat (seq 1 k))
    /\ page_numbers ev = map Z.of_nat (seq 1 k)
    /\ forall z, opt_z e = Some z -> 0 < z -> Z.of_nat k <= z.
Proof.
  intros Hg _ Hf. unfold Document.create_pdf.
  destruct (texts_pages e dats Hg
              (Builtins.range from_page (to_page + 1)) 0)
    as (ev & k & Et & Ek & Hz).
  { intros tid Hin. unfold Builtins.range in Hin.
    apply in_map_iff in Hin. destruct Hin as (i & <- & _). lia. }
  exists ev, k. cbn [Z.add] in Et. split; [exact Et|].
  assert (Ep : pages_from 0 k = map Z.of_nat (seq 1 k)).
  { unfold pages_from. apply map_ext. intros i. lia. }
  rewrite Ep in Ek. split; [exact Ek|]. split.
  - rewrite <- page_numbers_skeleton, Ek.
    apply (page_numbers_numbered (map Z.of_nat (seq 1 k))).
  - intros z Hz1 Hz0. specialize (Hz z Hz1 ltac:(lia) ltac:(lia)). lia.
Qed.

(** Two texts, of nine letters and of one, after the placeholder. *)
Lemma document_pages_numbered_in_order_witness :
  exists ev (k : nat),
    Document.create_pdf Sample.quiet_engine
      [[]; [65; 66; 67; 68; 69; 70; 71; 72; 73]%N; [74]%N] 1 2
    = Some (ev, Some (Z.of_nat k, 0%Q))
    /\ skeleton ev
       = flat_map (fun p => [EvShowPage; EvPageNumber p])
                  (map Z.of_nat (seq 1 k))
    /\ page_numbers ev = map Z.of_nat (seq 1 k)
    /\ forall z, opt_z Sample.quiet_engine = Some z -> 0 < z ->
                 Z.of_nat k <= z.
Proof.
  apply (document_pages_numbered_in_order Sample.quiet_engine).
  - repeat split.
  - right. vm_compute. discriminate.
  - lia.
Defined.

(** ** The page loop of the plain mode of the novel generator *)

Lemma index_skipn {A} (l : list A) (i : Z) :
  0 <= i < Z.of_nat (length l) ->
  exists x, Py.index l i = Some x
            /\ skipn (Z.to_nat i) l = x :: skipn (Z.to_nat (i + 1)) l.
Proof.
  intros H. rewrite index_nonneg by lia.
  replace (Z.to_nat (i + 1)) with (S (Z.to_nat i)) by lia.
  assert (L : (Z.to_nat i < length l)%nat) by lia.
  revert L. generalize (Z.to_nat i). clear H.
  induction l as [|a l IH]; intros n L; [cbn in L; lia|].
  destruct n as [|n].
  - exists a. split; reflexivity.
  - cbn [length] in L. destruct (IH n ltac:(lia)) as (x & E1 & E2).
    exists x. split; [exact E1|exact E2].
Qed.

Lemma skipn_index {A} (l : list A) (i : Z) (x : A) (m : nat) :
  0 <= i ->
  nth_error (skipn (Z.to_nat i) l) m = Some x ->
  Py.index l (i + Z.of_nat m) = Some x /\ i + Z.of_nat m < Z.of_nat (length l).
Proof.
  intros H E. rewrite nth_error_skipn in E.
  rewrite index_nonneg by lia.
  replace (Z.to_nat (i + Z.of_nat m)) with (Z.to_nat i + m)%nat by lia.
  split; [exact E|].
  assert (Z.to_nat i + m < length l)%nat; [|lia].
  apply nth_error_Some. congruence.
Qed.

Lemma visible_in_note (g : Novel.Generator) (post : list char) :
  forall pre, ~ In ch_note_close pre ->
    Novel.visible g (pre ++ ch_note_close :: post) true
    = Novel.visible g post false.
Proof.
  induction pre as [|c pre IH]; intros H.
  - reflexivity.
  - cbn [app Novel.visible].
    destruct (N.eqb_spec c ch_note_close) as [->|Hc].
    + exfalso. apply H. now left.
    + cbn [negb]. apply IH. intros Hin. apply H. now right.
Qed.

Lemma find_comment_end_first (chars : list char) (start_index : Z) :
  0 <= start_index ->
  exists r,
    Novel._find_comment_end chars start_index = Some r
    /\ ((r = -1
         /\ forall j, start_index < j < Z.of_nat (length chars) ->
                      Py.index chars j <> Some ch_note_close)
        \/ (start_index < r < Z.of_nat (length chars)
            /\ Py.index chars r = Some ch_note_close
            /\ forall j, start_index < j < r ->
                         Py.index chars j <> Some ch_note_close)).
Proof.
  intros H0. unfold Novel._find_comment_end.
  destruct (Z.le_gt_cases (Z.of_nat (length chars)) (start_index + 1))
    as [L|L].
  - rewrite range_nil by lia. exists (-1). split; [reflexivity|].
    left. split; [reflexivity|]. intros j Hj. lia.
  - destruct (first_close_range chars
                (Z.to_nat (Z.of_nat (length chars) - (start_index + 1)))
                (start_index + 1) ltac:(lia) ltac:(lia)) as (r & Er & Hr).
    exists r. split; [exact Er|].
    destruct Hr as [[-> Hall]|(Hb & Hi & Hall)].
    + left. split; [reflexivity|]. intros j Hj. apply Hall. lia.
    + right. split; [lia|]. split; [exact Hi|].
      intros j Hj. apply Hall. lia.
Qed.

(** What [fetch] returns inside the text: never a fault; the next index
    lies further on, at most at the end; and the visible characters
    from the index on are those from the next index on, behind the
    glyph if there is one. *)
Lemma fetch_spec (g : Novel.Generator) (chars : list char) (i : Z) :
  0 <= i < Z.of_nat (length chars) ->
  exists j,
    i < j <= Z.of_nat (length chars)
    /\ ((Novel.fetch g chars i = Novel.Passed j
         /\ Novel.visible g (skipn (Z.to_nat i) chars) false
            = Novel.visible g (skipn (Z.to_nat j) chars) false)
        \/ (exists c,
              Novel.fetch g chars i = Novel.Glyph c j
              /\ Novel.visible g (skipn (Z.to_nat i) chars) false
                 = c :: Novel.visible g (skipn (Z.to_nat j) chars) false)).
Proof.
  intros H. destruct (index_skipn chars i H) as (c & Ei & Es).
  unfold Novel.fetch. rewrite Ei, Es. cbn [Novel.visible].
  destruct (Novel._should_skip_char g c).
  { exists (i + 1). split; [lia|]. left. split; reflexivity. }
  destruct (N.eqb_spec c ch_note_open) as [->|Hc].
  2:{ exists (i + 1). split; [lia|]. right. exists c. split; reflexivity. }
  replace (i + 1 - 1) with i by lia.
  destruct (find_comment_end_first chars i ltac:(lia)) as (r & Er & Hr).
  rewrite Er. destruct Hr as [[-> Hall]|(Hb & Hi & Hall)].
  - cbn [Z.eqb negb]. exists (i + 1). split; [lia|]. left.
    split; [reflexivity|].
    destruct (Py.mem ch_note_close (skipn (Z.to_nat (i + 1)) chars)) eqn:M;
      [|reflexivity].
    exfalso. apply mem_In in M. apply In_nth_error in M.
    destruct M as [m Hm].
    destruct (skipn_index chars (i + 1) ch_note_close m ltac:(lia) Hm)
      as [E L].
    exact (Hall (i + 1 + Z.of_nat m) ltac:(lia) E).
  - replace (r =? -1) with false by (symmetry; apply Z.eqb_neq; lia).
    cbn [negb]. exists (r + 1). split; [lia|]. left.
    split; [reflexivity|].
    set (rest := skipn (Z.to_nat (i + 1)) chars).
    set (n := Z.to_nat (r - i - 1)).
    assert (Hsplit : rest = firstn n rest
                              ++ ch_note_close :: skipn (Z.to_nat (r + 1)) chars).
    { rewrite <- (firstn_skipn n rest) at 1. f_equal.
      unfold rest. rewrite skipn_skipn.
      replace (n + Z.to_nat (i + 1))%nat with (Z.to_nat r) by lia.
      destruct (index_skipn chars r ltac:(lia)) as (x & E1 & E2).
      rewrite E2. congruence. }
    assert (Hpre : ~ In ch_note_close (firstn n rest)).
    { intros Hin. apply In_nth_error in Hin. destruct Hin as [m Hm].
      assert (Lm : (m < n)%nat).
      { assert (L : (m < length (firstn n rest))%nat)
          by (apply nth_error_Some; congruence).
        rewrite length_firstn in L. lia. }
      rewrite nth_error_firstn in Hm.
      replace (m <? n)%nat with true in Hm
        by (symmetry; apply Nat.ltb_lt; exact Lm).
      destruct (skipn_index chars (i + 1) ch_note_close m ltac:(lia) Hm)
        as [E L].
      exact (Hall (i + 1 + Z.of_nat m) ltac:(lia) E). }
    assert (M : Py.mem ch_note_close rest = true).
    { apply mem_In. rewrite Hsplit. apply in_or_app. right. now left. }
    rewrite M, Hsplit. apply visible_in_note. exact Hpre.
Qed.

Lemma skipn_end {A} (l : list A) (i : Z) :
  Z.of_nat (length l) <= i -> skipn (Z.to_nat i) l = [].
Proof. intros H. apply skipn_all2. lia. Qed.

(** The first loop ends, and passes over [chars_to_skip] visible
    characters (over all of them when there are fewer). *)
Lemma skip_pages_spec (g : Novel.Generator) (chars : list char) (cts : Z) :
  forall (fuel : nat) (i p : Z),
    0 <= i <= Z.of_nat (length chars) ->
    Z.of_nat (length chars) - i < Z.of_nat fuel ->
    exists i' p',
      Novel.skip_pages g chars fuel cts i p = Some (Some (i', p'))
      /\ i <= i' <= Z.of_nat (length chars)
      /\ Novel.visible g (skipn (Z.to_nat i') chars) false
         = skipn (Z.to_nat (cts - p))
                 (Novel.visible g (skipn (Z.to_nat i) chars) false).
Proof.
  induction fuel as [|fuel IH]; intros i p Hi Hf; [lia|].
  cbn [Novel.skip_pages].
  destruct (Z.ltb_spec i (Z.of_nat (length chars))) as [Li|Li].
  2:{ cbn [andb]. exists i, p. split; [reflexivity|]. split; [lia|].
      rewrite skipn_end by lia. cbn [Novel.visible].
      now rewrite skipn_nil. }
  destruct (Z.ltb_spec p cts) as [Lp|Lp].
  2:{ cbn [andb]. exists i, p. split; [reflexivity|]. split; [lia|].
      now replace (Z.to_nat (cts - p)) with 0%nat by lia. }
  cbn [andb].
  destruct (fetch_spec g chars i ltac:(lia))
    as (j & Hj & [[Ef Ev]|(c & Ef & Ev)]); rewrite Ef.
  - destruct (IH j p ltac:(lia) ltac:(lia)) as (i' & p' & E & Hi' & V).
    exists i', p'. split; [exact E|]. split; [lia|]. now rewrite Ev.
  - destruct (IH j (p + 1) ltac:(lia) ltac:(lia)) as (i' & p' & E & Hi' & V).
    exists i', p'. split; [exact E|]. split; [lia|]. rewrite Ev, V.
    replace (Z.to_nat (cts - p)) with (S (Z.to_nat (cts - (p + 1)))) by lia.
    reflexivity.
Qed.

Lemma glyphs_app (a b : list Novel.PageEvent) :
  Novel.glyphs (a ++ b) = Novel.glyphs a ++ Novel.glyphs b.
Proof.
  induction a as [|x a IH]; [reflexivity|].
  destruct x; cbn [app Novel.glyphs]; now rewrite IH.
Qed.

Lemma pages_started_app (a b : list Novel.PageEvent) :
  Novel.pages_started (a ++ b)
  = Novel.pages_started a ++ Novel.pages_started b.
Proof.
  induction a as [|x a IH]; [reflexivity|].
  destruct x; cbn [app Novel.pages_started]; now rewrite IH.
Qed.

(** The second loop ends without exception, and its trace is well
    paged. *)
Lemma draw_pages_paged (g : Novel.Generator) (chars : list char)
      (mx : option Z) :
  Novel.n_page_chars_num g = Z.of_nat (length (Novel.positions_left g)) ->
  0 < Novel.n_page_chars_num g ->
  forall (fuel : nat) (k : Novel.Cursor),
    Novel.cursor_ok g chars k ->
    Z.of_nat (length chars) - Novel.char_index k < Z.of_nat fuel ->
    exists ev k',
      Novel.draw_pages g chars fuel mx k = Some (ev, Some k')
      /\ Novel.cursor_ok g chars k'
      /\ Novel.well_paged (Novel.n_page_chars_num g)
           (Novel.from_page g + Novel.page_num k)
           (Novel.page_char_count k) ev = true
      /\ Novel.page_num k'
         = Novel.page_num k + Z.of_nat (length (Novel.pages_started ev))
      /\ Novel.processed_chars k'
         = Novel.processed_chars k + Z.of_nat (length (Novel.glyphs ev)).
Proof.
  intros HN H0. induction fuel as [|fuel IH]; intros k Hk Hf;
    destruct Hk as (Hi & Hc & Hp); [lia|].
  cbn [Novel.draw_pages].
  destruct (Z.ltb_spec (Novel.char_index k) (Z.of_nat (length chars)))
    as [Li|Li].
  2:{ exists [], k. cbn. repeat split; try lia. }
  destruct (Novel.test_limit g (Novel.page_num k)).
  { exists [], k. cbn. repeat split; try lia. }
  destruct (Novel.char_limit mx (Novel.processed_chars k)).
  { exists [], k. cbn. repeat split; try lia. }
  destruct (fetch_spec g chars (Novel.char_index k) ltac:(lia))
    as (j & Hj & [[Ef _]|(c & Ef & _)]); rewrite Ef; cbv zeta.
  - destruct (Z.leb_spec (Novel.n_page_chars_num g)
                         (Novel.page_char_count k)) as [T|T].
    + destruct (IH (Novel.mkCursor j (Novel.processed_chars k)
                                   (Novel.page_num k + 1) 0))
        as (ev & k' & E & Hk' & W & P & G).
      { unfold Novel.cursor_ok. cbn. repeat split; nia. }
      { cbn. lia. }
      rewrite E. cbn [Novel.page_num Novel.page_char_count
                        Novel.processed_chars] in W, P, G.
      eexists _, k'. split; [reflexivity|]. split; [exact Hk'|].
      cbn [app Novel.well_paged Novel.pages_started Novel.glyphs length].
      split.
      { replace (Novel.from_page g + Novel.page_num k + 1)
          with (Novel.from_page g + (Novel.page_num k + 1)) by lia.
        rewrite W.
        replace (Novel.page_char_count k =? Novel.n_page_chars_num g)
          with true by (symmetry; apply Z.eqb_eq; lia).
        now rewrite Z.eqb_refl. }
      split; lia.
    + destruct (IH (Novel.mkCursor j (Novel.processed_chars k)
                                   (Novel.page_num k)
                                   (Novel.page_char_count k)))
        as (ev & k' & E & Hk' & W & P & G).
      { unfold Novel.cursor_ok. cbn. repeat split; lia. }
      { cbn. lia. }
      rewrite E. cbn [Novel.page_num Novel.page_char_count
                        Novel.processed_chars] in W, P, G.
      eexists _, k'. split; [reflexivity|]. split; [exact Hk'|].
      cbn [app]. split; [exact W|]. split; lia.
  - destruct (Z.leb_spec (Novel.n_page_chars_num g)
                         (Novel.page_char_count k)) as [T|T].
    + replace (0 <? Z.of_nat (length (Novel.positions_left g))) with true
        by (symmetry; apply Z.ltb_lt; lia).
      destruct (IH (Novel.mkCursor j (Novel.processed_chars k + 1)
                                   (Novel.page_num k + 1) (0 + 1)))
        as (ev & k' & E & Hk' & W & P & G).
      { unfold Novel.cursor_ok. cbn. repeat split; nia. }
      { cbn. lia. }
      rewrite E. cbn [Novel.page_num Novel.page_char_count
                        Novel.processed_chars] in W, P, G.
      eexists _, k'. split; [reflexivity|]. split; [exact Hk'|].
      cbn [app Novel.well_paged Novel.pages_started Novel.glyphs length].
      split.
      { replace (Novel.from_page g + Novel.page_num k + 1)
          with (Novel.from_page g + (Novel.page_num k + 1)) by lia.
        rewrite W.
        replace (Novel.page_char_count k =? Novel.n_page_chars_num g)
          with true by (symmetry; apply Z.eqb_eq; lia).
        replace (0 <? Novel.n_page_chars_num g) with true
          by (symmetry; apply Z.ltb_lt; lia).
        now rewrite !Z.eqb_refl. }
      split; lia.
    + replace (Novel.page_char_count k
               <? Z.of_nat (length (Novel.positions_left g))) with true
        by (symmetry; apply Z.ltb_lt; lia).
      destruct (IH (Novel.mkCursor j (Novel.processed_chars k + 1)
                                   (Novel.page_num k)
                                   (Novel.page_char_count k + 1)))
        as (ev & k' & E & Hk' & W & P & G).
      { unfold Novel.cursor_ok. cbn. repeat split; lia. }
      { cbn. lia. }
      rewrite E. cbn [Novel.page_num Novel.page_char_count
                        Novel.processed_chars] in W, P, G.
      eexists _, k'. split; [reflexivity|]. split; [exact Hk'|].
      cbn [app Novel.well_paged Novel.pages_started Novel.glyphs length].
      split.
      { rewrite W, Z.eqb_refl.
        now replace (Novel.page_char_count k <? Novel.n_page_chars_num g)
          with true by (symmetry; apply Z.ltb_lt; lia). }
      split; lia.
Qed.

(** The glyphs of the second loop without the test-mode limit: the
    visible characters from the cursor on, up to the character limit. *)
Lemma draw_pages_visible (g : Novel.Generator) (chars : list char)
      (mx : option Z) :
  Novel.n_page_chars_num g = Z.of_nat (length (Novel.positions_left g)) ->
  0 < Novel.n_page_chars_num g ->
  (forall p, Novel.test_limit g p = false) ->
  forall (fuel : nat) (k : Novel.Cursor) ev r,
    Novel.cursor_ok g chars k ->
    Novel.draw_pages g chars fuel mx k = Some (ev, r) ->
    Novel.glyphs ev
    = Novel.up_to mx (Novel.processed_chars k)
        (Novel.visible g (skipn (Z.to_nat (Novel.char_index k)) chars) false).
Proof.
  intros HN H0 HT. induction fuel as [|fuel IH]; intros k ev r Hk E;
    [discriminate|].
  destruct Hk as (Hi & Hc & Hp).
  cbn [Novel.draw_pages] in E.
  destruct (Z.ltb_spec (Novel.char_index k) (Z.of_nat (length chars)))
    as [Li|Li].
  2:{ injection E as <- _. rewrite skipn_end by lia. cbn [Novel.visible].
      unfold Novel.up_to. destruct mx; [now rewrite firstn_nil|reflexivity]. }
  rewrite HT in E.
  unfold Novel.char_limit, Novel.up_to in *.
  assert (Hcase :
            (exists m, mx = Some m /\ m <= Novel.processed_chars k)
            \/ (match mx with
                | Some m => m <=? Novel.processed_chars k
                | None => false
                end = false)).
  { destruct mx as [m|]; [|now right].
    destruct (Z.leb_spec m (Novel.processed_chars k));
      [left; now exists m|now right]. }
  destruct Hcase as [(m & -> & Lm)|Hoff].
  { replace (m <=? Novel.processed_chars k) with true in E
      by (symmetry; apply Z.leb_le; lia).
    injection E as <- _.
    now replace (Z.to_nat (m - Novel.processed_chars k)) with 0%nat by lia. }
  rewrite Hoff in E. cbv zeta in E.
  assert (Hpcc : ((if Novel.n_page_chars_num g <=? Novel.page_char_count k
                   then 0 else Novel.page_char_count k)
                  <? Z.of_nat (length (Novel.positions_left g))) = true).
  { apply Z.ltb_lt.
    destruct (Z.leb_spec (Novel.n_page_chars_num g)
                         (Novel.page_char_count k)); lia. }
  destruct (fetch_spec g chars (Novel.char_index k) ltac:(lia))
    as (j & Hj & [[Ef Ev]|(c & Ef & Ev)]); rewrite Ef in E.
  - match type of E with
    | match Novel.draw_pages _ _ _ _ ?k1 with _ => _ end = _ =>
        destruct (Novel.draw_pages g chars fuel mx k1) as [[ev' r']|] eqn:E1;
          [|discriminate];
          apply IH in E1
    end.
    2:{ unfold Novel.cursor_ok. cbn.
        destruct (Z.leb_spec (Novel.n_page_chars_num g)
                             (Novel.page_char_count k));
          repeat split; nia. }
    injection E as <- _. cbn [Novel.char_index Novel.processed_chars] in E1.
    rewrite !glyphs_app, E1, Ev.
    now destruct (Novel.n_page_chars_num g <=? Novel.page_char_count k).
  - rewrite Hpcc in E.
    match type of E with
    | match Novel.draw_pages _ _ _ _ ?k1 with _ => _ end = _ =>
        destruct (Novel.draw_pages g chars fuel mx k1) as [[ev' r']|] eqn:E1;
          [|discriminate];
          apply IH in E1
    end.
    2:{ unfold Novel.cursor_ok. cbn.
        destruct (Z.leb_spec (Novel.n_page_chars_num g)
                             (Novel.page_char_count k));
          repeat split; nia. }
    injection E as <- _. cbn [Novel.char_index Novel.processed_chars] in E1.
    rewrite !glyphs_app. cbn [Novel.glyphs app]. rewrite E1, Ev.
    match goal with
    | |- Novel.glyphs ?x ++ _ = _ =>
        replace (Novel.glyphs x) with (@nil char)
          by (now destruct (Novel.n_page_chars_num g
                            <=? Novel.page_char_count k))
    end.
    cbn [app Novel.glyphs].
    destruct mx as [m|]; [|reflexivity].
    apply Z.leb_gt in Hoff.
    replace (Z.to_nat (m - Novel.processed_chars k))
      with (S (Z.to_nat (m - (Novel.processed_chars k + 1)))) by lia.
    reflexivity.
Qed.

(** What the two limits of the second loop keep. *)
Lemma draw_pages_limits (g : Novel.Generator) (chars : list char)
      (mx : option Z) :
  Novel.n_page_chars_num g = Z.of_nat (length (Novel.positions_left g)) ->
  0 < Novel.n_page_chars_num g ->
  forall (fuel : nat) (k : Novel.Cursor) ev k',
    Novel.cursor_ok g chars k ->
    Novel.draw_pages g chars fuel mx k = Some (ev, Some k') ->
    (forall z, Novel.test_pages g = Some z -> z <> 0 ->
       Novel.page_num k <= z
       /\ (Novel.page_num k = z -> Novel.page_char_count k <= 1) ->
       Novel.page_num k' <= z
       /\ (Novel.page_num k' = z -> Novel.page_char_count k' <= 1))
    /\ (forall m, mx = Some m ->
          Novel.processed_chars k <= m
          /\ Novel.page_num k * Novel.n_page_chars_num g < m ->
          Novel.processed_chars k' <= m
          /\ Novel.page_num k' * Novel.n_page_chars_num g < m).
Proof.
  intros HN H0. induction fuel as [|fuel IH]; intros k ev k' Hk E;
    [discriminate|].
  destruct Hk as (Hi & Hc & Hp).
  cbn [Novel.draw_pages] in E.
  destruct (Z.ltb_spec (Novel.char_index k) (Z.of_nat (length chars)))
    as [Li|Li].
  2:{ injection E as _ <-. split; intros; assumption. }
  destruct (Novel.test_limit g (Novel.page_num k)) eqn:ET.
  { injection E as _ <-. split; intros; assumption. }
  destruct (Novel.char_limit mx (Novel.processed_chars k)) eqn:EC.
  { injection E as _ <-. split; intros; assumption. }
  cbv zeta in E.
  assert (Hpcc : ((if Novel.n_page_chars_num g <=? Novel.page_char_count k
                   then 0 else Novel.page_char_count k)
                  <? Z.of_nat (length (Novel.positions_left g))) = true).
  { apply Z.ltb_lt.
    destruct (Z.leb_spec (Novel.n_page_chars_num g)
                         (Novel.page_char_count k)); lia. }
  assert (HT : forall z, Novel.test_pages g = Some z -> z <> 0 ->
                         Novel.page_num k < z).
  { intros z Ez Hz. unfold Novel.test_limit in ET. rewrite Ez in ET.
    replace (z =? 0) with false in ET by (symmetry; apply Z.eqb_neq; lia).
    cbn [negb andb] in ET. apply Z.leb_gt in ET. exact ET. }
  assert (HM : forall m, mx = Some m -> Novel.processed_chars k < m).
  { intros m ->. cbn [Novel.char_limit] in EC. apply Z.leb_gt in EC.
    exact EC. }
  destruct (fetch_spec g chars (Novel.char_index k) ltac:(lia))
    as (j & Hj & [[Ef _]|(c & Ef & _)]); rewrite Ef in E;
    [|rewrite Hpcc in E];
    match type of E with
    | match Novel.draw_pages _ _ _ _ ?k1 with _ => _ end = _ =>
        destruct (Novel.draw_pages g chars fuel mx k1) as [[ev' r']|] eqn:E1;
          [|discriminate];
          injection E as _ ->;
          apply IH in E1;
          [|unfold Novel.cursor_ok; cbn;
            destruct (Z.leb_spec (Novel.n_page_chars_num g)
                                 (Novel.page_char_count k));
            repeat split; nia]
    end;
    cbn [Novel.page_num Novel.page_char_count Novel.processed_chars] in E1;
    destruct E1 as [T M]; split.
  - intros z Ez Hz _. apply (T z Ez Hz). specialize (HT z Ez Hz).
    destruct (Z.leb_spec (Novel.n_page_chars_num g)
                         (Novel.page_char_count k)); split; lia.
  - intros m Em [M1 M2]. apply (M m Em). specialize (HM m Em).
    destruct (Z.leb_spec (Novel.n_page_chars_num g)
                         (Novel.page_char_count k)); split; nia.
  - intros z Ez Hz _. apply (T z Ez Hz). specialize (HT z Ez Hz).
    destruct (Z.leb_spec (Novel.n_page_chars_num g)
                         (Novel.page_char_count k)); split; lia.
  - intros m Em [M1 M2]. apply (M m Em). specialize (HM m Em).
    destruct (Z.leb_spec (Novel.n_page_chars_num g)
                         (Novel.page_char_count k)); split; nia.
Qed.

(** The pages opened by a well paged trace are numbered on from the
    current page. *)
Lemma well_paged_pages (n : Z) : forall (b : nat) ev page cnt,
  (length ev <= b)%nat ->
  Novel.well_paged n page cnt ev = true ->
  Novel.pages_started ev
  = pages_from page (length (Novel.pages_started ev)).
Proof.
  induction b as [|b IH]; intros ev page cnt L W.
  - destruct ev; [reflexivity|cbn in L; lia].
  - destruct ev as [|x ev]; [reflexivity|]. cbn [length] in L.
    destruct x as [p| |c i|t].
    + discriminate.
    + destruct ev as [|y ev]; [discriminate|].
      destruct y as [p| |c i|t]; try discriminate.
      cbn [Novel.well_paged] in W.
      apply andb_prop in W. destruct W as [W1 W].
      apply andb_prop in W1. destruct W1 as [_ Ep].
      apply Z.eqb_eq in Ep. subst p.
      cbn [Novel.pages_started length]. rewrite pages_from_S. f_equal.
      apply (IH ev (page + 1) 0); [cbn [length] in L; lia|exact W].
    + cbn [Novel.well_paged] in W. apply andb_prop in W.
      destruct W as [_ W]. cbn [Novel.pages_started].
      apply (IH ev page (cnt + 1)); [lia|exact W].
    + discriminate.
Qed.

Lemma process_without_chapters_run (g : Novel.Generator) (chars : list char) :
  Novel.n_page_chars_num g = Z.of_nat (length (Novel.positions_left g)) ->
  0 < Novel.n_page_chars_num g ->
  exists ci p ev k,
    Novel.skip_pages g chars (S (length chars)) (Novel.chars_to_skip g) 0 0
    = Some (Some (ci, p))
    /\ Novel.draw_pages g chars (S (length chars))
         (Novel.max_chars_to_process g) (Novel.mkCursor ci 0 0 0)
       = Some (ev, Some k)
    /\ Novel._process_without_chapters g chars
       = Some (Novel.StartPage (Novel.from_page g) :: ev, Some k)
    /\ Novel.cursor_ok g chars (Novel.mkCursor ci 0 0 0)
    /\ Novel.visible g (skipn (Z.to_nat ci) chars) false
       = skipn (Z.to_nat (Novel.chars_to_skip g))
               (Novel.visible g chars false)
    /\ Novel.cursor_ok g chars k
    /\ Novel.well_paged (Novel.n_page_chars_num g) (Novel.from_page g) 0 ev
       = true
    /\ Novel.page_num k = Z.of_nat (length (Novel.pages_started ev))
    /\ Novel.processed_chars k = Z.of_nat (length (Novel.glyphs ev)).
Proof.
  intros HN H0.
  destruct (skip_pages_spec g chars (Novel.chars_to_skip g)
              (S (length chars)) 0 0 ltac:(lia) ltac:(lia))
    as (ci & p & Es & Hci & V).
  assert (Hk : Novel.cursor_ok g chars (Novel.mkCursor ci 0 0 0)).
  { unfold Novel.cursor_ok. cbn. repeat split; lia. }
  destruct (draw_pages_paged g chars (Novel.max_chars_to_process g) HN H0
              (S (length chars)) (Novel.mkCursor ci 0 0 0) Hk)
    as (ev & k & Ed & Hk' & W & P & G).
  { cbn. lia. }
  cbn [Novel.page_num Novel.page_char_count Novel.processed_chars] in W, P, G.
  exists ci, p, ev, k. split; [exact Es|]. split; [exact Ed|].
  split; [unfold Novel._process_without_chapters; now rewrite Es, Ed|].
  split; [exact Hk|]. split.
  { rewrite V. now replace (Novel.chars_to_skip g - 0)
      with (Novel.chars_to_skip g) by lia. }
  split; [exact Hk'|]. split.
  { now replace (Novel.from_page g + 0) with (Novel.from_page g) in W
      by lia. }
  split; lia.
Qed.

(** X24.  [_process_without_chapters] (plain mode of [vrainNovel.py]),
    when [page_chars_num] is the number of positions, as
    [_calculate_positions] sets it, and not zero: for every text and
    every page option the two loops end and raise no exception.  Page
    [from_page] is opened first.  Every character handed to
    [_draw_char_at_position] gets the position that follows the last
    one taken on its page, below [page_chars_num]; [showPage] is called
    only on a page whose positions are all taken and is followed at
    once by the start of the page with the next number, so that the
    pages opened are [from_page], [from_page + 1], ... in order and the
    last page is never ended by the loop.  The number of characters
    placed is [page_chars_num] for each page that was ended plus the
    count on the last page. *)
Theorem plain_mode_well_paged (g : Novel.Generator) (chars : list char) :
  Novel.n_page_chars_num g = Z.of_nat (length (Novel.positions_left g)) ->
  0 < Novel.n_page_chars_num g ->
  exists ev k,
    Novel._process_without_chapters g chars
    = Some (Novel.StartPage (Novel.from_page g) :: ev, Some k)
    /\ Novel.well_paged (Novel.n_page_chars_num g) (Novel.from_page g) 0 ev
       = true
    /\ Novel.pages_started ev
       = pages_from (Novel.from_page g) (length (Novel.pages_started ev))
    /\ Z.of_nat (length (Novel.glyphs ev))
       = Z.of_nat (length (Novel.pages_started ev))
         * Novel.n_page_chars_num g
         + Novel.page_char_count k
    /\ 0 <= Novel.page_char_count k <= Novel.n_page_chars_num g
    /\ Novel.char_index k <= Z.of_nat (length chars).
Proof.
  intros HN H0.
  destruct (process_without_chapters_run g chars HN H0)
    as (ci & p & ev & k & _ & _ & E & _ & _ & (Hi & Hc & Hp) & W & P & G).
  exists ev, k. split; [exact E|]. split; [exact W|].
  split; [exact (well_paged_pages _ _ ev _ _ (le_n _) W)|].
  split; [lia|]. split; lia.
Qed.

(** Pages of two cells; two letters, an annotation and a blank. *)
Lemma plain_mode_well_paged_witness :
  exists ev k,
    Novel._process_without_chapters
      (Novel.mkGenerator (fun _ => true) (fun _ _ => true) []
                         [(0, 0); (0, 0)]%Q 2 false 1 None None)
      [65; 66; ch_note_open; 67; ch_note_close; ch_space]%N
    = Some (Novel.StartPage 1 :: ev, Some k)
    /\ Novel.well_paged 2 1 0 ev = true
    /\ Novel.pages_started ev
       = pages_from 1 (length (Novel.pages_started ev))
    /\ Z.of_nat (length (Novel.glyphs ev))
       = Z.of_nat (length (Novel.pages_started ev)) * 2
         + Novel.page_char_count k
    /\ 0 <= Novel.page_char_count k <= 2
    /\ Novel.char_index k <= 6.
Proof.
  apply (plain_mode_well_paged
           (Novel.mkGenerator (fun _ => true) (fun _ _ => true) []
                              [(0, 0); (0, 0)]%Q 2 false 1 None None)
           [65; 66; ch_note_open; 67; ch_note_close; ch_space]%N).
  - reflexivity.
  - reflexivity.
Defined.

Lemma in_firstn {A} (x : A) : forall (n : nat) (l : list A),
  In x (firstn n l) -> In x l.
Proof.
  induction n as [|n IH]; intros l H; [destruct H|].
  destruct l as [|a l]; [destruct H|].
  destruct H as [H|H]; [now left|right; now apply IH].
Qed.

Lemma in_skipn {A} (x : A) : forall (n : nat) (l : list A),
  In x (skipn n l) -> In x l.
Proof.
  induction n as [|n IH]; intros l H; [exact H|].
  destruct l as [|a l]; [destruct H|]. right. now apply IH.
Qed.

(** A visible character is none that is passed over, and no opening
    marker. *)
Lemma visible_kept (g : Novel.Generator) : forall cs b c,
  In c (Novel.visible g cs b) ->
  Novel._should_skip_char g c = false /\ c <> ch_note_open.
Proof.
  induction cs as [|x cs IH]; intros b c H; [destruct H|].
  cbn [Novel.visible] in H. destruct b; [exact (IH _ _ H)|].
  destruct (Novel._should_skip_char g x) eqn:Es; [exact (IH _ _ H)|].
  destruct (N.eqb_spec x ch_note_open) as [Ex|Ex]; [exact (IH _ _ H)|].
  destruct H as [<-|H]; [split; assumption|exact (IH _ _ H)].
Qed.

(** X25.  Plain mode outside the test mode: the characters handed to
    [_draw_char_at_position] are, in order, the visible characters of
    the text without the first [(from_page - 1) * page_chars_num] of
    them and, when [to_page] is given, cut to
    [(to_page - from_page + 1) * page_chars_num].  Visible are the
    characters that [_should_skip_char] does not pass over and that
    lie outside the annotations: an annotation is dropped with its
    two markers and is never drawn, an opening marker that is never
    closed is dropped alone and the text behind it is kept.  So no
    blank, no directive character and no opening marker ever takes a
    position. *)
Theorem plain_mode_places_visible_text (g : Novel.Generator)
        (chars : list char) :
  Novel.n_page_chars_num g = Z.of_nat (length (Novel.positions_left g)) ->
  0 < Novel.n_page_chars_num g ->
  Novel.test_pages g = None \/ Novel.test_pages g = Some 0 ->
  exists ev k,
    Novel._process_without_chapters g chars = Some (ev, Some k)
    /\ Novel.glyphs ev
       = (let rest := skipn (Z.to_nat (Novel.chars_to_skip g))
                            (Novel.visible g chars false) in
          match Novel.max_chars_to_process g with
          | Some m => firstn (Z.to_nat m) rest
          | None => rest
          end)
    /\ (forall c, In c (Novel.glyphs ev) ->
          Novel._should_skip_char g c = false /\ c <> ch_note_open).
Proof.
  intros HN H0 HZ.
  destruct (process_without_chapters_run g chars HN H0)
    as (ci & p & ev & k & _ & Ed & E & Hk & V & _).
  eexists _, k. split; [exact E|].
  cbn [Novel.glyphs].
  match goal with
  | |- ?a = ?b /\ _ =>
      assert (Hg : a = b);
        [|split; [exact Hg|];
          intros c Hin; rewrite Hg in Hin; cbv zeta in Hin;
          apply (visible_kept g chars false);
          destruct (Novel.max_chars_to_process g);
          [apply in_firstn in Hin|]; now apply in_skipn in Hin]
  end.
  assert (HT : forall q, Novel.test_limit g q = false).
  { intros q. unfold Novel.test_limit.
    destruct HZ as [-> | ->]; reflexivity. }
  rewrite (draw_pages_visible g chars _ HN H0 HT _ _ _ _ Hk Ed).
  cbn [Novel.char_index Novel.processed_chars]. rewrite V.
  unfold Novel.up_to. cbv zeta.
  destruct (Novel.max_chars_to_process g) as [m|]; [|reflexivity].
  now replace (m - 0) with m by lia.
Qed.

(** Pages of two cells, page 2 only: the third and the fourth visible
    character. *)
Lemma plain_mode_places_visible_text_witness :
  exists ev k,
    Novel._process_without_chapters
      (Novel.mkGenerator (fun _ => true) (fun _ _ => true) []
                         [(0, 0); (0, 0)]%Q 2 false 2 (Some 2) None)
      [65; ch_note_open; 88; ch_note_close; 66; ch_space; 67; 68; 69]%N
    = Some (ev, Some k)
    /\ Novel.glyphs ev = [67; 68]%N
    /\ (forall c, In c (Novel.glyphs ev) ->
          Novel._should_skip_char
            (Novel.mkGenerator (fun _ => true) (fun _ _ => true) []
                               [(0, 0); (0, 0)]%Q 2 false 2 (Some 2) None) c
          = false
          /\ c <> ch_note_open).
Proof.
  apply (plain_mode_places_visible_text
           (Novel.mkGenerator (fun _ => true) (fun _ _ => true) []
                              [(0, 0); (0, 0)]%Q 2 false 2 (Some 2) None)
           [65; ch_note_open; 88; ch_note_close; 66; ch_space; 67; 68; 69]%N).
  - reflexivity.
  - reflexivity.
  - left. reflexivity.
Defined.

Lemma process_without_chapters_limits (g : Novel.Generator)
      (chars : list char) :
  Novel.n_page_chars_num g = Z.of_nat (length (Novel.positions_left g)) ->
  0 < Novel.n_page_chars_num g ->
  exists ev k,
    Novel._process_without_chapters g chars = Some (ev, Some k)
    /\ (forall t, Novel.to_page g = Some t -> Novel.from_page g <= t ->
          Z.of_nat (length (Novel.pages_started ev))
          <= t - Novel.from_page g + 1
          /\ Z.of_nat (length (Novel.glyphs ev))
             <= (t - Novel.from_page g + 1) * Novel.n_page_chars_num g)
    /\ (forall z, Novel.test_pages g = Some z -> 0 < z ->
          Z.of_nat (length (Novel.pages_started ev)) <= z + 1
          /\ Z.of_nat (length (Novel.glyphs ev))
             <= z * Novel.n_page_chars_num g + 1).
Proof.
  intros HN H0.
  destruct (process_without_chapters_run g chars HN H0)
    as (ci & p & ev & k & _ & Ed & E & Hk & _ & (Hi & Hc & Hp) & _ & P & G).
  eexists _, k. split; [exact E|].
  cbn [Novel.pages_started Novel.glyphs length].
  destruct (draw_pages_limits g chars _ HN H0 _ _ _ _ Hk Ed) as [T M].
  cbn [Novel.page_num Novel.page_char_count Novel.processed_chars] in T, M.
  split.
  - intros t Et Ht.
    assert (Em : Novel.max_chars_to_process g
                 = Some ((t - Novel.from_page g + 1)
                         * Novel.n_page_chars_num g)).
    { unfold Novel.max_chars_to_process. rewrite Et.
      now replace (Novel.from_page g <=? t) with true
        by (symmetry; apply Z.leb_le; lia). }
    destruct (M _ Em ltac:(nia)) as [M1 M2]. split; nia.
  - intros z Ez Hz.
    destruct (T z Ez ltac:(lia) ltac:(lia)) as [T1 T2]. split; [lia|].
    destruct (Z.eq_dec (Novel.page_num k) z) as [Eq|Ne].
    + specialize (T2 Eq). nia.
    + nia.
Qed.

(** X26.  Plain mode for a generator whose page arguments passed the
    checks of [__init__] ([from_page] is the argument raised to 1 at
    least, [to_page] is not below it, [test_pages] is positive): with
    [to_page] the run opens at most [to_page - from_page + 1] pages
    and places at most that many times [page_chars_num] characters;
    with [test_pages = z] it opens at most [z + 1] pages and places at
    most [z * page_chars_num + 1] characters, because the limit is
    looked at before the page turn: the page after the last test page
    is opened and takes one character. *)
Theorem plain_mode_page_limits (g : Novel.Generator) (chars : list char)
        (from_arg : Z) (to_arg test_arg : option Z) :
  Novel.check_pages from_arg to_arg test_arg
  = Some (Novel.from_page g, Novel.to_page g, Novel.test_pages g) ->
  Novel.n_page_chars_num g = Z.of_nat (length (Novel.positions_left g)) ->
  0 < Novel.n_page_chars_num g ->
  Novel.from_page g = Z.max 1 from_arg
  /\ exists ev k,
       Novel._process_without_chapters g chars = Some (ev, Some k)
       /\ (forall t, Novel.to_page g = Some t ->
             Z.of_nat (length (Novel.pages_started ev))
             <= t - Novel.from_page g + 1
             /\ Z.of_nat (length (Novel.glyphs ev))
                <= (t - Novel.from_page g + 1) * Novel.n_page_chars_num g)
       /\ (forall z, Novel.test_pages g = Some z ->
             Z.of_nat (length (Novel.pages_started ev)) <= z + 1
             /\ Z.of_nat (length (Novel.glyphs ev))
                <= z * Novel.n_page_chars_num g + 1).
Proof.
  intros HC HN H0. unfold Novel.check_pages in HC. cbv zeta in HC.
  destruct (match to_arg with
            | Some t => t <? Z.max 1 from_arg
            | None => false
            end) eqn:Et; [discriminate|].
  destruct (match test_arg with
            | Some z => z <=? 0
            | None => false
            end) eqn:Ez; [discriminate|].
  injection HC as Hf Ht Hz. subst to_arg test_arg.
  split; [now symmetry|].
  destruct (process_without_chapters_limits g chars HN H0)
    as (ev & k & E & LT & LZ).
  exists ev, k. split; [exact E|]. split.
  - intros t Eq. apply (LT t Eq). rewrite Eq in Et.
    apply Z.ltb_ge in Et. lia.
  - intros z Eq. apply (LZ z Eq). rewrite Eq in Ez.
    apply Z.leb_gt in Ez. exact Ez.
Qed.

(** Pages of two cells, one test page, five letters. *)
Lemma plain_mode_page_limits_witness :
  1 = Z.max 1 0
  /\ exists ev k,
       Novel._process_without_chapters
         (Novel.mkGenerator (fun _ => true) (fun _ _ => true) []
                            [(0, 0); (0, 0)]%Q 2 false 1 (Some 4) (Some 1))
         [65; 66; 67; 68; 69]%N
       = Some (ev, Some k)
       /\ (forall t, Some 4 = Some t ->
             Z.of_nat (length (Novel.pages_started ev)) <= t - 1 + 1
             /\ Z.of_nat (length (Novel.glyphs ev)) <= (t - 1 + 1) * 2)
       /\ (forall z, Some 1 = Some z ->
             Z.of_nat (length (Novel.pages_started ev)) <= z + 1
             /\ Z.of_nat (length (Novel.glyphs ev)) <= z * 2 + 1).
Proof.
  apply (plain_mode_page_limits
           (Novel.mkGenerator (fun _ => true) (fun _ _ => true) []
                              [(0, 0); (0, 0)]%Q 2 false 1 (Some 4) (Some 1))
           [65; 66; 67; 68; 69]%N 0 (Some 4) (Some 1)).
  - reflexivity.
  - reflexivity.
  - reflexivity.
Defined.

(** In test mode the page after the last one is opened and takes one
    glyph: one test page of two cells on a text of five characters. *)
Example test_pages_overrun :
  Novel._process_without_chapters
    (Novel.mkGenerator (fun _ => true) (fun _ _ => true) []
                       [(0, 0); (0, 0)]%Q 2 false 1 None (Some 1))
    [65; 66; 67; 68; 69]%N
  = Some ([Novel.StartPage 1; Novel.DrawAt 65%N 0; Novel.DrawAt 66%N 1;
           Novel.ShowPage; Novel.StartPage 2; Novel.DrawAt 67%N 0],
          Some (Novel.mkCursor 3 3 1 1)).
Proof. reflexivity. Qed.

(** ** The chapter mode of the novel generator *)

Lemma titles_app (a b : list Novel.PageEvent) :
  Novel.titles (a ++ b) = Novel.titles a ++ Novel.titles b.
Proof.
  induction a as [|x a IH]; [reflexivity|].
  destruct x; cbn [app Novel.titles]; now rewrite IH.
Qed.

Lemma pages_from_length (p : Z) (k : nat) : length (pages_from p k) = k.
Proof. unfold pages_from. now rewrite length_map, length_seq. Qed.

Lemma positions_app (a b : list Novel.PageEvent) :
  Novel.positions (a ++ b) = Novel.positions a ++ Novel.positions b.
Proof.
  induction a as [|x a IH]; [reflexivity|].
  destruct x; cbn [app Novel.positions]; now rewrite IH.
Qed.

Lemma cells_from_turn (n start : Z) (m : nat) :
  0 < n -> n <= start ->
  Novel.cells_from n start m = Novel.cells_from n 0 m.
Proof.
  intros Hn Hs. unfold Novel.cells_from. apply map_ext. intros i.
  rewrite Z.min_r, Z.min_l by lia.
  replace (n + Z.of_nat i) with (Z.of_nat i + 1 * n) by lia.
  now rewrite Z.mod_add by lia.
Qed.

Lemma cells_from_S (n start : Z) (m : nat) :
  0 < n -> 0 <= start < n ->
  Novel.cells_from n start (S m) = start :: Novel.cells_from n (start + 1) m.
Proof.
  intros Hn Hs. unfold Novel.cells_from. cbn [seq map]. f_equal.
  - rewrite Z.min_l by lia. rewrite Z.add_0_r. apply Z.mod_small. lia.
  - rewrite <- seq_shift, map_map. apply map_ext. intros i.
    rewrite !Z.min_l by lia. f_equal. lia.
Qed.

(** The loop over one chapter ends without exception; it places the
    visible characters of the chapter and numbers the pages it opens
    on from the current one. *)
Lemma content_pages_spec (g : Novel.Generator) (chars : list char) :
  Novel.n_page_chars_num g = Z.of_nat (length (Novel.positions_left g)) ->
  0 < Novel.n_page_chars_num g ->
  forall (fuel : nat) (k : Novel.Cursor),
    0 <= Novel.char_index k <= Z.of_nat (length chars) ->
    0 <= Novel.page_char_count k ->
    Z.of_nat (length chars) - Novel.char_index k < Z.of_nat fuel ->
    exists ev k',
      Novel.content_pages g chars fuel k = Some (ev, Some k')
      /\ Novel.glyphs ev
         = Novel.visible g (skipn (Z.to_nat (Novel.char_index k)) chars) false
      /\ Novel.positions ev
         = Novel.cells_from (Novel.n_page_chars_num g)
             (Novel.page_char_count k) (length (Novel.glyphs ev))
      /\ Novel.titles ev = []
      /\ Novel.pages_started ev
         = pages_from (Novel.from_page g + Novel.page_num k)
                      (length (Novel.pages_started ev))
      /\ Novel.page_num k'
         = Novel.page_num k + Z.of_nat (length (Novel.pages_started ev))
      /\ Novel.processed_chars k'
         = Novel.processed_chars k + Z.of_nat (length (Novel.glyphs ev)).
Proof.
  intros HN H0. induction fuel as [|fuel IH]; intros k Hi Hc Hf; [lia|].
  cbn [Novel.content_pages].
  destruct (Z.ltb_spec (Novel.char_index k) (Z.of_nat (length chars)))
    as [Li|Li].
  2:{ exists [], k. rewrite skipn_end by lia. cbn. repeat split; lia. }
  cbv zeta.
  destruct (fetch_spec g chars (Novel.char_index k) ltac:(lia))
    as (j & Hj & [[Ef Ev]|(c & Ef & Ev)]); rewrite Ef, Ev;
    destruct (Z.leb_spec (Novel.n_page_chars_num g)
                         (Novel.page_char_count k)) as [L|L].
  - destruct (IH (Novel.mkCursor j (Novel.processed_chars k)
                                 (Novel.page_num k + 1) 0))
      as (ev & k' & E & G & Po & T & P & Pn & Pc); [cbn; lia|cbn; lia|cbn; lia|].
    rewrite E.
    cbn [Novel.char_index Novel.page_num Novel.processed_chars
           Novel.page_char_count] in G, Po, P, Pn, Pc.
    eexists _, k'. split; [reflexivity|].
    cbn [app Novel.glyphs Novel.positions Novel.titles Novel.pages_started
           length].
    split; [exact G|]. split; [now rewrite cells_from_turn by lia|].
    split; [exact T|]. rewrite pages_from_S.
    split; [|split; lia]. f_equal; [lia|].
    rewrite P at 1. f_equal. lia.
  - destruct (IH (Novel.mkCursor j (Novel.processed_chars k)
                                 (Novel.page_num k)
                                 (Novel.page_char_count k)))
      as (ev & k' & E & G & Po & T & P & Pn & Pc); [cbn; lia|cbn; lia|cbn; lia|].
    rewrite E.
    cbn [Novel.char_index Novel.page_num Novel.processed_chars
           Novel.page_char_count] in G, Po, P, Pn, Pc.
    eexists _, k'. split; [reflexivity|]. cbn [app].
    split; [exact G|]. split; [exact Po|]. split; [exact T|].
    split; [exact P|]. split; lia.
  - replace (0 <? Z.of_nat (length (Novel.positions_left g))) with true
      by (symmetry; apply Z.ltb_lt; lia).
    destruct (IH (Novel.mkCursor j (Novel.processed_chars k + 1)
                                 (Novel.page_num k + 1) (0 + 1)))
      as (ev & k' & E & G & Po & T & P & Pn & Pc); [cbn; lia|cbn; lia|cbn; lia|].
    rewrite E.
    cbn [Novel.char_index Novel.page_num Novel.processed_chars
           Novel.page_char_count] in G, Po, P, Pn, Pc.
    eexists _, k'. split; [reflexivity|].
    cbn [app Novel.glyphs Novel.positions Novel.titles Novel.pages_started
           length].
    split; [now rewrite G|].
    split; [rewrite cells_from_turn, cells_from_S by lia; now rewrite Po|].
    split; [exact T|]. rewrite pages_from_S.
    split; [|split; lia]. f_equal; [lia|].
    rewrite P at 1. f_equal. lia.
  - replace (Novel.page_char_count k
             <? Z.of_nat (length (Novel.positions_left g))) with true
      by (symmetry; apply Z.ltb_lt; lia).
    destruct (IH (Novel.mkCursor j (Novel.processed_chars k + 1)
                                 (Novel.page_num k)
                                 (Novel.page_char_count k + 1)))
      as (ev & k' & E & G & Po & T & P & Pn & Pc); [cbn; lia|cbn; lia|cbn; lia|].
    rewrite E.
    cbn [Novel.char_index Novel.page_num Novel.processed_chars
           Novel.page_char_count] in G, Po, P, Pn, Pc.
    eexists _, k'. split; [reflexivity|].
    cbn [app Novel.glyphs Novel.positions Novel.titles Novel.pages_started
           length].
    split; [now rewrite G|].
    split; [rewrite cells_from_S by lia; now rewrite Po|].
    split; [exact T|]. split; [exact P|]. split; lia.
Qed.

(** The loop over the chapters. *)
Lemma chapters_loop_spec (g : Novel.Generator) (row_num : Z) :
  Novel.n_page_chars_num g = Z.of_nat (length (Novel.positions_left g)) ->
  0 < Novel.n_page_chars_num g ->
  0 <= row_num ->
  forall chapters pages total,
    exists ev pn tot (n : nat),
      Novel.chapters_loop g row_num chapters pages total
      = Some (ev, Some (pn, tot))
      /\ (n <= length chapters)%nat
      /\ Novel.titles ev = map fst (firstn n chapters)
      /\ Novel.glyphs ev
         = flat_map (fun ch => Novel.visible g (snd ch) false)
                    (firstn n chapters)
      /\ Novel.positions ev
         = flat_map (fun ch =>
                       Novel.cells_from (Novel.n_page_chars_num g) row_num
                         (length (Novel.visible g (snd ch) false)))
                    (firstn n chapters)
      /\ Novel.pages_started ev
         = pages_from (Novel.from_page g + pages - 1)
                      (length (Novel.pages_started ev))
      /\ tot = total + Z.of_nat (length (Novel.glyphs ev))
      /\ ((forall p, Novel.test_limit g p = false) -> n = length chapters)
      /\ (forall z, Novel.test_pages g = Some z -> 0 < z ->
            Z.of_nat n <= Z.max 0 (z - pages)).
Proof.
  intros HN H0 HR. induction chapters as [|[title content] rest IH];
    intros pages total.
  { exists [], pages, total, 0%nat.
    split; [reflexivity|]. split; [cbn; lia|].
    split; [reflexivity|]. split; [reflexivity|]. split; [reflexivity|].
    split; [reflexivity|].
    split; [cbn; lia|]. split; [reflexivity|]. intros z Ez Hz. lia. }
  cbn [Novel.chapters_loop].
  destruct (Novel.test_limit g pages) eqn:ET.
  { exists [], pages, total, 0%nat.
    split; [reflexivity|]. split; [cbn; lia|].
    split; [reflexivity|]. split; [reflexivity|]. split; [reflexivity|].
    split; [reflexivity|].
    split; [cbn; lia|]. split.
    - intros HT. rewrite HT in ET. discriminate.
    - intros z Ez Hz. lia. }
  assert (HT : forall z, Novel.test_pages g = Some z -> 0 < z -> pages < z).
  { intros z Ez Hz. unfold Novel.test_limit in ET. rewrite Ez in ET.
    replace (z =? 0) with false in ET by (symmetry; apply Z.eqb_neq; lia).
    cbn [negb andb] in ET. apply Z.leb_gt in ET. exact ET. }
  destruct (content_pages_spec g content HN H0 (S (length content))
              (Novel.mkCursor 0 total pages row_num))
    as (ev & k & E & G & Po & T & P & Pn & Pc);
    [cbn; lia|cbn; lia|cbn; lia|].
  cbn [Novel.char_index Novel.page_num Novel.processed_chars
         Novel.page_char_count] in G, Po, P, Pn, Pc.
  rewrite E. cbn [skipn Z.to_nat] in G. rewrite G in Po.
  assert (P0 : Novel.pages_started
                 ([Novel.StartPage (Novel.from_page g + pages);
                   Novel.DrawTitle title] ++ ev)
               = pages_from (Novel.from_page g + pages - 1)
                   (S (length (Novel.pages_started ev)))).
  { cbn [app Novel.pages_started]. rewrite pages_from_S.
    replace (Novel.from_page g + pages - 1 + 1)
      with (Novel.from_page g + pages) by lia.
    now rewrite <- P. }
  destruct rest as [|next rest].
  - exists ([Novel.StartPage (Novel.from_page g + pages);
             Novel.DrawTitle title] ++ ev),
           (Novel.page_num k), (Novel.processed_chars k), 1%nat.
    split; [reflexivity|]. split; [cbn; lia|].
    split; [cbn [app Novel.titles firstn map fst]; now rewrite T|].
    split; [cbn [app Novel.glyphs firstn flat_map snd];
            now rewrite G, app_nil_r|].
    split; [cbn [app Novel.positions firstn flat_map snd];
            now rewrite Po, app_nil_r|].
    split; [now rewrite P0, pages_from_length|].
    split; [cbn [app Novel.glyphs]; lia|].
    split; [reflexivity|].
    intros z Ez Hz. specialize (HT z Ez Hz). lia.
  - destruct (IH (Novel.page_num k + 1) (Novel.processed_chars k))
      as (ev' & pn & tot & n & E' & Ln & T' & G' & Po' & P' & Tot & Off & Lim).
    rewrite E'.
    exists ([Novel.StartPage (Novel.from_page g + pages);
             Novel.DrawTitle title] ++ ev ++ Novel.ShowPage :: ev'),
           pn, tot, (S n).
    split; [reflexivity|]. split; [cbn [length] in *; lia|].
    split.
    { cbn [app Novel.titles firstn map fst]. f_equal.
      rewrite titles_app, T. cbn [app Novel.titles]. exact T'. }
    split.
    { cbn [app Novel.glyphs firstn flat_map snd].
      rewrite glyphs_app, G. cbn [Novel.glyphs]. now rewrite G'. }
    split.
    { cbn [app Novel.positions firstn flat_map snd].
      rewrite positions_app, Po. cbn [Novel.positions]. now rewrite Po'. }
    split.
    { rewrite app_assoc.
      rewrite pages_started_app, length_app, P0, pages_from_length,
        pages_from_app.
      cbn [Novel.pages_started]. f_equal.
      rewrite P' at 1. f_equal. lia. }
    split.
    { cbn [app Novel.glyphs]. rewrite glyphs_app, length_app.
      cbn [Novel.glyphs]. lia. }
    split.
    { intros Hoff. cbn [length]. f_equal. exact (Off Hoff). }
    intros z Ez Hz. specialize (HT z Ez Hz). specialize (Lim z Ez Hz). lia.
Qed.

(** X27.  [_process_with_chapters] on the chapters that
    [_parse_chapters] has found, for a grid as above and a row count
    that is not negative: the loops end and raise no exception.  The
    chapters are taken in order; each one opens a page, on which its
    title is drawn, and its visible characters (as in the plain mode)
    are placed from the position [row_num] on: the one of index [i]
    stands at [(min row_num page_chars_num + i) mod page_chars_num] of
    its page.  The pages opened are [from_page], [from_page + 1], ...
    in order.  Neither [from_page] nor [to_page] leaves out a
    character: outside the test mode every chapter is placed whole;
    in test mode with [z] pages at most [z] chapters are begun, and a
    chapter that was begun is placed whole. *)
Theorem chapter_mode_places_every_chapter (g : Novel.Generator)
        (row_num : Z) (chapters : list (list char * list char)) :
  Novel.n_page_chars_num g = Z.of_nat (length (Novel.positions_left g)) ->
  0 < Novel.n_page_chars_num g ->
  0 <= row_num ->
  exists ev pn tot (n : nat),
    Novel._process_with_chapters g row_num chapters
    = Some (ev, Some (pn, tot))
    /\ (n <= length chapters)%nat
    /\ Novel.titles ev = map fst (firstn n chapters)
    /\ Novel.glyphs ev
       = flat_map (fun ch => Novel.visible g (snd ch) false)
                  (firstn n chapters)
    /\ Novel.positions ev
       = flat_map (fun ch =>
                     Novel.cells_from (Novel.n_page_chars_num g) row_num
                       (length (Novel.visible g (snd ch) false)))
                  (firstn n chapters)
    /\ Novel.pages_started ev
       = pages_from (Novel.from_page g - 1)
                    (length (Novel.pages_started ev))
    /\ (Novel.test_pages g = None \/ Novel.test_pages g = Some 0 ->
        n = length chapters)
    /\ (forall z, Novel.test_pages g = Some z -> 0 < z -> Z.of_nat n <= z).
Proof.
  intros HN H0 HR. unfold Novel._process_with_chapters.
  destruct (chapters_loop_spec g row_num HN H0 HR chapters 0 0)
    as (ev & pn & tot & n & E & Ln & T & G & Po & P & _ & Off & Lim).
  exists ev, pn, tot, n. split; [exact E|]. split; [exact Ln|].
  split; [exact T|]. split; [exact G|]. split; [exact Po|].
  split.
  { now replace (Novel.from_page g + 0 - 1) with (Novel.from_page g - 1)
      in P by lia. }
  split.
  - intros HZ. apply Off. intros p. unfold Novel.test_limit.
    destruct HZ as [-> | ->]; reflexivity.
  - intros z Ez Hz. specialize (Lim z Ez Hz). lia.
Qed.

(** Two chapters on pages of two columns of two cells. *)
Lemma chapter_mode_places_every_chapter_witness :
  exists ev pn tot (n : nat),
    Novel._process_with_chapters
      (Novel.mkGenerator (fun _ => true) (fun _ _ => true) []
                         [(0, 0); (0, 0); (0, 0); (0, 0)]%Q 4 false 3
                         (Some 3) None)
      2 [([49], [65; 66; 67; ch_space; 68]); ([50], [69])]%N
    = Some (ev, Some (pn, tot))
    /\ (n <= 2)%nat
    /\ Novel.titles ev
       = map fst (firstn n [([49], [65; 66; 67; ch_space; 68]);
                            ([50], [69])]%N)
    /\ Novel.glyphs ev
       = flat_map (fun ch =>
                     Novel.visible
                       (Novel.mkGenerator (fun _ => true) (fun _ _ => true)
                          [] [(0, 0); (0, 0); (0, 0); (0, 0)]%Q 4 false 3
                          (Some 3) None) (snd ch) false)
                  (firstn n [([49], [65; 66; 67; ch_space; 68]);
                             ([50], [69])]%N)
    /\ Novel.positions ev
       = flat_map (fun ch =>
                     Novel.cells_from 4 2
                       (length
                          (Novel.visible
                             (Novel.mkGenerator (fun _ => true)
                                (fun _ _ => true) []
                                [(0, 0); (0, 0); (0, 0); (0, 0)]%Q 4 false 3
                                (Some 3) None) (snd ch) false)))
                  (firstn n [([49], [65; 66; 67; ch_space; 68]);
                             ([50], [69])]%N)
    /\ Novel.pages_started ev
       = pages_from (3 - 1) (length (Novel.pages_started ev))
    /\ (@None Z = None \/ @None Z = Some 0 -> n = 2%nat)
    /\ (forall z, None = Some z -> 0 < z -> Z.of_nat n <= z).
Proof.
  apply (chapter_mode_places_every_chapter
           (Novel.mkGenerator (fun _ => true) (fun _ _ => true) []
                              [(0, 0); (0, 0); (0, 0); (0, 0)]%Q 4 false 3
                              (Some 3) None)
           2 [([49], [65; 66; 67; ch_space; 68]); ([50], [69])]%N).
  - reflexivity.
  - reflexivity.
  - lia.
Defined.

(** Two chapters on pages of two columns of two cells, entered as page
    3 with a last page 3: the content starts in the second column, the
    first chapter runs on to page 4 and the second one opens page 5. *)
Example chapter_mode_sample :
  Novel._process_with_chapters
    (Novel.mkGenerator (fun _ => true) (fun _ _ => true) []
                       [(0, 0); (0, 0); (0, 0); (0, 0)]%Q 4 false 3
                       (Some 3) None)
    2 [([49], [65; 66; 67; ch_space; 68]); ([50], [69])]%N
  = Some ([Novel.StartPage 3; Novel.DrawTitle [49%N];
           Novel.DrawAt 65%N 2; Novel.DrawAt 66%N 3;
           Novel.ShowPage; Novel.StartPage 4;
           Novel.DrawAt 67%N 0; Novel.DrawAt 68%N 1;
           Novel.ShowPage;
           Novel.StartPage 5; Novel.DrawTitle [50%N]; Novel.DrawAt 69%N 2],
          Some (2, 5)).
Proof. reflexivity. Qed.

(** ** Punctuation of the novel generator *)

Lemma contains_tail (p s : list char) (c : char) :
  Config.contains p (c :: s) = false -> Config.contains p s = false.
Proof.
  intros H. cbn [Config.contains] in H.
  apply orb_false_elim in H. apply H.
Qed.

(** One pass of the [while] loop shortens a text that holds two
    periods side by side. *)
Lemma replace_periods_length : forall (n : nat) (s : list char),
  (length s <= n)%nat ->
  (length (Punct.replace_from 0 [ch_period; ch_period] [ch_period] s)
   <= length s)%nat
  /\ (Config.contains [ch_period; ch_period] s = true ->
      (length (Punct.replace_from 0 [ch_period; ch_period] [ch_period] s)
       < length s)%nat).
Proof.
  induction n as [|n IH]; intros s L.
  - destruct s; [|cbn in L; lia]. split; [cbn; lia|discriminate].
  - destruct s as [|c rest]; [split; [cbn; lia|discriminate]|].
    cbn [length] in L.
    cbn [Punct.replace_from Config.contains].
    destruct (Config.starts_with [ch_period; ch_period] (c :: rest)) eqn:E.
    + destruct rest as [|d rest'].
      { cbn in E. rewrite andb_false_r in E. discriminate. }
      cbn [length Nat.sub app Punct.replace_from].
      destruct (IH rest' ltac:(cbn [length] in L; lia)) as [I1 _].
      split; [lia|intros _; lia].
    + cbn [length orb].
      destruct (IH rest ltac:(lia)) as [I1 I2].
      split; [lia|]. intros H. specialize (I2 H). lia.
Qed.

(** The [while] loop ends, on a text without two periods side by
    side. *)
Lemma collapse_spec : forall (fuel : nat) (text : list char),
  (length text < fuel)%nat ->
  exists r,
    Punct.collapse fuel text = Some r
    /\ Config.contains [ch_period; ch_period] r = false.
Proof.
  induction fuel as [|fuel IH]; intros text L; [lia|].
  cbn [Punct.collapse].
  destruct (Config.contains [ch_period; ch_period] text) eqn:E.
  - apply IH. unfold Punct.replace.
    destruct (replace_periods_length (length text) text (le_n _)) as [_ I].
    specialize (I E). lia.
  - exists text. split; [reflexivity|exact E].
Qed.

Lemma lstrip_period_spec (s : list char) :
  Config.contains [ch_period; ch_period] s = false ->
  Config.contains [ch_period; ch_period] (Punct.lstrip_period s) = false
  /\ hd_error (Punct.lstrip_period s) <> Some ch_period.
Proof.
  induction s as [|c rest IH]; intros H.
  - split; [reflexivity|discriminate].
  - cbn [Punct.lstrip_period].
    destruct (N.eqb_spec c ch_period) as [->|Hc].
    + apply IH. exact (contains_tail _ _ _ H).
    + split; [exact H|]. cbn [hd_error]. congruence.
Qed.

Lemma items_str (v : option Punct.Value) :
  Punct.str_or_absent v = true -> exists l, Punct.items v = Some l.
Proof.
  destruct v as [[z|q|b|s]|]; try discriminate; intros _; cbn.
  - destruct s; eexists; reflexivity.
  - eexists. reflexivity.
Qed.

Lemma items_fault (v : Punct.Value) :
  Punct.truthy v = true -> Punct.str_or_absent (Some v) = false ->
  Punct.items (Some v) = None.
Proof.
  intros T S. unfold Punct.items. rewrite T.
  destruct v; [reflexivity..|discriminate].
Qed.

(** The [try] block ends; with [if_onlyperiod] equal to 1 its result
    holds no two periods side by side and no period in front. *)
Lemma process_spec (cfg : Punct.Config) (text : list char) :
  exists r,
    Punct.process cfg text = Some r
    /\ (forall t, r = Some t ->
          Punct.is_one (Punct.if_onlyperiod cfg) = true ->
          Config.contains [ch_period; ch_period] t = false
          /\ hd_error t <> Some ch_period).
Proof.
  unfold Punct.process.
  destruct (Punct.items (Punct.exp_replace_comma cfg)) as [l1|];
    [|exists None; split; [reflexivity|discriminate]].
  destruct (Punct.items (Punct.exp_replace_number cfg)) as [l2|];
    [|exists None; split; [reflexivity|discriminate]].
  destruct (Punct.items (Punct.exp_delete_comma cfg)) as [l3|];
    [|exists None; split; [reflexivity|discriminate]].
  cbv zeta.
  destruct (if Punct.is_one (Punct.if_nocomma cfg)
            then Punct.items (Punct.exp_nocomma cfg) else Some [])
    as [l4|]; [|exists None; split; [reflexivity|discriminate]].
  destruct (Punct.is_one (Punct.if_onlyperiod cfg)).
  2:{ eexists. split; [reflexivity|]. discriminate. }
  destruct (Punct.items (Punct.exp_onlyperiod cfg)) as [l5|];
    [|exists None; split; [reflexivity|discriminate]].
  match goal with
  | |- context [Punct.collapse (S (length ?t)) ?t] =>
      destruct (collapse_spec (S (length t)) t (Nat.lt_succ_diag_r _))
        as (r & E & C)
  end.
  rewrite E. eexists. split; [reflexivity|].
  intros t Et _. injection Et as <-. apply lstrip_period_spec. exact C.
Qed.

(** With values that are strings or missing the [try] block raises no
    exception. *)
Lemma process_no_fault (cfg : Punct.Config) (text : list char) :
  Punct.is_one (Punct.if_onlyperiod cfg) = true ->
  forallb Punct.str_or_absent
    [Punct.exp_replace_comma cfg; Punct.exp_replace_number cfg;
     Punct.exp_delete_comma cfg; Punct.exp_nocomma cfg;
     Punct.exp_onlyperiod cfg] = true ->
  Punct.process cfg text <> Some None.
Proof.
  intros H1 HS E. cbn [forallb] in HS.
  repeat (apply andb_prop in HS; destruct HS as [? HS]).
  unfold Punct.process in E.
  destruct (items_str _ H) as [l1 E1]. rewrite E1 in E.
  destruct (items_str _ H0) as [l2 E2]. rewrite E2 in E.
  destruct (items_str _ H2) as [l3 E3]. rewrite E3 in E.
  destruct (items_str _ H3) as [l4 E4]. rewrite E4 in E.
  destruct (items_str _ H4) as [l5 E5]. rewrite E5, H1 in E.
  cbv zeta in E.
  destruct (Punct.is_one (Punct.if_nocomma cfg));
    match type of E with
    | context [Punct.collapse (S (length ?t)) ?t] =>
        destruct (collapse_spec (S (length t)) t (Nat.lt_succ_diag_r _))
          as (r & Ec & _); rewrite Ec in E; discriminate
    end.
Qed.

Lemma process_punctuation_strings (cfg : Punct.Config) (text : list char) :
  exists r,
    Punct._process_punctuation cfg text = Some r
    /\ (Punct.is_one (Punct.if_onlyperiod cfg) = true ->
        forallb Punct.str_or_absent
          [Punct.exp_replace_comma cfg; Punct.exp_replace_number cfg;
           Punct.exp_delete_comma cfg; Punct.exp_nocomma cfg;
           Punct.exp_onlyperiod cfg] = true ->
        Config.contains [ch_period; ch_period] r = false
        /\ hd_error r <> Some ch_period).
Proof.
  unfold Punct._process_punctuation.
  destruct text as [|c rest].
  { exists []. split; [reflexivity|]. intros _ _.
    split; [reflexivity|discriminate]. }
  destruct (process_spec cfg (c :: rest)) as (r & E & Hr).
  rewrite E. destruct r as [t|].
  - exists t. split; [reflexivity|]. intros H1 _. now apply Hr.
  - exists (c :: rest). split; [reflexivity|]. intros H1 HS.
    exfalso. exact (process_no_fault cfg (c :: rest) H1 HS E).
Qed.

(** X28.  [_process_punctuation] ends for every text and every
    configuration.  With [if_onlyperiod] equal to 1 its result is
    either the text as it came (an exception was caught) or it holds
    no two full stops U+3002 side by side and none in front; the
    second holds whenever the five [exp_...] values are strings or
    missing.  A truthy value of [exp_replace_comma],
    [exp_replace_number] or [exp_delete_comma] that is no string (the
    loader turns a value of digits into a number) lets the function
    return the text unchanged, whatever the other entries say. *)
Theorem punctuation_periods_normalised (cfg : Punct.Config)
        (text : list char) :
  exists r,
    Punct._process_punctuation cfg text = Some r
    /\ (Punct.is_one (Punct.if_onlyperiod cfg) = true ->
        r = text
        \/ (Config.contains [ch_period; ch_period] r = false
            /\ hd_error r <> Some ch_period))
    /\ (Punct.is_one (Punct.if_onlyperiod cfg) = true ->
        forallb Punct.str_or_absent
          [Punct.exp_replace_comma cfg; Punct.exp_replace_number cfg;
           Punct.exp_delete_comma cfg; Punct.exp_nocomma cfg;
           Punct.exp_onlyperiod cfg] = true ->
        Config.contains [ch_period; ch_period] r = false
        /\ hd_error r <> Some ch_period)
    /\ (forall v,
          In (Some v) [Punct.exp_replace_comma cfg;
                       Punct.exp_replace_number cfg;
                       Punct.exp_delete_comma cfg] ->
          Punct.truthy v = true ->
          Punct.str_or_absent (Some v) = false ->
          r = text).
Proof.
  unfold Punct._process_punctuation.
  destruct text as [|c rest].
  { exists []. split; [reflexivity|]. split; [now left|].
    split; [|reflexivity]. intros _ _. split; [reflexivity|discriminate]. }
  destruct (process_spec cfg (c :: rest)) as (r & E & Hr).
  rewrite E. destruct r as [t|].
  - exists t. split; [reflexivity|].
    split; [intros H1; right; now apply Hr|].
    split; [intros H1 _; now apply Hr|].
    intros v Hin T S. exfalso.
    pose proof (items_fault v T S) as F.
    unfold Punct.process in E.
    destruct Hin as [Hv|[Hv|[Hv|[]]]]; rewrite Hv, ?F in E.
    + discriminate.
    + destruct (Punct.items (Punct.exp_replace_comma cfg)); discriminate.
    + destruct (Punct.items (Punct.exp_replace_comma cfg));
        [|discriminate].
      destruct (Punct.items (Punct.exp_replace_number cfg)); discriminate.
  - exists (c :: rest). split; [reflexivity|].
    split; [now left|]. split; [|reflexivity].
    intros H1 HS. exfalso.
    exact (process_no_fault cfg (c :: rest) H1 HS E).
Qed.

(** ** The text loaded by the novel generator *)

Lemma replace_char_map (o n : char) (s : list char) :
  Punct.replace [o] [n] s = map (fun x => if N.eqb o x then n else x) s.
Proof.
  unfold Punct.replace. induction s as [|c rest IH]; [reflexivity|].
  cbn [Punct.replace_from Config.starts_with map length Nat.sub app].
  destruct (N.eqb o c).
  - destruct rest; cbn [andb Config.starts_with]; cbn [app]; now rewrite IH.
  - cbn [andb]. now rewrite IH.
Qed.

Lemma no_periods_app (a b : list char) :
  Config.contains [ch_period; ch_period] a = false ->
  Config.contains [ch_period; ch_period] b = false ->
  hd_error b <> Some ch_period ->
  Config.contains [ch_period; ch_period] (a ++ b) = false.
Proof.
  intros Ha Hb Hh. induction a as [|c a IH]; [exact Hb|].
  pose proof (contains_tail _ _ _ Ha) as Ha'.
  specialize (IH Ha').
  cbn [app Config.contains]. rewrite IH, orb_false_r.
  cbn [Config.contains] in Ha. apply orb_false_elim in Ha.
  destruct Ha as [Hs _]. cbn [Config.starts_with] in *.
  destruct (N.eqb_spec ch_period c) as [<-|Hc]; [|reflexivity].
  cbn [andb] in *. destruct a as [|d a].
  - cbn [app]. destruct b as [|e b]; [reflexivity|].
    cbn [hd_error] in Hh.
    destruct (N.eqb_spec ch_period e) as [<-|]; [congruence|reflexivity].
  - exact Hs.
Qed.

Lemma no_periods_map (f : char -> char) (s : list char) :
  (forall x, f x = ch_period -> x = ch_period) ->
  Config.contains [ch_period; ch_period] s = false ->
  Config.contains [ch_period; ch_period] (map f s) = false.
Proof.
  intros Hf. induction s as [|c s IH]; intros H; [exact H|].
  pose proof (contains_tail _ _ _ H) as H'. specialize (IH H').
  cbn [map Config.contains]. rewrite IH, orb_false_r.
  cbn [Config.contains] in H. apply orb_false_elim in H.
  destruct H as [Hs _]. cbn [Config.starts_with] in *.
  destruct (N.eqb_spec ch_period (f c)) as [E|]; [|reflexivity].
  rewrite (Hf c (eq_sym E)) in Hs. rewrite N.eqb_refl in Hs.
  cbn [andb] in *. destruct s as [|d s]; [reflexivity|].
  cbn [map]. destruct (N.eqb_spec ch_period (f d)) as [E'|]; [|reflexivity].
  rewrite (Hf d (eq_sym E')) in Hs. now rewrite N.eqb_refl in Hs.
Qed.

Lemma at_to_space_spec (t : list char) :
  ~ In ch_at (Punct.replace [ch_at] [ch_space] t)
  /\ (Config.contains [ch_period; ch_period] t = false ->
      Config.contains [ch_period; ch_period]
        (Punct.replace [ch_at] [ch_space] t) = false)
  /\ (hd_error t <> Some ch_period ->
      hd_error (Punct.replace [ch_at] [ch_space] t) <> Some ch_period).
Proof.
  rewrite replace_char_map. split; [|split].
  - intros H. apply in_map_iff in H. destruct H as (x & E & _).
    revert E.
    destruct (N.eqb_spec ch_at x) as [Hx|Hx];
      [unfold ch_space, ch_at; discriminate|congruence].
  - apply no_periods_map. intros x.
    destruct (N.eqb_spec ch_at x);
      [unfold ch_space, ch_period; discriminate|trivial].
  - destruct t as [|c t]; [trivial|]. cbn [map hd_error].
    destruct (N.eqb_spec ch_at c); intros H E;
      [unfold ch_space, ch_period in E; discriminate E|exact (H E)].
Qed.

Lemma load_lines_spec (cfg : Punct.Config) : forall lines acc,
  exists r,
    Punct.load_lines cfg lines acc = Some r
    /\ (~ In ch_at acc -> ~ In ch_at r)
    /\ (Punct.is_one (Punct.if_onlyperiod cfg) = true ->
        forallb Punct.str_or_absent
          [Punct.exp_replace_comma cfg; Punct.exp_replace_number cfg;
           Punct.exp_delete_comma cfg; Punct.exp_nocomma cfg;
           Punct.exp_onlyperiod cfg] = true ->
        Config.contains [ch_period; ch_period] acc = false ->
        hd_error acc <> Some ch_period ->
        Config.contains [ch_period; ch_period] r = false
        /\ hd_error r <> Some ch_period).
Proof.
  induction lines as [|line rest IH]; intros acc.
  { exists acc. split; [reflexivity|]. split; [trivial|]. now intros. }
  cbn [Punct.load_lines].
  destruct (Config.strip line) as [|c s] eqn:Es.
  - destruct (IH (acc ++ [Novel.ch_newline])) as (r & E & HA & HP).
    exists r. split; [exact E|]. split.
    + intros Hacc. apply HA. intros Hin. apply in_app_or in Hin.
      destruct Hin as [Hin|[Hin|[]]]; [now apply Hacc|discriminate].
    + intros H1 HS Hc Hh. apply (HP H1 HS).
      * apply no_periods_app; [exact Hc|reflexivity|discriminate].
      * destruct acc; [discriminate|exact Hh].
  - destruct (process_punctuation_strings cfg (c :: s))
      as (t & Et & Ht).
    rewrite Et.
    destruct (at_to_space_spec t) as (A1 & A2 & A3).
    destruct (IH (acc ++ Punct.replace [ch_at] [ch_space] t))
      as (r & E & HA & HP).
    exists r. split; [exact E|]. split.
    + intros Hacc. apply HA. intros Hin. apply in_app_or in Hin.
      destruct Hin as [Hin|Hin]; [now apply Hacc|now apply A1].
    + intros H1 HS Hc Hh. destruct (Ht H1 HS) as [T1 T2].
      apply (HP H1 HS).
      * apply no_periods_app; [exact Hc|now apply A2|now apply A3].
      * destruct acc as [|a acc]; [now apply A3|exact Hh].
Qed.

(** X29.  [load_texts] of [vrainNovel.py] ends for every content; the
    text it returns holds no ['@'] (each one has become a space, which
    the page loops pass over).  With [if_onlyperiod] equal to 1 and
    [exp_...] values that are strings or missing, the text holds no two
    full stops side by side, also where two lines were joined, and
    does not begin with one. *)
Theorem loaded_text_periods_and_at (cfg : Punct.Config)
        (raw_content : list char) :
  exists r,
    Punct.load_texts cfg raw_content = Some r
    /\ ~ In ch_at r
    /\ (Punct.is_one (Punct.if_onlyperiod cfg) = true ->
        forallb Punct.str_or_absent
          [Punct.exp_replace_comma cfg; Punct.exp_replace_number cfg;
           Punct.exp_delete_comma cfg; Punct.exp_nocomma cfg;
           Punct.exp_onlyperiod cfg] = true ->
        Config.contains [ch_period; ch_period] r = false
        /\ hd_error r <> Some ch_period).
Proof.
  unfold Punct.load_texts.
  destruct (load_lines_spec cfg (Punct.split_on Novel.ch_newline raw_content)
              []) as (r & E & HA & HP).
  exists r. split; [exact E|]. split; [apply HA; intros []|].
  intros H1 HS. apply (HP H1 HS); [reflexivity|discriminate].
Qed.
